(* ===== verification/_CoqProject ===== *)
-Q . S2P
Prelude.v
RingBuffer.v
Frame.v
Base64.v
Sha1.v
Vocabulary.v
Callable.v
FixedVector.v
ObjectPool.v
Text.v
Numbers.v
Connection.v
Fixes.v
ConnectionApi.v
ConnectionInv.v
ConnectionFrames.v
Handshake.v
ConnectionIo.v
ConnectionProtocol.v
ConnectionSend.v
ConnectionStream.v
Client.v
ClientHandshake.v
Sockets.v
Responder.v
Double.v
Percentiles.v
PerfServer.v
Benchmark.v
Server.v
Shared.v
SharedOwn.v
Pointers.v
SharedServer.v
Listener.v
Broadcast.v
ServerProofs.v
SharedRefines.v
ConnectionFlush.v
BroadcastRun.v
BroadcastOps.v
BroadcastServes.v
PerfRun.v
Programs.v
