(* ===== verification/Prelude.v ===== *)
(** * EWSS: an embedded WebSocket server, verified

    The repository is one header, [src/include/ewss.hpp], with examples.  A
    [Server] runs a [poll] loop over at most 64 [Connection]s; a connection
    owns a receive and a transmit [RingBuffer], a pointer to the table of
    its protocol state, and callbacks; [ws] encodes and parses frame
    headers; [SHA1] and [Base64] compute the accept key of the handshake;
    [FixedVector] holds the connections; [ObjectPool], [expected],
    [optional], [FixedString], [FixedFunction], [function_ref] and
    [ScopeGuard] are the embedded vocabulary.  The examples are an echo, a
    broadcast and a performance server and a benchmark with its own client.

    ** Data flow
    [Server::run] polls, [handle_connection_io] calls [handle_read], which
    lets the kernel write into the receive ring and calls the [on_data] of
    the current state ([parse_handshake], [parse_frames], ...); parsers and
    the user API push answers into the transmit ring, and [handle_write] or
    [handle_write_vectored] drains it.  Callbacks run synchronously inside
    these calls and may call the API again.

    ** Files (all lines are of [ewss.hpp] unless said otherwise)
    - [Prelude]: machine integers ([u8] .. [u64], [i32] wrap explicitly),
      byte strings, the outcome type [Res] ([Ok], [Undefined] for undefined
      behaviour, [OutOfFuel] for a loop that was cut), tactics and hints.
    - [RingBuffer], Module [Ring]: class [RingBuffer] (796-900); [QueueSpec]
      is the abstract bounded queue.
    - [Frame], Module [Ws]: namespace [ws] (630-707) and [unmask_payload].
    - [Base64] (478-540); [Sha1] (546-624), with Module [Fips], the standard.
    - [Vocabulary]: [ErrorCode], [expected], [optional], [FixedString];
      [Callable]: [FixedFunction], [function_ref] and [ScopeGuard] (358-472).
    - [FixedVector] (207-282); [ObjectPool] (713-754).
    - [Text]: the [std::string_view] searches of the handshake parser.
    - [Connection], Modules [Conn] (state) and [Handlers] (operations): class
      [Connection] and namespace [detail] (906-1030, 1127-1520).
    - [Fixes], [ConnectionApi], [ConnectionInv], [ConnectionFrames],
      [Handshake], [ConnectionIo], [ConnectionProtocol], [ConnectionSend],
      [ConnectionStream], [ConnectionFlush]: the theorems about connections
      ([Fixes] has the rules for what a handler leaves alone).
    - [Client], [ClientHandshake]: the frame code and the handshake of
      [BenchClient] ([src/examples/benchmark_echo.cpp]), and the server's
      answers to them.
    - [Sockets], Modules [Sockets] and [SocketSetup]: the constructor and
      destructor of [Server] (1526-1559), [TcpTuning] and
      [apply_tcp_tuning] (1040-1047, 1685-1708), [connect] and [close_fd] of
      the client, as programs over a trace of system calls.  [Server] runs
      the part of [accept_connection] that prepares a descriptor, and keeps
      the trace of the calls of its listening socket in [calls_].
    - [Responder]: the callbacks of [echo_server.cpp] and of the benchmark's
      server, and servers that answer every message in general.
    - [Numbers], [Double], [Percentiles]: decimal text, IEEE doubles with
      their conversions and [operator<<] (over the Standard Library's
      [SpecFloat]), and order statistics of recorded latencies in any total
      preorder, for the examples.
    - [PerfServer], Module [Perf]: [perf_server.cpp]; [Broadcast], Module
      [BroadcastServer]: [broadcast_server.cpp]; [Benchmark], Module [Bench]:
      the threads of [run_echo_benchmark], its figures and [print_result]
      (benchmark_echo.cpp, 169-261).
    - [Server], Modules [Stats] and [Srv]: [ServerStats] (760-790) and
      [Server] (1065-1117, 1561-1683), with the connections by value;
      [Pointers]: vectors of pointers; [ServerProofs]: the theorems.
    - [Shared], Modules [Shared] and [SharedHandlers], and [SharedServer],
      Module [SharedSrv]: the same operations of [Connection] and [Server]
      on a world of connection objects and an application's state, for
      callbacks that may work on any object; [SharedOwn] and
      [SharedRefines]: callbacks that keep to their own connection;
      [Listener]: what becomes of the descriptors either reactor accepts.
    - [BroadcastRun] (Module [BroadcastApp]), [BroadcastOps],
      [BroadcastServes]: the broadcast server's callbacks inside that
      reactor; [PerfRun] (Module [PerfApp]): those of the performance
      server.
    - [Programs], Modules [EchoApp] and [Programs]: the [main] functions of
      the four examples, what the echo server prints, and the texts of the
      performance server and of the benchmark (the broadcast server's lines
      are in [Broadcast]).

    ** How state and effects are modelled
    A C++ object is a record with the same fields; an operation is a
    function from the old object to the result and the new one, in [Res].
    Reading outside an array, an object that is not alive, a null pointer or
    a byte outside a [string_view] is [Undefined], so that a theorem that an
    operation returns [Ok] is also a memory-safety theorem.  [size_t],
    [uint32_t] and [uint64_t] expressions wrap where the source's do.

    [Connection] handlers live in a state monad over the connection.  Two
    fields are history: [log_], the callbacks invoked, and [wire_], the bytes
    the socket accepted.  The [ops_] pointer is the state whose table it
    points to.  What is not in the source is a parameter: sockpp's socket
    (class [TcpSocket] with its laws), the system calls, the clock and the
    callbacks (record [Env]), and, for the reactor, what the kernel answers
    in one iteration (record [Tick]).

    In [Shared] and [SharedServer] an operation is a function of a [World]:
    the objects that are alive, by the id their constructor draws (shown to
    be their [id_] for ever), and what the application keeps.  [at_ o m] is
    the operation [m] of one connection on the object [o]; where an
    operation invokes a callback, the application's body runs on the whole
    world at that point.  The reactor's vector has the last pointers, so
    [release] ends an object's life.  Hypotheses about them are the POSIX
    contracts [readv_delivers], [write_bounded], [writev_bounded],
    [tick_fine], [recv_behaves].  Whether [char] is signed is the class
    [Target]; every theorem holds for both choices.

    ** What the theorems show
    - Containers: the ring is a bounded FIFO queue ([ring_refines_queue]),
      its zero-copy paths equal the copying ones ([ring_readv_is_push],
      [ring_iovec_reads]); the vector is a bounded list, the pool a set of
      slots, [expected] a value, and scope guards run or drop their cleanups
      as specified, each once ([vec_refines_list], [pool_refines_slots],
      [expected_value_semantics], [scope_guard_exactly_once]).
    - Codecs: frame headers round trip and are parsed in bounds
      ([encode_parse_roundtrip], [parse_frame_header_total],
      [encoders_agree], [unmask_involutive]); SHA-1 is the standard's, in
      pieces or at once; Base64 round trips.
    - Handshake: which requests are accepted and how they are answered
      ([handshake_accepts]), and that nothing happens otherwise
      ([handshake_total]).
    - Frames: [parse_frames] is the reference deframer
      ([parse_frames_delivers]), independent of how TCP cuts the stream
      ([parse_frames_segmentation]).
    - Life of a connection: invariant, progress (on the conditions below),
      monotonicity
      ([connection_invariant], [connection_progress],
      [lifecycle_monotone]), the branches of reading and the order of
      writing ([handle_read_correct], [writes_are_fifo]), what the API
      queues ([send_queues_frame], [close_by_state], [ping_answered]),
      re-entrant callbacks ([api_calls_total]), the order of callbacks
      whichever are installed ([callback_protocol]), deadlines ([deadlines_exact]), and the types
      and the grammar of the bytes on the wire ([outgoing_stream_typed]).
    - Reactor: invariant and progress ([server_invariant]), one iteration as
      a function of the connections ([server_round]), [run] as a whole
      ([run_returns]), removal, and the end of a connection whose peer is
      gone ([eof_closes_in_two_rounds]); a queue of n bytes is written in at
      most n writable rounds, unless the connection is closed before
      ([queued_bytes_flushed]).
    - Shared connections: when callbacks keep to their own connection, a
      whole run of the reactor with pointers is a run of the reactor with
      values, and the application sees one history of callbacks, in which
      each client's part follows the callback protocol
      ([private_server_refines]), so the theorems above hold for it.
    - Descriptors: none of the set-up leaks or is used when closed, whichever
      system call fails ([descriptors_balanced]); in a whole program each
      descriptor that is accepted is closed or handed to a connection
      ([settled], in the theorems about the programs).
    - End to end: the client's handshake against the server's
      ([handshake_round_trip]), its messages up to [on_message]
      ([client_messages_delivered]), and whole echo sessions
      ([echo_round_trip], over [responder_answers_in_order]).
    - Examples: the broadcast server in its reactor, and what one read of it
      does to everybody ([broadcast_serves], [broadcast_read], over
      [broadcast_reaches_members] and [broadcast_in_order]); the figures and
      the timestamps of the performance server ([perf_report_percentiles],
      [perf_timestamp_roundtrip], [perf_statistics]); the start barrier and
      the figures of the benchmark ([benchmark_barrier],
      [benchmark_figures]).
    - Programs: the four examples from their arguments to their exit status
      ([echo_program], [broadcast_program], [perf_program],
      [bench_program]), and what the user sees when they
      cannot start ([programs_report_failure]).
    - Defects, as theorems about the code as it is: [frame_length_wraps],
      [send_can_queue_bare_header], [peer_close_reported_twice],
      [idle_poll_skips_timeouts], [reset_stats_locks_out],
      [ring_view_contiguous_only], [perf_active_wraps], and parts of
      [benchmark_figures], [bench_program] and [programs_report_failure].

    ** Fuel and bounds
    [frame_fuel] is 2050 iterations of [parse_frames]: each one that goes on
    consumes at least two of at most 4096 bytes.  [callback_depth] is 3: a
    callback can only trigger [on_backpressure] (once, since it needs an
    unpaused connection) and [on_close] (once, since it needs a live one).
    [remove_loop] and [clear_loop] have the size of the vector as fuel,
    [recv_loop] and [drain_loop] the number of bytes asked for.  The
    progress theorems say that none of these runs out.  [run_loop] consumes
    one tick per iteration, so [run] describes every finite prefix of the
    server's life.  [digits] has 20 as fuel for a [uint64_t], the digits of
    2^64, and 400 for a [double], whose integral part has at most 309;
    [recv_response] 511, the bytes it can store.

    The guard [no_wrap] excludes received frames that announce so many bytes
    that [header_size + payload_len] overflows; [frame_length_wraps] shows
    what happens on them.  It is part of [read_fine], [tick_fine],
    [rounds_fine] and [rounds_promised], next to the POSIX contracts of
    reads and writes: every theorem that an open connection, an iteration, a
    run or a program of the examples goes on or ends is on that condition.
    That the programs use no closed descriptor is on the further condition
    that [accept] does not return the listening socket ([accepts_fresh]).

    ** Not modelled
    In [Connection] and [Server] a callback acts on the connection it is
    given and decides its calls from that connection and its history; in
    [Shared] it may do anything to the world.  [stop] is visible at the end
    of an iteration, which is where the loop reads the flag; the servers of
    the examples do not call it, so their programs end in a round in which
    [poll] fails ([interrupt]).  Of [accept] and of the clock around [poll]
    only what the code reads is there: a descriptor or an error, and a
    duration.  The members [port_] and [bind_addr_] of [Server] appear only
    in the system calls they are passed to.  [calls_] has the calls on the
    listening socket and on descriptors before they belong to a connection;
    what a connection does with its socket, its end included, is in the
    connection's state ([socket_], [wire_]) and goes through sockpp.  The four
    loads of the server's counters in the benchmark's [main] each see what
    some number of whole rounds has left; the durations its clients measure
    are given, and a failure to allocate memory is not.  A NaN has no sign
    when printed and goes last when sorted: the benchmark's figures are never
    NaN.  [TlsConfig] (which no code reads), the build-time switches of the
    macros, the lines that refused clients write to [std::cerr] and what the
    C++ runtime prints when it terminates a program have no definitions.  The
    broadcast server's [on_error] is installed and, like every [on_error],
    never invoked. *)
From Stdlib Require Export ZArith Lia Btauto.
From stdpp Require Export base tactics numbers list list_numbers option strings.
From stdpp Require Import options.

#[export] Set Default Goal Selector "1".
Open Scope Z_scope.

Declare Scope ewss_scope.
Delimit Scope ewss_scope with ewss.

(** ** Machine integers *)

Definition u8 (z : Z) : Z := z mod 2 ^ 8.
Definition u16 (z : Z) : Z := z mod 2 ^ 16.
Definition u32 (z : Z) : Z := z mod 2 ^ 32.
Definition u64 (z : Z) : Z := z mod 2 ^ 64.

(** The value of an [int32_t] after a narrowing conversion. *)
Definition i32 (z : Z) : Z := (z + 2 ^ 31) mod 2 ^ 32 - 2 ^ 31.

Definition is_u8 (z : Z) : Prop := 0 <= z < 256.
Definition is_u32 (z : Z) : Prop := 0 <= z < 2 ^ 32.
Definition is_u64 (z : Z) : Prop := 0 <= z < 2 ^ 64.

#[export] Instance is_u8_dec z : Decision (is_u8 z).
Proof. unfold is_u8. apply _. Defined.
#[export] Instance is_u32_dec z : Decision (is_u32 z).
Proof. unfold is_u32. apply _. Defined.
#[export] Instance is_u64_dec z : Decision (is_u64 z).
Proof. unfold is_u64. apply _. Defined.

(** A byte string: [std::string_view], [std::vector<uint8_t>], [uint8_t*]
    with its length. *)
Abbreviation bytes := (list Z).
Abbreviation bytes_ok := (Forall is_u8).

(** [size_t] length of a list. *)
Definition zlen {A} (l : list A) : Z := Z.of_nat (length l).

(** A string literal as bytes. *)
Definition str (s : string) : bytes :=
  (fun c => Z.of_N (Ascii.N_of_ascii c)) <$> String.list_ascii_of_string s.

(** [\r\n] *)
Definition crlf : bytes := [13; 10].

(** ** Outcomes

    [Ok]: the code returns; [Undefined]: it reads or writes outside an
    object (undefined behaviour in C++); [OutOfFuel]: a loop did not finish
    within the iterations the caller allowed. *)
Inductive Res (A : Type) : Type :=
| Ok (a : A)
| Undefined
| OutOfFuel.
Arguments Ok {A} a.
Arguments Undefined {A}.
Arguments OutOfFuel {A}.

Definition res_bind {A B} (r : Res A) (k : A -> Res B) : Res B :=
  match r with
  | Ok a => k a
  | Undefined => Undefined
  | OutOfFuel => OutOfFuel
  end.

Notation "'let!' x ':=' r 'in' k" := (res_bind r (fun x => k))
  (at level 10, x pattern, r at level 100, k at level 200) : ewss_scope.

Lemma res_bind_Ok {A B} (r : Res A) (k : A -> Res B) b : res_bind r k = Ok b -> exists a, r = Ok a /\ k a = Ok b.
Proof. destruct r as [a| |]; [|done|done]. by exists a. Qed.

Definition of_option {A} (o : option A) : Res A :=
  match o with Some a => Ok a | None => Undefined end.

(** Value initialisation [T{}]. *)
Class ValueInit (A : Type) := value_init : A.
#[export] Instance Z_value_init : ValueInit Z := 0.
#[export] Instance bool_value_init : ValueInit bool := false.

(** ** Automation *)

Create HintDb ewss.
Create Rewrite HintDb len.
Create Rewrite HintDb words.

Lemma list_length_cons {A} (x : A) l : length (x :: l) = S (length l).
Proof. reflexivity. Qed.

Lemma list_length_nil {A} : length (@nil A) = 0%nat.
Proof. reflexivity. Qed.

#[export] Hint Rewrite @list_length_nil @list_length_cons @length_app @length_take @length_drop @length_fmap
  @length_insert @length_replicate @length_reverse : len.

Lemma zlen_nil {A} : zlen (@nil A) = 0.
Proof. reflexivity. Qed.
Lemma zlen_cons {A} (x : A) l : zlen (x :: l) = zlen l + 1.
Proof. unfold zlen. simpl length. lia. Qed.
Lemma zlen_app {A} (l k : list A) : zlen (l ++ k) = zlen l + zlen k.
Proof. unfold zlen. rewrite length_app. lia. Qed.
Lemma zlen_nonneg {A} (l : list A) : 0 <= zlen l.
Proof. unfold zlen. lia. Qed.
#[export] Hint Resolve zlen_nonneg : ewss.

(** Solve length and index side conditions. *)
Ltac len := unfold zlen in *; simpl length in *; autorewrite with len in *; try lia.

Lemma u8_small z : 0 <= z < 256 -> u8 z = z.
Proof. intros. unfold u8. apply Z.mod_small. lia. Qed.
Lemma u16_small z : 0 <= z < 65536 -> u16 z = z.
Proof. intros. unfold u16. apply Z.mod_small. lia. Qed.
Lemma u32_small z : 0 <= z < 2 ^ 32 -> u32 z = z.
Proof. intros. unfold u32. apply Z.mod_small. lia. Qed.
Lemma u64_small z : 0 <= z < 2 ^ 64 -> u64 z = z.
Proof. intros. unfold u64. apply Z.mod_small. lia. Qed.
Lemma i32_small z : 0 <= z < 2 ^ 31 -> i32 z = z.
Proof. intros. unfold i32. rewrite Z.mod_small by lia. lia. Qed.

Lemma u8_range z : is_u8 (u8 z).
Proof. unfold is_u8, u8. apply Z.mod_pos_bound. lia. Qed.
Lemma u32_range z : is_u32 (u32 z).
Proof. unfold is_u32, u32. apply Z.mod_pos_bound. lia. Qed.
Lemma u64_range z : is_u64 (u64 z).
Proof. unfold is_u64, u64. apply Z.mod_pos_bound. lia. Qed.
#[export] Hint Resolve u8_range u32_range u64_range : ewss.

(** Reduction modulo a variable capacity of an index that wraps at most
    once: the form every ring index takes. *)
Lemma mod_wrap a n : 0 <= a < 2 * n -> a mod n = if a <? n then a else a - n.
Proof.
  intros Ha. destruct (Z.ltb_spec a n) as [Hlt|Hge].
  - apply Z.mod_small. lia.
  - symmetry. apply (Z.mod_unique _ _ 1); lia.
Qed.

(** Split on every integer comparison the goal branches on. *)
Ltac zcase :=
  repeat match goal with
  | |- context [Z.ltb ?a ?b] => destruct (Z.ltb_spec a b)
  | |- context [Z.leb ?a ?b] => destruct (Z.leb_spec a b)
  | |- context [Z.eqb ?a ?b] => destruct (Z.eqb_spec a b)
  end; try first [lia | reflexivity].

Lemma mod_wrap_cases a n :
  0 <= a < 2 * n -> (a < n /\ a mod n = a) \/ (n <= a /\ a mod n = a - n).
Proof. intros Ha. rewrite (mod_wrap a n Ha). zcase. Qed.

(** Eliminate ring indices [a mod n] with [0 <= a < 2 * n], innermost first. *)
Ltac ring_index :=
  repeat (match goal with
  | |- context [?a mod ?n] =>
      lazymatch a with context [_ mod _] => fail | _ => idtac end;
      let H := fresh "Hmod" in let E := fresh "Emod" in
      destruct (mod_wrap_cases a n) as [[H E]|[H E]]; [lia| |]; rewrite ?E in *; clear E
  | H0 : context [?a mod ?n] |- _ =>
      lazymatch a with context [_ mod _] => fail | _ => idtac end;
      let H := fresh "Hmod" in let E := fresh "Emod" in
      destruct (mod_wrap_cases a n) as [[H E]|[H E]]; [lia| |]; rewrite ?E in *; clear E
  end); try lia.

(** ** Bytes *)

(** A decidable fact about every byte, by enumeration. *)
Lemma u8_forall (P : Z -> bool) :
  forallb P (seqZ 0 256) = true -> forall b, is_u8 b -> P b = true.
Proof.
  intros H b Hb. rewrite forallb_forall in H. apply H.
  apply list_elem_of_In, elem_of_seqZ. unfold is_u8 in Hb. lia.
Qed.

(** Prove an equation between [Z] or [bool] functions of one byte. *)
Ltac byte_cases b Hb :=
  apply Z.eqb_eq || apply Bool.eqb_prop; revert b Hb; apply u8_forall; vm_compute; reflexivity.

Lemma land_ff z : Z.land z 0xFF = z mod 256.
Proof. change 0xFF with (Z.ones 8). rewrite Z.land_ones by lia. done. Qed.

Lemma u8_land_ff z : u8 (Z.land z 0xFF) = z mod 256.
Proof. rewrite land_ff. unfold u8. change (2 ^ 8) with 256. apply Z.mod_mod. lia. Qed.

(** A number below [2 ^ k] has no bits from [k] on. *)
Lemma testbit_high b k n : 0 <= b < 2 ^ k -> 0 <= k <= n -> Z.testbit b n = false.
Proof.
  intros Hb Hk. destruct (Z.eq_dec b 0) as [->|]; [apply Z.bits_0|].
  apply Z.bits_above_log2; [lia|]. apply Z.log2_lt_pow2; [lia|].
  apply Z.lt_le_trans with (2 ^ k); [lia|]. apply Z.pow_le_mono_r; lia.
Qed.

(** Or-ing a shifted value with one below the shift is addition. *)
Lemma lor_shiftl_low a b k : 0 <= k -> 0 <= b < 2 ^ k -> Z.lor (Z.shiftl a k) b = a * 2 ^ k + b.
Proof.
  intros Hk Hb. rewrite Z.shiftl_mul_pow2 by done.
  assert (Hd : Z.land (a * 2 ^ k) b = 0).
  { apply Z.bits_inj'. intros n Hn. rewrite Z.land_spec, Z.bits_0.
    destruct (Z.ltb_spec n k).
    - by rewrite Z.mul_pow2_bits_low by lia.
    - rewrite (testbit_high b k n) by lia. apply andb_false_r. }
  rewrite <- Z.lxor_lor by done. by rewrite <- Z.add_nocarry_lxor.
Qed.

Lemma lor_shiftl_byte a b : is_u8 b -> Z.lor (Z.shiftl a 8) b = a * 256 + b.
Proof. intros Hb. unfold is_u8 in Hb. by apply lor_shiftl_low. Qed.

(** Big-endian value of a byte string. *)
Definition be_value (l : bytes) : Z := foldl (fun acc b => acc * 256 + b) 0 l.

Lemma foldl_be l : forall acc,
  foldl (fun acc b => acc * 256 + b) acc l = acc * 256 ^ zlen l + be_value l.
Proof.
  unfold be_value. induction l as [|b l IH]; intros acc; cbn [foldl].
  - rewrite zlen_nil. lia.
  - rewrite IH, (IH (0 * 256 + b)). rewrite zlen_cons, Z.pow_add_r by (auto with ewss || lia). lia.
Qed.

Lemma be_value_cons b l : be_value (b :: l) = b * 256 ^ zlen l + be_value l.
Proof. unfold be_value at 1. cbn [foldl]. rewrite foldl_be. lia. Qed.

Lemma be_value_range l : bytes_ok l -> 0 <= be_value l < 256 ^ zlen l.
Proof.
  induction 1 as [|b l Hb Hl IH]; [by cbn|].
  rewrite be_value_cons, zlen_cons, Z.pow_add_r by (auto with ewss || lia).
  unfold is_u8 in Hb. nia.
Qed.

Lemma nth_lookup_Some_length (l : bytes) i :
  0 <= i < zlen l -> l !! Z.to_nat i = Some (nth (Z.to_nat i) l 0).
Proof. intros Hi. rewrite nth_lookup. destruct (lookup_lt_is_Some_2 l (Z.to_nat i)) as [x Hx]; [len|]. by rewrite Hx. Qed.

(** Evaluate a decidable closed proposition. *)
Ltac by_decide := refine (bool_decide_eq_true_1 _ _); vm_compute; reflexivity.
