(* ===== verification/RingBuffer.v ===== *)
(** * RingBuffer: the fixed-capacity circular buffer (ewss.hpp, [RingBuffer])

    [Ring] holds the class as written: a [buffer_] array, two indices and a
    count, all [size_t], with the wrap-around of every [size_t] expression
    written out.  [contents] abstracts a buffer to the list of its unread
    elements; the theorems show that every operation refines the bounded
    FIFO queue of [QueueSpec] and stays inside the array. *)
From S2P Require Import Prelude.
Open Scope ewss_scope.

(** ** The abstract bounded FIFO queue *)
Module QueueSpec.

Definition push {A} (cap : Z) (q data : list A) : bool * list A :=
  if zlen q + zlen data <=? cap then (true, q ++ data) else (false, q).

Definition peek {A} (q : list A) (n : Z) : list A := take (Z.to_nat n) q.

Definition advance {A} (q : list A) (n : Z) : list A := drop (Z.to_nat n) q.

End QueueSpec.

(** What a byte queue promises to its client: its operations and the laws
    that make it a bounded FIFO.  [Connection]'s write path is proved against
    this interface. *)
Class BoundedQueue (Q A : Type) := {
  q_cap : Z;
  q_inv : Q -> Prop;
  q_list : Q -> list A;
  q_push : Q -> list A -> Res (bool * Q);
  q_peek : Q -> Z -> Res (list A);
  q_advance : Q -> Z -> Q;
}.

Class BoundedQueueLaws (Q A : Type) {BQ : BoundedQueue Q A} := {
  q_cap_word : 0 < q_cap (Q := Q) (A := A) <= 2 ^ 63;
  q_bounded (q : Q) : q_inv q -> zlen (q_list q) <= q_cap (Q := Q) (A := A);
  q_push_fits (q : Q) (data : list A) :
    q_inv q -> zlen (q_list q) + zlen data <= q_cap (Q := Q) (A := A) ->
    exists q', q_push q data = Ok (true, q') /\ q_inv q' /\ q_list q' = q_list q ++ data;
  q_push_full (q : Q) (data : list A) :
    q_inv q -> q_cap (Q := Q) (A := A) < zlen (q_list q) + zlen data ->
    q_push q data = Ok (false, q);
  q_peek_law (q : Q) (n : Z) :
    q_inv q -> 0 <= n -> q_peek q n = Ok (QueueSpec.peek (q_list q) n);
  q_advance_law (q : Q) (n : Z) :
    q_inv q -> 0 <= n ->
    q_inv (q_advance q n) /\ q_list (q_advance q n) = QueueSpec.advance (q_list q) n;
}.

(** ** The implementation *)
Module Ring.

(** A pointer into [buffer_] with a length: [struct iovec], the
    [std::string_view] of [view] and the result of [read_ptr]. *)
Record span := mk_span { sp_off : Z; sp_len : Z }.

#[export] Instance span_eq_dec : EqDecision span.
Proof. solve_decision. Defined.

Record RingBuffer (T : Type) (Size : Z) := mk_ring {
  buffer_ : list T;
  read_idx_ : Z;
  write_idx_ : Z;
  count_ : Z;
}.
Arguments mk_ring {T Size} _ _ _ _.
Arguments buffer_ {T Size} _.
Arguments read_idx_ {T Size} _.
Arguments write_idx_ {T Size} _.
Arguments count_ {T Size} _.

Section ops.
Context {T : Type} {Size : Z}.
Implicit Types (rb : RingBuffer T Size) (data : list T).

Definition kCapacity : Z := Size.

Definition empty_ring `{ValueInit T} : RingBuffer T Size :=
  mk_ring (replicate (Z.to_nat kCapacity) value_init) 0 0 0.

Definition size rb : Z := count_ rb.
Definition available rb : Z := u64 (kCapacity - count_ rb).
Definition empty rb : bool := count_ rb =? 0.

(** [buffer_[i]] for reading and for writing; out of range is undefined. *)
Definition get (buf : list T) (i : Z) : Res T := of_option (buf !! Z.to_nat i).
Definition set (buf : list T) (i : Z) (x : T) : Res (list T) :=
  if i <? zlen buf then Ok (<[Z.to_nat i := x]> buf) else Undefined.

Fixpoint push_loop (data : list T) (buf : list T) (write_idx : Z) : Res (list T * Z) :=
  match data with
  | [] => Ok (buf, write_idx)
  | x :: data' =>
      let! buf' := set buf write_idx x in
      push_loop data' buf' (u64 (write_idx + 1) mod kCapacity)
  end.

Definition push rb data : Res (bool * RingBuffer T Size) :=
  if available rb <? zlen data then Ok (false, rb) else
  let! (buf, w) := push_loop data (buffer_ rb) (write_idx_ rb) in
  Ok (true, mk_ring buf (read_idx_ rb) w (u64 (count_ rb + zlen data))).

Fixpoint peek_loop (n : nat) (buf : list T) (idx : Z) : Res (list T) :=
  match n with
  | O => Ok []
  | S n' =>
      let! x := get buf idx in
      let! rest := peek_loop n' buf (u64 (idx + 1) mod kCapacity) in
      Ok (x :: rest)
  end.

(** The returned list is what [peek] stores in [data]; its length is the
    returned [size_t]. *)
Definition peek rb (max_len : Z) : Res (list T) :=
  peek_loop (Z.to_nat (Z.min max_len (count_ rb))) (buffer_ rb) (read_idx_ rb).

Definition advance rb (len : Z) : RingBuffer T Size :=
  let len := if count_ rb <? len then count_ rb else len in
  mk_ring (buffer_ rb) (u64 (read_idx_ rb + len) mod kCapacity)
    (write_idx_ rb) (u64 (count_ rb - len)).

Definition clear rb : RingBuffer T Size := mk_ring (buffer_ rb) 0 0 0.

Definition view rb : span :=
  if empty rb then mk_span 0 0 else mk_span (read_idx_ rb) (count_ rb).

Definition fill_iovec rb (max_iov : Z) : list span :=
  if empty rb || (max_iov =? 0) then [] else
  let contiguous := u64 (kCapacity - read_idx_ rb) in
  if count_ rb <=? contiguous then [mk_span (read_idx_ rb) (count_ rb)] else
  if max_iov <? 2 then [mk_span (read_idx_ rb) contiguous] else
  [mk_span (read_idx_ rb) contiguous; mk_span 0 (u64 (count_ rb - contiguous))].

Definition fill_iovec_write rb (max_iov : Z) : list span :=
  let avail := available rb in
  if (avail =? 0) || (max_iov =? 0) then [] else
  let contiguous := u64 (kCapacity - write_idx_ rb) in
  if avail <=? contiguous then [mk_span (write_idx_ rb) avail] else
  if max_iov <? 2 then [mk_span (write_idx_ rb) contiguous] else
  [mk_span (write_idx_ rb) contiguous; mk_span 0 (u64 (avail - contiguous))].

Definition commit_write rb (len : Z) : RingBuffer T Size :=
  let len := if available rb <? len then available rb else len in
  mk_ring (buffer_ rb) (read_idx_ rb)
    (u64 (write_idx_ rb + len) mod kCapacity) (u64 (count_ rb + len)).

(** [None] is the null pointer, with [*out_len = 0]. *)
Definition read_ptr rb : option span :=
  if empty rb then None else
  let contiguous := u64 (kCapacity - read_idx_ rb) in
  Some (mk_span (read_idx_ rb) (if count_ rb <=? contiguous then count_ rb else contiguous)).

(** Reading through a span: undefined past the end of the array. *)
Definition load (buf : list T) (s : span) : Res (list T) :=
  if sp_off s + sp_len s <=? zlen buf
  then Ok (take (Z.to_nat (sp_len s)) (drop (Z.to_nat (sp_off s)) buf))
  else Undefined.

Fixpoint gather (buf : list T) (iov : list span) : Res (list T) :=
  match iov with
  | [] => Ok []
  | s :: iov' =>
      let! x := load buf s in
      let! y := gather buf iov' in
      Ok (x ++ y)
  end.

Definition total_len (iov : list span) : Z := foldr (fun s n => sp_len s + n) 0 iov.

(** Overwrite the array from [off] on. *)
Definition splice (buf : list T) (off : Z) (data : list T) : list T :=
  take (Z.to_nat off) buf ++ data ++ drop (Z.to_nat off + length data) buf.

(** Filling the spans in order, each one before the next: what POSIX
    specifies for the buffers of [readv]. *)
Fixpoint scatter (buf : list T) (iov : list span) (data : list T) : list T :=
  match iov with
  | [] => buf
  | s :: iov' =>
      let here := take (Z.to_nat (sp_len s)) data in
      scatter (splice buf (sp_off s) here) iov' (drop (Z.to_nat (sp_len s)) data)
  end.

(** ** Abstraction and invariant *)

Record wf rb : Prop := mk_wf {
  wf_size : 0 < Size <= 2 ^ 63;
  wf_buffer : zlen (buffer_ rb) = Size;
  wf_read : 0 <= read_idx_ rb < Size;
  wf_write : write_idx_ rb = (read_idx_ rb + count_ rb) mod Size;
  wf_count : 0 <= count_ rb <= Size;
}.

(** [n] elements of the array laid end to end with itself, from [s] on. *)
Definition window (buf : list T) (s n : Z) : list T :=
  take (Z.to_nat n) (drop (Z.to_nat s) (buf ++ buf)).

(** The unread elements. *)
Definition contents rb : list T := window (buffer_ rb) (read_idx_ rb) (count_ rb).

End ops.

End Ring.

(** ** Array facts *)
Section array.
Context {T : Type} {Size : Z}.
Implicit Types (buf data : list T).

Lemma double_lookup buf n i :
  zlen buf = n -> 0 <= i < 2 * n ->
  (buf ++ buf) !! Z.to_nat i = buf !! Z.to_nat (i mod n).
Proof.
  intros Hlen Hi. ring_index.
  - apply lookup_app_l. len.
  - rewrite lookup_app_r by len. f_equal. len.
Qed.

(** [buf'] is [buf] with [data] stored from ring index [w] on. *)
Definition written buf (w : Z) data buf' : Prop :=
  zlen buf' = Size /\
  forall j, 0 <= j < Size ->
    buf' !! Z.to_nat ((w + j) mod Size) =
    if j <? zlen data then data !! Z.to_nat j else buf !! Z.to_nat ((w + j) mod Size).

Lemma push_loop_spec (data : list T) :
  forall buf w,
  zlen buf = Size -> 0 < Size <= 2 ^ 63 -> 0 <= w < Size -> zlen data <= Size ->
  exists buf', Ring.push_loop (Size := Size) data buf w = Ok (buf', (w + zlen data) mod Size)
    /\ written buf w data buf'.
Proof.
  unfold written. induction data as [|x data IH]; intros buf w Hbuf HS Hw Hd.
  { exists buf. rewrite zlen_nil, Z.add_0_r, Z.mod_small by lia. cbn.
    split; [done|]. split; [done|]. intros j Hj. zcase. }
  rewrite zlen_cons in *. pose proof (zlen_nonneg data).
  cbn [Ring.push_loop]. unfold Ring.set, Ring.kCapacity.
  rewrite u64_small by lia. destruct (Z.ltb_spec w (zlen buf)); [|lia]. cbn [res_bind].
  destruct (IH (<[Z.to_nat w:=x]> buf) ((w + 1) mod Size)) as (buf' & -> & Hlen & Hj);
    [len | lia | ring_index | lia |].
  exists buf'. split; [do 2 f_equal; ring_index|]. split; [done|]. intros j Hjr.
  destruct (Z.eqb_spec j 0) as [->|Hne].
  - specialize (Hj (Size - 1)).
    replace ((((w + 1) mod Size) + (Size - 1)) mod Size) with w in Hj by ring_index.
    rewrite Z.add_0_r, (Z.mod_small w) by lia. rewrite Hj by lia.
    zcase. rewrite list_lookup_insert_eq by len. done.
  - specialize (Hj (j - 1)).
    replace ((((w + 1) mod Size) + (j - 1)) mod Size) with ((w + j) mod Size) in Hj by ring_index.
    rewrite Hj by lia. zcase.
    + replace (Z.to_nat j) with (S (Z.to_nat (j - 1))) by lia. done.
    + apply list_lookup_insert_ne. ring_index.
Qed.

Lemma window_lookup buf s n i :
  zlen buf = Size -> 0 <= s < Size -> n <= Size ->
  Ring.window buf s n !! i =
  if Z.of_nat i <? n then buf !! Z.to_nat ((s + Z.of_nat i) mod Size) else None.
Proof.
  intros Hb Hs Hn. unfold Ring.window. zcase.
  - rewrite lookup_take_lt, lookup_drop by lia.
    rewrite <- (double_lookup buf Size (s + Z.of_nat i)) by lia. f_equal. lia.
  - apply lookup_take_ge. lia.
Qed.

Lemma window_length buf s n :
  zlen buf = Size -> 0 <= s < Size -> 0 <= n <= Size -> zlen (Ring.window buf s n) = n.
Proof. intros. unfold Ring.window. len. Qed.

(** A list is the window when it agrees with the array index by index. *)
Lemma window_intro buf s n (l : list T) :
  zlen buf = Size -> 0 <= s < Size -> 0 <= n <= Size -> zlen l = n ->
  (forall i, 0 <= i < n -> l !! Z.to_nat i = buf !! Z.to_nat ((s + i) mod Size)) ->
  Ring.window buf s n = l.
Proof.
  intros Hb Hs Hn Hl Hi. apply list_eq. intros i. rewrite window_lookup by lia. zcase.
  - rewrite <- Hi by lia. f_equal. lia.
  - symmetry. apply lookup_ge_None. len.
Qed.

Lemma window_app buf s n m :
  zlen buf = Size -> 0 <= s < Size -> 0 <= n -> 0 <= m -> n + m <= Size ->
  Ring.window buf s (n + m) = Ring.window buf s n ++ Ring.window buf ((s + n) mod Size) m.
Proof.
  intros Hb Hs Hn Hm Hnm.
  assert (0 <= (s + n) mod Size < Size) by (apply Z.mod_pos_bound; lia).
  apply window_intro; [done|done|lia|rewrite zlen_app, !window_length by lia; lia|].
  intros i Hi. rewrite lookup_app, window_lookup by lia. rewrite Z2Nat.id by lia. zcase.
  - destruct (lookup_lt_is_Some_2 buf (Z.to_nat ((s + i) mod Size))) as [x Hx]; [ring_index; len|].
    by rewrite Hx.
  - rewrite window_lookup by lia.
    pose proof (window_length buf s n) as Hw. unfold zlen in Hw at 2.
    zcase. f_equal. f_equal. ring_index.
Qed.

Lemma window_contiguous buf s n :
  zlen buf = Size -> 0 <= s -> 0 <= n -> s + n <= Size ->
  Ring.window buf s n = take (Z.to_nat n) (drop (Z.to_nat s) buf).
Proof.
  intros Hb Hs Hn Hsn. unfold Ring.window.
  rewrite drop_app_le by len. apply take_app_le. len.
Qed.

Lemma window_wrapped buf s n :
  zlen buf = Size -> 0 <= s < Size -> Size <= s + n -> n <= Size ->
  Ring.window buf s n = drop (Z.to_nat s) buf ++ take (Z.to_nat (s + n - Size)) buf.
Proof.
  intros Hb Hs Hn Hsn. unfold Ring.window.
  rewrite drop_app_le by len. rewrite take_app_ge by len. do 2 f_equal. len.
Qed.

Lemma peek_loop_spec buf n :
  forall s, zlen buf = Size -> 0 < Size <= 2 ^ 63 -> 0 <= s < Size -> Z.of_nat n <= Size ->
  Ring.peek_loop (Size := Size) n buf s = Ok (Ring.window buf s (Z.of_nat n)).
Proof.
  induction n as [|n IH]; intros s Hb HS Hs Hn; [done|].
  cbn [Ring.peek_loop]. unfold Ring.get, Ring.kCapacity. rewrite u64_small by lia.
  destruct (lookup_lt_is_Some_2 buf (Z.to_nat s)) as [x Hx]; [len|].
  rewrite Hx. cbn [of_option res_bind].
  rewrite IH by (try lia; ring_index). cbn [res_bind]. f_equal.
  replace (Z.of_nat (S n)) with (1 + Z.of_nat n) by lia.
  rewrite window_app by lia. rewrite (window_contiguous buf s 1) by lia.
  change (Z.to_nat 1) with 1%nat. by rewrite (drop_S _ _ _ Hx).
Qed.

Lemma written_window buf w data buf' s n :
  written buf w data buf' -> zlen buf = Size -> 0 <= s < Size -> 0 <= n ->
  w = (s + n) mod Size -> n + zlen data <= Size ->
  Ring.window buf' s (n + zlen data) = Ring.window buf s n ++ data.
Proof.
  intros [Hlen Hj] Hb Hs Hn -> Hnd. pose proof (zlen_nonneg data).
  apply window_intro; [done|done|lia|rewrite zlen_app, window_length by lia; lia|].
  intros i Hi. rewrite lookup_app, window_lookup by lia. rewrite Z2Nat.id by lia. zcase.
  - specialize (Hj (i - n + Size)).
    replace (((s + n) mod Size + (i - n + Size)) mod Size) with ((s + i) mod Size) in Hj by ring_index.
    destruct (lookup_lt_is_Some_2 buf (Z.to_nat ((s + i) mod Size))) as [x Hx]; [ring_index; len|].
    rewrite Hx. rewrite Hj by (ring_index). by zcase.
  - specialize (Hj (i - n)).
    replace (((s + n) mod Size + (i - n)) mod Size) with ((s + i) mod Size) in Hj by ring_index.
    rewrite Hj by lia. zcase. f_equal.
    pose proof (window_length buf s n) as Hw. unfold zlen in Hw at 2. lia.
Qed.

Lemma splice_length buf off data :
  0 <= off -> off + zlen data <= zlen buf -> zlen (Ring.splice buf off data) = zlen buf.
Proof. intros. unfold Ring.splice. len. Qed.

Lemma splice_lookup buf off data i :
  0 <= off -> off + zlen data <= zlen buf -> 0 <= i ->
  Ring.splice buf off data !! Z.to_nat i =
  if (off <=? i) && (i <? off + zlen data) then data !! Z.to_nat (i - off) else buf !! Z.to_nat i.
Proof.
  intros Ho Hd Hi. unfold Ring.splice.
  destruct (Z.leb_spec off i); cbn [andb].
  - rewrite lookup_app_r by len. autorewrite with len. zcase.
    + rewrite lookup_app_l by len. f_equal. len.
    + rewrite lookup_app_r by len. rewrite lookup_drop. f_equal. len.
  - rewrite lookup_app_l by len. apply lookup_take_lt. lia.
Qed.

(** One span: the writable region does not reach the end of the array. *)
Lemma splice_written buf w data :
  zlen buf = Size -> 0 <= w -> w + zlen data <= Size -> w < Size ->
  written buf w data (Ring.splice buf w data).
Proof.
  intros Hb Hw Hd Hlt. split; [by rewrite splice_length by lia|].
  intros j Hj. pose proof (zlen_nonneg data).
  rewrite splice_lookup by (try lia; ring_index). ring_index; zcase; cbn [andb]; f_equal; lia.
Qed.

(** Two spans: the region wraps. *)
Lemma splice2_written buf w data1 data2 :
  zlen buf = Size -> 0 <= w < Size -> w + zlen data1 = Size -> zlen data2 <= w ->
  written buf w (data1 ++ data2) (Ring.splice (Ring.splice buf w data1) 0 data2).
Proof.
  intros Hb Hw Hd1 Hd2. pose proof (zlen_nonneg data2). pose proof (zlen_nonneg data1).
  split; [by rewrite !splice_length by (rewrite ?splice_length; lia)|].
  intros j Hj. rewrite splice_lookup by (rewrite ?splice_length by lia; try lia; ring_index).
  rewrite splice_lookup by (try lia; ring_index). rewrite zlen_app.
  ring_index; zcase; cbn [andb]; rewrite ?lookup_app_l by len; rewrite ?lookup_app_r by len;
    try (f_equal; len).
Qed.

End array.

(** ** The operations *)
Section ring_ops.
Context {T : Type} {Size : Z}.
Implicit Types (rb : Ring.RingBuffer T Size) (data : list T).
Import Ring.

Lemma available_eq rb : wf rb -> available rb = Size - count_ rb.
Proof. intros [HS HB HR HW HC]. unfold available, kCapacity. apply u64_small. lia. Qed.

Lemma contents_length rb : wf rb -> zlen (contents rb) = count_ rb.
Proof. intros [HS HB HR HW HC]. unfold contents. by apply (window_length (Size := Size)). Qed.

Lemma write_in_range rb : wf rb -> 0 <= write_idx_ rb < Size.
Proof. intros [HS HB HR HW HC]. rewrite HW. apply Z.mod_pos_bound. lia. Qed.

Lemma empty_spec rb : wf rb -> empty rb = bool_decide (contents rb = []).
Proof.
  intros Hwf. pose proof (contents_length rb Hwf) as Hl. unfold empty.
  rewrite <- Hl. unfold zlen. destruct (contents rb); by zcase.
Qed.

Lemma empty_ring_ok `{ValueInit T} :
  0 < Size <= 2 ^ 63 -> wf (empty_ring (Size := Size)) /\ contents (empty_ring (T := T) (Size := Size)) = [].
Proof.
  intros HS. split; [|done]. split; cbn; try lia.
  - unfold kCapacity. len.
  - rewrite Z.mod_small by lia. done.
Qed.

(** Storing [data] at the write index and counting it appends it. *)
Lemma written_append rb data buf' :
  wf rb -> count_ rb + zlen data <= Size ->
  written (Size := Size) (buffer_ rb) (write_idx_ rb) data buf' ->
  let rb' : RingBuffer T Size :=
    mk_ring buf' (read_idx_ rb) ((write_idx_ rb + zlen data) mod Size) (count_ rb + zlen data) in
  wf rb' /\ contents rb' = contents rb ++ data.
Proof.
  intros Hwf Hfit Hw. pose proof (write_in_range rb Hwf). pose proof (zlen_nonneg data).
  destruct Hwf as [HS HB HR HW HC], Hw as [Hlen Hj]. split.
  - split; cbn; try lia. rewrite HW. ring_index.
  - unfold contents; cbn. by eapply written_window; [split| | | | |]; try lia.
Qed.

Lemma push_full rb data :
  wf rb -> Size < count_ rb + zlen data -> push rb data = Ok (false, rb).
Proof. intros Hwf Hfull. unfold push. rewrite available_eq by done. by zcase. Qed.

Lemma push_fits rb data :
  wf rb -> count_ rb + zlen data <= Size ->
  exists rb', push rb data = Ok (true, rb') /\ wf rb' /\ contents rb' = contents rb ++ data.
Proof.
  intros Hwf Hfit. pose proof (write_in_range rb Hwf). pose proof (zlen_nonneg data).
  unfold push. rewrite available_eq by done. pose proof Hwf as [HS HB HR HW HC]. zcase.
  destruct (push_loop_spec (Size := Size) data (buffer_ rb) (write_idx_ rb))
    as (buf' & -> & Hw); try lia.
  cbn [res_bind]. rewrite u64_small by lia. eexists; split; [done|].
  by apply written_append.
Qed.

Lemma peek_spec rb n :
  wf rb -> 0 <= n -> peek rb n = Ok (take (Z.to_nat n) (contents rb)).
Proof.
  intros [HS HB HR HW HC] Hn. unfold peek. rewrite (peek_loop_spec (Size := Size)) by lia. f_equal.
  unfold contents, window. rewrite take_take. f_equal. lia.
Qed.

Lemma advance_spec rb n :
  wf rb -> 0 <= n -> wf (advance rb n) /\ contents (advance rb n) = drop (Z.to_nat n) (contents rb).
Proof.
  intros Hwf Hn. unfold advance, kCapacity.
  set (k := if count_ rb <? n then count_ rb else n).
  assert (Hk : 0 <= k <= count_ rb /\ (k = n \/ k = count_ rb /\ count_ rb < n))
    by (destruct Hwf as [HS HB HR HW HC]; unfold k; zcase).
  pose proof (contents_length rb Hwf) as Hlen. destruct Hwf as [HS HB HR HW HC].
  rewrite !u64_small by lia. split.
  - split; cbn; try lia; [apply Z.mod_pos_bound; lia|]. rewrite HW. ring_index.
  - transitivity (drop (Z.to_nat k) (contents rb)).
    + unfold contents; cbn.
      replace (count_ rb) with (k + (count_ rb - k)) at 2 by lia.
      rewrite (window_app (Size := Size)) by lia.
      symmetry. apply drop_app_length'.
      pose proof (window_length (Size := Size) (buffer_ rb) (read_idx_ rb) k) as Hw. len.
    + destruct Hk as [_ [->|[-> ?]]]; [done|]. by rewrite !drop_ge by len.
Qed.

Lemma clear_spec rb : wf rb -> wf (clear rb) /\ contents (clear rb) = [].
Proof. intros [HS HB HR HW HC]. split; [|done]. split; cbn; try lia. by rewrite Z.mod_small by lia. Qed.

(** The spans of [fill_iovec] read back, in order, the unread elements. *)
Lemma gather_fill_iovec rb :
  wf rb -> gather (buffer_ rb) (fill_iovec rb 2) = Ok (contents rb).
Proof.
  intros Hwf. unfold fill_iovec, empty, kCapacity. pose proof Hwf as [HS HB HR HW HC].
  rewrite u64_small by lia. unfold contents.
  destruct (Z.eqb_spec (count_ rb) 0) as [->|Hne]; [done|]. cbn [orb Z.eqb Z.ltb Z.compare].
  destruct (Z.leb_spec (count_ rb) (Size - read_idx_ rb)); cbn [gather].
  - unfold load; cbn [sp_off sp_len]. zcase. cbn [res_bind]. rewrite app_nil_r.
    by rewrite (window_contiguous (Size := Size)) by lia.
  - change (2 <? 2) with false. cbn [gather]. unfold load; cbn [sp_off sp_len].
    rewrite u64_small by lia. zcase. cbn [res_bind]. rewrite app_nil_r.
    rewrite (window_wrapped (Size := Size)) by lia. do 2 f_equal.
    + apply take_ge. len.
    + f_equal. lia.
Qed.

Lemma total_fill_iovec_write rb :
  wf rb -> total_len (fill_iovec_write rb 2) = available rb.
Proof.
  intros Hwf. pose proof (write_in_range rb Hwf) as Hw. unfold fill_iovec_write, kCapacity.
  rewrite available_eq by done. destruct Hwf as [HS HB HR HW HC]. rewrite u64_small by lia.
  zcase; cbn [orb]; try discriminate; zcase; cbn; rewrite ?u64_small; lia.
Qed.

(** Scattering [data] over the spans of [fill_iovec_write] and committing
    its length appends [data]. *)
Lemma scatter_commit rb data :
  wf rb -> zlen data <= available rb ->
  let rb1 : RingBuffer T Size :=
    mk_ring (scatter (buffer_ rb) (fill_iovec_write rb 2) data)
      (read_idx_ rb) (write_idx_ rb) (count_ rb) in
  wf (commit_write rb1 (zlen data)) /\ contents (commit_write rb1 (zlen data)) = contents rb ++ data.
Proof.
  intros Hwf. pose proof (write_in_range rb Hwf) as Hw. pose proof (zlen_nonneg data).
  rewrite available_eq by done. intros Hfit. cbn zeta.
  assert (Hwr : written (Size := Size) (buffer_ rb) (write_idx_ rb) data
                  (scatter (buffer_ rb) (fill_iovec_write rb 2) data)).
  { unfold fill_iovec_write, kCapacity. rewrite available_eq by done. destruct Hwf as [HS HB HR HW HC].
    rewrite u64_small by lia.
    destruct (Z.eqb_spec (Size - count_ rb) 0); cbn [orb Z.eqb Z.ltb Z.compare].
    { destruct data as [|x data]; [|rewrite zlen_cons in *; pose proof (zlen_nonneg data); lia].
      split; [done|]. intros j Hj. rewrite zlen_nil. by zcase. }
    destruct (Z.leb_spec (Size - count_ rb) (Size - write_idx_ rb)); cbn [scatter sp_off sp_len].
    - rewrite take_ge by len. apply splice_written; lia.
    - change (2 <? 2) with false. rewrite u64_small by lia. cbn [scatter sp_off sp_len].
      rewrite (take_ge (drop _ data)) by len.
      destruct (Z.leb_spec (zlen data) (Size - write_idx_ rb)).
      + rewrite take_ge, drop_ge by len. unfold splice at 1. cbn. rewrite drop_0.
        apply splice_written; lia.
      + rewrite <- (take_drop (Z.to_nat (Size - write_idx_ rb)) data) at 1.
        apply splice2_written; len. }
  unfold commit_write, kCapacity, available; cbn [count_ read_idx_ write_idx_ buffer_].
  unfold kCapacity. pose proof Hwf as [HS HB HR HW HC]. rewrite !(u64_small (Size - _)) by lia. zcase.
  rewrite !u64_small by lia. apply written_append; [done|lia|done].
Qed.

End ring_ops.

(** ** The ring as a bounded queue *)

(** A capacity the class can be instantiated at. *)
Class RingSize (Size : Z) := ring_size_ok : 0 < Size <= 2 ^ 63.

#[export] Instance ring_queue (T : Type) (Size : Z) : BoundedQueue (Ring.RingBuffer T Size) T := {
  q_cap := Size;
  q_inv := Ring.wf;
  q_list := Ring.contents;
  q_push := Ring.push;
  q_peek := Ring.peek;
  q_advance := Ring.advance;
}.

Lemma ring_push_spec {T Size} (rb : Ring.RingBuffer T Size) data :
  Ring.wf rb ->
  exists rb', Ring.push rb data = Ok (fst (QueueSpec.push Size (Ring.contents rb) data), rb')
    /\ Ring.wf rb' /\ Ring.contents rb' = snd (QueueSpec.push Size (Ring.contents rb) data).
Proof.
  intros Hwf. unfold QueueSpec.push. rewrite contents_length by done.
  destruct (Z.leb_spec (Ring.count_ rb + zlen data) Size) as [Hfit|Hfull].
  - by apply push_fits.
  - exists rb. rewrite push_full by done. done.
Qed.

#[export] Instance ring_queue_laws (T : Type) (Size : Z) `{!RingSize Size} :
  BoundedQueueLaws (Ring.RingBuffer T Size) T.
Proof.
  split; cbn.
  - done.
  - intros q Hq. rewrite contents_length by done. apply (Ring.wf_count _ Hq).
  - intros q data Hq. rewrite contents_length by done. by apply push_fits.
  - intros q data Hq. rewrite contents_length by done. by apply push_full.
  - intros. by apply peek_spec.
  - intros. by apply advance_spec.
Qed.

(** *** Clients of a bounded queue

    Two pushes in a row, as [Connection] writes a frame: header, then
    payload if the header was accepted. *)
Section queue_client.
Context {Q A : Type} {BQ : BoundedQueue Q A} {BQL : BoundedQueueLaws Q A}.
Implicit Types (q : Q) (h d : list A).

Definition push_two q h d : Res Q :=
  let! (ok, q1) := q_push q h in
  if negb ok then Ok q1 else
  let! (_, q2) := q_push q1 d in Ok q2.

(** What two pushes append with [room] free places. *)
Definition appended_two (room : Z) h d : list A :=
  if room <? zlen h then [] else if room <? zlen h + zlen d then h else h ++ d.

Lemma push_two_spec q h d :
  q_inv q ->
  exists q', push_two q h d = Ok q' /\ q_inv q'
    /\ q_list q' = q_list q ++ appended_two (q_cap (Q := Q) (A := A) - zlen (q_list q)) h d.
Proof.
  intros Hq. unfold push_two, appended_two. pose proof (zlen_nonneg d). zcase.
  - rewrite q_push_full by (done || lia). cbn. exists q. by rewrite app_nil_r.
  - destruct (q_push_fits q h Hq) as (q1 & -> & Hq1 & Hl1); [lia|]. cbn.
    rewrite q_push_full by (done || rewrite Hl1, zlen_app; lia). cbn. eauto.
  - destruct (q_push_fits q h Hq) as (q1 & -> & Hq1 & Hl1); [lia|]. cbn.
    destruct (q_push_fits q1 d Hq1) as (q2 & -> & Hq2 & Hl2); [rewrite Hl1, zlen_app; lia|]. cbn.
    exists q2. by rewrite Hl2, Hl1, <- app_assoc.
Qed.

End queue_client.

(** ** Traces of operations *)
Inductive ring_op (T : Type) : Type :=
| OpPush (data : list T)
| OpPeek (max_len : Z)
| OpAdvance (len : Z)
| OpClear
| OpReceive (data : list T)   (** a [readv] that delivers at most [data] *)
| OpSend.                     (** a [writev] of the gathered spans *)
Arguments OpPush {T}. Arguments OpPeek {T}. Arguments OpAdvance {T}.
Arguments OpClear {T}. Arguments OpReceive {T}. Arguments OpSend {T}.

(** The [size_t] arguments are not negative. *)
Definition ring_op_ok {T} (o : ring_op T) : Prop :=
  match o with OpPeek n | OpAdvance n => 0 <= n | _ => True end.

Inductive ring_out (T : Type) : Type :=
| OutBool (b : bool)
| OutData (l : list T)
| OutLen (n : Z)
| OutUnit.
Arguments OutBool {T}. Arguments OutData {T}. Arguments OutLen {T}. Arguments OutUnit {T}.

Definition ring_step {T Size} (rb : Ring.RingBuffer T Size) (o : ring_op T)
  : Res (ring_out T * Ring.RingBuffer T Size) :=
  match o with
  | OpPush data => let! (b, rb') := Ring.push rb data in Ok (OutBool b, rb')
  | OpPeek n => let! l := Ring.peek rb n in Ok (OutData l, rb)
  | OpAdvance n => Ok (OutUnit, Ring.advance rb n)
  | OpClear => Ok (OutUnit, Ring.clear rb)
  | OpReceive data =>
      let iov := Ring.fill_iovec_write rb 2 in
      let got := take (Z.to_nat (Ring.total_len iov)) data in
      let rb1 := Ring.mk_ring (Ring.scatter (Ring.buffer_ rb) iov got)
                   (Ring.read_idx_ rb) (Ring.write_idx_ rb) (Ring.count_ rb) in
      Ok (OutLen (zlen got), Ring.commit_write rb1 (zlen got))
  | OpSend =>
      let! l := Ring.gather (Ring.buffer_ rb) (Ring.fill_iovec rb 2) in Ok (OutData l, rb)
  end.

Definition queue_step {T} (cap : Z) (q : list T) (o : ring_op T) : ring_out T * list T :=
  match o with
  | OpPush data => let (b, q') := QueueSpec.push cap q data in (OutBool b, q')
  | OpPeek n => (OutData (QueueSpec.peek q n), q)
  | OpAdvance n => (OutUnit, QueueSpec.advance q n)
  | OpClear => (OutUnit, [])
  | OpReceive data =>
      let got := take (Z.to_nat (cap - zlen q)) data in (OutLen (zlen got), q ++ got)
  | OpSend => (OutData q, q)
  end.

Fixpoint ring_run {T Size} (rb : Ring.RingBuffer T Size) (os : list (ring_op T))
  : Res (list (ring_out T) * Ring.RingBuffer T Size) :=
  match os with
  | [] => Ok ([], rb)
  | o :: os' =>
      let! (x, rb') := ring_step rb o in
      let! (xs, rb'') := ring_run rb' os' in
      Ok (x :: xs, rb'')
  end.

Fixpoint queue_run {T} (cap : Z) (q : list T) (os : list (ring_op T)) : list (ring_out T) * list T :=
  match os with
  | [] => ([], q)
  | o :: os' =>
      let (x, q') := queue_step cap q o in
      let (xs, q'') := queue_run cap q' os' in
      (x :: xs, q'')
  end.

(** One step of the ring is one step of the queue. *)
Lemma ring_step_sim {T Size} (rb : Ring.RingBuffer T Size) o :
  Ring.wf rb -> ring_op_ok o ->
  exists rb', ring_step rb o = Ok (fst (queue_step Size (Ring.contents rb) o), rb')
    /\ Ring.wf rb' /\ Ring.contents rb' = snd (queue_step Size (Ring.contents rb) o).
Proof.
  intros Hwf Hok. destruct o as [data|n|n| |data|]; cbn in Hok |- *.
  - destruct (ring_push_spec rb data Hwf) as (rb' & -> & Hwf' & Hc).
    exists rb'. destruct (QueueSpec.push _ _ _). done.
  - rewrite peek_spec by done. by exists rb.
  - destruct (advance_spec rb n Hwf Hok). eauto.
  - destruct (clear_spec rb Hwf). eauto.
  - rewrite total_fill_iovec_write, contents_length, available_eq by done.
    set (got := take _ data). eexists. split; [done|].
    apply scatter_commit; [done|]. rewrite available_eq by done. subst got.
    pose proof (Ring.wf_count _ Hwf). len.
  - rewrite gather_fill_iovec by done. by exists rb.
Qed.

Lemma ring_run_sim {T Size} (os : list (ring_op T)) :
  forall rb : Ring.RingBuffer T Size, Ring.wf rb -> Forall ring_op_ok os ->
  exists rb', ring_run rb os = Ok (fst (queue_run Size (Ring.contents rb) os), rb')
    /\ Ring.wf rb' /\ Ring.contents rb' = snd (queue_run Size (Ring.contents rb) os).
Proof.
  induction os as [|o os IH]; intros rb Hwf Hok; cbn; [by exists rb|].
  inversion_clear Hok as [|? ? Ho Hos].
  destruct (ring_step_sim rb o Hwf Ho) as (rb1 & -> & Hwf1 & Hc1). cbn [res_bind].
  destruct (IH rb1 Hwf1 Hos) as (rb2 & -> & Hwf2 & Hc2). cbn [res_bind].
  destruct (queue_step _ _ _) as [x q']. cbn [fst snd] in *. subst q'.
  exists rb2. destruct (queue_run _ _ os). done.
Qed.

(** The longest prefix of the contents that does not wrap. *)
Lemma load_contiguous {T Size} (rb : Ring.RingBuffer T Size) n :
  Ring.wf rb -> 0 <= n <= Ring.count_ rb -> n <= Size - Ring.read_idx_ rb ->
  Ring.load (Ring.buffer_ rb) (Ring.mk_span (Ring.read_idx_ rb) n)
  = Ok (take (Z.to_nat n) (Ring.contents rb)).
Proof.
  intros [HS HB HR HW HC] Hn Hc. unfold Ring.load; cbn. zcase. f_equal.
  rewrite <- (window_contiguous (Size := Size)) by lia.
  unfold Ring.contents, Ring.window. rewrite take_take. f_equal. lia.
Qed.

(** ** Properties *)

(** C9: every sequence of [push], [peek], [advance], [clear], [readv] into
    [fill_iovec_write] followed by [commit_write], and [writev] from
    [fill_iovec], run on a fresh ring buffer of any capacity up to 2^63,
    stays inside the array and gives the results and the final contents of
    a bounded FIFO queue of that capacity. *)
Theorem ring_refines_queue {T} `{ValueInit T} (Size : Z) (os : list (ring_op T)) :
  0 < Size <= 2 ^ 63 -> Forall ring_op_ok os ->
  exists rb' : Ring.RingBuffer T Size,
    ring_run Ring.empty_ring os = Ok (fst (queue_run Size [] os), rb')
    /\ Ring.wf rb' /\ Ring.contents rb' = snd (queue_run Size [] os).
Proof.
  intros HS Hos. destruct (empty_ring_ok (T := T) HS) as [Hwf Hc].
  rewrite <- Hc. by apply ring_run_sim.
Qed.

Lemma ring_refines_queue_witness :
  let os := [OpPush [1; 2; 3; 4; 5; 6]; OpAdvance 4; OpPush [7; 8; 9; 10; 11]; OpPush [12; 13];
             OpPeek 3; OpSend; OpReceive [14; 15]; OpPeek 100] in
  (exists rb' : Ring.RingBuffer Z 8,
    ring_run Ring.empty_ring os = Ok (fst (queue_run 8 [] os), rb')
    /\ Ring.wf rb' /\ Ring.contents rb' = snd (queue_run 8 [] os))
  /\ snd (queue_run 8 [] os) = [5; 6; 7; 8; 9; 10; 11; 14].
Proof.
  cbn zeta. split; [|reflexivity].
  apply (ring_refines_queue 8); [lia|]. repeat constructor; cbn; lia.
Defined.

(** The two spans [fill_iovec] hands to [writev] read back exactly the
    unread bytes in order; with room for one span only, and through
    [read_ptr], they read the longest prefix that does not wrap.  No read
    leaves the array. *)
Theorem ring_iovec_reads {T Size} (rb : Ring.RingBuffer T Size) :
  Ring.wf rb ->
  let prefix := take (Z.to_nat (Z.min (Ring.count_ rb) (Size - Ring.read_idx_ rb)))
                  (Ring.contents rb) in
  Ring.gather (Ring.buffer_ rb) (Ring.fill_iovec rb 2) = Ok (Ring.contents rb)
  /\ Ring.gather (Ring.buffer_ rb) (Ring.fill_iovec rb 1) = Ok prefix
  /\ match Ring.read_ptr rb with
     | None => Ring.contents rb = []
     | Some s => Ring.load (Ring.buffer_ rb) s = Ok prefix
     end.
Proof.
  intros Hwf. cbn zeta. split; [by apply gather_fill_iovec|].
  pose proof (contents_length rb Hwf) as Hlen. pose proof Hwf as [HS HB HR HW HC].
  unfold Ring.fill_iovec, Ring.read_ptr, Ring.empty, Ring.kCapacity. rewrite u64_small by lia.
  destruct (Z.eqb_spec (Ring.count_ rb) 0) as [E|Hne]; cbn [orb].
  { rewrite E in *. apply length_zero_iff_nil in Hlen || destruct (Ring.contents rb); [|done].
    split; [by rewrite take_nil|done]. }
  change (1 =? 0) with false. change (1 <? 2) with true.
  destruct (Z.leb_spec (Ring.count_ rb) (Size - Ring.read_idx_ rb)); cbn [Ring.gather];
    rewrite load_contiguous by (done || lia); cbn [res_bind]; rewrite app_nil_r;
    (split; repeat f_equal; lia).
Qed.

Definition wrapped_ring : Ring.RingBuffer Z 8 := Ring.mk_ring [30; 40; 50; 60; 0; 6; 10; 20] 5 4 7.

Lemma wrapped_ring_wf : Ring.wf wrapped_ring.
Proof. split; cbn; lia || reflexivity. Qed.

Lemma ring_iovec_reads_witness :
  Ring.contents wrapped_ring = [6; 10; 20; 30; 40; 50; 60]
  /\ Ring.gather (Ring.buffer_ wrapped_ring) (Ring.fill_iovec wrapped_ring 2)
     = Ok (Ring.contents wrapped_ring).
Proof. split; [reflexivity|]. apply (ring_iovec_reads wrapped_ring wrapped_ring_wf). Defined.

(** The zero-copy receive path is [push]: the spans of
    [fill_iovec_write] cover exactly the free space, and scattering up to
    that many bytes over them and calling [commit_write] leaves the same
    contents as pushing the bytes, without touching unread data. *)
Theorem ring_readv_is_push {T Size} (rb : Ring.RingBuffer T Size) (data : list T) :
  Ring.wf rb -> zlen data <= Ring.available rb ->
  let iov := Ring.fill_iovec_write rb 2 in
  let rb1 := Ring.mk_ring (Ring.scatter (Ring.buffer_ rb) iov data)
               (Ring.read_idx_ rb) (Ring.write_idx_ rb) (Ring.count_ rb) in
  let rb2 : Ring.RingBuffer T Size := Ring.commit_write rb1 (zlen data) in
  Ring.total_len iov = Ring.available rb /\ Ring.wf rb2
  /\ exists rb3, Ring.push rb data = Ok (true, rb3) /\ Ring.contents rb2 = Ring.contents rb3.
Proof.
  intros Hwf Hfit. cbn zeta. split; [by apply total_fill_iovec_write|].
  destruct (scatter_commit rb data Hwf Hfit) as [Hwf2 Hc2]. split; [done|].
  rewrite available_eq in Hfit by done.
  destruct (push_fits rb data Hwf) as (rb3 & Hp & _ & Hc3); [lia|].
  exists rb3. by rewrite Hc3.
Qed.

Definition receiving_ring : Ring.RingBuffer Z 8 := Ring.mk_ring [0; 0; 0; 0; 0; 6; 7; 0] 5 7 2.

Lemma ring_readv_is_push_witness :
  zlen [1; 2; 3; 4; 5] <= Ring.available receiving_ring
  /\ exists rb3, Ring.push receiving_ring [1; 2; 3; 4; 5] = Ok (true, rb3)
     /\ Ring.contents (Size := 8)
          (Ring.commit_write
            (Ring.mk_ring (Ring.scatter (Ring.buffer_ receiving_ring)
               (Ring.fill_iovec_write receiving_ring 2) [1; 2; 3; 4; 5]) 5 7 2) 5)
        = Ring.contents rb3.
Proof.
  split; [vm_compute; discriminate|].
  apply (ring_readv_is_push receiving_ring [1; 2; 3; 4; 5]).
  - split; cbn; lia || reflexivity.
  - vm_compute; discriminate.
Defined.

(** [view] denotes the unread bytes exactly when they do not wrap; when
    they do, the returned [string_view] runs past the end of the array. *)
Theorem ring_view_contiguous_only {T Size} (rb : Ring.RingBuffer T Size) :
  Ring.wf rb ->
  Ring.load (Ring.buffer_ rb) (Ring.view rb) =
  if Ring.read_idx_ rb + Ring.count_ rb <=? Size then Ok (Ring.contents rb) else Undefined.
Proof.
  intros Hwf. pose proof (contents_length rb Hwf) as Hlen. pose proof Hwf as [HS HB HR HW HC].
  unfold Ring.view, Ring.empty. destruct (Z.eqb_spec (Ring.count_ rb) 0) as [E|Hne].
  - rewrite E in *. destruct (Ring.contents rb); [|done]. unfold Ring.load; cbn. zcase.
  - zcase.
    + rewrite load_contiguous by (done || lia). by rewrite take_ge by len.
    + unfold Ring.load; cbn. zcase.
Qed.

Lemma ring_view_contiguous_only_witness :
  Ring.load (Ring.buffer_ wrapped_ring) (Ring.view wrapped_ring) = Undefined.
Proof. exact (ring_view_contiguous_only wrapped_ring wrapped_ring_wf). Defined.
