(* ===== verification/Frame.v ===== *)
(** * Frame: WebSocket frame headers (ewss.hpp, namespace [ws])

    [Ws] holds [OpCode], [FrameHeader], [parse_frame_header],
    [encode_frame] and [encode_frame_header], and [Connection]'s
    [unmask_payload].  The theorems show that parsing inverts encoding, that
    the stack encoder agrees with the vector encoder and stays inside its
    14-byte buffer, when a header is incomplete, and that masking is an
    involution. *)
From S2P Require Import Prelude.
Open Scope ewss_scope.

(** The ABI choice the parser depends on: whether plain [char] is signed
    (x86-64) or not (ARM). *)
Class Target := char_signed : bool.

Module Ws.

(** [enum class OpCode : uint8_t]; [kReserved] is a value of the type that
    has no enumerator, which [static_cast] can produce. *)
Inductive OpCode : Type :=
| kContinuation | kText | kBinary | kClose | kPing | kPong
| kReserved (code : Z).

#[export] Instance OpCode_eq_dec : EqDecision OpCode.
Proof. solve_decision. Defined.

Definition opcode_to_u8 (op : OpCode) : Z :=
  match op with
  | kContinuation => 0x0 | kText => 0x1 | kBinary => 0x2
  | kClose => 0x8 | kPing => 0x9 | kPong => 0xA
  | kReserved c => c
  end.

Definition opcode_of_u8 (c : Z) : OpCode :=
  if c =? 0x0 then kContinuation else if c =? 0x1 then kText else
  if c =? 0x2 then kBinary else if c =? 0x8 then kClose else
  if c =? 0x9 then kPing else if c =? 0xA then kPong else kReserved c.

Record FrameHeader := mk_header {
  fin : bool;
  opcode : OpCode;
  masked : bool;
  payload_len : Z;
}.

#[export] Instance FrameHeader_eq_dec : EqDecision FrameHeader.
Proof. solve_decision. Defined.

(** [data[i]] of a [string_view]: no bounds check. *)
Definition at_ (data : bytes) (i : Z) : Res Z := of_option (data !! Z.to_nat i).

Section parse.
Context {target : Target}.

(** A [char] promoted to [int]. *)
Definition char_to_int (c : Z) : Z := if char_signed && (128 <=? c) then c - 256 else c.

(** [for (int i = 2; i < 10; ++i) len = (len << 8) | (uint8_t)data[i];] *)
Fixpoint parse_len64 (n : nat) (data : bytes) (i len : Z) : Res Z :=
  match n with
  | O => Ok len
  | S n' =>
      let! b := at_ data i in
      parse_len64 n' data (i + 1) (Z.lor (u64 (Z.shiftl len 8)) b)
  end.

(** Returns the header size and the header; fields are assigned in the
    order of the source, so an incomplete header (size 0) may be half
    written. *)
Definition parse_frame_header (data : bytes) (header : FrameHeader) : Res (Z * FrameHeader) :=
  if zlen data <? 2 then Ok (0, header) else
  let! d0 := at_ data 0 in
  let! d1 := at_ data 1 in
  let header := mk_header
    (negb (Z.land (char_to_int d0) 0x80 =? 0))
    (opcode_of_u8 (u8 (Z.land (char_to_int d0) 0x0F)))
    (negb (Z.land (char_to_int d1) 0x80 =? 0))
    (payload_len header) in
  let len := Z.land (char_to_int d1) 0x7F in
  let finish (len header_size : Z) : Res (Z * FrameHeader) :=
    let header := mk_header (fin header) (opcode header) (masked header) len in
    if masked header then
      if zlen data <? header_size + 4 then Ok (0, header) else Ok (header_size + 4, header)
    else Ok (header_size, header) in
  if len =? 126 then
    if zlen data <? 4 then Ok (0, header) else
    let! d2 := at_ data 2 in
    let! d3 := at_ data 3 in
    finish (Z.lor (u64 (Z.shiftl d2 8)) d3) 4
  else if len =? 127 then
    if zlen data <? 10 then Ok (0, header) else
    let! len := parse_len64 8 data 2 0 in
    finish len 10
  else finish len 2.

End parse.

(** [for (int i = n - 1; i >= 0; --i) ... (len >> (i * 8)) & 0xFF] *)
Fixpoint len_bytes (n : nat) (len : Z) : bytes :=
  match n with
  | O => []
  | S i => u8 (Z.land (Z.shiftr len (Z.of_nat i * 8)) 0xFF) :: len_bytes i len
  end.

Definition mask_bit (mask : bool) : Z := if mask then 0x80 else 0x00.

Definition encode_frame (op : OpCode) (payload : bytes) (mask : bool) : bytes :=
  let frame := [u8 (Z.lor 0x80 (opcode_to_u8 op))] in
  let len := zlen payload in
  let frame :=
    if len <? 126 then frame ++ [u8 (Z.lor (mask_bit mask) len)]
    else if len <? 65536 then
      frame ++ [u8 (Z.lor (mask_bit mask) 126)]
            ++ [u8 (Z.land (Z.shiftr len 8) 0xFF)] ++ [u8 (Z.land len 0xFF)]
    else frame ++ [u8 (Z.lor (mask_bit mask) 127)] ++ len_bytes 8 len in
  frame ++ payload.

(** [buf[pos++] = x] *)
Definition emit (x : Z) (st : bytes * Z) : Res (bytes * Z) :=
  let (buf, pos) := st in
  if pos <? zlen buf then Ok (<[Z.to_nat pos := x]> buf, pos + 1) else Undefined.

Fixpoint emit_len (n : nat) (len : Z) (st : bytes * Z) : Res (bytes * Z) :=
  match n with
  | O => Ok st
  | S i =>
      let! st := emit (u8 (Z.land (Z.shiftr len (Z.of_nat i * 8)) 0xFF)) st in
      emit_len i len st
  end.

(** Returns the written buffer and [pos]. *)
Definition encode_frame_header (buf : bytes) (op : OpCode) (payload_len : Z) (mask : bool)
  : Res (bytes * Z) :=
  let! st := emit (u8 (Z.lor 0x80 (opcode_to_u8 op))) (buf, 0) in
  if payload_len <? 126 then
    emit (u8 (Z.lor (mask_bit mask) payload_len)) st
  else if payload_len <? 65536 then
    let! st := emit (u8 (Z.lor (mask_bit mask) 126)) st in
    let! st := emit (u8 (Z.land (Z.shiftr payload_len 8) 0xFF)) st in
    emit (u8 (Z.land payload_len 0xFF)) st
  else
    let! st := emit (u8 (Z.lor (mask_bit mask) 127)) st in
    emit_len 8 payload_len st.

(** [payload[i] ^= mask_key[i % 4]] for [i < len], in place: [mem] is the
    memory from [payload] on.  Reaching the end of [mem] before [len] is an
    access outside the object. *)
Fixpoint unmask_loop (mem : bytes) (mask_key : bytes) (i len : Z) : Res bytes :=
  if len <=? i then Ok mem else
  match mem with
  | [] => Undefined
  | b :: mem' =>
      let! k := at_ mask_key (i mod 4) in
      let! rest := unmask_loop mem' mask_key (i + 1) len in
      Ok (u8 (Z.lxor b k) :: rest)
  end.

Definition unmask_payload (payload : bytes) (len : Z) (mask_key : bytes) : Res bytes :=
  unmask_loop payload mask_key 0 len.

End Ws.

(** ** Reference description of a header *)

Import Ws.

(** Extra length bytes announced by the 7-bit length field. *)
Definition ext_size (d1 : Z) : Z :=
  if d1 mod 128 =? 126 then 2 else if d1 mod 128 =? 127 then 8 else 0.

(** The size of the whole header, from its second byte. *)
Definition header_need (d1 : Z) : Z := 2 + ext_size d1 + (if 128 <=? d1 then 4 else 0).

(** The payload length: the 7-bit field, or the big-endian extension. *)
Definition header_len (d1 : Z) (rest : bytes) : Z :=
  if ext_size d1 =? 0 then d1 mod 128 else be_value (take (Z.to_nat (ext_size d1)) rest).

Definition header_of (d0 d1 : Z) (rest : bytes) : FrameHeader :=
  mk_header (128 <=? d0) (opcode_of_u8 (d0 mod 16)) (128 <=? d1) (header_len d1 rest).

Lemma ext_size_cases d1 : ext_size d1 = 0 \/ ext_size d1 = 2 \/ ext_size d1 = 8.
Proof. unfold ext_size. zcase; auto. Qed.

Lemma header_need_bounds d1 : 2 <= header_need d1 <= 14.
Proof. unfold header_need. pose proof (ext_size_cases d1). zcase. Qed.

Lemma at_0 a l : at_ (a :: l) 0 = Ok a.
Proof. reflexivity. Qed.
Lemma at_1 a b l : at_ (a :: b :: l) 1 = Ok b.
Proof. reflexivity. Qed.
Lemma at_2 a b c l : at_ (a :: b :: c :: l) 2 = Ok c.
Proof. reflexivity. Qed.
Lemma at_3 a b c d l : at_ (a :: b :: c :: d :: l) 3 = Ok d.
Proof. reflexivity. Qed.

Section parse_facts.
Context {target : Target}.

(** The bits the parser reads do not depend on the sign of [char]. *)
Lemma char_bits c m : is_u8 c -> 0 <= m < 256 -> Z.land (char_to_int c) m = Z.land c m.
Proof.
  intros Hc Hm. unfold char_to_int. destruct (char_signed && (128 <=? c)); [|done].
  rewrite <- (Z.mod_small m 256), <- land_ff by lia.
  rewrite (Z.land_comm m), !Z.land_assoc, !land_ff. f_equal.
  rewrite <- (Z.mod_add (c - 256) 1 256) by lia. f_equal. lia.
Qed.

Lemma top_bit c : is_u8 c -> negb (Z.land c 0x80 =? 0) = (128 <=? c).
Proof. intros Hc. byte_cases c Hc. Qed.
Lemma low_nibble c : is_u8 c -> u8 (Z.land c 0x0F) = c mod 16.
Proof. intros Hc. byte_cases c Hc. Qed.
Lemma low_seven c : is_u8 c -> Z.land c 0x7F = c mod 128.
Proof. intros Hc. byte_cases c Hc. Qed.

Lemma parse_len64_spec n : forall data i len,
  bytes_ok data -> 0 <= i -> i + Z.of_nat n <= zlen data ->
  0 <= len -> len * 256 ^ Z.of_nat n + 256 ^ Z.of_nat n <= 2 ^ 64 ->
  parse_len64 n data i len =
  Ok (foldl (fun acc b => acc * 256 + b) len (take n (drop (Z.to_nat i) data))).
Proof.
  induction n as [|n IH]; intros data i len Hok Hi Hn Hlen Hfit; [done|].
  destruct (lookup_lt_is_Some_2 data (Z.to_nat i)) as [b Hb]; [len|].
  pose proof (Forall_lookup_1 _ _ _ _ Hok Hb) as Hu8.
  cbn [parse_len64]. unfold at_. rewrite Hb. cbn [of_option res_bind].
  rewrite (drop_S _ _ _ Hb). cbn [take foldl].
  rewrite Nat2Z.inj_succ, Z.pow_succ_r in Hfit by lia.
  assert (0 < 256 ^ Z.of_nat n) by (apply Z.pow_pos_nonneg; lia).
  rewrite u64_small by (rewrite Z.shiftl_mul_pow2 by lia; change (2 ^ 8) with 256; nia).
  rewrite lor_shiftl_byte by done. unfold is_u8 in Hu8.
  rewrite IH by (done || nia). do 3 f_equal. f_equal. lia.
Qed.

(** What [parse_frame_header] returns on every input. *)
Lemma parse_frame_header_spec d0 d1 rest h :
  bytes_ok (d0 :: d1 :: rest) ->
  exists hd, parse_frame_header (d0 :: d1 :: rest) h =
      Ok (if zlen rest + 2 <? header_need d1 then 0 else header_need d1, hd)
    /\ (header_need d1 <= zlen rest + 2 -> hd = header_of d0 d1 rest).
Proof.
  intros Hok. inversion_clear Hok as [|? ? H0 Hok']. inversion_clear Hok' as [|? ? H1 Hr].
  unfold parse_frame_header. rewrite !zlen_cons. pose proof (zlen_nonneg rest).
  destruct (Z.ltb_spec (zlen rest + 1 + 1) 2); [lia|].
  rewrite at_0, at_1. cbn [res_bind masked fin opcode].
  rewrite !char_bits by (done || lia). rewrite !top_bit, low_nibble, low_seven by done.
  unfold header_need, header_of, header_len, ext_size. generalize (128 <=? d0); intros f.
  destruct (Z.eqb_spec (d1 mod 128) 126) as [E|E].
  { destruct (Z.ltb_spec (zlen rest + 1 + 1) 4).
    { eexists. split; [do 2 f_equal; zcase|]. zcase. }
    destruct rest as [|d2 [|d3 rest]]; [len|len|].
    apply Forall_cons in Hr as [Hd2 [Hd3 Hr]%Forall_cons].
    rewrite at_2, at_3. cbn [res_bind masked fin opcode].
    rewrite u64_small by (rewrite Z.shiftl_mul_pow2 by lia; unfold is_u8 in *; lia).
    rewrite lor_shiftl_byte by done.
    rewrite !zlen_cons in *.
    destruct (128 <=? d1); eexists; (split; [zcase|done]). }
  destruct (Z.eqb_spec (d1 mod 128) 127) as [E'|E'].
  { destruct (Z.ltb_spec (zlen rest + 1 + 1) 10).
    { eexists. split; [do 2 f_equal; zcase|]. zcase. }
    rewrite parse_len64_spec by (try (constructor; [done|constructor; done]); len).
    cbn [res_bind masked fin opcode].
    destruct (128 <=? d1); eexists; (split; [zcase|done]). }
  destruct (128 <=? d1); eexists; (split; [zcase|done]).
Qed.

(** More input does not change a header that was complete. *)
Lemma parse_frame_header_app d0 d1 rest more h :
  bytes_ok (d0 :: d1 :: rest) -> bytes_ok more -> header_need d1 <= zlen rest + 2 ->
  parse_frame_header (d0 :: d1 :: rest ++ more) h = Ok (header_need d1, header_of d0 d1 rest).
Proof.
  intros Hok Hmore Hneed.
  destruct (parse_frame_header_spec d0 d1 (rest ++ more) h) as (hd & -> & Hhd).
  { change (bytes_ok ((d0 :: d1 :: rest) ++ more)). by apply Forall_app. }
  rewrite zlen_app in *. pose proof (zlen_nonneg more). zcase.
  rewrite Hhd by lia. do 2 f_equal. unfold header_of, header_len. f_equal.
  unfold header_need in Hneed. pose proof (ext_size_cases d1).
  zcase. f_equal. apply take_app_le. revert Hneed. zcase; len.
Qed.

End parse_facts.

(** ** Encoding *)

(** The bytes before the payload. *)
Definition header_bytes (op : OpCode) (len : Z) (mask : bool) : bytes :=
  u8 (Z.lor 0x80 (opcode_to_u8 op)) ::
  (if len <? 126 then [u8 (Z.lor (mask_bit mask) len)]
   else if len <? 65536 then
     [u8 (Z.lor (mask_bit mask) 126); u8 (Z.land (Z.shiftr len 8) 0xFF); u8 (Z.land len 0xFF)]
   else u8 (Z.lor (mask_bit mask) 127) :: len_bytes 8 len).

(** An opcode that fits the 4-bit field. *)
Definition opcode_ok (op : OpCode) : Prop :=
  0 <= opcode_to_u8 op < 16 /\ opcode_of_u8 (opcode_to_u8 op) = op.

Lemma encode_frame_split op payload mask :
  encode_frame op payload mask = header_bytes op (zlen payload) mask ++ payload.
Proof. unfold encode_frame, header_bytes. by zcase. Qed.

Lemma len_bytes_spec n x :
  0 <= x -> bytes_ok (len_bytes n x) /\ zlen (len_bytes n x) = Z.of_nat n
    /\ be_value (len_bytes n x) = x mod 256 ^ Z.of_nat n.
Proof.
  intros Hx. induction n as [|n (IHok & IHlen & IHval)]; cbn [len_bytes].
  { split; [constructor|]. split; [done|]. by rewrite Z.mod_1_r. }
  split; [constructor; [apply u8_range|done]|]. split; [rewrite zlen_cons; lia|].
  rewrite be_value_cons, IHlen, IHval, u8_land_ff, Z.shiftr_div_pow2 by lia.
  replace (2 ^ (Z.of_nat n * 8)) with (256 ^ Z.of_nat n)
    by (change 256 with (2 ^ 8); rewrite <- Z.pow_mul_r by lia; f_equal; lia).
  rewrite Nat2Z.inj_succ, Z.pow_succ_r by lia.
  assert (0 < 256 ^ Z.of_nat n) by (apply Z.pow_pos_nonneg; lia).
  rewrite (Z.mul_comm 256), Z.rem_mul_r by lia. lia.
Qed.

Lemma len_bytes_ok n x : bytes_ok (len_bytes n x).
Proof. induction n; cbn [len_bytes]; constructor; [apply u8_range|done]. Qed.

Lemma header_bytes_ok op len mask : bytes_ok (header_bytes op len mask).
Proof.
  unfold header_bytes. constructor; [apply u8_range|]. zcase; repeat constructor;
    try apply u8_range; apply len_bytes_ok.
Qed.

Lemma header_bytes_len op len mask :
  zlen (header_bytes op len mask) = if len <? 126 then 2 else if len <? 65536 then 4 else 10.
Proof. unfold header_bytes. by zcase. Qed.

Lemma lor_80 c : 0 <= c < 128 -> u8 (Z.lor 0x80 c) = 128 + c.
Proof.
  intros Hc. assert (Hu : is_u8 c) by (unfold is_u8; lia).
  enough ((128 <=? c) || (u8 (Z.lor 0x80 c) =? 128 + c) = true) as H.
  { revert H. zcase; done. }
  clear Hc. byte_cases c Hu.
Qed.

(** The header a receiver parses from [header_bytes]. *)
Lemma parse_header_bytes {target : Target} op len rest h :
  opcode_ok op -> 0 <= len < 2 ^ 64 -> bytes_ok rest ->
  parse_frame_header (header_bytes op len false ++ rest) h
  = Ok (zlen (header_bytes op len false), mk_header true op false len).
Proof.
  intros [Hop Hinv] Hlen Hrest. rewrite header_bytes_len.
  assert (H0 : u8 (Z.lor 0x80 (opcode_to_u8 op)) = 128 + opcode_to_u8 op) by (apply lor_80; lia).
  assert (Hhd : forall d1 ext, header_bytes op len false = (128 + opcode_to_u8 op) :: d1 :: ext ->
    header_need d1 = zlen ext + 2 -> 0 <= d1 < 128 -> header_len d1 ext = len ->
    parse_frame_header (header_bytes op len false ++ rest) h
    = Ok (zlen ext + 2, mk_header true op false len)).
  { intros d1 ext E Hneed Hd1 Hl. pose proof (header_bytes_ok op len false) as Hok.
    rewrite E in *. cbn [app]. rewrite parse_frame_header_app by (done || lia).
    rewrite Hneed. unfold header_of. rewrite Hl. do 3 f_equal; zcase.
    replace ((128 + opcode_to_u8 op) mod 16) with (opcode_to_u8 op); [done|].
    apply (Z.mod_unique _ _ 8); lia. }
  unfold header_bytes in Hhd |- *. rewrite H0 in Hhd |- *. unfold mask_bit in *. rewrite !Z.lor_0_l in *.
  unfold header_need, header_len, ext_size in Hhd.
  destruct (Z.ltb_spec len 126); [|destruct (Z.ltb_spec len 65536)].
  - rewrite u8_small in * by lia. rewrite (Hhd len []); [done|done| |lia|];
      rewrite Z.mod_small by lia; zcase; cbn; zcase.
  - rewrite !u8_land_ff in *. rewrite (u8_small 126) in * by lia.
    rewrite (Hhd 126 [Z.shiftr len 8 mod 256; len mod 256]); [done|done|done|lia|].
    change (126 mod 128) with 126. cbn. rewrite Z.shiftr_div_pow2 by lia. change (2 ^ 8) with 256.
    rewrite (Z.mod_small (len / 256)) by (Z.div_mod_to_equations; lia).
    change (Z.to_nat 2) with 2%nat. cbn [take]. unfold be_value; cbn [foldl].
    Z.div_mod_to_equations; lia.
  - rewrite (u8_small 127) in * by lia. pose proof (len_bytes_spec 8 len) as (_ & Hl & Hv); [lia|].
    rewrite (Hhd 127 (len_bytes 8 len)); [by rewrite Hl|done|by rewrite Hl|lia|].
    change (127 mod 128) with 127. cbn [Z.eqb Pos.eqb]. rewrite take_ge by (unfold zlen in Hl; lia).
    rewrite Hv. apply Z.mod_small. cbn. lia.
Qed.

(** [emit]s in sequence store a list at [pos]. *)
Fixpoint emit_all (l : bytes) (st : bytes * Z) : Res (bytes * Z) :=
  match l with
  | [] => Ok st
  | x :: l' => let! st := emit x st in emit_all l' st
  end.

Lemma emit_all_spec l : forall pre old post,
  length old = length l ->
  emit_all l (pre ++ old ++ post, zlen pre) = Ok (pre ++ l ++ post, zlen (pre ++ l)).
Proof.
  induction l as [|x l IH]; intros pre old post Hlen.
  { destruct old; [|done]. cbn. by rewrite app_nil_r. }
  destruct old as [|y old]; [done|]. cbn [emit_all emit app].
  destruct (Z.ltb_spec (zlen pre) (zlen (pre ++ y :: old ++ post))) as [_|Hge].
  2: { exfalso. len. }
  cbn [res_bind]. rewrite insert_app_r_alt by len.
  replace (Z.to_nat (zlen pre) - length pre)%nat with 0%nat by len. cbn [insert list_insert].
  specialize (IH (pre ++ [x]) old post). rewrite <- !app_assoc in IH. cbn [app] in IH.
  replace (zlen (pre ++ [x])) with (zlen pre + 1) in IH by len.
  rewrite IH by (cbn in Hlen; lia). done.
Qed.

Lemma emit_len_all n len st : emit_len n len st = emit_all (len_bytes n len) st.
Proof.
  revert st. induction n as [|n IH]; intros st; [done|]. cbn [emit_len emit_all len_bytes].
  destruct (emit _ st); [apply IH|done|done].
Qed.

Lemma emit_last x st : emit x st = emit_all [x] st.
Proof. cbn. by destruct (emit x st). Qed.

(** [encode_frame_header] stores [header_bytes] at the front of the buffer. *)
Lemma encode_frame_header_spec buf op len mask :
  10 <= zlen buf ->
  encode_frame_header buf op len mask =
  Ok (header_bytes op len mask ++ drop (Z.to_nat (zlen (header_bytes op len mask))) buf,
      zlen (header_bytes op len mask)).
Proof.
  intros Hbuf. transitivity (emit_all (header_bytes op len mask) (buf, 0)).
  { unfold encode_frame_header, header_bytes. cbn [emit_all].
    destruct (emit _ (buf, 0)) as [st| |]; [|done|done]. cbn [res_bind].
    destruct (len <? 126); [apply emit_last|]. destruct (len <? 65536).
    - cbn [emit_all]. destruct (emit _ st) as [st1| |]; [|done|done]. cbn [res_bind].
      destruct (emit _ st1) as [st2| |]; [|done|done]. apply emit_last.
    - cbn [emit_all]. destruct (emit _ st) as [st1| |]; [|done|done]. apply emit_len_all. }
  pose proof (header_bytes_len op len mask) as Hl.
  assert (zlen (header_bytes op len mask) <= 10) by (rewrite Hl; zcase).
  pose proof (emit_all_spec (header_bytes op len mask) []
    (take (length (header_bytes op len mask)) buf) (drop (length (header_bytes op len mask)) buf)) as H0.
  cbn [app] in H0. rewrite take_drop in H0. change (zlen []) with 0 in H0. rewrite H0 by len.
  unfold zlen at 2. by rewrite Nat2Z.id.
Qed.

(** ** Masking *)

(** Byte [i] of the payload xor-ed with byte [i mod 4] of the key. *)
Fixpoint mask_bytes (key : bytes) (i : Z) (data : bytes) : bytes :=
  match data with
  | [] => []
  | b :: data' => u8 (Z.lxor b (nth (Z.to_nat (i mod 4)) key 0)) :: mask_bytes key (i + 1) data'
  end.

Lemma mask_bytes_len key i data : zlen (mask_bytes key i data) = zlen data.
Proof. revert i. induction data as [|b d IH]; intros i; [done|]. cbn. by rewrite !zlen_cons, IH. Qed.

Lemma mask_bytes_ok key i data : bytes_ok (mask_bytes key i data).
Proof. revert i. induction data; intros i; constructor; [apply u8_range|done]. Qed.

Lemma lxor_u8 a b : is_u8 a -> is_u8 b -> is_u8 (Z.lxor a b).
Proof.
  intros Ha Hb. unfold is_u8 in *. assert (0 <= Z.lxor a b) by (apply Z.lxor_nonneg; lia).
  split; [done|]. destruct (Z.eq_dec (Z.lxor a b) 0) as [->|]; [lia|].
  apply (Z.log2_lt_pow2 _ 8); [lia|]. pose proof (Z.log2_lxor a b).
  assert (forall c, 0 <= c < 256 -> Z.log2 c < 8) as Hlog.
  { intros c Hc. destruct (Z.eq_dec c 0) as [->|]; [done|]. apply Z.log2_lt_pow2; lia. }
  pose proof (Hlog a Ha). pose proof (Hlog b Hb). lia.
Qed.

Lemma mask_key_byte key i : bytes_ok key -> is_u8 (nth (Z.to_nat (i mod 4)) key 0).
Proof.
  intros Hk. destruct (nth_in_or_default (Z.to_nat (i mod 4)) key 0) as [Hin | ->].
  - rewrite List.Forall_forall in Hk. by apply Hk.
  - unfold is_u8. lia.
Qed.

Lemma mask_bytes_involutive key data :
  bytes_ok key -> bytes_ok data -> forall i, mask_bytes key i (mask_bytes key i data) = data.
Proof.
  intros Hk. induction 1 as [|b d Hb Hd IH]; intros i; [done|]. cbn [mask_bytes].
  pose proof (mask_key_byte key i Hk). rewrite IH. f_equal.
  rewrite (u8_small (Z.lxor b _)) by (by apply lxor_u8).
  rewrite Z.lxor_assoc, Z.lxor_nilpotent, Z.lxor_0_r. by apply u8_small.
Qed.

Lemma mask_bytes_lookup key data : bytes_ok key -> bytes_ok data -> forall j i b k,
  0 <= j -> data !! i = Some b -> key !! Z.to_nat ((j + Z.of_nat i) mod 4) = Some k ->
  mask_bytes key j data !! i = Some (Z.lxor b k).
Proof.
  intros Hkok. induction 1 as [|b' d Hb' Hd IH]; intros j i b k Hj Hb Hkey; [done|].
  destruct i as [|i]; cbn in Hb |- *.
  - injection Hb as ->. rewrite Z.add_0_r in Hkey.
    pose proof (Forall_lookup_1 _ _ _ _ Hkok Hkey) as Hu.
    rewrite nth_lookup, Hkey. cbn. by rewrite u8_small by (by apply lxor_u8).
  - apply (IH (j + 1) i b k); [lia|done|]. rewrite <- Hkey. do 3 f_equal. lia.
Qed.

(** The in-place loop over [payload_len] bytes of a larger memory. *)
Lemma unmask_loop_spec key (data : bytes) : forall tail i len,
  length key = 4%nat -> 0 <= i -> len = i + zlen data ->
  unmask_loop (data ++ tail) key i len = Ok (mask_bytes key i data ++ tail).
Proof.
  induction data as [|b d IH]; intros tail i len Hk Hi ->.
  - rewrite zlen_nil, Z.add_0_r. cbn. destruct tail; cbn; by rewrite Z.leb_refl.
  - rewrite zlen_cons. cbn [app unmask_loop mask_bytes]. pose proof (zlen_nonneg d).
    destruct (Z.leb_spec (i + (zlen d + 1)) i); [lia|].
    pose proof (Z.mod_pos_bound i 4).
    unfold at_. rewrite (nth_lookup_Some_length key (i mod 4)) by (unfold zlen; lia).
    cbn [of_option res_bind]. rewrite IH by (done || lia). done.
Qed.

(** ** Properties *)

(** C28: a frame built by [encode_frame] (server side, no mask) parses back,
    whatever follows it in the buffer: the header has FIN set, the opcode
    and the payload length of the frame, and the payload is the bytes after
    the header. *)
Theorem encode_parse_roundtrip {target : Target} op payload rest h :
  opcode_ok op -> bytes_ok payload -> zlen payload < 2 ^ 64 -> bytes_ok rest ->
  exists hs,
    parse_frame_header (encode_frame op payload false ++ rest) h
      = Ok (hs, mk_header true op false (zlen payload))
    /\ hs + zlen payload = zlen (encode_frame op payload false)
    /\ take (length payload) (drop (Z.to_nat hs) (encode_frame op payload false ++ rest)) = payload.
Proof.
  intros Hop Hp Hlen Hr. rewrite encode_frame_split, <- app_assoc.
  exists (zlen (header_bytes op (zlen payload) false)). split; [|split].
  - pose proof (zlen_nonneg payload). apply parse_header_bytes; [done|lia|].
    by apply Forall_app.
  - by rewrite zlen_app.
  - unfold zlen at 1. rewrite Nat2Z.id, drop_app_length. apply take_app_length.
Qed.

Lemma encode_parse_roundtrip_witness :
  exists hs,
    parse_frame_header (target := true) (encode_frame kText (replicate 200 120) false ++ [1])
      (mk_header false kPong true 7) = Ok (hs, mk_header true kText false 200)
    /\ hs + 200 = zlen (encode_frame kText (replicate 200 120) false).
Proof.
  destruct (encode_parse_roundtrip (target := true) kText (replicate 200 120) [1]
    (mk_header false kPong true 7)) as (hs & H1 & H2 & _).
  - split; [cbn; lia|reflexivity].
  - apply Forall_replicate. unfold is_u8. lia.
  - vm_compute. reflexivity.
  - repeat constructor; lia.
  - exists hs. split; [exact H1|exact H2].
Defined.

(** C29: [parse_frame_header] reads only inside its input, whatever the
    bytes; it returns 0 exactly when the header is incomplete, and
    otherwise a size of at most 14 with the header the bytes describe,
    which more input does not change. *)
Theorem parse_frame_header_total {target : Target} data h :
  bytes_ok data ->
  exists n hd, parse_frame_header data h = Ok (n, hd)
    /\ (n = 0 <-> match data with
                  | _ :: d1 :: rest => zlen rest + 2 < header_need d1
                  | _ => True
                  end)
    /\ (n <> 0 -> n <= zlen data /\ n <= 14
         /\ forall more, bytes_ok more -> parse_frame_header (data ++ more) h = Ok (n, hd)).
Proof.
  intros Hok. destruct data as [|d0 [|d1 rest]].
  1-2: exists 0, h; split; [done|]; split; [done|]; lia.
  destruct (parse_frame_header_spec d0 d1 rest h Hok) as (hd & -> & Hhd).
  pose proof (header_need_bounds d1). rewrite !zlen_cons.
  eexists _, hd. split; [done|]. split; [zcase|]. zcase. intros _.
  split; [lia|]. split; [lia|]. intros more Hmore. rewrite Hhd by lia.
  by apply parse_frame_header_app.
Qed.

Lemma parse_frame_header_total_witness :
  exists n hd, parse_frame_header (target := false) [0x82; 127; 0; 0; 0; 0; 0; 1; 0; 0]
      (mk_header false kText false 0) = Ok (n, hd)
    /\ n = 10 /\ payload_len hd = 65536.
Proof.
  destruct (parse_frame_header_total (target := false) [0x82; 127; 0; 0; 0; 0; 0; 1; 0; 0]
    (mk_header false kText false 0)) as (n & hd & H & _).
  - repeat constructor; lia.
  - exists n, hd. split; [exact H|]. vm_compute in H. injection H as <- <-. split; reflexivity.
Defined.

(** The parser does not depend on whether [char] is signed: x86 and ARM
    targets read the same header. *)
Theorem parse_frame_header_target_independent data h :
  bytes_ok data ->
  parse_frame_header (target := true) data h = parse_frame_header (target := false) data h.
Proof.
  intros Hok. destruct data as [|d0 [|d1 rest]]; [done|done|].
  inversion_clear Hok as [|? ? H0 Hok']. inversion_clear Hok' as [|? ? H1 _].
  unfold parse_frame_header. rewrite at_0, at_1. cbn [res_bind].
  by rewrite !(char_bits (target := true)), !(char_bits (target := false)) by (done || lia).
Qed.

Lemma parse_frame_header_target_independent_witness :
  parse_frame_header (target := true) [0x81; 0x85; 0x37; 0xfa; 0x21; 0x3d] (mk_header false kPong false 0)
  = parse_frame_header (target := false) [0x81; 0x85; 0x37; 0xfa; 0x21; 0x3d] (mk_header false kPong false 0).
Proof. apply parse_frame_header_target_independent. repeat constructor; lia. Defined.

(** The two encoders agree: [encode_frame_header] in a buffer of at
    least 10 bytes never writes outside it and leaves, before position
    [pos], exactly what [encode_frame] puts before the payload. *)
Theorem encoders_agree buf op payload mask :
  10 <= zlen buf ->
  exists buf' pos, encode_frame_header buf op (zlen payload) mask = Ok (buf', pos)
    /\ zlen buf' = zlen buf /\ 2 <= pos <= 10
    /\ encode_frame op payload mask = take (Z.to_nat pos) buf' ++ payload.
Proof.
  intros Hbuf. rewrite encode_frame_header_spec by done.
  pose proof (header_bytes_len op (zlen payload) mask) as Hl.
  eexists _, _. split; [done|].
  assert (2 <= zlen (header_bytes op (zlen payload) mask) <= 10) by (rewrite Hl; zcase).
  split; [len|]. split; [done|].
  rewrite encode_frame_split. f_equal. unfold zlen at 2. by rewrite Nat2Z.id, take_app_length.
Qed.

Lemma encoders_agree_witness :
  exists buf' pos, encode_frame_header (replicate 14 0) kBinary (zlen (replicate 300 7)) false = Ok (buf', pos)
    /\ encode_frame kBinary (replicate 300 7) false = take (Z.to_nat pos) buf' ++ replicate 300 7.
Proof.
  destruct (encoders_agree (replicate 14 0) kBinary (replicate 300 7) false) as (b & p & H & _ & _ & E).
  - vm_compute. discriminate.
  - exists b, p. split; [exact H|exact E].
Defined.

(** [unmask_payload] over the first bytes of a buffer xors byte [i]
    with key byte [i mod 4], leaves the rest of the buffer alone, and
    applied twice restores the payload. *)
Theorem unmask_involutive key data tail :
  length key = 4%nat -> bytes_ok key -> bytes_ok data ->
  exists out, unmask_payload (data ++ tail) (zlen data) key = Ok (out ++ tail)
    /\ zlen out = zlen data
    /\ (forall i b k, data !! i = Some b -> key !! (i mod 4)%nat = Some k -> out !! i = Some (Z.lxor b k))
    /\ unmask_payload (out ++ tail) (zlen out) key = Ok (data ++ tail).
Proof.
  intros Hk Hkok Hd. exists (mask_bytes key 0 data). unfold unmask_payload.
  rewrite !unmask_loop_spec by (done || lia). rewrite mask_bytes_involutive by done.
  split; [done|]. split; [apply mask_bytes_len|]. split; [|done].
  intros i b k Hb Hkey. eapply mask_bytes_lookup; [done|done|lia|done|].
  rewrite Z.add_0_l. change 4 with (Z.of_nat 4). by rewrite <- Nat2Z.inj_mod, Nat2Z.id.
Qed.

Lemma unmask_involutive_witness :
  unmask_payload [0x7f; 0x9f; 0x4d; 0x51; 0x58; 9] 5 [0x37; 0xfa; 0x21; 0x3d] = Ok (str "Hello" ++ [9])
  /\ exists out, unmask_payload (str "Hello" ++ [9]) 5 [0x37; 0xfa; 0x21; 0x3d] = Ok (out ++ [9])
     /\ unmask_payload (out ++ [9]) (zlen out) [0x37; 0xfa; 0x21; 0x3d] = Ok (str "Hello" ++ [9]).
Proof.
  split; [reflexivity|].
  destruct (unmask_involutive [0x37; 0xfa; 0x21; 0x3d] (str "Hello") [9]) as (out & H1 & _ & _ & H2).
  - reflexivity.
  - repeat constructor; lia.
  - by_decide.
  - exists out. split; [exact H1|exact H2].
Defined.
