(* ===== verification/Base64.v ===== *)
(** * Base64 (ewss.hpp, class [Base64])

    [encode] and [decode] as written, three bytes and four characters at a
    time, with the 256-entry decoding table of the source. *)
From S2P Require Import Prelude.
Open Scope ewss_scope.

Module Base64.

Definition kAlphabet : bytes :=
  str "ABCDEFGHIJKLMNOPQRSTUVWXYZabcdefghijklmnopqrstuvwxyz0123456789+/".

Definition pad : Z := 61. (* '=' *)

(** [kAlphabet[s]]; every index of the source is masked with [0x3F]. *)
Definition alphabet_at (s : Z) : Z := nth (Z.to_nat s) kAlphabet 0.

(** One iteration handles [data[i]], and [data[i + 1]], [data[i + 2]] when
    they are inside the input. *)
Fixpoint encode (data : bytes) : bytes :=
  match data with
  | [] => []
  | d0 :: rest0 =>
      let b := u32 (Z.shiftl d0 16) in
      match rest0 with
      | [] =>
          [alphabet_at (Z.land (Z.shiftr b 18) 0x3F); alphabet_at (Z.land (Z.shiftr b 12) 0x3F);
           pad; pad]
      | d1 :: rest1 =>
          let b := Z.lor b (u32 (Z.shiftl d1 8)) in
          match rest1 with
          | [] =>
              [alphabet_at (Z.land (Z.shiftr b 18) 0x3F); alphabet_at (Z.land (Z.shiftr b 12) 0x3F);
               alphabet_at (Z.land (Z.shiftr b 6) 0x3F); pad]
          | d2 :: rest2 =>
              let b := Z.lor b d2 in
              [alphabet_at (Z.land (Z.shiftr b 18) 0x3F); alphabet_at (Z.land (Z.shiftr b 12) 0x3F);
               alphabet_at (Z.land (Z.shiftr b 6) 0x3F); alphabet_at (Z.land b 0x3F)] ++ encode rest2
          end
      end
  end.

Definition kTable : list Z := [
  64; 64; 64; 64; 64; 64; 64; 64; 64; 64; 64; 64; 64; 64; 64; 64;
  64; 64; 64; 64; 64; 64; 64; 64; 64; 64; 64; 64; 64; 64; 64; 64;
  64; 64; 64; 64; 64; 64; 64; 64; 64; 64; 64; 62; 64; 64; 64; 63;
  52; 53; 54; 55; 56; 57; 58; 59; 60; 61; 64; 64; 64; 64; 64; 64;
  64;  0;  1;  2;  3;  4;  5;  6;  7;  8;  9; 10; 11; 12; 13; 14;
  15; 16; 17; 18; 19; 20; 21; 22; 23; 24; 25; 64; 64; 64; 64; 64;
  64; 26; 27; 28; 29; 30; 31; 32; 33; 34; 35; 36; 37; 38; 39; 40;
  41; 42; 43; 44; 45; 46; 47; 48; 49; 50; 51; 64; 64; 64; 64; 64;
  64; 64; 64; 64; 64; 64; 64; 64; 64; 64; 64; 64; 64; 64; 64; 64;
  64; 64; 64; 64; 64; 64; 64; 64; 64; 64; 64; 64; 64; 64; 64; 64;
  64; 64; 64; 64; 64; 64; 64; 64; 64; 64; 64; 64; 64; 64; 64; 64;
  64; 64; 64; 64; 64; 64; 64; 64; 64; 64; 64; 64; 64; 64; 64; 64;
  64; 64; 64; 64; 64; 64; 64; 64; 64; 64; 64; 64; 64; 64; 64; 64;
  64; 64; 64; 64; 64; 64; 64; 64; 64; 64; 64; 64; 64; 64; 64; 64;
  64; 64; 64; 64; 64; 64; 64; 64; 64; 64; 64; 64; 64; 64; 64; 64;
  64; 64; 64; 64; 64; 64; 64; 64; 64; 64; 64; 64; 64; 64; 64; 64].

(** [kTable[static_cast<uint8_t>(c)]] *)
Definition table_at (c : Z) : Z := nth (Z.to_nat (u8 c)) kTable 0.

Fixpoint decode_loop (encoded : bytes) : bytes :=
  match encoded with
  | e0 :: e1 :: e2 :: e3 :: rest =>
      let b := Z.lor (u32 (Z.shiftl (table_at e0) 18)) (u32 (Z.shiftl (table_at e1) 12)) in
      (if negb (e2 =? pad) then
         let b := Z.lor b (u32 (Z.shiftl (table_at e2) 6)) in
         if negb (e3 =? pad) then
           let b := Z.lor b (table_at e3) in
           [Z.land (Z.shiftr b 16) 0xFF; Z.land (Z.shiftr b 8) 0xFF; Z.land b 0xFF]
         else [Z.land (Z.shiftr b 16) 0xFF; Z.land (Z.shiftr b 8) 0xFF]
       else [Z.land (Z.shiftr b 16) 0xFF]) ++ decode_loop rest
  | _ => []
  end.

Definition decode (encoded : bytes) : bytes :=
  if negb (zlen encoded mod 4 =? 0) then [] else decode_loop encoded.

End Base64.

Import Base64.

(** ** Sextets *)

Lemma land_3f z : Z.land z 0x3F = z mod 64.
Proof. change 0x3F with (Z.ones 6). rewrite Z.land_ones by lia. done. Qed.

Definition sextet_ok (s : Z) : bool :=
  (table_at (alphabet_at s) =? s) && negb (alphabet_at s =? pad).

Lemma sextets_ok : forallb sextet_ok (seqZ 0 64) = true.
Proof. vm_compute. reflexivity. Qed.

(** The table inverts the alphabet, and no letter is the padding sign. *)
Lemma alphabet_table s : 0 <= s < 64 -> table_at (alphabet_at s) = s /\ alphabet_at s <> pad.
Proof.
  intros Hs. pose proof sextets_ok as H. rewrite forallb_forall in H.
  specialize (H s). rewrite <- list_elem_of_In, elem_of_seqZ in H.
  specialize (H ltac:(lia)). unfold sextet_ok in H.
  apply andb_true_iff in H as [?%Z.eqb_eq ?%negb_true_iff]. split; [done|]. by apply Z.eqb_neq.
Qed.

(** Splitting 24 bits in sextets and reading the letters back. *)
Lemma sextet_lookup z : table_at (alphabet_at (z mod 64)) = z mod 64.
Proof. apply alphabet_table. apply Z.mod_pos_bound. lia. Qed.

Lemma letter_not_pad z : (alphabet_at (z mod 64) =? pad) = false.
Proof. apply Z.eqb_neq. apply alphabet_table. apply Z.mod_pos_bound. lia. Qed.

(** The 24-bit group of three bytes. *)
Lemma group_value d0 d1 d2 :
  is_u8 d0 -> is_u8 d1 -> is_u8 d2 ->
  Z.lor (Z.lor (u32 (Z.shiftl d0 16)) (u32 (Z.shiftl d1 8))) d2 = d0 * 65536 + d1 * 256 + d2.
Proof.
  unfold is_u8. intros H0 H1 H2.
  rewrite !u32_small by (rewrite Z.shiftl_mul_pow2; lia).
  replace (Z.lor (Z.shiftl d0 16) (Z.shiftl d1 8)) with (Z.shiftl (d0 * 256 + d1) 8).
  - rewrite lor_shiftl_low by lia. lia.
  - rewrite lor_shiftl_low by (rewrite ?Z.shiftl_mul_pow2 by lia; lia).
    rewrite !Z.shiftl_mul_pow2 by lia. lia.
Qed.

(** The 24-bit group of four sextets. *)
Lemma sextet_group s0 s1 s2 s3 :
  0 <= s0 < 64 -> 0 <= s1 < 64 -> 0 <= s2 < 64 -> 0 <= s3 < 64 ->
  Z.lor (Z.lor (Z.lor (u32 (Z.shiftl s0 18)) (u32 (Z.shiftl s1 12))) (u32 (Z.shiftl s2 6))) s3
  = s0 * 262144 + s1 * 4096 + s2 * 64 + s3.
Proof.
  intros H0 H1 H2 H3. rewrite !u32_small by (rewrite Z.shiftl_mul_pow2; lia).
  replace (Z.lor (Z.lor (Z.shiftl s0 18) (Z.shiftl s1 12)) (Z.shiftl s2 6))
    with (Z.shiftl (s0 * 4096 + s1 * 64 + s2) 6).
  - rewrite lor_shiftl_low by lia. lia.
  - replace (Z.lor (Z.shiftl s0 18) (Z.shiftl s1 12)) with (Z.shiftl (s0 * 64 + s1) 12).
    + rewrite lor_shiftl_low by (rewrite ?Z.shiftl_mul_pow2 by lia; lia).
      rewrite !Z.shiftl_mul_pow2 by lia. lia.
    + rewrite lor_shiftl_low by (rewrite ?Z.shiftl_mul_pow2 by lia; lia).
      rewrite !Z.shiftl_mul_pow2 by lia. lia.
Qed.

(** Induction in steps of three. *)
Lemma list_ind3 {A} (P : list A -> Prop) :
  P [] -> (forall a, P [a]) -> (forall a b, P [a; b]) ->
  (forall a b c l, P l -> P (a :: b :: c :: l)) -> forall l, P l.
Proof.
  intros H0 H1 H2 H3. fix IH 1. intros [|a [|b [|c l]]]; [done|apply H1|apply H2|].
  apply H3, IH.
Qed.

Lemma group_value1 d0 : is_u8 d0 -> u32 (Z.shiftl d0 16) = d0 * 65536.
Proof. unfold is_u8. intros H. rewrite u32_small; rewrite Z.shiftl_mul_pow2; lia. Qed.

Lemma group_value2 d0 d1 :
  is_u8 d0 -> is_u8 d1 -> Z.lor (u32 (Z.shiftl d0 16)) (u32 (Z.shiftl d1 8)) = d0 * 65536 + d1 * 256.
Proof.
  intros H0 H1. rewrite <- (Z.lor_0_r (Z.lor _ _)), group_value by (done || unfold is_u8; lia). lia.
Qed.

Lemma sextet_group3 s0 s1 s2 :
  0 <= s0 < 64 -> 0 <= s1 < 64 -> 0 <= s2 < 64 ->
  Z.lor (Z.lor (u32 (Z.shiftl s0 18)) (u32 (Z.shiftl s1 12))) (u32 (Z.shiftl s2 6))
  = s0 * 262144 + s1 * 4096 + s2 * 64.
Proof. intros. rewrite <- (Z.lor_0_r (Z.lor _ (u32 (Z.shiftl s2 6)))), sextet_group by lia. lia. Qed.

Lemma sextet_group2 s0 s1 :
  0 <= s0 < 64 -> 0 <= s1 < 64 ->
  Z.lor (u32 (Z.shiftl s0 18)) (u32 (Z.shiftl s1 12)) = s0 * 262144 + s1 * 4096.
Proof.
  intros. rewrite <- (Z.lor_0_r (Z.lor _ _)). change 0 with (u32 (Z.shiftl 0 6)) at 1.
  rewrite sextet_group3 by lia. lia.
Qed.

(** Four sextets of a 24-bit number. *)
Lemma sextets_recombine x :
  0 <= x < 2 ^ 24 ->
  (x / 2 ^ 18) mod 64 * 262144 + (x / 2 ^ 12) mod 64 * 4096 + (x / 2 ^ 6) mod 64 * 64 + x mod 64 = x.
Proof. intros Hx. Z.div_mod_to_equations. lia. Qed.

(** Normalise the shifts and masks of both routines to division. *)
Ltac to_div :=
  rewrite ?land_3f, ?land_ff, ?Z.shiftr_div_pow2 by lia;
  rewrite ?letter_not_pad, ?sextet_lookup; cbn [negb].

Lemma decode_encode_chunk3 a b c l :
  is_u8 a -> is_u8 b -> is_u8 c ->
  decode_loop (encode (a :: b :: c :: l)) = [a; b; c] ++ decode_loop (encode l).
Proof.
  intros Ha Hb Hc. cbn [encode app]. rewrite group_value by done.
  set (x := a * 65536 + b * 256 + c). cbn [decode_loop].
  assert (Hx : 0 <= x < 2 ^ 24) by (unfold is_u8 in *; lia).
  to_div. rewrite sextet_group by (apply Z.mod_pos_bound; lia). rewrite sextets_recombine by done.
  unfold is_u8 in *. cbn [app]. f_equal; [|f_equal; [|f_equal]]; subst x; Z.div_mod_to_equations; lia.
Qed.

Lemma decode_encode_chunk2 a b :
  is_u8 a -> is_u8 b -> decode_loop (encode [a; b]) = [a; b].
Proof.
  intros Ha Hb. cbn [encode]. rewrite group_value2 by done. cbn [decode_loop].
  to_div. cbn [Z.eqb Pos.eqb pad negb app]. rewrite sextet_group3 by (apply Z.mod_pos_bound; lia).
  unfold is_u8 in *. f_equal; [|f_equal]; Z.div_mod_to_equations; lia.
Qed.

Lemma decode_encode_chunk1 a : is_u8 a -> decode_loop (encode [a]) = [a].
Proof.
  intros Ha. cbn [encode]. rewrite group_value1 by done. cbn [decode_loop].
  to_div. cbn [Z.eqb Pos.eqb pad negb app]. rewrite sextet_group2 by (apply Z.mod_pos_bound; lia).
  unfold is_u8 in *. f_equal. Z.div_mod_to_equations; lia.
Qed.

Lemma encode_length data : zlen (encode data) = (zlen data + 2) / 3 * 4.
Proof.
  induction data as [|a|a b|a b c l IH] using list_ind3; [done|done|done|].
  cbn [encode app]. rewrite !zlen_cons, IH.
  replace (zlen l + 1 + 1 + 1 + 2) with (zlen l + 2 + 1 * 3) by lia. rewrite Z.div_add by lia. lia.
Qed.

(** No character of an encoding is NUL or blank. *)
Lemma alphabet_range z : 43 <= alphabet_at (z mod 64) <= 122.
Proof.
  assert (H : forallb (fun s => (43 <=? alphabet_at s) && (alphabet_at s <=? 122)) (seqZ 0 64) = true)
    by (vm_compute; reflexivity).
  rewrite forallb_forall in H. specialize (H (z mod 64)). pose proof (Z.mod_pos_bound z 64).
  assert (E : List.In (z mod 64) (seqZ 0 64)) by (apply list_elem_of_In, elem_of_seqZ; lia).
  apply H, andb_true_iff in E as [?%Z.leb_le ?%Z.leb_le]. lia.
Qed.

Lemma encode_printable data : Forall (fun c => 43 <= c <= 122) (encode data).
Proof.
  assert (Hp : 43 <= pad <= 122) by (vm_compute; split; discriminate).
  induction data as [|a|a b|a b c l IH] using list_ind3; cbn [encode app];
    rewrite ?land_3f; repeat constructor; try apply alphabet_range; done.
Qed.

(** ** Properties *)

(** C36: decoding an encoding gives back the bytes, for every byte string;
    the encoding has four characters per started group of three bytes. *)
Theorem base64_roundtrip data :
  bytes_ok data ->
  decode (encode data) = data /\ zlen (encode data) = (zlen data + 2) / 3 * 4.
Proof.
  intros Hok. split; [|apply encode_length].
  unfold decode. rewrite encode_length, Z.mod_mul by lia. cbn [Z.eqb negb].
  induction data as [|a|a b|a b c l IH] using list_ind3; [done| | |].
  - apply Forall_cons in Hok as [? _]. by apply decode_encode_chunk1.
  - apply Forall_cons in Hok as [? [? _]%Forall_cons]. by apply decode_encode_chunk2.
  - apply Forall_cons in Hok as [? [? [? Hl]%Forall_cons]%Forall_cons].
    rewrite decode_encode_chunk3 by done. by rewrite IH.
Qed.

Lemma base64_roundtrip_witness :
  encode (str "Hello, WebSocket!") = str "SGVsbG8sIFdlYlNvY2tldCE="
  /\ decode (encode (str "Hello, WebSocket!")) = str "Hello, WebSocket!".
Proof.
  split; [vm_compute; reflexivity|]. apply (base64_roundtrip (str "Hello, WebSocket!")). by_decide.
Defined.
