(* ===== verification/Sha1.v ===== *)
(** * SHA-1 (ewss.hpp, class [SHA1])

    [Sha1] holds the streaming implementation: the 64-byte block buffer, the
    chaining words, [update], [finalize], [process_block].  [Fips] is the
    message-level definition of FIPS 180-4 (padding, blocks, the rotations
    and round functions with exclusive or, addition modulo 2^32).  The
    theorem shows that feeding any pieces to [update] and calling [finalize]
    computes the standard's digest of their concatenation. *)
From S2P Require Import Prelude.
Open Scope ewss_scope.

Module Sha1.

Record SHA1 := mk_sha1 {
  h_ : list Z;
  buffer_ : bytes;
  buf_pos_ : Z;
  total_bytes_ : Z;
}.

Definition h_init : list Z := [0x67452301; 0xEFCDAB89; 0x98BADCFE; 0x10325476; 0xC3D2E1F0].

Definition init : SHA1 := mk_sha1 h_init (replicate 64 0) 0 0.

Definition rol (x n : Z) : Z := Z.lor (u32 (Z.shiftl x n)) (Z.shiftr x (32 - n)).

(** [w[0..15]]: the words of the block, big-endian. *)
Definition block_word (block : bytes) (i : nat) : Z :=
  let at_ j := nth j block 0 in
  Z.lor (Z.lor (Z.lor (u32 (Z.shiftl (at_ (i * 4)%nat) 24)) (u32 (Z.shiftl (at_ (i * 4 + 1)%nat) 16)))
               (u32 (Z.shiftl (at_ (i * 4 + 2)%nat) 8)))
        (at_ (i * 4 + 3)%nat).

(** [w[16..79]]: [n] more words after the [i] words of [w]. *)
Fixpoint extend (n i : nat) (w : list Z) : list Z :=
  match n with
  | O => w
  | S n' =>
      let at_ j := nth j w 0 in
      extend n' (S i)
        (w ++ [rol (Z.lxor (Z.lxor (Z.lxor (at_ (i - 3)%nat) (at_ (i - 8)%nat)) (at_ (i - 14)%nat))
                           (at_ (i - 16)%nat)) 1])
  end.

Definition schedule (block : bytes) : list Z := extend 64 16 (block_word block <$> seq 0 16).

Definition vars : Type := Z * Z * Z * Z * Z.

(** One iteration of the 80-round loop. *)
Definition round (i : nat) (wi : Z) (v : vars) : vars :=
  let '(a, b, c, d, e) := v in
  let '(f, k) :=
    if Nat.ltb i 20 then (Z.lor (Z.land b c) (Z.land (u32 (Z.lnot b)) d), 0x5A827999)
    else if Nat.ltb i 40 then (Z.lxor (Z.lxor b c) d, 0x6ED9EBA1)
    else if Nat.ltb i 60 then
      (Z.lor (Z.lor (Z.land b c) (Z.land b d)) (Z.land c d), 0x8F1BBCDC)
    else (Z.lxor (Z.lxor b c) d, 0xCA62C1D6) in
  let temp := u32 (u32 (u32 (u32 (rol a 5 + f) + e) + k) + wi) in
  (temp, a, rol b 30, c, d).

Fixpoint rounds (i : nat) (w : list Z) (v : vars) : vars :=
  match w with
  | [] => v
  | wi :: w' => rounds (S i) w' (round i wi v)
  end.

Definition process_block (h : list Z) (block : bytes) : list Z :=
  let at_ j := nth j h 0 in
  let '(a, b, c, d, e) :=
    rounds 0 (schedule block) (at_ 0%nat, at_ 1%nat, at_ 2%nat, at_ 3%nat, at_ 4%nat) in
  [u32 (at_ 0%nat + a); u32 (at_ 1%nat + b); u32 (at_ 2%nat + c); u32 (at_ 3%nat + d);
   u32 (at_ 4%nat + e)].

(** [buffer_[buf_pos_++] = x] *)
Definition put (buf : bytes) (pos x : Z) : Res (bytes * Z) :=
  if pos <? zlen buf then Ok (<[Z.to_nat pos := x]> buf, u32 (pos + 1)) else Undefined.

Fixpoint update (data : bytes) (s : SHA1) : Res SHA1 :=
  match data with
  | [] => Ok s
  | x :: data' =>
      let! (buf, pos) := put (buffer_ s) (buf_pos_ s) x in
      let total := u64 (total_bytes_ s + 1) in
      update data'
        (if pos =? 64 then mk_sha1 (process_block (h_ s) buf) buf 0 total
         else mk_sha1 (h_ s) buf pos total)
  end.

(** [while (buf_pos_ < limit) buffer_[buf_pos_++] = 0], [n] iterations. *)
Fixpoint zero_fill (n : nat) (buf : bytes) (pos : Z) : Res (bytes * Z) :=
  match n with
  | O => Ok (buf, pos)
  | S n' => let! (buf, pos) := put buf pos 0 in zero_fill n' buf pos
  end.

(** [for (int i = 7; i >= 0; --i) buffer_[56 + (7 - i)] = ...] *)
Fixpoint put_bits (n : nat) (total_bits : Z) (buf : bytes) : bytes :=
  match n with
  | O => buf
  | S i =>
      put_bits i total_bits
        (<[(56 + (7 - i))%nat := u8 (Z.land (Z.shiftr total_bits (Z.of_nat i * 8)) 0xFF)]> buf)
  end.

(** [result[i * 4 .. i * 4 + 3]] *)
Definition word_bytes (x : Z) : bytes :=
  [u8 (Z.land (Z.shiftr x 24) 0xFF); u8 (Z.land (Z.shiftr x 16) 0xFF);
   u8 (Z.land (Z.shiftr x 8) 0xFF); u8 (Z.land x 0xFF)].

Definition finalize (s : SHA1) : Res bytes :=
  let! (buf, pos) := put (buffer_ s) (buf_pos_ s) 0x80 in
  let! (h, buf, pos) :=
    (if 56 <? pos then
       let! (buf, pos) := zero_fill (Z.to_nat (64 - pos)) buf pos in
       Ok (process_block (h_ s) buf, buf, 0)
     else Ok (h_ s, buf, pos)) in
  let! (buf, pos) := zero_fill (Z.to_nat (56 - pos)) buf pos in
  let total_bits := u64 (total_bytes_ s * 8) in
  let buf := put_bits 8 total_bits buf in
  let h := process_block h buf in
  Ok (mjoin ((fun i => word_bytes (nth i h 0)) <$> seq 0 5)).

Definition compute (data : bytes) : Res bytes :=
  let! s := update data init in finalize s.

Definition hex_digit (n : Z) : Z := nth (Z.to_nat n) (str "0123456789abcdef") 0.

Definition hex_digest (input : bytes) : Res bytes :=
  let! hash := compute input in
  Ok (mjoin ((fun byte => [hex_digit (Z.shiftr byte 4); hex_digit (Z.land byte 0x0f)]) <$> hash)).

End Sha1.

(** ** FIPS 180-4 *)
Module Fips.

Definition rotl (n x : Z) : Z := (x * 2 ^ n) mod 2 ^ 32 + x / 2 ^ (32 - n).

Definition ch (x y z : Z) : Z := Z.lxor (Z.land x y) (Z.ldiff z x).
Definition parity (x y z : Z) : Z := Z.lxor (Z.lxor x y) z.
Definition maj (x y z : Z) : Z := Z.lxor (Z.lxor (Z.land x y) (Z.land x z)) (Z.land y z).

Definition f (t : nat) : Z -> Z -> Z -> Z :=
  if decide (t < 20)%nat then ch else if decide (t < 40)%nat then parity
  else if decide (t < 60)%nat then maj else parity.

Definition K (t : nat) : Z :=
  if decide (t < 20)%nat then 0x5a827999 else if decide (t < 40)%nat then 0x6ed9eba1
  else if decide (t < 60)%nat then 0x8f1bbcdc else 0xca62c1d6.

(** [M] is 16 big-endian words; [W t] for [t >= 16] is the rotated
    exclusive or of four earlier words. *)
Definition words (block : bytes) : list Z :=
  (fun i => be_value (take 4 (drop (4 * i) block))) <$> seq 0 16.

Fixpoint expand (n : nat) (W : list Z) : list Z :=
  match n with
  | O => W
  | S n' =>
      let t := length W in
      let at_ j := nth j W 0 in
      expand n' (W ++ [rotl 1 (Z.lxor (at_ (t - 3)%nat)
                  (Z.lxor (at_ (t - 8)%nat) (Z.lxor (at_ (t - 14)%nat) (at_ (t - 16)%nat))))])
  end.

Fixpoint steps (t : nat) (W : list Z) (v : Z * Z * Z * Z * Z) : Z * Z * Z * Z * Z :=
  match W with
  | [] => v
  | w :: W' =>
      let '(a, b, c, d, e) := v in
      let T := (rotl 5 a + f t b c d + e + K t + w) mod 2 ^ 32 in
      steps (S t) W' (T, a, rotl 30 b, c, d)
  end.

Definition H0 : list Z := [0x67452301; 0xefcdab89; 0x98badcfe; 0x10325476; 0xc3d2e1f0].

Definition block (H : list Z) (M : bytes) : list Z :=
  match H with
  | [h0; h1; h2; h3; h4] =>
      let '(a, b, c, d, e) := steps 0 (expand 64 (words M)) (h0, h1, h2, h3, h4) in
      [(h0 + a) mod 2 ^ 32; (h1 + b) mod 2 ^ 32; (h2 + c) mod 2 ^ 32; (h3 + d) mod 2 ^ 32;
       (h4 + e) mod 2 ^ 32]
  | _ => []
  end.

(** [n] bytes of a number, big-endian. *)
Fixpoint be_bytes (n : nat) (x : Z) : bytes :=
  match n with O => [] | S n' => (x / 256 ^ Z.of_nat n') mod 256 :: be_bytes n' x end.

(** A one bit, zeros up to 448 modulo 512 bits, the bit length on 64 bits. *)
Definition pad (msg : bytes) : bytes :=
  msg ++ [0x80] ++ replicate (Z.to_nat ((55 - zlen msg) mod 64)) 0 ++ be_bytes 8 (8 * zlen msg).

Fixpoint chunks (fuel : nat) (l : bytes) : list bytes :=
  match fuel, l with
  | _, [] => []
  | O, _ => []
  | S fuel', _ => take 64 l :: chunks fuel' (drop 64 l)
  end.

Definition sha1 (msg : bytes) : bytes :=
  mjoin (be_bytes 4 <$> foldl block H0 (chunks (length (pad msg)) (pad msg))).

End Fips.

Example sha1_empty :
  Sha1.hex_digest [] = Ok (str "da39a3ee5e6b4b0d3255bfef95601890afd80709").
Proof. vm_compute. reflexivity. Qed.

Example fips_abc :
  Fips.sha1 (str "abc") = [0xa9; 0x99; 0x3e; 0x36; 0x47; 0x06; 0x81; 0x6a; 0xba; 0x3e; 0x25; 0x71;
                           0x78; 0x50; 0xc2; 0x6c; 0x9c; 0xd0; 0xd8; 0x9d].
Proof. vm_compute. reflexivity. Qed.

(** ** Words *)

Lemma u32_testbit z n :
  0 <= n -> Z.testbit (u32 z) n = (n <? 32) && Z.testbit z n.
Proof.
  intros Hn. unfold u32. destruct (Z.ltb_spec n 32).
  - by rewrite Z.mod_pow2_bits_low by lia.
  - by rewrite Z.mod_pow2_bits_high by lia.
Qed.

Lemma is_u32_bits z : 0 <= z -> (forall n, 32 <= n -> Z.testbit z n = false) -> is_u32 z.
Proof.
  intros Hz Hb. split; [done|]. destruct (Z.ltb_spec z (2 ^ 32)); [done|exfalso].
  assert (32 <= Z.log2 z) by (apply Z.log2_le_pow2; lia).
  pose proof (Z.bit_log2 z ltac:(lia)) as Hl. by rewrite Hb in Hl.
Qed.

Lemma lxor_u32 a b : is_u32 a -> is_u32 b -> is_u32 (Z.lxor a b).
Proof.
  intros Ha Hb. unfold is_u32 in Ha, Hb. apply is_u32_bits; [apply Z.lxor_nonneg; lia|].
  intros n Hn. rewrite Z.lxor_spec, (testbit_high a 32), (testbit_high b 32) by lia. done.
Qed.

Lemma rol_rotl x n : is_u32 x -> 0 < n < 32 -> Sha1.rol x n = Fips.rotl n x.
Proof.
  unfold is_u32. intros Hx Hn. unfold Sha1.rol, Fips.rotl, u32.
  rewrite Z.shiftl_mul_pow2, Z.shiftr_div_pow2 by lia.
  assert (H32 : 2 ^ 32 = 2 ^ (32 - n) * 2 ^ n) by (rewrite <- Z.pow_add_r by lia; f_equal; lia).
  rewrite H32 at 1 2. rewrite Z.mul_mod_distr_r by (apply Z.pow_nonzero; lia).
  rewrite <- (Z.shiftl_mul_pow2 (x mod _)) by lia.
  rewrite lor_shiftl_low; [|lia|].
  - by rewrite Z.shiftl_mul_pow2 by lia.
  - split; [apply Z.div_pos; [lia|apply Z.pow_pos_nonneg; lia]|].
    apply Z.div_lt_upper_bound; [apply Z.pow_pos_nonneg; lia|]. rewrite <- H32. lia.
Qed.

Lemma rotl_u32 x n : is_u32 x -> 0 < n < 32 -> is_u32 (Fips.rotl n x).
Proof.
  unfold is_u32, Fips.rotl. intros Hx Hn.
  assert (H32 : 2 ^ 32 = 2 ^ (32 - n) * 2 ^ n) by (rewrite <- Z.pow_add_r by lia; f_equal; lia).
  assert (0 < 2 ^ n) by (apply Z.pow_pos_nonneg; lia).
  assert (0 < 2 ^ (32 - n)) by (apply Z.pow_pos_nonneg; lia).
  rewrite H32. rewrite Z.mul_mod_distr_r by lia.
  pose proof (Z.mod_pos_bound x (2 ^ (32 - n)) ltac:(lia)).
  assert (0 <= x / 2 ^ (32 - n) < 2 ^ n).
  { split; [by apply Z.div_pos; lia|]. apply Z.div_lt_upper_bound; [lia|]. rewrite <- H32. lia. }
  nia.
Qed.

Lemma ch_eq b c d : is_u32 d ->
  Z.lor (Z.land b c) (Z.land (u32 (Z.lnot b)) d) = Fips.ch b c d.
Proof.
  intros Hd. unfold Fips.ch. apply Z.bits_inj'. intros n Hn.
  rewrite Z.lor_spec, Z.lxor_spec, !Z.land_spec, Z.ldiff_spec, u32_testbit, Z.lnot_spec by done.
  destruct (Z.ltb_spec n 32); [|rewrite (testbit_high d 32) by (unfold is_u32 in *; lia)]; btauto.
Qed.

Lemma maj_eq b c d :
  Z.lor (Z.lor (Z.land b c) (Z.land b d)) (Z.land c d) = Fips.maj b c d.
Proof.
  unfold Fips.maj. apply Z.bits_inj'. intros n Hn.
  rewrite !Z.lor_spec, !Z.lxor_spec, !Z.land_spec. btauto.
Qed.

(** ** Message schedule *)

Lemma take4_drop (l : bytes) k :
  (k + 4 <= length l)%nat ->
  take 4 (drop k l) = [nth k l 0; nth (k + 1) l 0; nth (k + 2) l 0; nth (k + 3) l 0].
Proof.
  intros Hk. apply list_eq_same_length with 4%nat; [done|len|].
  intros i x y Hi Hx Hy.
  rewrite lookup_take_lt, lookup_drop in Hx by done. apply nth_lookup_Some with (d := 0) in Hx.
  destruct i as [|[|[|[|i]]]]; [..|lia]; cbn in Hy; injection Hy as <-; rewrite <- Hx; f_equal; lia.
Qed.

Lemma word_value b0 b1 b2 b3 :
  is_u8 b0 -> is_u8 b1 -> is_u8 b2 -> is_u8 b3 ->
  Z.lor (Z.lor (Z.lor (u32 (Z.shiftl b0 24)) (u32 (Z.shiftl b1 16))) (u32 (Z.shiftl b2 8))) b3
  = be_value [b0; b1; b2; b3].
Proof.
  unfold is_u8. intros H0 H1 H2 H3. rewrite !u32_small by (rewrite Z.shiftl_mul_pow2; lia).
  replace (Z.lor (Z.shiftl b0 24) (Z.shiftl b1 16)) with (Z.shiftl (b0 * 256 + b1) 16)
    by (rewrite lor_shiftl_low by (rewrite ?Z.shiftl_mul_pow2 by lia; lia);
        rewrite !Z.shiftl_mul_pow2 by lia; lia).
  replace (Z.lor (Z.shiftl (b0 * 256 + b1) 16) (Z.shiftl b2 8))
    with (Z.shiftl ((b0 * 256 + b1) * 256 + b2) 8)
    by (rewrite lor_shiftl_low by (rewrite ?Z.shiftl_mul_pow2 by lia; lia);
        rewrite !Z.shiftl_mul_pow2 by lia; lia).
  rewrite lor_shiftl_low by lia. unfold be_value. cbn [foldl]. lia.
Qed.

Lemma nth_byte l k : bytes_ok l -> is_u8 (nth k l 0).
Proof.
  intros Hl. destruct (nth_in_or_default k l 0) as [Hin | ->]; [|unfold is_u8; lia].
  rewrite List.Forall_forall in Hl. by apply Hl.
Qed.

Lemma block_words block :
  bytes_ok block -> length block = 64%nat ->
  Sha1.block_word block <$> seq 0 16 = Fips.words block /\ Forall is_u32 (Fips.words block).
Proof.
  intros Hok Hlen. unfold Fips.words. split.
  - apply list_fmap_ext. intros j i [-> Hi]%lookup_seq. cbn [Nat.add].
    rewrite take4_drop by lia. unfold Sha1.block_word. rewrite !(Nat.mul_comm _ 4).
    by rewrite word_value by (by apply nth_byte).
  - apply Forall_fmap, Forall_forall. intros i [_ Hi]%elem_of_seq. cbn [compose] in *. unfold compose.
    assert (bytes_ok (take 4 (drop (4 * i) block))) as Hw by (by apply Forall_take, Forall_drop).
    apply be_value_range in Hw. replace (zlen _) with 4 in Hw by len. done.
Qed.

Lemma nth_u32 l k : Forall is_u32 l -> is_u32 (nth k l 0).
Proof.
  intros Hl. destruct (nth_in_or_default k l 0) as [Hin | ->]; [|unfold is_u32; lia].
  rewrite List.Forall_forall in Hl. by apply Hl.
Qed.

Lemma extend_expand n : forall i w, i = length w -> Forall is_u32 w ->
  Sha1.extend n i w = Fips.expand n w /\ Forall is_u32 (Fips.expand n w).
Proof.
  induction n as [|n IH]; intros i w -> Hw; [done|]. cbn [Sha1.extend Fips.expand].
  rewrite !Z.lxor_assoc, rol_rotl by (try lia; repeat apply lxor_u32; by apply nth_u32).
  apply IH; [len|]. apply Forall_app. split; [done|]. constructor; [|done].
  apply rotl_u32; [|lia]. repeat apply lxor_u32; by apply nth_u32.
Qed.

(** ** Rounds *)

Definition vars_ok (v : Sha1.vars) : Prop :=
  let '(a, b, c, d, e) := v in is_u32 a /\ is_u32 b /\ is_u32 c /\ is_u32 d /\ is_u32 e.

Lemma sum_u32 a b c d e :
  u32 (u32 (u32 (u32 (a + b) + c) + d) + e) = (a + b + c + d + e) mod 2 ^ 32.
Proof.
  unfold u32. by rewrite (Zplus_mod_idemp_l (a + b)), (Zplus_mod_idemp_l (a + b + c)),
    (Zplus_mod_idemp_l (a + b + c + d)).
Qed.

Lemma rounds_steps w : forall t v, vars_ok v ->
  Sha1.rounds t w v = Fips.steps t w v /\ vars_ok (Fips.steps t w v).
Proof.
  induction w as [|wi w IH]; intros t [[[[a b] c] d] e] Hv; [done|].
  cbn [Sha1.rounds Fips.steps].
  replace (Sha1.round t wi (a, b, c, d, e)) with
    ((Fips.rotl 5 a + Fips.f t b c d + e + Fips.K t + wi) mod 2 ^ 32, a, Fips.rotl 30 b, c, d).
  { apply IH. destruct Hv as (Ha & Hb & Hc & Hd & He). cbn.
    split; [apply Z.mod_pos_bound; lia|]. split; [done|].
    split; [apply rotl_u32; [done|lia]|]. done. }
  destruct Hv as (Ha & Hb & Hc & Hd & He). unfold Sha1.round, Fips.f, Fips.K.
  rewrite ch_eq, maj_eq, !rol_rotl by (done || lia).
  destruct (Nat.ltb_spec t 20), (Nat.ltb_spec t 40), (Nat.ltb_spec t 60);
    repeat case_decide; try lia; by rewrite sum_u32.
Qed.

(** Five chaining words. *)
Definition chain_ok (h : list Z) : Prop := length h = 5%nat /\ Forall is_u32 h.

Lemma process_block_fips h block :
  chain_ok h -> bytes_ok block -> length block = 64%nat ->
  Sha1.process_block h block = Fips.block h block /\ chain_ok (Fips.block h block).
Proof.
  intros [Hlen Hh] Hok Hb. destruct h as [|h0 [|h1 [|h2 [|h3 [|h4 [|]]]]]]; try done.
  destruct (block_words block Hok Hb) as [Hw Hwok].
  destruct (extend_expand 64 16 (Fips.words block)) as [He Heok]; [done|done|].
  unfold Sha1.process_block, Fips.block, Sha1.schedule. rewrite Hw, He. cbn [nth].
  clear Hw He Heok.
  apply Forall_cons in Hh as [? [? [? [? [? _]%Forall_cons]%Forall_cons]%Forall_cons]%Forall_cons].
  generalize (Fips.expand 64 (Fips.words block)). intros W.
  destruct (rounds_steps W 0 (h0, h1, h2, h3, h4)) as [-> Hv]; [done|].
  destruct (Fips.steps _ _ _) as [[[[a b] c] d] e].
  split; [done|]. split; [done|]. repeat constructor; apply Z.mod_pos_bound; lia.
Qed.

#[local] Opaque Sha1.process_block Fips.block.

(** ** The block buffer *)

Lemma put_spec (rest : bytes) y tail x :
  zlen rest < 2 ^ 31 ->
  Sha1.put (rest ++ y :: tail) (zlen rest) x = Ok ((rest ++ [x]) ++ tail, zlen (rest ++ [x])).
Proof.
  intros Hr. unfold Sha1.put. pose proof (zlen_nonneg rest).
  destruct (Z.ltb_spec (zlen rest) (zlen (rest ++ y :: tail))) as [_|Hge]; [|exfalso; len].
  rewrite u32_small by lia. f_equal. f_equal; [|len].
  rewrite insert_app_r_alt by len. rewrite <- app_assoc. f_equal.
  by replace (Z.to_nat (zlen rest) - length rest)%nat with 0%nat by len.
Qed.

Lemma zero_fill_spec n : forall (rest tail : bytes),
  (n <= length tail)%nat -> zlen rest + zlen tail < 2 ^ 31 ->
  Sha1.zero_fill n (rest ++ tail) (zlen rest)
  = Ok ((rest ++ replicate n 0) ++ drop n tail, zlen rest + Z.of_nat n).
Proof.
  induction n as [|n IH]; intros rest tail Hn Hb.
  { cbn. rewrite app_nil_r, drop_0. do 2 f_equal. lia. }
  destruct tail as [|y tail]; [cbn in Hn; lia|]. pose proof (zlen_nonneg tail).
  rewrite zlen_cons in Hb. cbn [Sha1.zero_fill]. rewrite put_spec by lia. cbn [res_bind].
  rewrite IH by (rewrite ?zlen_app, ?zlen_cons, ?zlen_nil; cbn in Hn; lia).
  cbn [replicate drop]. rewrite <- (app_assoc rest [0]). do 2 f_equal. len.
Qed.

Lemma put_bits_spec n bits : forall (pre don t : bytes),
  length pre = 56%nat -> (length don + n = 8)%nat -> length t = n ->
  Sha1.put_bits n bits (pre ++ don ++ t) = pre ++ don ++ Fips.be_bytes n bits.
Proof.
  induction n as [|n IH]; intros pre don t Hp Hd Ht; [destruct t; [done|done]|].
  destruct t as [|y t]; [done|]. cbn [Sha1.put_bits Fips.be_bytes].
  rewrite u8_land_ff, Z.shiftr_div_pow2 by lia.
  replace (2 ^ (Z.of_nat n * 8)) with (256 ^ Z.of_nat n)
    by (change 256 with (2 ^ 8); rewrite <- Z.pow_mul_r by lia; f_equal; lia).
  rewrite insert_app_r_alt, insert_app_r_alt by lia.
  replace (56 + (7 - n) - length pre - length don)%nat with 0%nat by lia. cbn [insert list_insert].
  specialize (IH pre (don ++ [(bits / 256 ^ Z.of_nat n) mod 256]) t).
  rewrite <- !app_assoc in IH. cbn [app] in IH. apply IH; [done|len|cbn in Ht; lia].
Qed.

Lemma word_bytes_be x : Sha1.word_bytes x = Fips.be_bytes 4 x.
Proof. unfold Sha1.word_bytes. rewrite !u8_land_ff, !Z.shiftr_div_pow2 by lia. cbn. by rewrite Z.div_1_r. Qed.

Lemma be_bytes_length n x : length (Fips.be_bytes n x) = n.
Proof. induction n; cbn; auto. Qed.

Lemma be_bytes_ok n x : bytes_ok (Fips.be_bytes n x).
Proof. induction n; cbn; constructor; [apply Z.mod_pos_bound; lia|done]. Qed.

Lemma digest_bytes h : length h = 5%nat ->
  mjoin ((fun i => Sha1.word_bytes (nth i h 0)) <$> seq 0 5) = mjoin (Fips.be_bytes 4 <$> h).
Proof.
  intros Hh. destruct h as [|h0 [|h1 [|h2 [|h3 [|h4 [|]]]]]]; try done.
  cbn [seq fmap list_fmap nth]. by rewrite !word_bytes_be.
Qed.

Lemma chunks_concat blks : forall fuel,
  Forall (fun b : bytes => length b = 64%nat) blks -> (length blks <= fuel)%nat ->
  Fips.chunks fuel (mjoin blks) = blks.
Proof.
  induction blks as [|b blks IH]; intros fuel Hb Hf; [by destruct fuel|].
  apply Forall_cons in Hb as [Hb Hbs]. destruct fuel as [|fuel]; [cbn in Hf; lia|].
  change (mjoin (b :: blks)) with (b ++ mjoin blks). destruct b as [|x b]; [done|]. cbn [Fips.chunks app].
  change (x :: b ++ mjoin blks) with ((x :: b) ++ mjoin blks). rewrite <- Hb at 1 2.
  rewrite take_app_length, drop_app_length. f_equal. apply IH; [done|cbn in Hf; lia].
Qed.

Lemma join_length_64 blks :
  Forall (fun b : bytes => length b = 64%nat) blks -> length (mjoin blks) = (64 * length blks)%nat.
Proof.
  induction 1 as [|b blks Hb Hbs IH]; [done|].
  change (mjoin (b :: blks)) with (b ++ mjoin blks). rewrite length_app, IH, Hb. cbn. lia.
Qed.

(** ** Streaming *)

(** The state after [msg] was fed: whole blocks are chained, the rest sits
    at the front of the buffer. *)
Record absorbed (s : Sha1.SHA1) (msg : bytes) (blks : list bytes) (rest tail : bytes) : Prop := {
  ab_msg : msg = mjoin blks ++ rest;
  ab_blocks : Forall (fun b => length b = 64%nat) blks;
  ab_buffer : Sha1.buffer_ s = rest ++ tail;
  ab_length : (length rest + length tail = 64)%nat;
  ab_room : (0 < length tail)%nat;
  ab_pos : Sha1.buf_pos_ s = zlen rest;
  ab_bytes : bytes_ok rest;
  ab_chain : Sha1.h_ s = foldl Fips.block Fips.H0 blks;
  ab_chain_ok : chain_ok (Sha1.h_ s);
  ab_total : Sha1.total_bytes_ s = u64 (zlen msg);
}.

Lemma absorbed_init : absorbed Sha1.init [] [] [] (replicate 64 0).
Proof. split; try done; cbn; try lia. split; [done|]. by_decide. Qed.

Lemma chain_step h blk :
  chain_ok h -> bytes_ok blk -> length blk = 64%nat ->
  Sha1.process_block h blk = Fips.block h blk /\ chain_ok (Sha1.process_block h blk).
Proof.
  intros Hh Hb Hl. destruct (process_block_fips h blk Hh Hb Hl) as [E Hc].
  split; [exact E|]. rewrite E. exact Hc.
Qed.

Lemma absorb_byte s msg blks rest tail x :
  absorbed s msg blks rest tail -> is_u8 x ->
  exists s', Sha1.update [x] s = Ok s'
    /\ exists blks' rest' tail', absorbed s' (msg ++ [x]) blks' rest' tail'.
Proof.
  intros [-> Hblk Hbuf Hlen Hroom Hpos Hok Hch Hcok Htot] Hx.
  destruct tail as [|y tail]; [cbn in Hroom; lia|].
  assert (zlen rest < 64) by (cbn in Hlen; len).
  assert (Hrx : bytes_ok (rest ++ [x])) by (apply Forall_app; split; [done|by constructor]).
  cbn [Sha1.update]. rewrite Hbuf, Hpos, put_spec by lia. cbn [res_bind].
  rewrite Htot. unfold u64. rewrite Zplus_mod_idemp_l.
  eexists; split; [done|]. destruct (Z.eqb_spec (zlen (rest ++ [x])) 64) as [E|E].
  - destruct tail; [|exfalso; len]. rewrite app_nil_r in *.
    destruct (chain_step (Sha1.h_ s) (rest ++ [x]) Hcok) as [Ep Hc]; [done|len|].
    exists (blks ++ [rest ++ [x]]), [], (rest ++ [x]). split.
    + rewrite join_app. cbn. by rewrite !app_nil_r, app_assoc.
    + apply Forall_app. split; [assumption|]. constructor; [len|constructor].
    + reflexivity.
    + len.
    + len.
    + reflexivity.
    + constructor.
    + rewrite foldl_app. cbn [foldl Sha1.h_]. rewrite <- Hch. exact Ep.
    + exact Hc.
    + cbn [Sha1.total_bytes_]. unfold u64. by rewrite !zlen_app.
  - exists blks, (rest ++ [x]), tail. split; cbn [Sha1.buffer_ Sha1.buf_pos_ Sha1.h_ Sha1.total_bytes_];
      try assumption; try reflexivity; [by rewrite app_assoc|len|len|].
    unfold u64. by rewrite !zlen_app.
Qed.

Lemma update_app data1 data2 s :
  Sha1.update (data1 ++ data2) s = (let! s' := Sha1.update data1 s in Sha1.update data2 s').
Proof.
  revert s. induction data1 as [|x d IH]; intros s; [done|]. cbn [app Sha1.update].
  destruct (Sha1.put _ _ _) as [[buf pos]| |]; [|done|done]. cbn [res_bind]. apply IH.
Qed.

Lemma update_absorbed data : forall s msg blks rest tail,
  bytes_ok data -> absorbed s msg blks rest tail ->
  exists s', Sha1.update data s = Ok s'
    /\ exists blks' rest' tail', absorbed s' (msg ++ data) blks' rest' tail'.
Proof.
  induction data as [|x d IH]; intros s msg blks rest tail Hok Hs.
  { exists s. rewrite app_nil_r. eauto. }
  apply Forall_cons in Hok as [Hx Hd]. change (x :: d) with ([x] ++ d).
  destruct (absorb_byte _ _ _ _ _ x Hs Hx) as (s1 & E1 & b1 & r1 & t1 & Hs1).
  rewrite update_app, E1. cbn [res_bind]. rewrite app_assoc. by eapply IH.
Qed.

(** The padding of a message whose last partial block is [rest]. *)
Definition padding (rest : bytes) (bits : Z) : list bytes :=
  if (length rest <? 56)%nat then
    [rest ++ [0x80] ++ replicate (55 - length rest) 0 ++ Fips.be_bytes 8 bits]
  else
    [rest ++ [0x80] ++ replicate (63 - length rest) 0; replicate 56 0 ++ Fips.be_bytes 8 bits].

Lemma padding_blocks rest bits :
  (length rest < 64)%nat -> Forall (fun b : bytes => length b = 64%nat) (padding rest bits).
Proof.
  intros Hr. unfold padding. destruct (Nat.ltb_spec (length rest) 56);
    repeat constructor; autorewrite with len; rewrite ?be_bytes_length; lia.
Qed.

Lemma padding_bytes rest bits : bytes_ok rest -> Forall (fun b => bytes_ok b) (padding rest bits).
Proof.
  intros Hr. assert (forall n, bytes_ok (replicate n 0)) by (intros; apply Forall_replicate; unfold is_u8; lia).
  assert (bytes_ok [0x80]) by (constructor; [unfold is_u8; lia|done]). pose proof (be_bytes_ok 8 bits).
  unfold padding.
  destruct (length rest <? 56)%nat; [constructor; [|constructor]|constructor; [|constructor; [|constructor]]];
    auto using Forall_app_2.
Qed.

Lemma pad_blocks blks rest :
  Forall (fun b : bytes => length b = 64%nat) blks -> (length rest < 64)%nat ->
  Fips.pad (mjoin blks ++ rest)
  = mjoin (blks ++ padding rest (8 * zlen (mjoin blks ++ rest))).
Proof.
  intros Hb Hr. unfold Fips.pad, padding. generalize (Fips.be_bytes 8 (8 * zlen (mjoin blks ++ rest))).
  intros bits.
  assert (Hl : zlen (mjoin blks) = 64 * zlen blks) by (unfold zlen; rewrite join_length_64 by done; lia).
  replace ((55 - zlen (mjoin blks ++ rest)) mod 64) with ((55 - zlen rest) mod 64)
    by (rewrite zlen_app, Hl; replace (55 - zlen rest) with (55 - (64 * zlen blks + zlen rest) + zlen blks * 64) by lia;
        apply Z.mod_add; lia).
  rewrite join_app. destruct (Nat.ltb_spec (length rest) 56); cbn [mjoin list_join].
  - rewrite Z.mod_small by len. replace (Z.to_nat (55 - zlen rest)) with (55 - length rest)%nat by len.
    by rewrite app_nil_r, <- app_assoc.
  - replace ((55 - zlen rest) mod 64) with (119 - zlen rest)
      by (apply (Z.mod_unique _ _ (-1)); len).
    replace (Z.to_nat (119 - zlen rest)) with ((63 - length rest) + 56)%nat by len.
    rewrite replicate_add, app_nil_r, <- !app_assoc. done.
Qed.

(** [finalize] chains the padding blocks. *)
Lemma finalize_absorbed s msg blks rest tail :
  absorbed s msg blks rest tail -> zlen msg < 2 ^ 61 ->
  Sha1.finalize s
  = Ok (mjoin (Fips.be_bytes 4 <$> foldl Fips.block (Sha1.h_ s) (padding rest (8 * zlen msg)))).
Proof.
  intros [Hmsg Hblk Hbuf Hlen Hroom Hpos Hok Hch Hcok Htot] Hsmall.
  destruct tail as [|y tail]; [cbn in Hroom; lia|].
  assert (zlen rest < 64) by (cbn in Hlen; len). pose proof (zlen_nonneg msg).
  pose proof (padding_blocks rest (8 * zlen msg)) as Hpl. pose proof (padding_bytes rest (8 * zlen msg) Hok) as Hpb.
  assert (Hbits : u64 (Sha1.total_bytes_ s * 8) = 8 * zlen msg)
    by (rewrite Htot, (u64_small (zlen msg)), u64_small by lia; lia).
  unfold Sha1.finalize. rewrite Hbuf, Hpos, put_spec by lia. cbn [res_bind].
  unfold padding in *. destruct (Nat.ltb_spec (length rest) 56); cbn [foldl];
    specialize (Hpl ltac:(len)).
  - destruct (Z.ltb_spec 56 (zlen (rest ++ [128]))); [exfalso; len|]. cbn [res_bind].
    rewrite zero_fill_spec by (cbn in Hlen; len). cbn [res_bind]. rewrite Hbits.
    replace (Z.to_nat (56 - zlen (rest ++ [128]))) with (55 - length rest)%nat by len.
    pose proof (put_bits_spec 8 (8 * zlen msg) ((rest ++ [128]) ++ replicate (55 - length rest) 0) []
      (drop (55 - length rest) tail)) as Hpt.
    cbn [app] in Hpt. rewrite Hpt by (cbn in Hlen; len). rewrite <- !app_assoc.
    apply Forall_cons in Hpl as [Hl _]. apply Forall_cons in Hpb as [Hb _].
    destruct (chain_step _ _ Hcok Hb Hl) as [E [Hc _]]. rewrite digest_bytes by exact Hc. by rewrite E.
  - destruct (Z.ltb_spec 56 (zlen (rest ++ [128]))); [|exfalso; len].
    rewrite zero_fill_spec by (cbn in Hlen; len). cbn [res_bind].
    replace (Z.to_nat (64 - zlen (rest ++ [128]))) with (63 - length rest)%nat by len.
    rewrite (drop_ge tail) by (cbn in Hlen; len). rewrite app_nil_r.
    apply Forall_cons in Hpl as [Hl [Hl2 _]%Forall_cons]. apply Forall_cons in Hpb as [Hb [Hb2 _]%Forall_cons].
    rewrite app_assoc in Hl, Hb |- *.
    set (blk1 := (rest ++ [128]) ++ replicate (63 - length rest) 0) in *.
    pose proof (zero_fill_spec 56 [] blk1) as Hz. change (zlen []) with 0 in Hz. cbn [app] in Hz.
    change (Z.to_nat (56 - 0)) with 56%nat. rewrite Hz by len. cbn [res_bind]. rewrite Hbits.
    pose proof (put_bits_spec 8 (8 * zlen msg) (replicate 56 0) [] (drop 56 blk1)) as Hpt.
    cbn [app] in Hpt. rewrite Hpt by len.
    destruct (chain_step _ _ Hcok Hb Hl) as [E1 Hc1].
    destruct (chain_step _ _ Hc1 Hb2 Hl2) as [E2 [Hc2 _]]. rewrite digest_bytes by exact Hc2. by rewrite E2, E1.
Qed.

Lemma sha1_of_absorbed s msg blks rest tail :
  absorbed s msg blks rest tail -> zlen msg < 2 ^ 61 -> Sha1.finalize s = Ok (Fips.sha1 msg).
Proof.
  intros Hs Hsmall. rewrite (finalize_absorbed _ _ _ _ _ Hs Hsmall). destruct Hs.
  unfold Fips.sha1. assert (length rest < 64)%nat by lia.
  assert (Hp : Fips.pad msg = mjoin (blks ++ padding rest (8 * zlen msg))) by (subst msg; by apply pad_blocks).
  rewrite Hp. rewrite chunks_concat.
  - by rewrite foldl_app, <- ab_chain0.
  - apply Forall_app. split; [done|]. by apply padding_blocks.
  - rewrite (join_length_64 (blks ++ _)); [lia|]. apply Forall_app. split; [done|]. by apply padding_blocks.
Qed.

(** Successive calls of [update]. *)
Fixpoint update_all (pieces : list bytes) (s : Sha1.SHA1) : Res Sha1.SHA1 :=
  match pieces with
  | [] => Ok s
  | p :: pieces' => let! s' := Sha1.update p s in update_all pieces' s'
  end.

Lemma update_all_join pieces s : update_all pieces s = Sha1.update (mjoin pieces) s.
Proof.
  revert s. induction pieces as [|p ps IH]; intros s; [done|].
  change (mjoin (p :: ps)) with (p ++ mjoin ps). rewrite update_app. cbn [update_all].
  destruct (Sha1.update p s); [apply IH|done|done].
Qed.

Lemma compute_fips data :
  bytes_ok data -> zlen data < 2 ^ 61 -> Sha1.compute data = Ok (Fips.sha1 data).
Proof.
  intros Hok Hlen. unfold Sha1.compute.
  destruct (update_absorbed data _ _ _ _ _ Hok absorbed_init) as (s & -> & b & r & t & Hs).
  cbn [res_bind app] in *. by apply (sha1_of_absorbed _ _ _ _ _ Hs).
Qed.

Lemma fips_digest_shape data : bytes_ok (Fips.sha1 data).
Proof.
  unfold Fips.sha1. generalize (foldl Fips.block Fips.H0 (Fips.chunks (length (Fips.pad data)) (Fips.pad data))).
  intros h. induction h as [|x h IH]; [constructor|].
  change (mjoin (Fips.be_bytes 4 <$> x :: h)) with (Fips.be_bytes 4 x ++ mjoin (Fips.be_bytes 4 <$> h)).
  apply Forall_app. split; [apply be_bytes_ok|done].
Qed.

#[local] Transparent Sha1.process_block Fips.block.

Lemma fips_block_length h m : length h = 5%nat -> length (Fips.block h m) = 5%nat.
Proof.
  intros Hh. destruct h as [|? [|? [|? [|? [|? [|]]]]]]; try discriminate. unfold Fips.block.
  by destruct (Fips.steps _ _ _) as [[[[? ?] ?] ?] ?].
Qed.

(** A digest has 20 bytes. *)
Lemma fips_digest_len data : zlen (Fips.sha1 data) = 20.
Proof.
  unfold Fips.sha1. set (ms := Fips.chunks _ _).
  assert (Hl : forall h, length h = 5%nat -> length (foldl Fips.block h ms) = 5%nat).
  { clearbody ms. induction ms as [|m ms IH]; intros h Hh; [done|]. cbn [foldl]. apply IH.
    by apply fips_block_length. }
  specialize (Hl Fips.H0 eq_refl). destruct (foldl _ _ _) as [|? [|? [|? [|? [|? [|]]]]]]; done.
Qed.

(** ** Properties *)

(** C35: [SHA1::compute] is SHA-1: for every message shorter than 2^61
    bytes (2^64 bits, the standard's limit) it stays inside its arrays and
    returns the digest FIPS 180-4 defines. *)
Theorem sha1_compute_is_fips data :
  bytes_ok data -> zlen data < 2 ^ 61 -> Sha1.compute data = Ok (Fips.sha1 data).
Proof. apply compute_fips. Qed.

Lemma sha1_compute_is_fips_witness :
  Sha1.compute (str "The quick brown fox jumps over the lazy dog")
    = Ok (Fips.sha1 (str "The quick brown fox jumps over the lazy dog"))
  /\ Sha1.hex_digest (str "The quick brown fox jumps over the lazy dog")
     = Ok (str "2fd4e1c67a2d28fced849ee1bb76e7391b93eb12").
Proof.
  split; [|vm_compute; reflexivity].
  apply sha1_compute_is_fips; [by_decide|vm_compute; reflexivity].
Defined.

(** Hashing is incremental: feeding a message to [update] in any
    pieces, empty ones and pieces across block boundaries included, and
    calling [finalize] gives the digest of the whole message. *)
Theorem sha1_incremental pieces :
  bytes_ok (mjoin pieces) -> zlen (mjoin pieces) < 2 ^ 61 ->
  (let! s := update_all pieces Sha1.init in Sha1.finalize s) = Ok (Fips.sha1 (mjoin pieces)).
Proof. intros Hok Hlen. rewrite update_all_join. by apply compute_fips. Qed.

Lemma sha1_incremental_witness :
  let pieces := [str "The quick brown fox "; []; replicate 100 97; str "jumps over the lazy dog"] in
  (let! s := update_all pieces Sha1.init in Sha1.finalize s) = Ok (Fips.sha1 (mjoin pieces)).
Proof. cbn zeta. apply sha1_incremental; [by_decide|vm_compute; reflexivity]. Defined.
