(* ===== verification/Vocabulary.v ===== *)
(** * Vocabulary types (ewss.hpp: [ErrorCode], [expected], [optional],
      [FixedString])

    Each class keeps raw storage next to a flag; the storage is modelled as
    [option], [None] being memory that holds no live object, so that reading
    a dead object is [Undefined] and a destructor that is not run, or run
    twice, is visible. *)
From S2P Require Import Prelude.
Open Scope ewss_scope.

Inductive ErrorCode : Type :=
| kOk | kBufferFull | kBufferEmpty | kHandshakeFailed | kFrameParseError
| kConnectionClosed | kInvalidState | kSocketError | kTimeout
| kMaxConnectionsExceeded | kInternalError.

#[export] Instance ErrorCode_eq_dec : EqDecision ErrorCode.
Proof. solve_decision. Defined.

Definition error_code_value (e : ErrorCode) : Z :=
  match e with
  | kOk => 0 | kBufferFull => 1 | kBufferEmpty => 2 | kHandshakeFailed => 3
  | kFrameParseError => 4 | kConnectionClosed => 5 | kInvalidState => 6
  | kSocketError => 7 | kTimeout => 8 | kMaxConnectionsExceeded => 9
  | kInternalError => 255
  end.

#[export] Instance ErrorCode_value_init : ValueInit ErrorCode := kOk.

(** ** expected<void, E> *)
Module ExpectedVoid.

Record expected (E : Type) := mk_expected { err_ : E; has_value_ : bool }.
Arguments mk_expected {E}. Arguments err_ {E}. Arguments has_value_ {E}.

Definition success {E} `{ValueInit E} : expected E := mk_expected value_init true.
Definition error {E} (err : E) : expected E := mk_expected err false.
Definition has_value {E} (e : expected E) : bool := has_value_ e.
Definition get_error {E} (e : expected E) : E := err_ e.

End ExpectedVoid.

#[export] Instance expected_void_eq_dec {E} `{EqDecision E} : EqDecision (ExpectedVoid.expected E).
Proof. solve_decision. Defined.

(** ** Objects in raw storage

    [storage_] of the vocabulary types is raw memory; [Some x] is an object
    that lives there, [None] no object.  Constructing over a living object
    leaks it, destroying or reading a dead one is undefined: both give
    [Undefined] here. *)
Section raw.
Context {T : Type}.

Definition construct (st : option T) (x : T) : Res (option T) :=
  match st with None => Ok (Some x) | Some _ => Undefined end.
Definition destroy (st : option T) : Res (option T) :=
  match st with Some _ => Ok None | None => Undefined end.

End raw.

(** [expected<V, E>].  A moved-from value stays alive; [moved] is what
    moving leaves behind. *)
Module Expected.
Section expected.
Context {V E : Type}.

Record expected := mk_expected { storage_ : option V; err_ : E; has_value_ : bool }.
Implicit Type o : expected.

Context {ee : ValueInit E}.

(** The private default constructor. *)
Definition make : expected := mk_expected None value_init false.

Definition success (val : V) : Res expected :=
  let! st := construct (storage_ make) val in Ok (mk_expected st (err_ make) true).
Definition error (err : E) : expected := mk_expected (storage_ make) err false.

Definition value o : Res V := of_option (storage_ o).
Definition has_value o : bool := has_value_ o.
Definition get_error o : E := err_ o.
Definition value_or o (d : V) : Res V := if has_value_ o then value o else Ok d.

Definition copy o : Res expected :=
  if has_value_ o then
    let! v := value o in
    let! st := construct None v in Ok (mk_expected st (err_ o) (has_value_ o))
  else Ok (mk_expected None (err_ o) (has_value_ o)).

(** Assignment from a distinct object. *)
Definition copy_assign (this o : expected) : Res expected :=
  let! st := if has_value_ this then destroy (storage_ this) else Ok (storage_ this) in
  if has_value_ o then
    let! v := value o in
    let! st := construct st v in Ok (mk_expected st (err_ o) (has_value_ o))
  else Ok (mk_expected st (err_ o) (has_value_ o)).

Definition move (moved : V -> V) o : Res (expected * expected) :=
  let! e := copy o in Ok (e, mk_expected (moved <$> storage_ o) (err_ o) (has_value_ o)).
Definition move_assign (moved : V -> V) (this o : expected) : Res (expected * expected) :=
  let! e := copy_assign this o in Ok (e, mk_expected (moved <$> storage_ o) (err_ o) (has_value_ o)).

(** The destructor; the result is what is left in the storage. *)
Definition finish o : Res (option V) :=
  if has_value_ o then destroy (storage_ o) else Ok (storage_ o).

(** An object lives in the storage exactly when the flag says so. *)
Definition ok o : Prop := has_value_ o = bool_decide (is_Some (storage_ o)).

End expected.
Arguments expected : clear implicits.
End Expected.

(** [optional<T>] *)
Module Optional.
Section optional.
Context {T : Type}.

Record optional := mk_optional { storage_ : option T; has_value_ : bool }.
Implicit Type o : optional.

Definition make : optional := mk_optional None false.
Definition of_value (val : T) : Res optional :=
  let! st := construct None val in Ok (mk_optional st true).

Definition has_value o : bool := has_value_ o.
Definition value o : Res T := of_option (storage_ o).
Definition value_or o (d : T) : Res T := if has_value_ o then value o else Ok d.

Definition reset o : Res optional :=
  if has_value_ o then let! st := destroy (storage_ o) in Ok (mk_optional st false) else Ok o.

Definition copy o : Res optional :=
  if has_value_ o then
    let! v := value o in
    let! st := construct None v in Ok (mk_optional st true)
  else Ok (mk_optional None false).

Definition copy_assign (this o : optional) : Res optional :=
  let! this := reset this in
  if has_value_ o then
    let! v := value o in
    let! st := construct (storage_ this) v in Ok (mk_optional st true)
  else Ok (mk_optional (storage_ this) false).

Definition move (moved : T -> T) o : Res (optional * optional) :=
  let! new := copy o in Ok (new, mk_optional (moved <$> storage_ o) (has_value_ o)).
Definition move_assign (moved : T -> T) (this o : optional) : Res (optional * optional) :=
  let! new := copy_assign this o in Ok (new, mk_optional (moved <$> storage_ o) (has_value_ o)).

(** The destructor; the result is what is left in the storage. *)
Definition finish o : Res (option T) := let! o := reset o in Ok (storage_ o).

Definition ok o : Prop := has_value_ o = bool_decide (is_Some (storage_ o)).

End optional.
Arguments optional : clear implicits.
End Optional.

(** [FixedString<Capacity>]: [Capacity + 1] characters, NUL-terminated. *)
Module FixedString.
Section fixed_string.
Context {Capacity : Z}.

Record FixedString := mk_string { buf_ : bytes; size_ : Z }.

Definition make : FixedString := mk_string (replicate (Z.to_nat (Capacity + 1)) 0) 0.

(** From a literal of [N] characters, its terminator included; longer ones
    do not compile. *)
Definition of_literal (lit : bytes) : option FixedString :=
  let N := zlen lit + 1 in
  if Capacity + 1 <? N then None else
  Some (mk_string ((lit ++ [0]) ++ replicate (Z.to_nat (Capacity + 1 - N)) 0) (u32 (N - 1))).

(** [c_str()] as a C string: up to the first NUL. *)
Fixpoint until_nul (l : bytes) : bytes :=
  match l with [] => [] | c :: l' => if c =? 0 then [] else c :: until_nul l' end.
Definition c_str (s : FixedString) : bytes := until_nul (buf_ s).
Definition size (s : FixedString) : Z := size_ s.
Definition empty (s : FixedString) : bool := size_ s =? 0.
Definition clear (s : FixedString) : FixedString := mk_string (<[0%nat := 0]> (buf_ s)) 0.

End fixed_string.
Arguments FixedString : clear implicits.
End FixedString.

(** ** Properties *)

Section values.
Context {V E : Type} `{ValueInit E}.
Implicit Type o : Expected.expected V E.

Lemma expected_ok_cases o :
  Expected.ok o -> (exists v, o = Expected.mk_expected (Some v) (Expected.err_ o) true)
    \/ o = Expected.mk_expected None (Expected.err_ o) false.
Proof.
  destruct o as [[v|] e b]; unfold Expected.ok; cbn; intros ->; [left; by exists v|by right].
Qed.

(** [expected] has value semantics and correct lifetimes: every result
    is well formed, copying and assigning (over a success or an error alike)
    give an object equal to the source, with no object leaked, destroyed
    twice or read when dead, and destruction leaves nothing alive. *)
Theorem expected_value_semantics o this (v : V) (e : E) moved :
  Expected.ok o -> Expected.ok this ->
  Expected.success v = Ok (Expected.mk_expected (Some v) value_init true)
  /\ Expected.ok (Expected.error (V := V) e)
  /\ Expected.copy o = Ok o
  /\ Expected.copy_assign this o = Ok o
  /\ (exists o', Expected.move_assign moved this o = Ok (o, o') /\ Expected.ok o'
        /\ Expected.has_value o' = Expected.has_value o)
  /\ Expected.finish o = Ok None
  /\ Expected.value_or o v = Ok (default v (Expected.storage_ o)).
Proof.
  intros [[x ->] | ->]%expected_ok_cases [[y ->] | ->]%expected_ok_cases;
    (split_and!; try reflexivity; eexists; split; [reflexivity|done]).
Qed.

End values.

Lemma expected_value_semantics_witness :
  Expected.copy_assign (Expected.mk_expected (Some 7) kOk true) (Expected.mk_expected None kTimeout false)
  = Ok (Expected.mk_expected None kTimeout false).
Proof.
  destruct (expected_value_semantics (Expected.mk_expected None kTimeout false) (Expected.mk_expected (Some 7) kOk true)
    3 kOk (fun x => x)) as (_ & _ & _ & H & _); [reflexivity|reflexivity|exact H].
Defined.

(** The same for [optional], and the terminator of [FixedString]. *)
Lemma optional_value_semantics {T} (moved : T -> T) (o this : Optional.optional T) :
  Optional.ok o -> Optional.ok this ->
  Optional.copy o = Ok o /\ Optional.copy_assign this o = Ok o
  /\ (exists left, Optional.move moved o = Ok (o, left) /\ Optional.move_assign moved this o = Ok (o, left)
        /\ Optional.ok left /\ Optional.has_value left = Optional.has_value o)
  /\ Optional.finish o = Ok None
  /\ exists o', Optional.reset o = Ok o' /\ Optional.storage_ o' = None /\ Optional.has_value o' = false.
Proof.
  destruct o as [[x|] b], this as [[y|] b']; unfold Optional.ok; cbn; intros -> ->;
    (split_and!; try reflexivity; eexists; split_and!; reflexivity).
Qed.

Lemma until_nul_app l rest : Forall (fun c => c <> 0) l -> FixedString.until_nul (l ++ 0 :: rest) = l.
Proof. induction 1 as [|c l Hc Hl IH]; [done|]. cbn. rewrite IH. by zcase. Qed.

Lemma fixed_string_literal (Capacity : Z) lit :
  0 < Capacity < 2 ^ 32 -> zlen lit <= Capacity -> Forall (fun c => c <> 0) lit ->
  exists s, FixedString.of_literal (Capacity := Capacity) lit = Some s
    /\ FixedString.c_str s = lit /\ FixedString.size s = zlen lit
    /\ zlen (FixedString.buf_ s) = Capacity + 1
    /\ FixedString.c_str (FixedString.clear s) = [].
Proof.
  intros HC Hl Hnz. unfold FixedString.of_literal. pose proof (zlen_nonneg lit).
  destruct (Z.ltb_spec (Capacity + 1) (zlen lit + 1)); [lia|]. eexists. split; [done|].
  unfold FixedString.c_str, FixedString.size; cbn [FixedString.buf_ FixedString.size_ FixedString.clear].
  rewrite <- app_assoc. cbn [app]. split_and!; [by apply until_nul_app|rewrite u32_small; lia|len|].
  by destruct lit.
Qed.
