(* ===== verification/Callable.v ===== *)
(** * Callables (ewss.hpp: [FixedFunction], [function_ref], [ScopeGuard])

    A [FixedFunction] is raw storage and two function pointers; whether the
    pointers are null is all that the code looks at, so they are booleans.
    The move operations copy the bytes of the stored callable: the object
    lives in the destination afterwards and no longer in the source.
    [ScopeGuard] owns a cleanup and runs it when it is destroyed.  The
    theorem follows any number of guards through construction, moves,
    [release] and destruction. *)
From S2P Require Import Prelude Vocabulary.
Open Scope ewss_scope.

Module FixedFunction.
Section fixed_function.
Context {F : Type}.

Record FixedFunction := mk_function { storage_ : option F; invoker_ : bool; destroyer_ : bool }.
Implicit Type o : FixedFunction.

(** The default constructor, and the one from [nullptr]. *)
Definition make : FixedFunction := mk_function None false false.

Definition of_callable (f : F) : Res FixedFunction :=
  let! st := construct (storage_ make) f in Ok (mk_function st true true).

(** Move construction: the new object and what is left of [o]. *)
Definition move o : FixedFunction * FixedFunction :=
  if invoker_ o
  then (mk_function (storage_ o) (invoker_ o) (destroyer_ o), mk_function None false false)
  else (mk_function None (invoker_ o) (destroyer_ o), o).

(** Move assignment from a distinct object. *)
Definition move_assign (this o : FixedFunction) : Res (FixedFunction * FixedFunction) :=
  let! st := if destroyer_ this then destroy (storage_ this) else Ok (storage_ this) in
  Ok (if invoker_ o
      then (mk_function (storage_ o) (invoker_ o) (destroyer_ o), mk_function None false false)
      else (mk_function st (invoker_ o) (destroyer_ o), o)).

Definition assign_null (this : FixedFunction) : Res FixedFunction :=
  let! st := if destroyer_ this then destroy (storage_ this) else Ok (storage_ this) in
  Ok (mk_function st false false).

(** The destructor; the result is what is left in the storage. *)
Definition finish o : Res (option F) :=
  if destroyer_ o then destroy (storage_ o) else Ok (storage_ o).

(** [operator()]: the callable that runs.  Calling through a null pointer
    or into dead storage is undefined. *)
Definition call o : Res F := if invoker_ o then of_option (storage_ o) else Undefined.
Definition to_bool o : bool := invoker_ o.

(** The object is the callable [f], or empty. *)
Definition is_function o (f : option F) : Prop := o = mk_function f (bool_decide (is_Some f)) (bool_decide (is_Some f)).

End fixed_function.
Arguments FixedFunction : clear implicits.
End FixedFunction.

(** [function_ref] keeps the address of a callable it does not own; [memory]
    is what is alive where. *)
Module FunctionRef.
Section function_ref.
Context {F : Type}.

(** Either way of constructing it fixes how the pointer is called. *)
Inductive Invoker := CallObject | CallFunction.
Record function_ref := mk_ref { obj_ : Z; invoker_ : Invoker }.

Definition of_object (address : Z) : function_ref := mk_ref address CallObject.
Definition of_function (fn : Z) : function_ref := mk_ref fn CallFunction.

(** [operator()]: the callable that runs; functions are always there, an
    object only while it is alive. *)
Definition call (functions objects : Z -> option F) (r : function_ref) : Res F :=
  match invoker_ r with
  | CallObject => of_option (objects (obj_ r))
  | CallFunction => of_option (functions (obj_ r))
  end.

End function_ref.
End FunctionRef.

(** A reference runs what it was made from while that is alive, and calling
    it afterwards is undefined. *)
Lemma function_ref_call {F} (functions objects : Z -> option F) p :
  (forall f, functions p = Some f -> FunctionRef.call functions objects (FunctionRef.of_function p) = Ok f)
  /\ (forall f, objects p = Some f -> FunctionRef.call functions objects (FunctionRef.of_object p) = Ok f)
  /\ (objects p = None -> FunctionRef.call functions objects (FunctionRef.of_object p) = Undefined).
Proof. unfold FunctionRef.call. cbn. split_and!; [intros f -> | intros f -> | intros ->]; done. Qed.

Module ScopeGuard.
Section scope_guard.
Context {F : Type}.
Abbreviation Cleanup := (FixedFunction.FixedFunction F).

Record ScopeGuard := mk_guard { cleanup_ : Cleanup; active_ : bool }.
Implicit Type g : ScopeGuard.

(** The parameter is moved from, and destroyed by the caller. *)
Definition make (cleanup : Cleanup) : Res ScopeGuard :=
  let (mine, left_) := FixedFunction.move cleanup in
  let! _ := FixedFunction.finish left_ in Ok (mk_guard mine true).

Definition release g : ScopeGuard := mk_guard (cleanup_ g) false.

(** Move construction: the new guard and what is left of [o]. *)
Definition move (o : ScopeGuard) : ScopeGuard * ScopeGuard :=
  let (mine, left_) := FixedFunction.move (cleanup_ o) in
  (mk_guard mine (active_ o), mk_guard left_ false).

(** The destructor, then the destructor of [cleanup_]: the callables that
    ran. *)
Definition finish g : Res (list F) :=
  let! ran := if active_ g && FixedFunction.to_bool (cleanup_ g)
              then let! f := FixedFunction.call (cleanup_ g) in Ok [f] else Ok [] in
  let! _ := FixedFunction.finish (cleanup_ g) in Ok ran.

End scope_guard.
Arguments ScopeGuard : clear implicits.
End ScopeGuard.

(** ** A program with guards *)
Section guards.
Context {F : Type}.
Import FixedFunction ScopeGuard.

(** Guards are numbered as they are constructed; [None] is a cleanup made
    from [nullptr]. *)
Inductive guard_op : Type :=
| GNew (f : option F)
| GMove (i : nat)
| GRelease (i : nat)
| GDestroy (i : nat).

(** The guards; a destroyed one is [None]. *)
Abbreviation guards := (list (option (ScopeGuard.ScopeGuard F))).

Definition guard_at (gs : guards) (i : nat) : Res (ScopeGuard.ScopeGuard F) := of_option (mjoin (gs !! i)).

(** One operation, and the callables it runs. *)
Definition guard_step (gs : guards) (o : guard_op) : Res (guards * list F) :=
  match o with
  | GNew f =>
      let! cleanup := match f with None => Ok FixedFunction.make | Some f => of_callable f end in
      let! g := ScopeGuard.make cleanup in Ok (gs ++ [Some g], [])
  | GMove i =>
      let! g := guard_at gs i in
      let (g', left_) := ScopeGuard.move g in Ok (<[i := Some left_]> gs ++ [Some g'], [])
  | GRelease i =>
      let! g := guard_at gs i in Ok (<[i := Some (release g)]> gs, [])
  | GDestroy i =>
      let! g := guard_at gs i in
      let! ran := ScopeGuard.finish g in Ok (<[i := None]> gs, ran)
  end.

Fixpoint guard_run (gs : guards) (os : list guard_op) : Res (guards * list F) :=
  match os with
  | [] => Ok (gs, [])
  | o :: os' =>
      let! (gs, ran) := guard_step gs o in
      let! (gs, ran') := guard_run gs os' in Ok (gs, ran ++ ran')
  end.

(** The program only uses guards that are alive. *)
Fixpoint legal (alive : list bool) (os : list guard_op) : bool :=
  match os with
  | [] => true
  | GNew _ :: os' => legal (alive ++ [true]) os'
  | GMove i :: os' => bool_decide (alive !! i = Some true) && legal (alive ++ [true]) os'
  | GRelease i :: os' => bool_decide (alive !! i = Some true) && legal alive os'
  | GDestroy i :: os' => bool_decide (alive !! i = Some true) && legal (<[i := false]> alive) os'
  end.

(** The callables handed to guards, and the number of [release] calls. *)
Definition created (os : list guard_op) : list F :=
  os ≫= fun o => match o with GNew (Some f) => [f] | _ => [] end.
Definition is_release (o : guard_op) : bool := match o with GRelease _ => true | _ => false end.
Definition releases (os : list guard_op) : nat :=
  length (filter (fun o => is_release o = true) os).

(** The cleanup a guard will run. *)
Definition pending_of (g : option (ScopeGuard.ScopeGuard F)) : list F :=
  match g with
  | Some g => if active_ g then option_list (storage_ (cleanup_ g)) else []
  | None => []
  end.

Definition guard_ok (g : option (ScopeGuard.ScopeGuard F)) : Prop :=
  match g with Some g => exists f, is_function (cleanup_ g) f | None => True end.

Definition alive (gs : guards) : list bool := (fun g => bool_decide (is_Some g)) <$> gs.

(** What guards are for: each holds at most one cleanup.  Moving a guard
    takes its cleanup along, [release] drops it, and destroying a guard runs
    it.  The result is what the guards hold, what has run, in this order, and
    what was dropped. *)
Definition cleanup_step (ps : list (list F)) (o : guard_op) : list (list F) * list F * list F :=
  match o with
  | GNew f => (ps ++ [option_list f], [], [])
  | GMove i => (<[i := []]> ps ++ [ps !!! i], [], [])
  | GRelease i => (<[i := []]> ps, [], ps !!! i)
  | GDestroy i => (<[i := []]> ps, ps !!! i, [])
  end.

Fixpoint cleanup_run (ps : list (list F)) (os : list guard_op) : list (list F) * list F * list F :=
  match os with
  | [] => (ps, [], [])
  | o :: os' =>
      let '(ps, ran, dropped) := cleanup_step ps o in
      let '(ps, ran', dropped') := cleanup_run ps os' in (ps, ran ++ ran', dropped ++ dropped')
  end.

(** ** Proofs *)

(** Exchanging what one guard holds. *)
Lemma join_insert (ps : list (list F)) i p p' : ps !! i = Some p ->
  mjoin ps ++ p' ≡ₚ p ++ mjoin (<[i := p']> ps).
Proof.
  intros Hp. rewrite insert_take_drop by (by eapply lookup_lt_Some).
  rewrite <- (take_drop_middle ps i p Hp) at 1. rewrite !join_app. cbn [mjoin list_join].
  rewrite <- !app_assoc. solve_Permutation.
Qed.

Lemma alive_lookup gs i : alive gs !! i = Some true -> exists g, gs !! i = Some (Some g).
Proof.
  unfold alive. rewrite list_lookup_fmap. destruct (gs !! i) as [[g|]|]; cbn; [by eauto|done|done].
Qed.

Lemma alive_insert gs i g : alive (<[i := g]> gs) = <[i := bool_decide (is_Some g)]> (alive gs).
Proof. unfold alive. by rewrite list_fmap_insert. Qed.

Lemma alive_kept gs i g : alive gs !! i = Some true -> alive (<[i := Some g]> gs) = alive gs.
Proof. intros E. rewrite alive_insert. by apply list_insert_id. Qed.

Lemma alive_app gs gs' : alive (gs ++ gs') = alive gs ++ alive gs'.
Proof. unfold alive. apply fmap_app. Qed.

Lemma move_function (o : FixedFunction.FixedFunction F) f :
  is_function o f -> exists l, FixedFunction.move o = (o, l) /\ is_function l None.
Proof. intros ->. destruct f; by eexists. Qed.

Lemma new_guard (f : option F) :
  (let! cleanup := match f with None => Ok FixedFunction.make | Some f => of_callable f end in
   ScopeGuard.make cleanup)
  = Ok (mk_guard (mk_function f (bool_decide (is_Some f)) (bool_decide (is_Some f))) true).
Proof. by destruct f. Qed.

Lemma finish_guard (o : FixedFunction.FixedFunction F) f b :
  is_function o f -> ScopeGuard.finish (mk_guard o b) = Ok (pending_of (Some (mk_guard o b))).
Proof. intros ->. by destruct f, b. Qed.

(** The operation does to the guards what it is for. *)
Record guard_effect (gs : guards) (o : guard_op) (live : list bool) : Prop := {
  ge_result : exists gs' ran dropped, guard_step gs o = Ok (gs', ran)
    /\ Forall guard_ok gs' /\ alive gs' = live
    /\ cleanup_step (pending_of <$> gs) o = (pending_of <$> gs', ran, dropped);
}.

Lemma guard_at_spec gs i : alive gs !! i = Some true -> Forall guard_ok gs ->
  exists g f, gs !! i = Some (Some g) /\ guard_at gs i = Ok g /\ is_function (cleanup_ g) f.
Proof.
  intros Ha Hok. destruct (alive_lookup _ _ Ha) as [g Hg].
  destruct (Forall_lookup_1 _ _ _ _ Hok Hg) as [f Hf]. exists g, f. unfold guard_at. by rewrite Hg.
Qed.

Lemma held_at (gs : guards) (i : nat) g : gs !! i = Some (Some g) -> (pending_of <$> gs) !!! i = pending_of (Some g).
Proof. intros Hg. by rewrite list_lookup_total_alt, list_lookup_fmap, Hg. Qed.

Lemma new_effect gs f : Forall guard_ok gs -> guard_effect gs (GNew f) (alive gs ++ [true]).
Proof.
  intros Hok. constructor. pose proof (new_guard f) as E. set (g := mk_guard _ true) in E.
  exists (gs ++ [Some g]), [], []. split_and!.
  - cbn [guard_step]. destruct f; reflexivity.
  - apply Forall_app_2; [done|]. constructor; [by exists f|done].
  - by rewrite alive_app.
  - cbn [cleanup_step]. by rewrite fmap_app.
Qed.

Lemma move_effect gs i : Forall guard_ok gs -> alive gs !! i = Some true ->
  guard_effect gs (GMove i) (alive gs ++ [true]).
Proof.
  intros Hok Ha. constructor. destruct (guard_at_spec gs i Ha Hok) as (g & f & Hg & Eg & Hf).
  destruct (move_function _ _ Hf) as (l & El & Hl). destruct g as [o b]. cbn [cleanup_] in *.
  exists (<[i := Some (mk_guard l false)]> gs ++ [Some (mk_guard o b)]), [], []. split_and!.
  - cbn [guard_step]. rewrite Eg. cbn [res_bind]. unfold ScopeGuard.move. cbn [cleanup_ active_]. by rewrite El.
  - apply Forall_app_2; [apply Forall_insert; [done|by exists None]|constructor; [by exists f|done]].
  - by rewrite alive_app, alive_kept.
  - cbn [cleanup_step]. by rewrite fmap_app, list_fmap_insert, (held_at gs i _ Hg).
Qed.

Lemma release_effect gs i : Forall guard_ok gs -> alive gs !! i = Some true ->
  guard_effect gs (GRelease i) (alive gs).
Proof.
  intros Hok Ha. constructor. destruct (guard_at_spec gs i Ha Hok) as (g & f & Hg & Eg & Hf).
  exists (<[i := Some (release g)]> gs), [], (pending_of (Some g)). split_and!.
  - cbn [guard_step]. by rewrite Eg.
  - apply Forall_insert; [done|by exists f].
  - by apply alive_kept.
  - cbn [cleanup_step]. by rewrite list_fmap_insert, (held_at gs i _ Hg).
Qed.

Lemma destroy_effect gs i : Forall guard_ok gs -> alive gs !! i = Some true ->
  guard_effect gs (GDestroy i) (<[i := false]> (alive gs)).
Proof.
  intros Hok Ha. constructor. destruct (guard_at_spec gs i Ha Hok) as (g & f & Hg & Eg & Hf).
  exists (<[i := None]> gs), (pending_of (Some g)), []. split_and!.
  - cbn [guard_step]. rewrite Eg. cbn [res_bind]. destruct g as [o b]. by rewrite (finish_guard o f b Hf).
  - by apply Forall_insert.
  - apply alive_insert.
  - cbn [cleanup_step]. by rewrite list_fmap_insert, (held_at gs i _ Hg).
Qed.

Lemma legal_effect gs o os : Forall guard_ok gs -> legal (alive gs) (o :: os) = true ->
  exists live, guard_effect gs o live /\ legal live os = true.
Proof.
  intros Hok Hl. destruct o as [f|i|i|i]; cbn [legal] in Hl; [by eexists; split; [apply new_effect|]| | |];
    apply andb_true_iff in Hl as [Ha%bool_decide_eq_true Hl]; eexists; (split; [|exact Hl]);
    [by apply move_effect|by apply release_effect|by apply destroy_effect].
Qed.

Lemma guard_run_spec os : forall gs, Forall guard_ok gs -> legal (alive gs) os = true ->
  exists gs' ran dropped, guard_run gs os = Ok (gs', ran)
    /\ cleanup_run (pending_of <$> gs) os = (pending_of <$> gs', ran, dropped).
Proof.
  induction os as [|o os IH]; intros gs Hok Hl; [by exists gs, [], []|].
  destruct (legal_effect gs o os Hok Hl) as (live & [(gs1 & ran1 & d1 & E1 & Hok1 & <- & C1)] & Hl1).
  destruct (IH gs1 Hok1 Hl1) as (gs2 & ran2 & d2 & E2 & C2). exists gs2, (ran1 ++ ran2), (d1 ++ d2). split.
  - cbn [guard_run]. rewrite E1. cbn [res_bind]. by rewrite E2.
  - cbn [cleanup_run]. by rewrite C1, C2.
Qed.

(** No cleanup is lost, and none is there twice. *)
Lemma cleanup_step_kept ps o ps' ran dropped :
  cleanup_step ps o = (ps', ran, dropped) -> Forall (fun p => (length p <= 1)%nat) ps ->
  mjoin ps ++ created [o] ≡ₚ ran ++ dropped ++ mjoin ps' /\ (length dropped <= releases [o])%nat
  /\ Forall (fun p => (length p <= 1)%nat) ps'.
Proof.
  intros E Hps.
  assert (Hat : forall i, mjoin ps ≡ₚ (ps !!! i) ++ mjoin (<[i := []]> ps) /\ (length (ps !!! i) <= 1)%nat).
  { intros i. rewrite list_lookup_total_alt. destruct (ps !! i) as [p|] eqn:Ep; cbn [default].
    - pose proof (join_insert ps i p [] Ep) as P. rewrite app_nil_r in P. split; [done|by eapply (Forall_lookup_1 _ _ _ _ Hps)].
    - rewrite list_insert_ge by (by apply lookup_ge_None). split; [done|cbn; lia]. }
  assert (Hins : forall i, Forall (fun p => (length p <= 1)%nat) (<[i := []]> ps)) by (intros i; apply Forall_insert; [done|cbn; lia]).
  destruct o as [f|i|i|i]; cbn [cleanup_step] in E; injection E as <- <- <-.
  - split_and!; [|cbn; lia|apply Forall_app_2; [done|apply Forall_singleton; destruct f; cbn; lia]].
    rewrite join_app. by destruct f.
  - destruct (Hat i) as [P L]. split_and!; [|cbn; lia|apply Forall_app_2; [apply Hins|by apply Forall_singleton]].
    rewrite join_app, P. cbn. rewrite !app_nil_r. apply Permutation_app_comm.
  - destruct (Hat i) as [P L]. change (releases [GRelease i]) with 1%nat. split_and!; [|done|apply Hins].
    cbn. by rewrite P, app_nil_r.
  - destruct (Hat i) as [P L]. split_and!; [|cbn; lia|apply Hins]. cbn. by rewrite P, app_nil_r.
Qed.

Lemma cleanup_run_kept os : forall ps ps' ran dropped,
  cleanup_run ps os = (ps', ran, dropped) -> Forall (fun p => (length p <= 1)%nat) ps ->
  mjoin ps ++ created os ≡ₚ ran ++ dropped ++ mjoin ps' /\ (length dropped <= releases os)%nat.
Proof.
  induction os as [|o os IH]; intros ps ps' ran dropped E Hps; cbn [cleanup_run] in E.
  { injection E as <- <- <-. cbn. by rewrite app_nil_r. }
  destruct (cleanup_step ps o) as [[ps1 ran1] d1] eqn:E1. destruct (cleanup_run ps1 os) as [[ps2 ran2] d2] eqn:E2.
  injection E as <- <- <-. destruct (cleanup_step_kept _ _ _ _ _ E1 Hps) as (P1 & L1 & Hps1).
  destruct (IH _ _ _ _ E2 Hps1) as [P2 L2]. split.
  - change (created (o :: os)) with (created ([o] ++ os)). unfold created in *. rewrite bind_app.
    rewrite app_assoc, P1, <- !app_assoc. rewrite P2. solve_Permutation.
  - rewrite length_app. change (releases (o :: os)) with (releases ([o] ++ os)). unfold releases in *.
    rewrite filter_app, length_app. lia.
Qed.

(** C39: scope guards do what they are for.  In any program that constructs,
    moves, releases and destroys guards (never one that is not alive), the
    cleanups that run, their order, and those the guards still hold are the
    ones of the specification, in which moving a guard takes its cleanup
    along, [release] drops it and destroying a guard runs it.  So every
    callable handed to a guard has either run once, or been dropped by a
    [release] (at most one per call) and does not run, or is still held by
    one guard; with no [release] and every guard destroyed, exactly the
    created cleanups have run.  No callable is called or destroyed when
    dead. *)
Theorem scope_guard_exactly_once os :
  legal [] os = true ->
  exists gs ran dropped, guard_run [] os = Ok (gs, ran)
    /\ cleanup_run [] os = (pending_of <$> gs, ran, dropped)
    /\ created os ≡ₚ ran ++ dropped ++ mjoin (pending_of <$> gs)
    /\ (length dropped <= releases os)%nat
    /\ (releases os = 0%nat -> Forall (fun g => g = None) gs -> ran ≡ₚ created os).
Proof.
  intros Hl. destruct (guard_run_spec os [] (Forall_nil_2 _) Hl) as (gs & ran & dropped & E & C).
  destruct (cleanup_run_kept os _ _ _ _ C (Forall_nil_2 _)) as [P L].
  exists gs, ran, dropped. split_and!; [done|done|done|done|]. intros Hr Hd.
  assert (Hp : mjoin (pending_of <$> gs) = []).
  { clear -Hd. induction Hd as [|g gs -> _ IH]; [done|]. exact IH. }
  destruct dropped; [|cbn in L; lia]. cbn in P. rewrite Hp, app_nil_r in P. by symmetry.
Qed.

End guards.

(** The first cleanup moves on and runs, the second is released and the third
    is still held. *)
Lemma scope_guard_exactly_once_witness :
  exists gs,
    guard_run (F := Z) [] [GNew (Some 1); GNew (Some 2); GNew (Some 3); GMove 0; GDestroy 0; GRelease 1; GDestroy 1; GDestroy 3] = Ok (gs, [1])
    /\ mjoin (pending_of <$> gs) = [3].
Proof.
  destruct (scope_guard_exactly_once
    [GNew (Some 1); GNew (Some 2); GNew (Some 3); GMove 0; GDestroy 0; GRelease 1; GDestroy 1; GDestroy 3]) as (gs & ran & dropped & E & _).
  - vm_compute. reflexivity.
  - exists gs. vm_compute in E. injection E as <- <-. split; reflexivity.
Defined.
