(* ===== verification/FixedVector.v ===== *)
(** * FixedVector: the fixed-capacity vector (ewss.hpp, class [FixedVector])

    The inline storage is a list of [Capacity] slots; [None] is raw memory,
    [Some x] a slot in which an object lives.  Reading raw memory or a slot
    outside the storage is undefined, and so is constructing over a living
    object or destroying a dead one: that these never happen is part of the
    theorems.  The vector is shown to be a bounded list. *)
From S2P Require Import Prelude.
Open Scope ewss_scope.

Module FixedVector.

Record FixedVector (T : Type) (Capacity : Z) := mk_vec {
  storage_ : list (option T);
  size_ : Z;
}.
Arguments mk_vec {T Capacity} _ _.
Arguments storage_ {T Capacity} _.
Arguments size_ {T Capacity} _.

Section ops.
Context {T : Type} {Capacity : Z}.
Abbreviation vec := (FixedVector T Capacity).
Implicit Type v : vec.

Definition make : vec := mk_vec (replicate (Z.to_nat Capacity) None) 0.

Definition size v : Z := size_ v.
Definition capacity : Z := Capacity.
Definition empty v : bool := size_ v =? 0.
Definition full v : bool := Capacity <=? size_ v.

(** [operator[](i)] as a value: the slot must hold an object. *)
Definition at_ v (i : Z) : Res T := of_option (mjoin (storage_ v !! Z.to_nat i)).
Definition front v : Res T := at_ v 0.
Definition back v : Res T := at_ v (u32 (size_ v - 1)).

(** Assignment through the reference [operator[](i)]. *)
Definition assign v (i : Z) (x : T) : Res vec :=
  let! _ := at_ v i in Ok (mk_vec (<[Z.to_nat i := Some x]> (storage_ v)) (size_ v)).

(** Placement new and destructor call on slot [i]. *)
Definition construct (st : list (option T)) (i : Z) (x : T) : Res (list (option T)) :=
  match st !! Z.to_nat i with
  | Some None => Ok (<[Z.to_nat i := Some x]> st)
  | _ => Undefined
  end.
Definition destroy (st : list (option T)) (i : Z) : Res (list (option T)) :=
  match st !! Z.to_nat i with
  | Some (Some _) => Ok (<[Z.to_nat i := None]> st)
  | _ => Undefined
  end.

Definition emplace_back v (x : T) : Res (bool * vec) :=
  if Capacity <=? size_ v then Ok (false, v) else
  let! st := construct (storage_ v) (size_ v) x in
  Ok (true, mk_vec st (u32 (size_ v + 1))).
Definition push_back v (x : T) : Res (bool * vec) := emplace_back v x.

Definition pop_back v : Res (bool * vec) :=
  if size_ v =? 0 then Ok (false, v) else
  let size := u32 (size_ v - 1) in
  let! st := destroy (storage_ v) size in
  Ok (true, mk_vec st size).

(** [while (size_ > 0U) { --size_; operator[](size_).~T(); }] *)
Fixpoint clear_loop (fuel : nat) v : Res vec :=
  if negb (0 <? size_ v) then Ok v else
  match fuel with
  | O => OutOfFuel
  | S fuel' =>
      let size := u32 (size_ v - 1) in
      let! st := destroy (storage_ v) size in
      clear_loop fuel' (mk_vec st size)
  end.
Definition clear v : Res vec := clear_loop (Z.to_nat (size_ v)) v.

(** [for (i = 0; i < o.size_; ++i) (void)push_back(o[i]);] from index [i] on. *)
Fixpoint append_loop (n : nat) (i : Z) (o v : vec) : Res vec :=
  match n with
  | O => Ok v
  | S n' =>
      let! x := at_ o i in
      let! (_, v) := push_back v x in
      append_loop n' (i + 1) o v
  end.

Definition copy (o : vec) : Res vec := append_loop (Z.to_nat (size_ o)) 0 o make.

(** Copy assignment; [self] is [this == &o]. *)
Definition copy_assign (self : bool) v (o : vec) : Res vec :=
  if negb self then let! v := clear v in append_loop (Z.to_nat (size_ o)) 0 o v else Ok v.

(** Move construction and assignment: every element is moved over, then the
    source's (moved-from) elements are destroyed. *)
Definition move (o : vec) : Res (vec * vec) :=
  let! v := append_loop (Z.to_nat (size_ o)) 0 o make in
  let! o := clear o in Ok (v, o).
Definition move_assign (self : bool) v (o : vec) : Res (vec * vec) :=
  if negb self then
    let! v := clear v in
    let! v := append_loop (Z.to_nat (size_ o)) 0 o v in
    let! o := clear o in Ok (v, o)
  else Ok (v, o).

(** The destructor, and what is then in the storage. *)
Definition finish v : Res (list (option T)) := let! v := clear v in Ok (storage_ v).

(** ** Abstraction *)

(** The vector holds [l]: the first slots hold its elements, the rest is raw. *)
Record holds v (l : list T) : Prop := mk_holds {
  h_cap : 0 < Capacity < 2 ^ 32;
  h_size : size_ v = zlen l;
  h_fits : zlen l <= Capacity;
  h_storage : storage_ v = (Some <$> l) ++ replicate (Z.to_nat (Capacity - zlen l)) None;
}.

End ops.

End FixedVector.

Import FixedVector.

Section facts.
Context {T : Type} {Capacity : Z}.
Implicit Types (v : FixedVector T Capacity) (l : list T).

Lemma make_holds : 0 < Capacity < 2 ^ 32 -> holds (make (T := T) (Capacity := Capacity)) [].
Proof. intros HC. split; [done|done|rewrite zlen_nil; lia|]. by rewrite zlen_nil, Z.sub_0_r. Qed.

Lemma at_spec v l i x : holds v l -> 0 <= i -> l !! Z.to_nat i = Some x -> at_ v i = Ok x.
Proof.
  intros [_ _ _ Hst] Hi Hx. unfold at_. rewrite Hst, lookup_app_l.
  - by rewrite list_lookup_fmap, Hx.
  - rewrite length_fmap. by apply lookup_lt_is_Some_1.
Qed.

Lemma slot_at l (k : nat) (o : option T) : ((Some <$> l) ++ o :: replicate k None) !! length l = Some o.
Proof. rewrite lookup_app_r by (by rewrite length_fmap). by rewrite length_fmap, Nat.sub_diag. Qed.

Lemma slot_insert l (k : nat) (o o' : option T) :
  <[length l := o']> ((Some <$> l) ++ o :: replicate k None) = (Some <$> l) ++ o' :: replicate k None.
Proof. rewrite insert_app_r_alt by (by rewrite length_fmap). by rewrite length_fmap, Nat.sub_diag. Qed.

Lemma replicate_pred (n : Z) (m : nat) : 0 < n -> m = Z.to_nat (n - 1) ->
  replicate (Z.to_nat n) (@None T) = None :: replicate m None.
Proof. intros Hn ->. replace (Z.to_nat n) with (S (Z.to_nat (n - 1))) by lia. done. Qed.

Lemma emplace_back_spec v l x :
  holds v l ->
  exists v', emplace_back v x = Ok (zlen l <? Capacity, v')
    /\ holds v' (if zlen l <? Capacity then l ++ [x] else l).
Proof.
  intros Hv. pose proof Hv as [HC Hsz Hfit Hst]. unfold emplace_back. rewrite Hsz.
  destruct (Z.leb_spec Capacity (zlen l)), (Z.ltb_spec (zlen l) Capacity); try lia; [by exists v|].
  unfold construct. unfold zlen at 1 2. rewrite Nat2Z.id, Hst.
  rewrite (replicate_pred _ (Z.to_nat (Capacity - zlen l - 1))) by lia.
  rewrite slot_at, slot_insert. cbn [res_bind]. eexists. split; [done|].
  pose proof (zlen_nonneg l). split; [done| |rewrite zlen_app; change (zlen [x]) with 1; lia|].
  - cbn [size_]. rewrite zlen_app, u32_small by lia. done.
  - cbn [storage_]. rewrite fmap_app, <- app_assoc, zlen_app. change (zlen [x]) with 1.
    cbn [fmap list_fmap app]. do 3 f_equal. lia.
Qed.

Lemma pop_back_spec v l x :
  holds v (l ++ [x]) -> exists v', pop_back v = Ok (true, v') /\ holds v' l.
Proof.
  intros [HC Hsz Hfit Hst]. rewrite zlen_app in *. change (zlen [x]) with 1 in *. pose proof (zlen_nonneg l).
  unfold pop_back. rewrite Hsz. destruct (Z.eqb_spec (zlen l + 1) 0); [lia|].
  replace (zlen l + 1 - 1) with (zlen l) by lia. rewrite u32_small by lia.
  unfold destroy. unfold zlen at 1 2. rewrite Nat2Z.id, Hst, fmap_app, <- app_assoc. cbn [fmap list_fmap app].
  rewrite slot_at, slot_insert. cbn [res_bind]. eexists. split; [done|]. split; cbn; try lia.
  f_equal. symmetry. by apply replicate_pred; lia.
Qed.

Lemma pop_back_nil v : holds v [] -> pop_back v = Ok (false, v).
Proof. intros [_ Hsz _ _]. unfold pop_back. by rewrite Hsz. Qed.

Lemma vec_clear_spec v l : holds v l -> exists v', clear v = Ok v' /\ holds v' [].
Proof.
  unfold clear. intros Hv. rewrite (h_size _ _ Hv). unfold zlen. rewrite Nat2Z.id. revert v Hv.
  induction l as [|x l IH] using rev_ind; intros v Hv.
  { exists v. cbn. by rewrite (h_size _ _ Hv). }
  destruct (pop_back_spec v l x Hv) as (v1 & E & Hv1). rewrite length_app, Nat.add_1_r.
  unfold pop_back in E. pose proof (h_size _ _ Hv) as Hsz. rewrite zlen_app in Hsz. change (zlen [x]) with 1 in Hsz.
  pose proof (zlen_nonneg l). cbn [clear_loop]. destruct (Z.eqb_spec (size_ v) 0); [lia|].
  destruct (Z.ltb_spec 0 (size_ v)); [|lia]. cbn [negb].
  destruct (destroy _ _) as [st| |]; [|done|done]. cbn [res_bind] in *. injection E as <-. by apply IH.
Qed.

(** Copying appends the source's elements, as far as they fit. *)
Lemma append_loop_spec (o : FixedVector T Capacity) k : forall l0 l1 v l,
  holds o (l0 ++ l1) -> length l1 = k -> holds v l -> zlen l + zlen l1 <= Capacity ->
  exists v', append_loop k (zlen l0) o v = Ok v' /\ holds v' (l ++ l1).
Proof.
  induction k as [|k IH]; intros l0 l1 v l Ho Hk Hv Hfit.
  { destruct l1; [|done]. exists v. by rewrite app_nil_r. }
  destruct l1 as [|x l1]; [done|]. cbn [append_loop]. rewrite zlen_cons in Hfit. pose proof (zlen_nonneg l1).
  rewrite (at_spec o _ _ x Ho) by (auto with ewss; unfold zlen; rewrite Nat2Z.id; apply list_lookup_middle; done).
  cbn [res_bind]. destruct (emplace_back_spec v l x Hv) as (v1 & E & Hv1). unfold push_back. rewrite E.
  cbn [res_bind]. destruct (Z.ltb_spec (zlen l) Capacity); [|lia].
  specialize (IH (l0 ++ [x]) l1 v1 (l ++ [x])). rewrite !zlen_app, <- !app_assoc in IH. cbn [app] in IH.
  change (zlen [x]) with 1 in IH.
  apply IH; [done|by injection Hk|done|lia].
Qed.

Lemma assign_spec v l i x :
  holds v l -> 0 <= i < zlen l ->
  exists v', assign v i x = Ok v' /\ holds v' (<[Z.to_nat i := x]> l).
Proof.
  intros Hv Hi. destruct (lookup_lt_is_Some_2 l (Z.to_nat i)) as [y Hy]; [len|].
  unfold assign. rewrite (at_spec v l i y) by (done || lia). cbn [res_bind]. eexists. split; [done|].
  destruct Hv as [HC Hsz Hfit Hst]. split; [done| | |]; unfold zlen in *; cbn [size_ storage_]; rewrite length_insert; try done.
  rewrite Hst, insert_app_l by (rewrite length_fmap; by eapply lookup_lt_Some). by rewrite list_fmap_insert.
Qed.

Lemma append_all (o v : FixedVector T Capacity) l1 l : holds o l1 -> holds v l -> zlen l + zlen l1 <= Capacity ->
  exists v', append_loop (Z.to_nat (size_ o)) 0 o v = Ok v' /\ holds v' (l ++ l1).
Proof.
  intros Ho Hv Hfit. rewrite (h_size _ _ Ho). unfold zlen at 1. rewrite Nat2Z.id.
  by apply (append_loop_spec o (length l1) [] l1 v l).
Qed.

Lemma copy_spec (o : FixedVector T Capacity) l : holds o l -> exists v', copy o = Ok v' /\ holds v' l.
Proof.
  intros Ho. apply (append_all o make l []); [done|apply make_holds, Ho|]. apply (h_fits _ _ Ho).
Qed.

Lemma copy_assign_spec v (o : FixedVector T Capacity) l l1 : holds v l -> holds o l1 ->
  exists v', copy_assign false v o = Ok v' /\ holds v' l1.
Proof.
  intros Hv Ho. unfold copy_assign. destruct (vec_clear_spec v l Hv) as (v1 & -> & Hv1). cbn [negb res_bind].
  apply (append_all o v1 l1 []); [done|done|]. apply (h_fits _ _ Ho).
Qed.

Lemma move_spec (o : FixedVector T Capacity) l : holds o l ->
  exists v' o', move o = Ok (v', o') /\ holds v' l /\ holds o' [].
Proof.
  intros Ho. unfold move. destruct (copy_spec o l Ho) as (v' & E & Hv'). unfold copy in E. rewrite E. cbn [res_bind].
  destruct (vec_clear_spec o l Ho) as (o' & -> & Ho'). by exists v', o'.
Qed.

Lemma move_assign_spec v (o : FixedVector T Capacity) l l1 : holds v l -> holds o l1 ->
  exists v' o', move_assign false v o = Ok (v', o') /\ holds v' l1 /\ holds o' [].
Proof.
  intros Hv Ho. unfold move_assign. destruct (copy_assign_spec v o l l1 Hv Ho) as (v' & E & Hv').
  unfold copy_assign in E. cbn [negb] in *. destruct (clear v) as [v1| |]; [|done|done]. cbn [res_bind] in *. rewrite E. cbn [res_bind].
  destruct (vec_clear_spec o l1 Ho) as (o' & -> & Ho'). by exists v', o'.
Qed.

Lemma finish_spec v l : holds v l -> finish v = Ok (replicate (Z.to_nat Capacity) None).
Proof.
  intros Hv. unfold finish. destruct (vec_clear_spec v l Hv) as (v' & -> & [_ _ _ Hst]). cbn [res_bind].
  by rewrite Hst, zlen_nil, Z.sub_0_r.
Qed.

Lemma front_spec v x l : holds v (x :: l) -> front v = Ok x.
Proof. intros Hv. by apply (at_spec v _ 0 x Hv). Qed.

Lemma back_spec v l x : holds v (l ++ [x]) -> back v = Ok x.
Proof.
  intros Hv. unfold back. pose proof Hv as [HC Hsz Hfit _]. rewrite zlen_app in *. change (zlen [x]) with 1 in *.
  pose proof (zlen_nonneg l). rewrite Hsz, u32_small by lia. apply (at_spec v _ _ x Hv); [lia|].
  replace (Z.to_nat (zlen l + 1 - 1)) with (length l) by (unfold zlen; lia). by apply list_lookup_middle.
Qed.

End facts.

(** ** A program with vectors *)

(** Vectors are numbered as they are constructed. *)
Inductive vec_op (T : Type) : Type :=
| VNew
| VPush (i : nat) (x : T) | VPop (i : nat) | VClear (i : nat)
| VAt (i k : nat) | VAssign (i k : nat) (x : T) | VFront (i : nat) | VBack (i : nat)
| VCopy (i : nat) | VCopyAssign (i j : nat) | VMove (i : nat) | VMoveAssign (i j : nat)
| VDestroy (i : nat).
Arguments VNew {T}. Arguments VPush {T} _ _. Arguments VPop {T} _. Arguments VClear {T} _.
Arguments VAt {T} _ _. Arguments VAssign {T} _ _ _. Arguments VFront {T} _. Arguments VBack {T} _.
Arguments VCopy {T} _. Arguments VCopyAssign {T} _ _. Arguments VMove {T} _. Arguments VMoveAssign {T} _ _.
Arguments VDestroy {T} _.

(** What an operation gives back. *)
Inductive vec_result (T : Type) : Type := RNone | RBool (b : bool) | RElem (x : T) | RStorage (st : list (option T)).
Arguments RNone {T}. Arguments RBool {T} _. Arguments RElem {T} _. Arguments RStorage {T} _.

Section programs.
Context {T : Type} {Capacity : Z}.
Abbreviation vec := (FixedVector T Capacity).
Implicit Types (vs : list (option vec)) (ls : list (option (list T))) (o : vec_op T).

Definition vec_at vs (i : nat) : Res vec := of_option (mjoin (vs !! i)).

(** One operation on the vectors; a destroyed one is [None]. *)
Definition vec_step vs o : Res (vec_result T * list (option vec)) :=
  match o with
  | VNew => Ok (RNone, vs ++ [Some make])
  | VPush i x => let! v := vec_at vs i in let! (b, v) := push_back v x in Ok (RBool b, <[i := Some v]> vs)
  | VPop i => let! v := vec_at vs i in let! (b, v) := pop_back v in Ok (RBool b, <[i := Some v]> vs)
  | VClear i => let! v := vec_at vs i in let! v := clear v in Ok (RNone, <[i := Some v]> vs)
  | VAt i k => let! v := vec_at vs i in let! x := at_ v (Z.of_nat k) in Ok (RElem x, vs)
  | VAssign i k x => let! v := vec_at vs i in let! v := assign v (Z.of_nat k) x in Ok (RNone, <[i := Some v]> vs)
  | VFront i => let! v := vec_at vs i in let! x := front v in Ok (RElem x, vs)
  | VBack i => let! v := vec_at vs i in let! x := back v in Ok (RElem x, vs)
  | VCopy i => let! v := vec_at vs i in let! v := copy v in Ok (RNone, vs ++ [Some v])
  | VCopyAssign i j =>
      let! v := vec_at vs i in let! w := vec_at vs j in
      let! v := copy_assign (bool_decide (i = j)) v w in Ok (RNone, <[i := Some v]> vs)
  | VMove i =>
      let! w := vec_at vs i in
      let! (v, w) := move w in Ok (RNone, <[i := Some w]> vs ++ [Some v])
  | VMoveAssign i j =>
      let! v := vec_at vs i in let! w := vec_at vs j in
      let! (v, w) := move_assign (bool_decide (i = j)) v w in Ok (RNone, <[i := Some v]> (<[j := Some w]> vs))
  | VDestroy i => let! v := vec_at vs i in let! st := finish v in Ok (RStorage st, <[i := None]> vs)
  end.

Fixpoint vec_run vs (os : list (vec_op T)) : Res (list (vec_result T) * list (option vec)) :=
  match os with
  | [] => Ok ([], vs)
  | o :: os' =>
      let! (r, vs) := vec_step vs o in
      let! (rs, vs) := vec_run vs os' in Ok (r :: rs, vs)
  end.

(** The same on bounded lists; [None] when the program uses a vector that is
    not alive or an element that is not there. *)
Definition list_step ls o : option (vec_result T * list (option (list T))) :=
  let list_at (i : nat) := mjoin (ls !! i) in
  match o with
  | VNew => Some (RNone, ls ++ [Some []])
  | VPush i x =>
      l ← list_at i;
      Some (if zlen l <? Capacity then (RBool true, <[i := Some (l ++ [x])]> ls) else (RBool false, ls))
  | VPop i =>
      l ← list_at i;
      Some (if bool_decide (l = []) then (RBool false, ls) else (RBool true, <[i := Some (take (length l - 1) l)]> ls))
  | VClear i => _ ← list_at i; Some (RNone, <[i := Some []]> ls)
  | VAt i k => l ← list_at i; x ← l !! k; Some (RElem x, ls)
  | VAssign i k x => l ← list_at i; _ ← l !! k; Some (RNone, <[i := Some (<[k := x]> l)]> ls)
  | VFront i => l ← list_at i; x ← head l; Some (RElem x, ls)
  | VBack i => l ← list_at i; x ← last l; Some (RElem x, ls)
  | VCopy i => l ← list_at i; Some (RNone, ls ++ [Some l])
  | VCopyAssign i j => _ ← list_at i; l ← list_at j; Some (RNone, <[i := Some l]> ls)
  | VMove i => l ← list_at i; Some (RNone, <[i := Some []]> ls ++ [Some l])
  | VMoveAssign i j =>
      _ ← list_at i; l ← list_at j;
      Some (RNone, if bool_decide (i = j) then ls else <[i := Some l]> (<[j := Some []]> ls))
  | VDestroy i => _ ← list_at i; Some (RStorage (replicate (Z.to_nat Capacity) None), <[i := None]> ls)
  end.

Fixpoint list_run ls (os : list (vec_op T)) : option (list (vec_result T) * list (option (list T))) :=
  match os with
  | [] => Some ([], ls)
  | o :: os' =>
      '(r, ls) ← list_step ls o;
      '(rs, ls) ← list_run ls os'; Some (r :: rs, ls)
  end.

(** Each living vector holds its list. *)
Definition all_hold vs ls : Prop := Forall2 (option_Forall2 (fun v l => holds v l)) vs ls.

Lemma all_hold_at vs ls i l : all_hold vs ls -> mjoin (ls !! i) = Some l ->
  exists v, vec_at vs i = Ok v /\ vs !! i = Some (Some v) /\ holds v l.
Proof.
  intros Hvs Hl. destruct (ls !! i) as [ol|] eqn:E; cbn in Hl; [|done]. subst ol.
  destruct (Forall2_lookup_r _ _ _ _ _ Hvs E) as (ov & Ev & Hv). inversion Hv as [v l' Hv'|]; subst.
  exists v. unfold vec_at. by rewrite Ev.
Qed.

Lemma all_hold_known ls i l : mjoin (ls !! i) = Some l -> ls !! i = Some (Some l).
Proof. destruct (ls !! i) as [ol|]; cbn; congruence. Qed.

Lemma all_hold_insert vs ls i v l : all_hold vs ls -> holds v l -> all_hold (<[i := Some v]> vs) (<[i := Some l]> ls).
Proof. intros Hvs Hv. apply Forall2_insert; [done|by constructor]. Qed.

Lemma all_hold_snoc vs ls v l : all_hold vs ls -> holds v l -> all_hold (vs ++ [Some v]) (ls ++ [Some l]).
Proof. intros Hvs Hv. apply Forall2_app; [done|]. apply Forall2_cons_2; [by apply Some_Forall2|by apply Forall2_nil_2]. Qed.

(** Operations that change one vector, those that only read it, and those
    between two. *)
Lemma change_sim vs ls o r ls' : 0 < Capacity < 2 ^ 32 -> all_hold vs ls ->
  match o with VNew | VPush _ _ | VPop _ | VClear _ | VAssign _ _ _ | VDestroy _ => True | _ => False end ->
  list_step ls o = Some (r, ls') -> exists vs', vec_step vs o = Ok (r, vs') /\ all_hold vs' ls'.
Proof.
  intros HC Hvs Ho E. destruct o as [|i x|i|i| |i k x| | | | | | |i]; try done; cbn [list_step vec_step] in *;
    [|destruct (mjoin (ls !! i)) as [l|] eqn:El; [|done]; cbn [mbind option_bind] in E;
      destruct (all_hold_at vs ls i l Hvs El) as (v & -> & Ev & Hv); cbn [res_bind]..].
  - injection E as <- <-. eexists. split; [done|]. by apply all_hold_snoc, make_holds.
  - destruct (emplace_back_spec v l x Hv) as (v' & Ep & Hv'). unfold push_back. rewrite Ep. cbn [res_bind].
    destruct (zlen l <? Capacity); injection E as <- <-; eexists; (split; [done|]); [by apply all_hold_insert|].
    rewrite <- (list_insert_id ls i (Some l)); [by apply all_hold_insert|]. by apply all_hold_known.
  - case_bool_decide as En; injection E as <- <-.
    + subst l. rewrite (pop_back_nil v Hv). cbn [res_bind]. eexists. split; [done|].
      rewrite <- (list_insert_id ls i (Some [])); [by apply all_hold_insert|]. by apply all_hold_known.
    + destruct l as [|x l _] using rev_ind; [done|]. destruct (pop_back_spec v l x Hv) as (v' & -> & Hv'). cbn [res_bind].
      eexists. split; [done|]. rewrite length_app, Nat.add_sub, take_app_length. by apply all_hold_insert.
  - injection E as <- <-. destruct (vec_clear_spec v l Hv) as (v' & -> & Hv'). cbn [res_bind].
    eexists. split; [done|]. by apply all_hold_insert.
  - destruct (l !! k) as [y|] eqn:Ek; [|done]. injection E as <- <-. apply lookup_lt_Some in Ek.
    destruct (assign_spec v l (Z.of_nat k) x Hv) as (v' & -> & Hv'); [unfold zlen; lia|]. cbn [res_bind].
    rewrite Nat2Z.id in Hv'. eexists. split; [done|]. by apply all_hold_insert.
  - injection E as <- <-. rewrite (finish_spec v l Hv). cbn [res_bind]. eexists. split; [done|].
    apply Forall2_insert; [done|constructor].
Qed.

Lemma read_sim vs ls o r ls' : all_hold vs ls ->
  match o with VAt _ _ | VFront _ | VBack _ => True | _ => False end ->
  list_step ls o = Some (r, ls') -> vec_step vs o = Ok (r, vs) /\ ls' = ls.
Proof.
  intros Hvs Ho E. destruct o as [| | | |i k| |i|i| | | | |]; try done; cbn [list_step vec_step] in *;
    (destruct (mjoin (ls !! i)) as [l|] eqn:El; [|done]); cbn [mbind option_bind] in E;
    destruct (all_hold_at vs ls i l Hvs El) as (v & -> & Ev & Hv); cbn [res_bind].
  - destruct (l !! k) as [x|] eqn:Ek; [|done]. injection E as <- <-.
    by rewrite (at_spec v l (Z.of_nat k) x Hv ltac:(lia) ltac:(by rewrite Nat2Z.id)).
  - destruct l as [|x l]; [done|]. injection E as <- <-. by rewrite (front_spec v x l Hv).
  - destruct l as [|x l _] using rev_ind; [done|]. rewrite last_snoc in E. injection E as <- <-.
    by rewrite (back_spec v l x Hv).
Qed.

Lemma transfer_sim vs ls o r ls' : all_hold vs ls ->
  match o with VCopy _ | VCopyAssign _ _ | VMove _ | VMoveAssign _ _ => True | _ => False end ->
  list_step ls o = Some (r, ls') -> exists vs', vec_step vs o = Ok (r, vs') /\ all_hold vs' ls'.
Proof.
  intros Hvs Ho E. destruct o as [| | | | | | | |i|i j|i|i j|]; try done; cbn [list_step vec_step] in *;
    (destruct (mjoin (ls !! i)) as [l|] eqn:El; [|done]); cbn [mbind option_bind] in E;
    destruct (all_hold_at vs ls i l Hvs El) as (v & -> & Ev & Hv); cbn [res_bind].
  - injection E as <- <-. destruct (copy_spec v l Hv) as (v' & -> & Hv'). eexists. split; [done|]. by apply all_hold_snoc.
  - destruct (mjoin (ls !! j)) as [m|] eqn:Em; [|done]. injection E as <- <-.
    destruct (all_hold_at vs ls j m Hvs Em) as (w & -> & Ew & Hw). cbn [res_bind]. case_bool_decide as Ei.
    + subst j. rewrite El in Em. injection Em as <-. eexists. split; [done|]. by apply all_hold_insert.
    + destruct (copy_assign_spec v w l m Hv Hw) as (v' & -> & Hv'). eexists. split; [done|]. by apply all_hold_insert.
  - injection E as <- <-. destruct (move_spec v l Hv) as (v' & w & -> & Hv' & Hw). eexists. split; [done|].
    apply all_hold_snoc; [|done]. by apply all_hold_insert.
  - destruct (mjoin (ls !! j)) as [m|] eqn:Em; [|done]. injection E as <- <-.
    destruct (all_hold_at vs ls j m Hvs Em) as (w & -> & Ew & Hw). cbn [res_bind]. case_bool_decide as Ei.
    + subst j. rewrite El in Em. injection Em as <-. rewrite Ev in Ew. injection Ew as <-. cbn [move_assign negb res_bind].
      eexists. split; [done|]. rewrite !(list_insert_id vs i (Some v)) by done. done.
    + destruct (move_assign_spec v w l m Hv Hw) as (v' & w' & -> & Hv' & Hw'). eexists. split; [done|].
      apply all_hold_insert; [|done]. by apply all_hold_insert.
Qed.

Lemma vec_step_sim vs ls o r ls' : 0 < Capacity < 2 ^ 32 -> all_hold vs ls ->
  list_step ls o = Some (r, ls') -> exists vs', vec_step vs o = Ok (r, vs') /\ all_hold vs' ls'.
Proof.
  intros HC Hvs E. destruct o; try (by eapply change_sim); try (by eapply transfer_sim);
    exists vs; by edestruct read_sim as [? ->]; [| |exact E|].
Qed.

Lemma vec_run_sim os : 0 < Capacity < 2 ^ 32 -> forall vs ls rs ls', all_hold vs ls ->
  list_run ls os = Some (rs, ls') -> exists vs', vec_run vs os = Ok (rs, vs') /\ all_hold vs' ls'.
Proof.
  intros HC. induction os as [|o os IH]; intros vs ls rs ls' Hvs E; cbn [list_run vec_run] in *.
  { injection E as <- <-. by exists vs. }
  destruct (list_step ls o) as [[r ls1]|] eqn:E1; [|done]. cbn [mbind option_bind] in E.
  destruct (list_run ls1 os) as [[rs2 ls2]|] eqn:E2; [|done]. injection E as <- <-.
  destruct (vec_step_sim vs ls o r ls1 HC Hvs E1) as (vs1 & -> & Hvs1). cbn [res_bind].
  destruct (IH vs1 ls1 rs2 ls2 Hvs1 E2) as (vs2 & -> & Hvs2). by exists vs2.
Qed.
End programs.

(** ** Properties *)

(** C37: a vector is a bounded list.  Any program that constructs, pushes to,
    pops, clears, reads, assigns elements of, copies, copy-assigns, moves,
    move-assigns and destroys vectors (never one that is not alive, nor an
    element that is not there) gives the results and the contents that the
    lists give: assigning a vector to itself changes nothing, a vector that
    was moved from is empty, and the storage of a destroyed one is raw.  No
    slot is read, destroyed or overwritten when it should not be, and the
    sizes stay within the capacity. *)
Theorem vec_refines_list {T} (Capacity : Z) (os : list (vec_op T)) rs ls :
  0 < Capacity < 2 ^ 32 ->
  list_run (Capacity := Capacity) [] os = Some (rs, ls) ->
  exists vs : list (option (FixedVector T Capacity)), vec_run [] os = Ok (rs, vs) /\ all_hold vs ls
    /\ forall i v, vs !! i = Some (Some v) ->
         size v <= capacity (Capacity := Capacity)
         /\ full v = bool_decide (size v = Capacity) /\ empty v = bool_decide (size v = 0).
Proof.
  intros HC E. destruct (vec_run_sim os HC [] [] rs ls (Forall2_nil_2 _ _ _) E) as (vs & Ev & Hvs). exists vs.
  split_and!; [done|done|]. intros i v Hi. destruct (Forall2_lookup_l _ _ _ _ _ Hvs Hi) as (ol & El & Hol).
  inversion Hol as [v' l Hv|]; subst. pose proof (h_size _ _ Hv). pose proof (h_fits _ _ Hv). pose proof (zlen_nonneg l).
  unfold size, capacity, full, empty. split_and!; [lia|case_bool_decide; zcase|case_bool_decide; zcase].
Qed.

(** Two full vectors, one assigned to the other, moved and moved back. *)
Lemma vec_refines_list_witness :
  exists vs : list (option (FixedVector Z 2)),
    vec_run [] [VNew; VPush 0 7; VPush 0 8; VPush 0 9; VNew; VPush 1 5; VCopyAssign 1 0; VPop 0; VBack 0; VBack 1;
                VMove 1; VPop 1; VMoveAssign 0 2; VMoveAssign 0 0; VAssign 0 1 6; VAt 0 1; VDestroy 2]
    = Ok ([RNone; RBool true; RBool true; RBool false; RNone; RBool true; RNone; RBool true; RElem 7; RElem 8;
           RNone; RBool false; RNone; RNone; RNone; RElem 6; RStorage [None; None]], vs)
    /\ all_hold vs [Some [7; 6]; Some []; None].
Proof.
  destruct (vec_refines_list 2 [VNew; VPush 0 7; VPush 0 8; VPush 0 9; VNew; VPush 1 5; VCopyAssign 1 0; VPop 0; VBack 0; VBack 1;
                VMove 1; VPop 1; VMoveAssign 0 2; VMoveAssign 0 0; VAssign 0 1 6; VAt 0 1; VDestroy 2] _ _ (conj eq_refl eq_refl) eq_refl)
    as (vs & E & H & _).
  exists vs. split; [exact E|exact H].
Defined.
