(* ===== verification/ObjectPool.v ===== *)
(** * ObjectPool: the slot allocator (ewss.hpp, class [ObjectPool])

    The free list is a stack of indices, [slot_active_] says which slots
    are handed out.  [pool_ok] ties the two together; the pool is shown to
    hand out a slot that is not in use, never one twice, and to ignore
    releases that are out of range or doubled. *)
From stdpp Require Import gmap sets fin_sets.
From S2P Require Import Prelude.
Open Scope ewss_scope.

Module ObjectPool.

(** [slots_], the raw storage, is only exposed through [storage]. *)
Record ObjectPool (MaxSlots : Z) := mk_pool {
  free_list_ : list Z;
  free_count_ : Z;
  slot_active_ : list bool;
}.
Arguments mk_pool {MaxSlots} _ _ _.
Arguments free_list_ {MaxSlots} _.
Arguments free_count_ {MaxSlots} _.
Arguments slot_active_ {MaxSlots} _.

Section ops.
Context {MaxSlots : Z}.
Abbreviation pool := (ObjectPool MaxSlots).
Implicit Type p : pool.

(** [std::array] access, unchecked. *)
Definition get_ {A} (l : list A) (i : Z) : Res A := if i <? 0 then Undefined else of_option (l !! Z.to_nat i).
Definition set_ {A} (l : list A) (i : Z) (x : A) : Res (list A) :=
  if (0 <=? i) && (i <? zlen l) then Ok (<[Z.to_nat i := x]> l) else Undefined.

Fixpoint reset_loop (n : nat) (i : Z) (fl : list Z) (act : list bool) : Res (list Z * list bool) :=
  match n with
  | O => Ok (fl, act)
  | S n' =>
      let! fl := set_ fl i i in
      let! act := set_ act i false in
      reset_loop n' (i + 1) fl act
  end.

Definition reset p : Res pool :=
  let! (fl, act) := reset_loop (Z.to_nat MaxSlots) 0 (free_list_ p) (slot_active_ p) in
  Ok (mk_pool fl MaxSlots act).

(** The arrays and counters are value-initialised, then [reset] runs. *)
Definition make : Res pool :=
  reset (mk_pool (replicate (Z.to_nat MaxSlots) 0) 0 (replicate (Z.to_nat MaxSlots) false)).

Definition acquire p : Res (Z * pool) :=
  if free_count_ p =? 0 then Ok (-1, p) else
  let count := u64 (free_count_ p - 1) in
  let! f := get_ (free_list_ p) count in
  let idx := i32 f in
  let! act := set_ (slot_active_ p) idx true in
  Ok (idx, mk_pool (free_list_ p) count act).

Definition release p (idx : Z) : Res pool :=
  if (idx <? 0) || (MaxSlots <=? u64 idx) then Ok p else
  let! active := get_ (slot_active_ p) idx in
  if negb active then Ok p else
  let! act := set_ (slot_active_ p) idx false in
  let! fl := set_ (free_list_ p) (free_count_ p) (u64 idx) in
  Ok (mk_pool fl (u64 (free_count_ p + 1)) act).

(** Byte offset of a slot of [size] bytes. *)
Definition storage (size idx : Z) : Z := u64 (u64 idx * size).

Definition available p : Z := free_count_ p.
Definition capacity : Z := MaxSlots.
Definition in_use p : Z := u64 (MaxSlots - free_count_ p).
Definition is_active p (idx : Z) : Res bool :=
  if (0 <=? idx) && (u64 idx <? MaxSlots) then get_ (slot_active_ p) idx else Ok false.

(** The first [free_count_] entries of the free list are distinct slots and
    are exactly the slots that are not active. *)
Record pool_ok p : Prop := mk_pool_ok {
  po_max : 0 < MaxSlots < 2 ^ 31;
  po_fl_len : zlen (free_list_ p) = MaxSlots;
  po_act_len : zlen (slot_active_ p) = MaxSlots;
  po_count : 0 <= free_count_ p <= MaxSlots;
  po_nodup : NoDup (take (Z.to_nat (free_count_ p)) (free_list_ p));
  po_free : forall i, i ∈ take (Z.to_nat (free_count_ p)) (free_list_ p) <->
    0 <= i /\ slot_active_ p !! Z.to_nat i = Some false;
}.

End ops.
Arguments ObjectPool : clear implicits.

End ObjectPool.

Import ObjectPool.

(** [n] distinct numbers below [n] are all the numbers below [n]. *)
Lemma NoDup_all_below (l : list Z) (n : Z) :
  NoDup l -> n <= zlen l -> (forall j, j ∈ l -> 0 <= j < n) -> forall j, 0 <= j < n -> j ∈ l.
Proof.
  intros Hnd Hlen Hb j Hj.
  assert (Hsub : l ⊆+ seqZ 0 n).
  { apply NoDup_submseteq; [done|]. intros x Hx%Hb. apply elem_of_seqZ. lia. }
  assert (Hp : l ≡ₚ seqZ 0 n).
  { apply submseteq_length_Permutation; [done|]. rewrite length_seqZ. len. }
  rewrite Hp. apply elem_of_seqZ. lia.
Qed.

Section facts.
Context {MaxSlots : Z}.
Implicit Type p : ObjectPool MaxSlots.

Lemma set_ok {A} (l : list A) i x : 0 <= i < zlen l -> set_ l i x = Ok (<[Z.to_nat i := x]> l).
Proof. intros Hi. unfold set_. by zcase. Qed.
Lemma get_ok {A} (l : list A) i x : 0 <= i -> l !! Z.to_nat i = Some x -> get_ l i = Ok x.
Proof. intros Hi Hx. unfold get_. rewrite Hx. zcase. Qed.

Lemma reset_loop_spec n : forall i fl act,
  0 <= i -> i + Z.of_nat n <= zlen fl -> i + Z.of_nat n <= zlen act ->
  exists fl' act', reset_loop n i fl act = Ok (fl', act')
    /\ zlen fl' = zlen fl /\ zlen act' = zlen act
    /\ forall j, (i <= Z.of_nat j < i + Z.of_nat n -> fl' !! j = Some (Z.of_nat j) /\ act' !! j = Some false)
              /\ (Z.of_nat j < i -> fl' !! j = fl !! j /\ act' !! j = act !! j).
Proof.
  induction n as [|n IH]; intros i fl act Hi Hf Ha.
  { exists fl, act. split_and!; try done. intros j. split; [lia|done]. }
  cbn [reset_loop]. rewrite !set_ok by lia. cbn [res_bind].
  destruct (IH (i + 1) (<[Z.to_nat i:=i]> fl) (<[Z.to_nat i:=false]> act)) as (fl' & act' & -> & Hfl & Hal & Hj);
    [lia|len|len|].
  exists fl', act'. split_and!; [done|rewrite Hfl; len|rewrite Hal; len|]. intros j. destruct (Hj j) as [Hj1 Hj2]. split.
  - intros Hr. destruct (decide (Z.of_nat j = i)) as [E|Hne]; [|apply Hj1; lia].
    destruct Hj2 as [-> ->]; [lia|]. assert (j = Z.to_nat i) as -> by lia.
    rewrite !list_lookup_insert_eq by len. rewrite Z2Nat.id by lia. done.
  - intros Hlt. destruct Hj2 as [-> ->]; [lia|]. rewrite !list_lookup_insert_ne by lia. done.
Qed.

Lemma reset_spec p :
  0 < MaxSlots < 2 ^ 31 -> zlen (free_list_ p) = MaxSlots -> zlen (slot_active_ p) = MaxSlots ->
  exists p', reset p = Ok p' /\ pool_ok p' /\ free_count_ p' = MaxSlots.
Proof.
  intros HM Hf Ha. unfold reset.
  destruct (reset_loop_spec (Z.to_nat MaxSlots) 0 (free_list_ p) (slot_active_ p))
    as (fl & act & -> & Hfl & Hal & Hj); [lia|lia|lia|]. cbn [res_bind].
  eexists. split; [done|]. split; [|done].
  assert (Efl : fl = seqZ 0 MaxSlots).
  { apply list_eq. intros j. destruct (decide (Z.of_nat j < MaxSlots)).
    - destruct (Hj j) as [[-> _] _]; [lia|]. symmetry. apply lookup_seqZ. lia.
    - rewrite lookup_ge_None_2 by len. symmetry. apply lookup_ge_None. rewrite length_seqZ. lia. }
  split; cbn; try lia; rewrite take_ge by len.
  - rewrite Efl. apply NoDup_seqZ.
  - intros i. rewrite Efl, elem_of_seqZ. split.
    + intros Hi. split; [lia|]. destruct (Hj (Z.to_nat i)) as [[_ ->] _]; [lia|done].
    + intros [Hi Hx]. apply lookup_lt_Some in Hx. len.
Qed.

Lemma make_spec : 0 < MaxSlots < 2 ^ 31 ->
  exists p, make (MaxSlots := MaxSlots) = Ok p /\ pool_ok p /\ free_count_ p = MaxSlots.
Proof. intros HM. apply reset_spec; [done|len|len]. Qed.

(** Acquiring hands out a free slot. *)
Lemma acquire_spec p :
  pool_ok p ->
  if free_count_ p =? 0 then acquire p = Ok (-1, p) else
  exists idx p', acquire p = Ok (idx, p') /\ pool_ok p' /\ 0 <= idx < MaxSlots
    /\ slot_active_ p !! Z.to_nat idx = Some false
    /\ slot_active_ p' = <[Z.to_nat idx := true]> (slot_active_ p)
    /\ free_count_ p' = free_count_ p - 1.
Proof.
  intros [HM Hf Ha Hc Hnd Hfree]. unfold acquire. destruct (Z.eqb_spec (free_count_ p) 0); [done|].
  rewrite u64_small by lia. set (top := free_count_ p - 1).
  destruct (lookup_lt_is_Some_2 (free_list_ p) (Z.to_nat top)) as [idx Hidx]; [len|].
  assert (Etake : take (Z.to_nat (free_count_ p)) (free_list_ p) = take (Z.to_nat top) (free_list_ p) ++ [idx]).
  { replace (Z.to_nat (free_count_ p)) with (S (Z.to_nat top)) by lia. by apply take_S_r. }
  rewrite Etake in Hnd, Hfree. apply NoDup_app in Hnd as (Hnd & Hdis & _).
  destruct (proj1 (Hfree idx)) as [Hi Hact]; [apply elem_of_app; right; by apply list_elem_of_singleton|].
  pose proof (lookup_lt_Some _ _ _ Hact) as Hlt.
  rewrite (get_ok _ _ idx) by (done || lia). cbn [res_bind]. rewrite i32_small by len. rewrite set_ok by len.
  cbn [res_bind]. eexists idx, _. split; [done|].
  split; [|split_and!; try done; len]. split; cbn; try lia; [len|done|].
  intros i. split.
  - intros Hin. destruct (proj1 (Hfree i)) as [Hi0 Hai]; [apply elem_of_app; by left|]. split; [done|].
    rewrite list_lookup_insert_ne; [done|]. intros E. apply (Hdis i Hin). assert (i = idx) as -> by lia. by apply list_elem_of_singleton.
  - intros [Hi0 Hai]. destruct (decide (Z.to_nat i = Z.to_nat idx)) as [E|Hne].
    + rewrite E, list_lookup_insert_eq in Hai by done. done.
    + rewrite list_lookup_insert_ne in Hai by done. assert (Hin : i ∈ take (Z.to_nat top) (free_list_ p) ++ [idx]) by (by apply Hfree).
      apply elem_of_app in Hin as [?|Hx]; [done|]. apply list_elem_of_singleton in Hx. congruence.
Qed.

(** Releasing an active slot makes it free; any other release is ignored. *)
Lemma release_spec p idx :
  pool_ok p -> - 2 ^ 31 <= idx < 2 ^ 31 ->
  if decide (0 <= idx /\ slot_active_ p !! Z.to_nat idx = Some true) then
    exists p', release p idx = Ok p' /\ pool_ok p'
      /\ slot_active_ p' = <[Z.to_nat idx := false]> (slot_active_ p)
      /\ free_count_ p' = free_count_ p + 1
  else release p idx = Ok p.
Proof.
  intros [HM Hf Ha Hc Hnd Hfree] Hr. unfold release.
  destruct (Z.ltb_spec idx 0) as [Hneg|Hnn]; cbn [orb].
  { case_decide as E; [lia|done]. }
  rewrite u64_small by lia. destruct (Z.leb_spec MaxSlots idx) as [Hbig|Hsm].
  { case_decide as E; [|done]. destruct E as [_ E]. apply lookup_lt_Some in E. len. }
  destruct (lookup_lt_is_Some_2 (slot_active_ p) (Z.to_nat idx)) as [b Hb]; [len|].
  rewrite (get_ok _ _ b) by done. cbn [res_bind]. destruct b; cbn [negb].
  2: { case_decide as E; [|done]. destruct E as [_ E]. congruence. }
  rewrite decide_True by done.
  assert (Hnotin : idx ∉ take (Z.to_nat (free_count_ p)) (free_list_ p)).
  { intros Hin. apply Hfree in Hin as [_ E]. congruence. }
  assert (Hroom : free_count_ p < MaxSlots).
  { destruct (decide (free_count_ p < MaxSlots)); [done|exfalso]. apply Hnotin.
    assert (Hall : forall j, 0 <= j < MaxSlots -> j ∈ take (Z.to_nat (free_count_ p)) (free_list_ p)).
    { apply (NoDup_all_below _ _ Hnd); [len|]. intros j Hj. apply Hfree in Hj as [Hj Hx].
      apply lookup_lt_Some in Hx. len. }
    apply Hall. lia. }
  rewrite !set_ok by lia. cbn [res_bind]. eexists. split; [done|]. split; [|by rewrite u64_small by lia].
  assert (Et : take (Z.to_nat (free_count_ p + 1)) (<[Z.to_nat (free_count_ p):=idx]> (free_list_ p))
    = take (Z.to_nat (free_count_ p)) (free_list_ p) ++ [idx]).
  { replace (Z.to_nat (free_count_ p + 1)) with (S (Z.to_nat (free_count_ p))) by lia.
    rewrite (take_S_r _ _ idx) by (apply list_lookup_insert_eq; len). f_equal. by apply take_insert_ge. }
  split; cbn; rewrite ?u64_small by lia; try lia; try len; rewrite Et.
  - apply NoDup_app. split_and!; [done| |apply NoDup_singleton]. intros i Hi ->%list_elem_of_singleton. done.
  - intros i. rewrite elem_of_app, list_elem_of_singleton, Hfree. split.
    + intros [[Hi Hx] | ->]; [|by rewrite list_lookup_insert_eq by len]. split; [done|].
      rewrite list_lookup_insert_ne; [done|]. intros E. rewrite <- E in Hx. congruence.
    + intros [Hi Hx]. destruct (decide (Z.to_nat i = Z.to_nat idx)) as [E|Hne]; [right; lia|left].
      by rewrite list_lookup_insert_ne in Hx.
Qed.

End facts.

(** ** Specification: a set of slots in use *)

Inductive pool_op : Type := PAcquire | PRelease (idx : Z).

Definition pool_op_ok (o : pool_op) : Prop :=
  match o with PAcquire => True | PRelease idx => - 2 ^ 31 <= idx < 2 ^ 31 end.

Definition pool_step {MaxSlots} (p : ObjectPool MaxSlots) (o : pool_op) : Res (Z * ObjectPool MaxSlots) :=
  match o with
  | PAcquire => acquire p
  | PRelease idx => let! p := release p idx in Ok (0, p)
  end.

Fixpoint pool_run {MaxSlots} (p : ObjectPool MaxSlots) (os : list pool_op) : Res (list Z * ObjectPool MaxSlots) :=
  match os with
  | [] => Ok ([], p)
  | o :: os' =>
      let! (r, p) := pool_step p o in
      let! (rs, p) := pool_run p os' in Ok (r :: rs, p)
  end.

(** Acquiring takes any slot not in use, and fails only when all are;
    releasing a slot that is not in use changes nothing. *)
Inductive slots_step (max : Z) : gset Z -> pool_op -> Z -> gset Z -> Prop :=
| slots_acquire A i : 0 <= i < max -> i ∉ A -> slots_step max A PAcquire i (A ∪ {[i]})
| slots_exhausted A : Z.of_nat (size A) = max -> slots_step max A PAcquire (-1) A
| slots_release A i : slots_step max A (PRelease i) 0 (A ∖ {[i]}).

Inductive slots_run (max : Z) : gset Z -> list pool_op -> list Z -> gset Z -> Prop :=
| slots_nil A : slots_run max A [] [] A
| slots_cons A o r A1 os rs A2 :
    slots_step max A o r A1 -> slots_run max A1 os rs A2 -> slots_run max A (o :: os) (r :: rs) A2.

Section refinement.
Context {MaxSlots : Z}.
Implicit Type p : ObjectPool MaxSlots.

Definition active_list p : list Z :=
  filter (fun i => slot_active_ p !! Z.to_nat i = Some true) (seqZ 0 MaxSlots).
Definition active_set p : gset Z := list_to_set (active_list p).

Lemma elem_of_active p i :
  zlen (slot_active_ p) = MaxSlots ->
  i ∈ active_set p <-> 0 <= i /\ slot_active_ p !! Z.to_nat i = Some true.
Proof.
  intros Hl. unfold active_set, active_list. rewrite elem_of_list_to_set, list_elem_of_filter, elem_of_seqZ.
  split; [intros [? ?]; split; [lia|done]|]. intros [Hi Hx]. split; [done|]. apply lookup_lt_Some in Hx. len.
Qed.

Lemma filter_partition {A} (P : A -> Prop) `{forall x, Decision (P x)} (l : list A) :
  (length (filter P l) + length (filter (fun x => ~ P x) l) = length l)%nat.
Proof.
  induction l as [|x l IH]; [done|]. rewrite !filter_cons. destruct (decide (P x)); cbn.
  - rewrite decide_False by (by intros []). lia.
  - rewrite decide_True by done. cbn. lia.
Qed.

(** The number of slots in use is what the free count leaves. *)
Lemma active_size p : pool_ok p -> Z.of_nat (size (active_set p)) = MaxSlots - free_count_ p.
Proof.
  intros [HM Hf Ha Hc Hnd Hfree].
  assert (Hs : size (active_set p) = length (active_list p)).
  { unfold active_set. rewrite size_list_to_set; [done|]. apply NoDup_filter, NoDup_seqZ. }
  assert (Hfr : length (filter (fun i => ~ slot_active_ p !! Z.to_nat i = Some true) (seqZ 0 MaxSlots))
    = Z.to_nat (free_count_ p)).
  { transitivity (length (take (Z.to_nat (free_count_ p)) (free_list_ p))); [|len]. apply Permutation_length.
    apply NoDup_Permutation; [apply NoDup_filter, NoDup_seqZ|done|]. intros i.
    rewrite list_elem_of_filter, elem_of_seqZ, Hfree. split.
    - intros [Hna Hi]. split; [lia|].
      destruct (lookup_lt_is_Some_2 (slot_active_ p) (Z.to_nat i)) as [b Hb]; [len|]. rewrite Hb in Hna |- *.
      by destruct b.
    - intros [Hi Hx]. rewrite Hx. split; [done|]. apply lookup_lt_Some in Hx. len. }
  pose proof (filter_partition (fun i => slot_active_ p !! Z.to_nat i = Some true) (seqZ 0 MaxSlots)) as Hp.
  rewrite length_seqZ in Hp. unfold active_list in Hs. rewrite Hs. lia.
Qed.

Lemma pool_step_sim p o :
  pool_ok p -> pool_op_ok o ->
  exists r p', pool_step p o = Ok (r, p') /\ pool_ok p'
    /\ slots_step MaxSlots (active_set p) o r (active_set p').
Proof.
  intros Hok Ho. pose proof (po_act_len _ Hok) as Hal. destruct o as [|idx]; cbn [pool_step].
  - pose proof (acquire_spec p Hok) as Hs. pose proof (active_size p Hok) as Hsz.
    destruct (Z.eqb_spec (free_count_ p) 0).
    + rewrite Hs. exists (-1), p. split_and!; [done|done|]. apply slots_exhausted. lia.
    + destruct Hs as (idx & p' & -> & Hok' & Hr & Hfr & Hact & _). exists idx, p'. split_and!; [done|done|].
      replace (active_set p') with (active_set p ∪ {[idx]}).
      * apply slots_acquire; [done|]. rewrite elem_of_active by done. intros [_ E]. congruence.
      * apply set_eq. intros i. rewrite elem_of_union, elem_of_singleton, !elem_of_active by apply Hok || apply Hok'.
        rewrite Hact. split.
        -- intros [[Hi Hx] | ->].
           ++ split; [done|]. destruct (decide (Z.to_nat i = Z.to_nat idx)) as [E|];
                [rewrite E, list_lookup_insert_eq by (rewrite <- E; by eapply lookup_lt_Some); done|].
              by rewrite list_lookup_insert_ne.
           ++ rewrite list_lookup_insert_eq by (by eapply lookup_lt_Some). split; [lia|done].
        -- intros [Hi Hx]. destruct (decide (i = idx)) as [->|Hne]; [by right|left].
           rewrite list_lookup_insert_ne in Hx by lia. done.
  - pose proof (release_spec p idx Hok Ho) as Hs. case_decide as Hd.
    + destruct Hs as (p' & -> & Hok' & Hact & _). exists 0, p'. split_and!; [done|done|].
      replace (active_set p') with (active_set p ∖ {[idx]}); [apply slots_release|].
      destruct Hd as [Hi0 Hx0].
      apply set_eq. intros i. rewrite elem_of_difference, elem_of_singleton, !elem_of_active by apply Hok || apply Hok'.
      rewrite Hact. split.
      * intros [[Hi Hx] Hne]. split; [done|]. by rewrite list_lookup_insert_ne by lia.
      * intros [Hi Hx]. destruct (decide (Z.to_nat i = Z.to_nat idx)) as [E|Hne].
        -- rewrite E, list_lookup_insert_eq in Hx by (by eapply lookup_lt_Some). done.
        -- rewrite list_lookup_insert_ne in Hx by done. split; [done|]. intros ->. done.
    + rewrite Hs. exists 0, p. split_and!; [done|done|].
      replace (active_set p) with (active_set p ∖ {[idx]}) at 2; [apply slots_release|].
      apply set_eq. intros i. rewrite elem_of_difference, elem_of_singleton, !elem_of_active by done.
      split; [by intros [? _]|]. intros Hi. split; [done|]. intros ->. done.
Qed.

Lemma pool_run_sim os : forall p,
  pool_ok p -> Forall pool_op_ok os ->
  exists rs p', pool_run p os = Ok (rs, p') /\ pool_ok p'
    /\ slots_run MaxSlots (active_set p) os rs (active_set p').
Proof.
  induction os as [|o os IH]; intros p Hok Hos.
  { exists [], p. split_and!; [done|done|constructor]. }
  apply Forall_cons in Hos as [Ho Hos]. cbn [pool_run].
  destruct (pool_step_sim p o Hok Ho) as (r & p1 & -> & Hok1 & Hs). cbn [res_bind].
  destruct (IH p1 Hok1 Hos) as (rs & p2 & -> & Hok2 & Hrs). exists (r :: rs), p2. split_and!; [done|done|].
  by econstructor.
Qed.

Lemma fresh_active p : pool_ok p -> free_count_ p = MaxSlots -> active_set p = ∅.
Proof.
  intros Hok E. apply leibniz_equiv, size_empty_inv. pose proof (active_size p Hok). lia.
Qed.

(** C38: the pool is a set of slots: any sequence of acquires and releases
    of any indices (out of range, doubled or negative ones included), from
    a new pool, hands out only slots that are not in use, fails exactly
    when all are in use, stays inside its arrays, and counts them. *)
Theorem pool_refines_slots os :
  0 < MaxSlots < 2 ^ 31 -> Forall pool_op_ok os ->
  exists p0 rs p', make (MaxSlots := MaxSlots) = Ok p0 /\ pool_run p0 os = Ok (rs, p')
    /\ slots_run MaxSlots ∅ os rs (active_set p')
    /\ in_use p' = Z.of_nat (size (active_set p'))
    /\ available p' + in_use p' = capacity (MaxSlots := MaxSlots).
Proof.
  intros HM Hos. destruct (make_spec HM) as (p0 & E0 & Hok0 & Hc0).
  destruct (pool_run_sim os p0 Hok0 Hos) as (rs & p' & E & Hok' & Hrun). exists p0, rs, p'.
  rewrite (fresh_active p0 Hok0 Hc0) in Hrun. split_and!; try done.
  - unfold in_use. rewrite active_size by done. pose proof (po_count _ Hok'). apply u64_small. lia.
  - unfold available, in_use, capacity. pose proof (po_count _ Hok'). rewrite u64_small by lia. lia.
Qed.

End refinement.

Lemma pool_refines_slots_witness :
  exists p0 rs p', make (MaxSlots := 2) = Ok p0
    /\ pool_run p0 [PAcquire; PAcquire; PAcquire; PRelease 7; PRelease 1; PRelease 1; PAcquire] = Ok (rs, p')
    /\ rs = [1; 0; -1; 0; 0; 0; 1].
Proof.
  destruct (pool_refines_slots (MaxSlots := 2)
    [PAcquire; PAcquire; PAcquire; PRelease 7; PRelease 1; PRelease 1; PAcquire]) as (p0 & rs & p' & E0 & E & _).
  - split; reflexivity.
  - repeat constructor; discriminate.
  - exists p0, rs, p'. split; [exact E0|]. split; [exact E|].
    vm_compute in E0. injection E0 as <-. vm_compute in E. injection E as <- _. reflexivity.
Defined.
