(* ===== verification/Text.v ===== *)
(** * Text: the [std::string_view] operations the handshake parser uses

    [find], [substr], [back], [remove_suffix] on byte strings, with the
    facts about [find] the handshake proofs need. *)
From S2P Require Import Prelude.
Open Scope ewss_scope.

Module Text.

Fixpoint starts_with (pat l : bytes) : bool :=
  match pat, l with
  | [], _ => true
  | p :: pat', x :: l' => (p =? x) && starts_with pat' l'
  | _ :: _, [] => false
  end.

(** The position, counted from [i], of the first occurrence of [pat]. *)
Fixpoint find_from (pat l : bytes) (i : Z) : option Z :=
  if starts_with pat l then Some i else
  match l with
  | [] => None
  | _ :: l' => find_from pat l' (i + 1)
  end.

(** [data.find(pat, pos)]; [None] is [npos]. *)
Definition find (pat data : bytes) (pos : Z) : option Z :=
  if zlen data <? pos then None else find_from pat (drop (Z.to_nat pos) data) pos.

(** [data.substr(pos, count)] for [pos <= size()]. *)
Definition substr (data : bytes) (pos count : Z) : bytes :=
  take (Z.to_nat count) (drop (Z.to_nat pos) data).

(** [while (!s.empty() && (s.back() == ' ' || s.back() == '\t')) s.remove_suffix(1)] *)
Fixpoint trim_blank (n : nat) (s : bytes) : bytes :=
  match n with
  | O => s
  | S n' =>
      match last s with
      | Some c => if (c =? 32) || (c =? 9) then trim_blank n' (take (length s - 1) s) else s
      | None => s
      end
  end.

(** One iteration per byte is enough. *)
Definition rtrim (s : bytes) : bytes := trim_blank (length s) s.

End Text.

Import Text.

Lemma starts_with_app pat l : starts_with pat (pat ++ l) = true.
Proof. induction pat as [|p pat IH]; cbn; [done|]. by rewrite Z.eqb_refl, IH. Qed.

Lemma starts_with_prefix pat l : starts_with pat l = true <-> exists k, l = pat ++ k.
Proof.
  split.
  - revert l. induction pat as [|p pat IH]; intros l H; [by exists l|].
    destruct l as [|x l]; [done|]. cbn in H. apply andb_true_iff in H as [->%Z.eqb_eq H].
    destruct (IH l H) as [k ->]. by exists k.
  - intros [k ->]. apply starts_with_app.
Qed.

Lemma find_from_Some pat l : forall i p, find_from pat l i = Some p ->
  i <= p /\ exists pre post, l = pre ++ pat ++ post /\ zlen pre = p - i
    /\ forall pre' post', l = pre' ++ pat ++ post' -> zlen pre <= zlen pre'.
Proof.
  induction l as [|x l IH]; intros i p H; cbn in H.
  - destruct (starts_with pat []) eqn:E; [|done]. injection H as <-.
    apply starts_with_prefix in E as [k E]. destruct pat; [|done]. split; [lia|].
    exists [], []. split; [done|]. split; [rewrite zlen_nil; lia|]. intros. rewrite zlen_nil. auto with ewss.
  - destruct (starts_with pat (x :: l)) eqn:E.
    + injection H as <-. apply starts_with_prefix in E as [k E]. split; [lia|].
      exists [], k. split; [done|]. split; [rewrite zlen_nil; lia|]. intros. rewrite zlen_nil. auto with ewss.
    + destruct (IH _ _ H) as (Hi & pre & post & -> & Hl & Hmin). split; [lia|].
      exists (x :: pre), post. split; [done|]. split; [rewrite zlen_cons; lia|].
      intros pre' post' E'. destruct pre' as [|y pre'].
      * exfalso. rewrite E' in E. cbn [app] in E. by rewrite starts_with_app in E.
      * injection E' as -> E'. apply Hmin in E'. rewrite !zlen_cons. lia.
Qed.

Lemma find_from_None pat l : forall i, find_from pat l i = None -> forall pre post, l <> pre ++ pat ++ post.
Proof.
  induction l as [|x l IH]; intros i H pre post E; cbn in H;
    (destruct (starts_with pat _) eqn:Es; [done|]).
  - destruct pre; [|done]. destruct pat; [done|done].
  - destruct pre as [|y pre]; cbn [app] in E.
    + rewrite E in Es. by rewrite starts_with_app in Es.
    + injection E as -> E. by eapply IH.
Qed.

(** A pattern that does not occur in [pre] followed by all but the last
    byte of the pattern is found right after [pre]. *)
Lemma find_first pat pre post :
  (forall pre' post', pre ++ pat ++ post = pre' ++ pat ++ post' -> zlen pre <= zlen pre') ->
  find pat (pre ++ pat ++ post) 0 = Some (zlen pre).
Proof.
  intros Hmin. unfold find. destruct (Z.ltb_spec (zlen (pre ++ pat ++ post)) 0) as [H|_].
  { pose proof (zlen_nonneg (pre ++ pat ++ post)). lia. }
  rewrite drop_0. destruct (find_from pat (pre ++ pat ++ post) 0) as [p|] eqn:E.
  - apply find_from_Some in E as (_ & pre1 & post1 & El & Hl & Hm).
    pose proof (Hmin _ _ El). pose proof (Hm _ _ eq_refl). f_equal. lia.
  - exfalso. by eapply find_from_None.
Qed.

Lemma trim_blank_app n s : exists t, s = trim_blank n s ++ t /\ Forall (fun c => c = 32 \/ c = 9) t.
Proof.
  revert s. induction n as [|n IH]; intros s; cbn [trim_blank]; [by exists []; rewrite app_nil_r|].
  destruct (last s) as [c|] eqn:El; [|by exists []; rewrite app_nil_r].
  destruct ((c =? 32) || (c =? 9)) eqn:Ec; [|by exists []; rewrite app_nil_r].
  apply last_Some in El as [s' ->]. rewrite length_app. cbn [length].
  replace (length s' + 1 - 1)%nat with (length s') by lia. rewrite take_app_length.
  destruct (IH s') as (t & E & Ht). exists (t ++ [c]). split; [by rewrite app_assoc, <- E|].
  apply Forall_app. split; [done|]. constructor; [|done].
  apply orb_true_iff in Ec as [?%Z.eqb_eq|?%Z.eqb_eq]; auto.
Qed.

Lemma trim_blank_last n : forall s, (length s <= n)%nat -> trim_blank n s <> [] ->
  exists x, last (trim_blank n s) = Some x /\ x <> 32 /\ x <> 9.
Proof.
  induction n as [|n IH]; intros s Hl Hne; cbn [trim_blank] in *; [by destruct s; cbn in Hl; [|lia]|].
  destruct (last s) as [c|] eqn:El; [|apply last_None in El; congruence].
  destruct ((c =? 32) || (c =? 9)) eqn:Ec.
  - apply IH; [|done]. rewrite length_take. lia.
  - apply orb_false_iff in Ec as [?%Z.eqb_neq ?%Z.eqb_neq]. by exists c.
Qed.

(** [pat] occurs in [l] after [pre], and nowhere earlier. *)
Definition first_occurrence (pat pre l : bytes) : Prop :=
  (exists post, l = pre ++ pat ++ post)
  /\ forall pre' post', l = pre' ++ pat ++ post' -> zlen pre <= zlen pre'.

Lemma find_first_occurrence pat pre l : first_occurrence pat pre l -> find pat l 0 = Some (zlen pre).
Proof. intros [[post ->] Hmin]. by apply find_first. Qed.

Lemma find_from_shift pat l : forall i, find_from pat l i = (fun p => p + i) <$> find_from pat l 0.
Proof.
  induction l as [|x l IH]; intros i; cbn; destruct (starts_with pat _); cbn; try done;
    try (by rewrite Z.add_0_l).
  rewrite (IH (i + 1)). change (0 + 1) with 1. rewrite (IH 1). destruct (find_from pat l 0); cbn; [f_equal; lia|done].
Qed.

(** Searching from a position is searching the rest. *)
Lemma find_drop pat l pos :
  0 <= pos <= zlen l -> find pat l pos = (fun p => p + pos) <$> find pat (drop (Z.to_nat pos) l) 0.
Proof.
  intros Hp. unfold find. destruct (Z.ltb_spec (zlen l) pos); [lia|].
  destruct (Z.ltb_spec (zlen (drop (Z.to_nat pos) l)) 0) as [Hn|_].
  { pose proof (zlen_nonneg (drop (Z.to_nat pos) l)). lia. }
  rewrite drop_0. apply find_from_shift.
Qed.

Lemma find_absent pat l : (forall pre post, l <> pre ++ pat ++ post) -> find pat l 0 = None.
Proof.
  intros Hn. unfold find. destruct (Z.ltb_spec (zlen l) 0); [done|]. rewrite drop_0.
  destruct (find_from pat l 0) eqn:E; [|done].
  apply find_from_Some in E as (_ & pre & post & El & _). by destruct (Hn pre post).
Qed.

(** Trailing blanks are removed, and nothing else. *)
Lemma rtrim_app key blanks x :
  last key = Some x -> x <> 32 -> x <> 9 -> Forall (fun c => c = 32 \/ c = 9) blanks ->
  rtrim (key ++ blanks) = key.
Proof.
  intros Hlast H32 H9 Hb. unfold rtrim.
  assert (Hgen : forall n, (length blanks <= n)%nat -> trim_blank n (key ++ blanks) = key).
  { induction blanks as [|b blanks IH] using rev_ind; intros n Hn.
    - rewrite app_nil_r. destruct n; [done|]. cbn [trim_blank]. rewrite Hlast. zcase; cbn; congruence.
    - rewrite length_app in Hn. cbn in Hn. destruct n as [|n]; [lia|]. cbn [trim_blank].
      apply Forall_app in Hb as [Hb Hx]. rewrite Forall_singleton in Hx.
      rewrite app_assoc, last_snoc.
      assert ((b =? 32) || (b =? 9) = true) as -> by (destruct Hx as [E|E]; rewrite E; done).
      rewrite length_app, Nat.add_sub, take_app_length. apply IH; [done|lia]. }
  apply Hgen. rewrite length_app. lia.
Qed.

Lemma find_Some_first pat l p : find pat l 0 = Some p -> first_occurrence pat (take (Z.to_nat p) l) l.
Proof.
  unfold find. destruct (Z.ltb_spec (zlen l) 0); [done|]. rewrite drop_0.
  intros (Hp & pre & post & El & Hl & Hmin)%find_from_Some.
  assert (Et : take (Z.to_nat p) l = pre) by (rewrite El; apply take_app_length'; len).
  rewrite Et. split; [by exists post|done].
Qed.

(** More text behind does not move the first occurrence. *)
Lemma first_occurrence_app pat pre l more : first_occurrence pat pre l -> first_occurrence pat pre (l ++ more).
Proof.
  intros [[post ->] Hmin]. split; [exists (post ++ more); by rewrite <- !app_assoc|].
  intros pre' post' E. destruct (Z.le_gt_cases (zlen pre) (zlen pre')) as [|Hlt]; [done|].
  set (l := pre ++ pat ++ post) in *. pose proof (zlen_nonneg post).
  assert (Hl : (length (pre' ++ pat) <= length l)%nat) by (unfold l; revert Hlt; len).
  assert (El : take (length (pre' ++ pat)) l = pre' ++ pat).
  { rewrite <- (take_app_le l more) by done. rewrite E, app_assoc. apply take_app_length. }
  apply (Hmin pre' (drop (length (pre' ++ pat)) l)).
  rewrite app_assoc. set (k := length (pre' ++ pat)) in *. by rewrite <- El, take_drop.
Qed.
