(* ===== verification/Numbers.v ===== *)
(** * Numbers: decimal text

    [std::to_string] of an unsigned number, [operator<<] of an [int], and
    [std::stoull], which the example servers use to print ids and sizes and
    to read timestamps; [std::stoi] and [atoi], with which the programs read
    their arguments. *)
From S2P Require Import Prelude.
Open Scope ewss_scope.

Module Numbers.

(** The digits of [n], most significant first, in front of [acc]. *)
Fixpoint digits (fuel : nat) (n : Z) (acc : bytes) : bytes :=
  match fuel with
  | O => acc
  | S fuel' =>
      let acc := (48 + n mod 10) :: acc in
      if n / 10 =? 0 then acc else digits fuel' (n / 10) acc
  end.

(** [std::to_string(uint64_t)]: at most 20 digits. *)
Definition to_string (n : Z) : bytes := digits 20 n [].

(** [operator<<] of an [int]. *)
Definition int_text (n : Z) : bytes := if n <? 0 then 45 :: to_string (- n) else to_string n.

Definition isspace (c : Z) : bool := (c =? 32) || ((9 <=? c) && (c <=? 13)).
Definition isdigit (c : Z) : bool := (48 <=? c) && (c <=? 57).

Fixpoint skip_spaces (l : bytes) : bytes :=
  match l with
  | c :: l' => if isspace c then skip_spaces l' else l
  | [] => []
  end.

Fixpoint digit_prefix (l : bytes) : bytes :=
  match l with
  | c :: l' => if isdigit c then c :: digit_prefix l' else []
  | [] => []
  end.

Definition decimal_value (ds : bytes) : Z := foldl (fun acc c => acc * 10 + (c - 48)) 0 ds.

(** [std::stoull(l)]; [None] when it throws (no digit, or out of range).  A
    minus sign negates modulo 2^64, as [strtoull] does. *)
Definition stoull (l : bytes) : option Z :=
  let l := skip_spaces l in
  let (neg, l) := match l with
                  | 45 :: l' => (true, l')
                  | 43 :: l' => (false, l')
                  | _ => (false, l)
                  end in
  let ds := digit_prefix l in
  let v := decimal_value ds in
  if bool_decide (ds = []) then None else
  if 2 ^ 64 <=? v then None else Some (if neg : bool then u64 (- v) else v).

(** The number a text starts with, after white space: an optional sign and
    at least one digit. *)
Definition signed_value (l : bytes) : option Z :=
  let l := skip_spaces l in
  let (neg, l) := match l with
                  | 45 :: l' => (true, l')
                  | 43 :: l' => (false, l')
                  | _ => (false, l)
                  end in
  let ds := digit_prefix l in
  if bool_decide (ds = []) then None else
  Some (if neg : bool then - decimal_value ds else decimal_value ds).

Definition is_int (v : Z) : bool := (- 2 ^ 31 <=? v) && (v <? 2 ^ 31).

(** [std::stoi(l)]; [None] when it throws. *)
Definition stoi (l : bytes) : option Z :=
  match signed_value l with Some v => if is_int v then Some v else None | None => None end.

(** [atoi(l)]: 0 without a number, undefined when the number does not fit. *)
Definition atoi (l : bytes) : Res Z :=
  match signed_value l with Some v => if is_int v then Ok v else Undefined | None => Ok 0 end.

End Numbers.

Import Numbers.

Lemma digits_app fuel : forall n acc, digits fuel n acc = digits fuel n [] ++ acc.
Proof.
  induction fuel as [|fuel IH]; intros n acc; [done|]. cbn [digits].
  destruct (n / 10 =? 0); [done|]. rewrite IH, (IH _ [_]), <- app_assoc. done.
Qed.

(** With enough fuel the digits denote the number. *)
Lemma digits_spec fuel : forall n, 0 <= n < 10 ^ Z.of_nat fuel -> (0 < fuel)%nat ->
  let ds := digits fuel n [] in
  decimal_value ds = n /\ Forall (fun c => 48 <= c <= 57) ds /\ ds <> [].
Proof.
  induction fuel as [|fuel IH]; intros n Hn Hf; [lia|]. cbn [digits]. cbn zeta.
  pose proof (Z.mod_pos_bound n 10 ltac:(lia)). destruct (Z.eqb_spec (n / 10) 0) as [E|E].
  - split_and!; [|by constructor; [lia|]|done]. unfold decimal_value. cbn [foldl]. Z.div_mod_to_equations; lia.
  - assert (Hdiv : 0 <= n / 10 < 10 ^ Z.of_nat fuel).
    { replace (Z.of_nat (S fuel)) with (Z.of_nat fuel + 1) in Hn by lia. rewrite Z.pow_add_r in Hn by lia.
      split; [apply Z.div_pos; lia|]. apply Z.div_lt_upper_bound; lia. }
    assert (Hf' : (0 < fuel)%nat).
    { destruct fuel; [|lia]. change (10 ^ Z.of_nat 0) with 1 in Hdiv. lia. }
    destruct (IH (n / 10) Hdiv Hf') as (Hv & Hd & _). rewrite digits_app. split_and!.
    + unfold decimal_value in *. rewrite foldl_app, Hv. cbn [foldl]. Z.div_mod_to_equations; lia.
    + apply Forall_app. split; [done|]. by constructor; [lia|].
    + by destruct (digits fuel (n / 10) []).
Qed.

Lemma to_string_spec n : 0 <= n < 2 ^ 64 ->
  decimal_value (to_string n) = n /\ Forall (fun c => 48 <= c <= 57) (to_string n) /\ to_string n <> [].
Proof. intros Hn. apply digits_spec; [|lia]. change (10 ^ Z.of_nat 20) with 100000000000000000000. lia. Qed.

Lemma to_string_bytes n : 0 <= n < 2 ^ 64 -> bytes_ok (to_string n).
Proof. intros Hn. eapply Forall_impl; [apply to_string_spec, Hn|]. cbn. unfold is_u8. lia. Qed.

Lemma digit_prefix_app ds rest :
  Forall (fun c => 48 <= c <= 57) ds -> digit_prefix rest = [] -> digit_prefix (ds ++ rest) = ds.
Proof.
  intros Hd Hr. induction Hd as [|c ds Hc _ IH]; [done|]. cbn [app digit_prefix]. unfold isdigit. zcase. cbn. by rewrite IH.
Qed.

Lemma printed_prefix n rest : 0 <= n < 2 ^ 64 -> digit_prefix rest = [] -> digit_prefix (to_string n ++ rest) = to_string n.
Proof. intros Hn. apply digit_prefix_app. by destruct (to_string_spec n Hn) as (_ & ? & _). Qed.

(** A printed number starts with neither a space nor a sign. *)
Lemma printed_starts n rest : 0 <= n < 2 ^ 64 ->
  let l := to_string n ++ rest in
  skip_spaces l = l /\ match l with 45 :: l' => (true, l') | 43 :: l' => (false, l') | _ => (false, l) end = (false, l).
Proof.
  intros Hn. destruct (to_string_spec n Hn) as (_ & Hd & Hne). destruct (to_string n) as [|c ds]; [done|].
  apply Forall_cons in Hd as [Hc _]. cbn [app skip_spaces]. split; [unfold isspace; zcase|].
  destruct (Z.eq_dec c 45); [lia|]. destruct (Z.eq_dec c 43); [lia|].
  destruct c as [|p|p]; try done. do 6 (destruct p as [p|p|]; try done).
Qed.

(** [stoull] reads back what [to_string] prints, up to the next byte that
    is not a digit. *)
Lemma stoull_to_string n rest :
  0 <= n < 2 ^ 64 -> digit_prefix rest = [] -> stoull (to_string n ++ rest) = Some n.
Proof.
  intros Hn Hr. destruct (to_string_spec n Hn) as (Hv & _ & Hne). unfold stoull.
  destruct (printed_starts n rest Hn) as [-> ->]. rewrite printed_prefix, Hv, bool_decide_eq_false_2 by done.
  by destruct (Z.leb_spec (2 ^ 64) n); [lia|].
Qed.

(** [stoi] and [atoi] read back a printed number that fits. *)
Lemma signed_value_to_string n rest :
  0 <= n < 2 ^ 64 -> digit_prefix rest = [] -> signed_value (to_string n ++ rest) = Some n.
Proof.
  intros Hn Hr. destruct (to_string_spec n Hn) as (Hv & _ & Hne). unfold signed_value.
  destruct (printed_starts n rest Hn) as [-> ->]. by rewrite printed_prefix, Hv, bool_decide_eq_false_2 by done.
Qed.

Lemma stoi_to_string n rest : 0 <= n < 2 ^ 31 -> digit_prefix rest = [] -> stoi (to_string n ++ rest) = Some n.
Proof. intros Hn Hr. unfold stoi, is_int. rewrite signed_value_to_string by (done || lia). zcase. Qed.

Lemma atoi_to_string n rest : 0 <= n < 2 ^ 31 -> digit_prefix rest = [] -> atoi (to_string n ++ rest) = Ok n.
Proof. intros Hn Hr. unfold atoi, is_int. rewrite signed_value_to_string by (done || lia). zcase. Qed.
