(* ===== verification/Connection.v ===== *)
(** * Connection: one WebSocket connection (ewss.hpp, [Connection] and
      namespace [detail])

    The state of a connection, the user API, the protocol state handlers and
    their dispatch tables, the handshake and frame parsers, and the reactor
    entry points, each as a function in a small state-and-outcome monad.

    Outside the source, and therefore parameters: the socket class of sockpp
    ([TcpSocket]), the system calls, the clock and the application's
    callbacks ([Env]).  A callback is a function of the connection (its
    history [log_] included) that returns the API calls it makes on it;
    [run_body] runs them, and [run_calls] ties the knot, since those calls
    may invoke further callbacks. *)
From S2P Require Import Prelude Vocabulary RingBuffer Frame Base64 Sha1 Text.
Open Scope ewss_scope.

(** What the code uses of [sockpp::tcp_socket]. *)
Class TcpSocket (Sock : Type) := {
  sock_of_fd : Z -> Sock;
  sock_is_open : Sock -> bool;
  sock_handle : Sock -> Z;
  sock_close : Sock -> Sock;
  sock_set_non_blocking : Sock -> bool -> Sock;
}.

(** sockpp: a closed socket is not open; closing is what [close] does and
    nothing else does. *)
Class TcpSocketLaws (Sock : Type) `{TcpSocket Sock} := {
  sock_close_not_open s : sock_is_open (sock_close s) = false;
  sock_non_blocking_open s b : sock_is_open (sock_set_non_blocking s b) = sock_is_open s;
  sock_of_fd_open fd : 0 <= fd -> sock_is_open (sock_of_fd fd) = true;
}.

Module Conn.

Inductive ConnectionState : Type := kHandshaking | kOpen | kClosing | kClosed.

#[export] Instance ConnectionState_eq_dec : EqDecision ConnectionState.
Proof. solve_decision. Defined.

Definition kRxBufferSize : Z := 4096.
Definition kTxBufferSize : Z := 8192.
Definition kTempReadSize : Z := 512.
Definition kHandshakeTimeout : Z := 5000.
Definition kCloseTimeout : Z := 5000.
Definition kTxHighWatermark : Z := kTxBufferSize * 3 / 4.
Definition kTxLowWatermark : Z := kTxBufferSize / 4.

(** Callback invocations. *)
Inductive Event : Type :=
| EvOpen
| EvMessage (payload : bytes)
| EvClose (clean : bool)
| EvBackpressure
| EvDrain.

#[export] Instance Event_eq_dec : EqDecision Event.
Proof. solve_decision. Defined.

(** The calls a callback can make on its connection. *)
Inductive ApiCall : Type :=
| ApiSend (payload : bytes)
| ApiSendBinary (payload : bytes)
| ApiClose (code : Z).

(** The fields of [Connection].  [log_] (callbacks invoked, oldest first)
    and [wire_] (bytes the socket has accepted) are history variables. *)
Record Connection (Sock : Type) := mk_conn {
  id_ : Z;
  socket_ : Sock;
  rx_buffer_ : Ring.RingBuffer Z 4096;
  tx_buffer_ : Ring.RingBuffer Z 8192;
  ops_ : ConnectionState;
  handshake_completed_ : bool;
  sec_websocket_key_ : bytes;
  last_error_code_ : ErrorCode;
  write_paused_ : bool;
  created_at_ : Z;
  closing_at_ : Z;
  last_activity_ : Z;
  log_ : list Event;
  wire_ : bytes;
}.
Arguments mk_conn {Sock}. Arguments id_ {Sock}. Arguments socket_ {Sock}.
Arguments rx_buffer_ {Sock}. Arguments tx_buffer_ {Sock}. Arguments ops_ {Sock}.
Arguments handshake_completed_ {Sock}. Arguments sec_websocket_key_ {Sock}.
Arguments last_error_code_ {Sock}. Arguments write_paused_ {Sock}.
Arguments created_at_ {Sock}. Arguments closing_at_ {Sock}. Arguments last_activity_ {Sock}.
Arguments log_ {Sock}. Arguments wire_ {Sock}.

(** Assignments to one field. *)
Section setters.
Context {Sock : Type}.

Definition set_socket (c : Connection Sock) x : Connection Sock := mk_conn (id_ c) x (rx_buffer_ c) (tx_buffer_ c) (ops_ c)
  (handshake_completed_ c) (sec_websocket_key_ c) (last_error_code_ c) (write_paused_ c)
  (created_at_ c) (closing_at_ c) (last_activity_ c) (log_ c) (wire_ c).
Definition set_rx (c : Connection Sock) x : Connection Sock := mk_conn (id_ c) (socket_ c) x (tx_buffer_ c) (ops_ c)
  (handshake_completed_ c) (sec_websocket_key_ c) (last_error_code_ c) (write_paused_ c)
  (created_at_ c) (closing_at_ c) (last_activity_ c) (log_ c) (wire_ c).
Definition set_tx (c : Connection Sock) x : Connection Sock := mk_conn (id_ c) (socket_ c) (rx_buffer_ c) x (ops_ c)
  (handshake_completed_ c) (sec_websocket_key_ c) (last_error_code_ c) (write_paused_ c)
  (created_at_ c) (closing_at_ c) (last_activity_ c) (log_ c) (wire_ c).
Definition set_ops (c : Connection Sock) x : Connection Sock := mk_conn (id_ c) (socket_ c) (rx_buffer_ c) (tx_buffer_ c) x
  (handshake_completed_ c) (sec_websocket_key_ c) (last_error_code_ c) (write_paused_ c)
  (created_at_ c) (closing_at_ c) (last_activity_ c) (log_ c) (wire_ c).
Definition set_handshake_done (c : Connection Sock) : Connection Sock := mk_conn (id_ c) (socket_ c) (rx_buffer_ c) (tx_buffer_ c) (ops_ c)
  true [] (last_error_code_ c) (write_paused_ c)
  (created_at_ c) (closing_at_ c) (last_activity_ c) (log_ c) (wire_ c).
Definition set_error (c : Connection Sock) x : Connection Sock := mk_conn (id_ c) (socket_ c) (rx_buffer_ c) (tx_buffer_ c) (ops_ c)
  (handshake_completed_ c) (sec_websocket_key_ c) x (write_paused_ c)
  (created_at_ c) (closing_at_ c) (last_activity_ c) (log_ c) (wire_ c).
Definition set_paused (c : Connection Sock) x : Connection Sock := mk_conn (id_ c) (socket_ c) (rx_buffer_ c) (tx_buffer_ c) (ops_ c)
  (handshake_completed_ c) (sec_websocket_key_ c) (last_error_code_ c) x
  (created_at_ c) (closing_at_ c) (last_activity_ c) (log_ c) (wire_ c).
Definition set_closing_at (c : Connection Sock) x : Connection Sock := mk_conn (id_ c) (socket_ c) (rx_buffer_ c) (tx_buffer_ c) (ops_ c)
  (handshake_completed_ c) (sec_websocket_key_ c) (last_error_code_ c) (write_paused_ c)
  (created_at_ c) x (last_activity_ c) (log_ c) (wire_ c).
Definition set_last_activity (c : Connection Sock) x : Connection Sock := mk_conn (id_ c) (socket_ c) (rx_buffer_ c) (tx_buffer_ c) (ops_ c)
  (handshake_completed_ c) (sec_websocket_key_ c) (last_error_code_ c) (write_paused_ c)
  (created_at_ c) (closing_at_ c) x (log_ c) (wire_ c).
Definition add_log (c : Connection Sock) (e : Event) : Connection Sock := mk_conn (id_ c) (socket_ c) (rx_buffer_ c) (tx_buffer_ c) (ops_ c)
  (handshake_completed_ c) (sec_websocket_key_ c) (last_error_code_ c) (write_paused_ c)
  (created_at_ c) (closing_at_ c) (last_activity_ c) (log_ c ++ [e]) (wire_ c).
Definition add_wire (c : Connection Sock) (bs : bytes) : Connection Sock := mk_conn (id_ c) (socket_ c) (rx_buffer_ c) (tx_buffer_ c) (ops_ c)
  (handshake_completed_ c) (sec_websocket_key_ c) (last_error_code_ c) (write_paused_ c)
  (created_at_ c) (closing_at_ c) (last_activity_ c) (log_ c) (wire_ c ++ bs).

End setters.

(** The monad: a connection handler. *)
Definition M (Sock A : Type) : Type := Connection Sock -> Res (A * Connection Sock).

Section monad.
Context {Sock : Type}.

Definition ret {A} (a : A) : M Sock A := fun c => Ok (a, c).
Definition bind {A B} (m : M Sock A) (k : A -> M Sock B) : M Sock B :=
  fun c => let! (a, c') := m c in k a c'.
Definition gets {A} (f : Connection Sock -> A) : M Sock A := fun c => Ok (f c, c).
Definition modify (f : Connection Sock -> Connection Sock) : M Sock unit := fun c => Ok (tt, f c).
Definition lift {A} (r : Res A) : M Sock A := fun c => let! a := r in Ok (a, c).
Definition when (b : bool) (m : M Sock unit) : M Sock unit := if b then m else ret tt.

End monad.

End Conn.

Notation "'let*' x ':=' m 'in' k" := (Conn.bind m (fun x => k))
  (at level 10, x pattern, m at level 100, k at level 200) : ewss_scope.
Notation "m1 ;;; m2" := (Conn.bind m1 (fun _ => m2))
  (at level 60, right associativity) : ewss_scope.

Module Handlers.
Import Conn Ws.

Abbreviation expected := (ExpectedVoid.expected ErrorCode).
Definition success : expected := ExpectedVoid.success.
Definition error (e : ErrorCode) : expected := ExpectedVoid.error e.

(** A [std::string_view]: the memory from its pointer on, and its size.
    Reading more than the memory holds is undefined. *)
Record string_view := mk_view { sv_mem : bytes; sv_size : Z }.

Definition view_of (l : bytes) : string_view := mk_view l (zlen l).

Definition view_bytes (v : string_view) : Res bytes :=
  if sv_size v <=? zlen (sv_mem v) then Ok (take (Z.to_nat (sv_size v)) (sv_mem v)) else Undefined.

(** The [std::function] members; [None] is an empty one.  ([on_error] is a
    member too, but no code invokes it.) *)
Record Callbacks (Sock : Type) := mk_callbacks {
  on_open : option (Connection Sock -> list ApiCall);
  on_message : option (Connection Sock -> bytes -> list ApiCall);
  on_close : option (Connection Sock -> bool -> list ApiCall);
  on_error : option (Connection Sock -> list ApiCall);
  on_backpressure : option (Connection Sock -> list ApiCall);
  on_drain : option (Connection Sock -> list ApiCall);
}.
Arguments on_open {Sock}. Arguments on_message {Sock}. Arguments on_close {Sock}.
Arguments on_error {Sock}. Arguments on_backpressure {Sock}. Arguments on_drain {Sock}.

(** The result of a system call: the returned [ssize_t], and [errno]. *)
Record SysResult := mk_sys { sys_n : Z; sys_errno : Z }.

Definition EAGAIN : Z := 11.
Definition EWOULDBLOCK : Z := 11.

(** Everything a handler meets that is not in the source: the callbacks,
    the clock (nanoseconds), [readv] on the memory of the receive buffer,
    [writev] of gathered bytes, and sockpp's [write] (left: bytes written,
    right: error number). *)
Record Env (Sock : Type) := mk_env {
  cb : Callbacks Sock;
  now : Z;
  sys_readv : Z -> bytes -> list Ring.span -> SysResult * bytes;
  sys_writev : Z -> bytes -> SysResult;
  sock_write : Sock -> bytes -> Z + Z;
}.
Arguments cb {Sock}. Arguments now {Sock}. Arguments sys_readv {Sock}.
Arguments sys_writev {Sock}. Arguments sock_write {Sock}.

(** [std::string_view] literals of the handshake. *)
Definition kKeyHeader : bytes := str "Sec-WebSocket-Key: ".
Definition kKeyHeaderLower : bytes := str "sec-websocket-key: ".
Definition kMagic : bytes := str "258EAFA5-E914-47DA-95CA-C5AB0DC85B11".

(** [accept_key.c_str()] as [%s] prints it. *)
Fixpoint c_str (l : bytes) : bytes :=
  match l with
  | [] => []
  | x :: l' => if x =? 0 then [] else x :: c_str l'
  end.

Definition generate_accept_key (client_key : bytes) : Res bytes :=
  let key := client_key ++ kMagic in
  let! hash := Sha1.compute key in
  Ok (Base64.encode hash).

(** What [snprintf] formats. *)
Definition handshake_response (accept_key : bytes) : bytes :=
  str "HTTP/1.1 101 Switching Protocols" ++ crlf ++
  str "Upgrade: websocket" ++ crlf ++
  str "Connection: Upgrade" ++ crlf ++
  str "Sec-WebSocket-Accept: " ++ c_str accept_key ++ crlf ++ crlf.

Section handlers.
Context {Sock : Type} `{TcpSocket Sock} {target : Target}.
Variable env : Env Sock.

(** Runs the API calls a callback body makes. *)
Variable run_body : list ApiCall -> M Sock unit.

(** ** Buffers and callbacks *)

Definition rx_peek (n : Z) : M Sock bytes :=
  fun c => let! l := Ring.peek (rx_buffer_ c) n in Ok (l, c).
Definition rx_advance (n : Z) : M Sock unit :=
  modify (fun c => set_rx c (Ring.advance (rx_buffer_ c) n)).
Definition tx_push (data : bytes) : M Sock bool :=
  fun c => let! (b, tx) := Ring.push (tx_buffer_ c) data in Ok (b, set_tx c tx).

(** [push(v.data(), v.size())]: the bytes are read only if they fit. *)
Definition tx_push_view (v : string_view) : M Sock bool :=
  let* avail := gets (fun c => Ring.available (tx_buffer_ c)) in
  if avail <? sv_size v then ret false else
  let* data := lift (view_bytes v) in tx_push data.

(** [if (f) f(shared_from_this(), ...)] *)
Definition fire (ev : Event) (f : option (Connection Sock -> list ApiCall)) : M Sock unit :=
  match f with
  | None => ret tt
  | Some f =>
      modify (fun c => add_log c ev) ;;;
      let* calls := gets f in run_body calls
  end.

Definition socket_close : M Sock unit := modify (fun c => set_socket c (sock_close (socket_ c))).

Definition set_last_error (e : ErrorCode) : M Sock unit := modify (fun c => set_error c e).

(** ** Queries *)

Definition get_state (c : Connection Sock) : ConnectionState := ops_ c.
Definition is_closed (c : Connection Sock) : bool :=
  negb (sock_is_open (socket_ c)) || bool_decide (get_state c = kClosed).
Definition has_data_to_send (c : Connection Sock) : bool := negb (Ring.empty (tx_buffer_ c)).
Definition get_fd (c : Connection Sock) : Z := sock_handle (socket_ c).
Definition is_write_paused (c : Connection Sock) : bool := write_paused_ c.
Definition tx_buffer_usage (c : Connection Sock) : Z := Ring.size (tx_buffer_ c).

(** [duration_cast<milliseconds>(d).count()] of a nanosecond duration. *)
Definition ms_count (d : Z) : Z := Z.quot d 1000000.

Definition is_handshake_timed_out (c : Connection Sock) : bool :=
  if negb (bool_decide (get_state c = kHandshaking)) then false else
  kHandshakeTimeout <? u64 (ms_count (now env - created_at_ c)).
Definition is_close_timed_out (c : Connection Sock) : bool :=
  if negb (bool_decide (get_state c = kClosing)) then false else
  kCloseTimeout <? u64 (ms_count (now env - closing_at_ c)).

Definition touch_activity : M Sock unit := modify (fun c => set_last_activity c (now env)).
Definition idle_ms (c : Connection Sock) : Z := u64 (ms_count (now env - last_activity_ c)).

(** ** Construction and destruction *)

Definition make_connection (id fd : Z) : Connection Sock :=
  mk_conn id (sock_set_non_blocking (sock_of_fd fd) true) Ring.empty_ring Ring.empty_ring
    kHandshaking false [] kOk false (now env) 0 (now env) [] [].

Definition destroy_connection (c : Connection Sock) : Connection Sock :=
  if sock_is_open (socket_ c) then set_socket c (sock_close (socket_ c)) else c.

(** ** Watermarks *)

Definition check_high_watermark : M Sock unit :=
  let* go := gets (fun c => negb (write_paused_ c) && (kTxHighWatermark <? Ring.size (tx_buffer_ c))) in
  when go (modify (fun c => set_paused c true) ;;; fire EvBackpressure (on_backpressure (cb env))).

Definition check_low_watermark : M Sock unit :=
  let* go := gets (fun c => write_paused_ c && (Ring.size (tx_buffer_ c) <? kTxLowWatermark)) in
  when go (modify (fun c => set_paused c false) ;;; fire EvDrain (on_drain (cb env))).

(** ** Writing frames *)

(** [uint8_t header_buf[14]]; its initial bytes are never read. *)
Definition header_buf : bytes := replicate 14 0.

Definition write_frame (payload : string_view) (opcode : OpCode) : M Sock unit :=
  let* (buf, header_len) := lift (encode_frame_header header_buf opcode (sv_size payload) false) in
  let* ok := tx_push (take (Z.to_nat header_len) buf) in
  if negb ok then ret tt else
  if negb (sv_size payload =? 0) then tx_push_view payload ;;; ret tt else ret tt.

Definition write_close_frame (code : Z) : M Sock unit :=
  let close_payload := [u8 (Z.land (Z.shiftr code 8) 0xFF); u8 (Z.land code 0xFF)] in
  let* (buf, header_len) := lift (encode_frame_header header_buf kClose 2 false) in
  let* ok := tx_push (take (Z.to_nat header_len) buf) in
  if negb ok then ret tt else tx_push close_payload ;;; ret tt.

(** ** States *)

Definition transition_to_state (state : ConnectionState) : M Sock unit :=
  match state with
  | kHandshaking => modify (fun c => set_ops c kHandshaking)
  | kOpen =>
      modify (fun c => set_ops c kOpen) ;;; fire EvOpen (on_open (cb env))
  | kClosing =>
      modify (fun c => set_ops c kClosing) ;;; modify (fun c => set_closing_at c (now env))
  | kClosed =>
      modify (fun c => set_ops c kClosed) ;;;
      fire (EvClose true) ((fun f c => f c true) <$> on_close (cb env))
  end.

Definition send_impl (payload : bytes) (binary : bool) : M Sock unit :=
  let* state := gets get_state in
  if negb (bool_decide (state = kOpen)) then ret tt else
  let opcode := if binary then kBinary else kText in
  write_frame (view_of payload) opcode ;;; check_high_watermark.

Definition send (payload : bytes) : M Sock unit := send_impl payload false.
Definition send_binary (payload : bytes) : M Sock unit := send_impl payload true.

Definition close (code : Z) : M Sock unit :=
  let* state := gets get_state in
  if bool_decide (state = kClosed) then ret tt else
  if bool_decide (state = kOpen) then
    write_close_frame code ;;; transition_to_state kClosing
  else
    transition_to_state kClosed ;;; socket_close.

(** One API call of a callback body. *)
Definition exec_call (call : ApiCall) : M Sock unit :=
  match call with
  | ApiSend payload => send payload
  | ApiSendBinary payload => send_binary payload
  | ApiClose code => close code
  end.

(** ** Parsing *)

Definition handshake_failed : M Sock expected :=
  set_last_error kHandshakeFailed ;;; ret (error kHandshakeFailed).

Definition parse_handshake : M Sock expected :=
  let* data := rx_peek 1024 in
  if zlen data =? 0 then ret (error kHandshakeFailed) else
  match Text.find (crlf ++ crlf) data 0 with
  | None => ret (error kHandshakeFailed)
  | Some end_pos =>
      let handshake_size := u64 (end_pos + 4) in
      if negb (bool_decide (Text.substr data 0 4 = str "GET ")) then handshake_failed else
      let key_pos := match Text.find kKeyHeader data 0 with
                     | None => Text.find kKeyHeaderLower data 0
                     | Some p => Some p
                     end in
      match key_pos with
      | None => handshake_failed
      | Some key_pos =>
          let value_start := u64 (key_pos + zlen kKeyHeader) in
          match Text.find crlf data value_start with
          | None => handshake_failed
          | Some value_end =>
              let ws_key := Text.rtrim (Text.substr data value_start (u64 (value_end - value_start))) in
              if bool_decide (ws_key = []) then handshake_failed else
              rx_advance handshake_size ;;;
              let* accept_key := lift (generate_accept_key ws_key) in
              let response := handshake_response accept_key in
              let response_len := zlen response in
              if (response_len <=? 0) || (256 <=? response_len) then handshake_failed else
              let* ok := tx_push response in
              if negb ok then set_last_error kBufferFull ;;; ret (error kBufferFull) else
              modify set_handshake_done ;;;
              set_last_error kOk ;;;
              ret success
          end
      end
  end.

(** [ws::FrameHeader header;], not initialised; read only when the parser
    has filled it. *)
Definition uninit_header : FrameHeader := mk_header false kContinuation false 0.

(** The [switch (header.opcode)] of [parse_frames]; [false] is the [return]
    of the close case. *)
Definition dispatch_frame (opcode : OpCode) (payload : string_view) : M Sock bool :=
  match opcode with
  | kText | kBinary =>
      match on_message (cb env) with
      | None => ret true
      | Some f =>
          let* msg := lift (view_bytes payload) in
          fire (EvMessage msg) (Some (fun c => f c msg)) ;;; ret true
      end
  | kClose =>
      fire (EvClose false) ((fun f c => f c false) <$> on_close (cb env)) ;;;
      transition_to_state kClosed ;;;
      socket_close ;;;
      ret false
  | kPing => write_frame payload kPong ;;; ret true
  | kPong => ret true
  | kContinuation | kReserved _ => ret true
  end.

(** One iteration of [while (true)]; [false] when the loop is left. *)
Definition parse_frames_iter : M Sock bool :=
  let* temp := rx_peek 4096 in
  let len := zlen temp in
  if len =? 0 then ret false else
  let* (header_size, header) := lift (parse_frame_header temp uninit_header) in
  if header_size =? 0 then ret false else
  let total_frame_size := u64 (header_size + payload_len header) in
  if len <? total_frame_size then ret false else
  let mem := drop (Z.to_nat header_size) temp in
  let mask_key := take 4 (drop (Z.to_nat (header_size - 4)) temp) in
  let* mem := if masked header then lift (unmask_payload mem (payload_len header) mask_key)
              else ret mem in
  let* continue := dispatch_frame (opcode header) (mk_view mem (payload_len header)) in
  if negb continue then ret false else
  rx_advance total_frame_size ;;; ret true.

Fixpoint parse_frames_loop (fuel : nat) : M Sock unit :=
  match fuel with
  | O => lift OutOfFuel
  | S fuel' =>
      let* continue := parse_frames_iter in
      if continue then parse_frames_loop fuel' else ret tt
  end.

(** A frame takes at least two of the 4096 bytes of the receive buffer. *)
Definition frame_fuel : nat := 2050.

Definition parse_frames : M Sock unit := parse_frames_loop frame_fuel.

(** ** State handlers *)

Definition handshake_on_data : M Sock expected :=
  let* result := parse_handshake in
  if ExpectedVoid.has_value result then transition_to_state kOpen ;;; ret success
  else ret result.
Definition handshake_on_send (_ : bytes) : M Sock expected := ret (error kInvalidState).
Definition handshake_on_close (_ : Z) : M Sock expected :=
  socket_close ;;; transition_to_state kClosed ;;; ret success.

Definition open_on_data : M Sock expected := parse_frames ;;; ret success.
Definition open_on_send (payload : bytes) : M Sock expected :=
  write_frame (view_of payload) kText ;;; ret success.
Definition open_on_close (code : Z) : M Sock expected :=
  write_close_frame code ;;; transition_to_state kClosing ;;; ret success.

Definition closing_on_data : M Sock expected :=
  let* data := rx_peek 1024 in
  (if 0 <? zlen data then
     let* (header_size, header) := lift (parse_frame_header data uninit_header) in
     when ((0 <? header_size) && bool_decide (opcode header = kClose))
       (transition_to_state kClosed ;;; socket_close)
   else ret tt) ;;;
  ret success.
Definition closing_on_send (_ : bytes) : M Sock expected := ret (error kInvalidState).
Definition closing_on_close (_ : Z) : M Sock expected := ret success.

Definition closed_on_data : M Sock expected := ret (error kConnectionClosed).
Definition closed_on_send (_ : bytes) : M Sock expected := ret (error kConnectionClosed).
Definition closed_on_close (_ : Z) : M Sock expected := ret (error kConnectionClosed).

Record StateOps := mk_ops {
  ops_state : ConnectionState;
  ops_on_data : M Sock expected;
  ops_on_send : bytes -> M Sock expected;
  ops_on_close : Z -> M Sock expected;
}.

Definition kHandshakeOps : StateOps :=
  mk_ops kHandshaking handshake_on_data handshake_on_send handshake_on_close.
Definition kOpenOps : StateOps := mk_ops kOpen open_on_data open_on_send open_on_close.
Definition kClosingOps : StateOps := mk_ops kClosing closing_on_data closing_on_send closing_on_close.
Definition kClosedOps : StateOps := mk_ops kClosed closed_on_data closed_on_send closed_on_close.

(** [*ops_]: the state stands for the address of its table. *)
Definition state_ops (s : ConnectionState) : StateOps :=
  match s with
  | kHandshaking => kHandshakeOps
  | kOpen => kOpenOps
  | kClosing => kClosingOps
  | kClosed => kClosedOps
  end.

(** ** Reactor I/O *)

Definition retryable (err : Z) : bool := negb (negb (err =? EAGAIN) && negb (err =? EWOULDBLOCK)).

Definition handle_read : M Sock expected :=
  let* iov := gets (fun c => Ring.fill_iovec_write (rx_buffer_ c) 2) in
  if zlen iov =? 0 then set_last_error kBufferFull ;;; ret (error kBufferFull) else
  let* res := (fun c =>
    let rx := rx_buffer_ c in
    let (res, buf) := sys_readv env (sock_handle (socket_ c)) (Ring.buffer_ rx) iov in
    Ok (res, set_rx c (Ring.mk_ring buf (Ring.read_idx_ rx) (Ring.write_idx_ rx) (Ring.count_ rx)))) in
  let n := sys_n res in
  if 0 <? n then
    modify (fun c => set_rx c (Ring.commit_write (rx_buffer_ c) n)) ;;;
    touch_activity ;;;
    let* s := gets ops_ in
    ops_on_data (state_ops s) ;;;
    set_last_error kOk ;;;
    ret success
  else if n =? 0 then
    set_last_error kConnectionClosed ;;; ret (error kConnectionClosed)
  else if negb (retryable (sys_errno res)) then
    set_last_error kSocketError ;;; ret (error kSocketError)
  else set_last_error kOk ;;; ret success.

Definition handle_write : M Sock expected :=
  let* e := gets (fun c => Ring.empty (tx_buffer_ c)) in
  if e then set_last_error kOk ;;; ret success else
  let* temp := (fun c => let! l := Ring.peek (tx_buffer_ c) kTempReadSize in Ok (l, c)) in
  let* res := gets (fun c => sock_write env (socket_ c) temp) in
  match res with
  | inl n =>
      modify (fun c => add_wire (set_tx c (Ring.advance (tx_buffer_ c) n)) (take (Z.to_nat n) temp)) ;;;
      check_low_watermark ;;;
      set_last_error kOk ;;;
      ret success
  | inr err =>
      if negb (retryable err) then set_last_error kSocketError ;;; ret (error kSocketError)
      else set_last_error kOk ;;; ret success
  end.

Definition handle_write_vectored : M Sock expected :=
  let* e := gets (fun c => Ring.empty (tx_buffer_ c)) in
  if e then set_last_error kOk ;;; ret success else
  let* iov := gets (fun c => Ring.fill_iovec (tx_buffer_ c) 2) in
  if zlen iov =? 0 then set_last_error kOk ;;; ret success else
  let* data := (fun c => let! l := Ring.gather (Ring.buffer_ (tx_buffer_ c)) iov in Ok (l, c)) in
  let* res := gets (fun c => sys_writev env (sock_handle (socket_ c)) data) in
  let n := sys_n res in
  if 0 <? n then
    modify (fun c => add_wire (set_tx c (Ring.advance (tx_buffer_ c) n)) (take (Z.to_nat n) data)) ;;;
    check_low_watermark ;;;
    set_last_error kOk ;;;
    ret success
  else if (n <? 0) && negb (retryable (sys_errno res)) then
    set_last_error kSocketError ;;; ret (error kSocketError)
  else set_last_error kOk ;;; ret success.

End handlers.

(** ** Callbacks that call back *)

(** The body of a callback is a sequence of API calls, each of which may
    invoke callbacks whose bodies run with one level less. *)
Fixpoint run_calls {Sock} `{TcpSocket Sock} (env : Env Sock) (depth : nat)
  (calls : list ApiCall) : M Sock unit :=
  match depth with
  | O => match calls with [] => ret tt | _ :: _ => lift OutOfFuel end
  | S d => foldr (fun call rest => exec_call env (run_calls env d) call ;;; rest) (ret tt) calls
  end.

(** Nesting never goes deeper than three (shown in [ConnectionApi]). *)
Definition callback_depth : nat := 3.

Definition run_callback {Sock} `{TcpSocket Sock} (env : Env Sock) : list ApiCall -> M Sock unit :=
  run_calls env callback_depth.

End Handlers.
