(* ===== verification/Fixes.v ===== *)
(** * Fixes: what a handler leaves alone

    Partial correctness of handlers ([wlp]), and handlers that leave some
    part of the connection as it is ([fixes]).  The steps that work on the
    buffers, the socket and the error code leave the [core] alone; what a
    function of it says about a connection is then not changed by them. *)
From S2P Require Import Prelude Vocabulary RingBuffer Frame Connection.
Open Scope ewss_scope.
Import Conn Handlers Ws.

(** ** Partial correctness *)

Definition wlp {Sock A} (m : M Sock A) (Q : A -> Connection Sock -> Prop) (c : Connection Sock) : Prop :=
  forall a c', m c = Ok (a, c') -> Q a c'.

Section wlp.
Context {Sock : Type}.
Implicit Type c : Connection Sock.

Lemma wlp_ret {A} (a : A) (Q : A -> Connection Sock -> Prop) c : Q a c -> wlp (ret a) Q c.
Proof. intros HQ ? ? E. injection E as <- <-. done. Qed.
Lemma wlp_bind {A B} (m : M Sock A) (k : A -> M Sock B) Q c :
  wlp m (fun a c' => wlp (k a) Q c') c -> wlp (bind m k) Q c.
Proof.
  unfold bind. intros Hm b c2 E. destruct (m c) as [[a c1]| |] eqn:Em; [|done|done].
  cbn in E. by apply (Hm a c1 Em).
Qed.
Lemma wlp_gets {A} (f : Connection Sock -> A) (Q : A -> Connection Sock -> Prop) c :
  Q (f c) c -> wlp (gets f) Q c.
Proof. intros HQ ? ? E. injection E as <- <-. done. Qed.
Lemma wlp_modify f (Q : unit -> Connection Sock -> Prop) c : Q tt (f c) -> wlp (modify f) Q c.
Proof. intros HQ [] ? E. injection E as <-. done. Qed.
Lemma wlp_lift {A} (r : Res A) (Q : A -> Connection Sock -> Prop) c :
  (forall a, r = Ok a -> Q a c) -> wlp (lift r) Q c.
Proof.
  unfold lift. intros HQ a c' E. destruct r; [|done|done]. injection E as <- <-. by apply HQ.
Qed.
Lemma wlp_mono {A} (m : M Sock A) (P Q : A -> Connection Sock -> Prop) c :
  wlp m P c -> (forall a c', P a c' -> Q a c') -> wlp m Q c.
Proof. unfold wlp. eauto. Qed.

End wlp.

(** ** Leaving something alone *)

Definition fixes {Sock A B} (f : Connection Sock -> B) (m : M Sock A) : Prop :=
  forall c, wlp m (fun _ c' => f c' = f c) c.

Create HintDb fixes.

Section rules.
Context {Sock B : Type} (f : Connection Sock -> B).
Implicit Type c : Connection Sock.

Lemma fixes_wlp {A} (m : M Sock A) (Q : A -> Connection Sock -> Prop) c :
  fixes f m -> (forall a c', f c' = f c -> Q a c') -> wlp m Q c.
Proof. intros Hs HQ. eapply wlp_mono; [apply Hs|exact HQ]. Qed.

Lemma fixes_bind {A C} (m : M Sock A) (k : A -> M Sock C) :
  fixes f m -> (forall a, fixes f (k a)) -> fixes f (bind m k).
Proof.
  intros Hm Hk c. apply wlp_bind, (fixes_wlp m); [done|]. intros a c1 E1. rewrite <- E1. apply Hk.
Qed.
Lemma fixes_ret {A} (a : A) : fixes f (ret a).
Proof. intros c. by apply wlp_ret. Qed.
Lemma fixes_gets {A} (g : Connection Sock -> A) : fixes f (gets g).
Proof. intros c. by apply wlp_gets. Qed.
Lemma fixes_lift {A} (r : Res A) : fixes f (lift r).
Proof. intros c. by apply wlp_lift. Qed.
Lemma fixes_modify g : (forall c, f (g c) = f c) -> fixes f (modify g).
Proof. intros Hf c. by apply wlp_modify. Qed.

(** A step that reads the connection and stores into buffers. *)
Lemma fixes_step {A} (m : M Sock A) :
  (forall c a c', m c = Ok (a, c') -> f c' = f c) -> fixes f m.
Proof. intros Hm c a c' E. by eapply Hm. Qed.

Lemma fixes_reads {A} (g : Connection Sock -> Res A) : fixes f (fun c => let! a := g c in Ok (a, c)).
Proof. apply fixes_step. intros c a c' E. destruct (g c); [|done|done]. by injection E as <- <-. Qed.

End rules.

#[export] Hint Resolve fixes_ret fixes_gets fixes_lift fixes_reads : fixes.

(** Walk through a handler made of such steps. *)
Ltac fixing :=
  repeat match goal with
  | |- forall _, _ => intro
  | |- fixes _ (bind _ _) => apply fixes_bind
  | |- fixes _ (let '(_, _) := ?p in _) => destruct p
  | |- fixes _ (if ?b then _ else _) => destruct b
  | |- fixes _ (match ?x with _ => _ end) => destruct x
  | |- fixes _ (modify _) => apply fixes_modify; reflexivity
  | |- fixes _ _ => solve [auto with fixes nocore typeclass_instances]
  end.

(** ** The core *)

Definition core {Sock} (c : Connection Sock) :=
  (id_ c, ops_ c, write_paused_ c, created_at_ c, closing_at_ c, log_ c, wire_ c).

Class OfCore {Sock B} (f : Connection Sock -> B) : Prop := of_core c c' : core c' = core c -> f c' = f c.

#[export] Instance of_core_log {Sock} : OfCore (@log_ Sock).
Proof. by intros c c' [= _ _ _ _ _ ? _]. Qed.
#[export] Instance of_core_wire {Sock} : OfCore (@wire_ Sock).
Proof. by intros c c' [= _ _ _ _ _ _ ?]. Qed.

Section core.
Context {Sock : Type} `{TcpSocket Sock}.

Lemma core_tx_push data : fixes core (tx_push (Sock := Sock) data).
Proof.
  apply fixes_step. unfold tx_push. intros c b c' E.
  destruct (Ring.push _ _) as [[? ?]| |]; [|done|done]. by injection E as <- <-.
Qed.
Lemma core_rx_peek n : fixes core (rx_peek (Sock := Sock) n).
Proof.
  apply fixes_step. unfold rx_peek. intros c b c' E.
  destruct (Ring.peek _ _); [|done|done]. by injection E as <- <-.
Qed.
#[local] Hint Resolve core_tx_push core_rx_peek : fixes.
Lemma core_rx_advance n : fixes core (rx_advance (Sock := Sock) n).
Proof. unfold rx_advance. fixing. Qed.
Lemma core_set_last_error e : fixes core (set_last_error (Sock := Sock) e).
Proof. unfold set_last_error. fixing. Qed.
#[local] Hint Resolve core_rx_advance core_set_last_error : fixes.
Lemma core_socket_close : fixes core (socket_close (Sock := Sock)).
Proof. unfold socket_close. fixing. Qed.
Lemma core_write_frame v op : fixes core (write_frame (Sock := Sock) v op).
Proof. unfold write_frame, tx_push_view. fixing. Qed.
Lemma core_write_close_frame code : fixes core (write_close_frame (Sock := Sock) code).
Proof. unfold write_close_frame. fixing. Qed.
Lemma core_parse_handshake {target : Target} : fixes core (parse_handshake (Sock := Sock)).
Proof. unfold parse_handshake, handshake_failed. fixing. Qed.

End core.

(** ** Functions of the core *)
Section of_core.
Context {Sock B : Type} `{TcpSocket Sock} (f : Connection Sock -> B) `{!OfCore f}.

Lemma fixes_core {A} (m : M Sock A) : fixes core m -> fixes f m.
Proof. intros Hm c. eapply wlp_mono; [apply Hm|]. intros a c'. apply of_core. Qed.

Lemma fixes_tx_push data : fixes f (tx_push data).
Proof. apply fixes_core, core_tx_push. Qed.
Lemma fixes_rx_peek n : fixes f (rx_peek n).
Proof. apply fixes_core, core_rx_peek. Qed.
Lemma fixes_rx_advance n : fixes f (rx_advance n).
Proof. apply fixes_core, core_rx_advance. Qed.
Lemma fixes_set_last_error e : fixes f (set_last_error e).
Proof. apply fixes_core, core_set_last_error. Qed.
Lemma fixes_socket_close : fixes f socket_close.
Proof. apply fixes_core, core_socket_close. Qed.
Lemma fixes_write_frame v op : fixes f (write_frame v op).
Proof. apply fixes_core, core_write_frame. Qed.
Lemma fixes_write_close_frame code : fixes f (write_close_frame code).
Proof. apply fixes_core, core_write_close_frame. Qed.
Lemma fixes_parse_handshake {target : Target} : fixes f parse_handshake.
Proof. apply fixes_core, core_parse_handshake. Qed.

End of_core.

#[export] Hint Resolve fixes_tx_push fixes_rx_peek fixes_rx_advance fixes_set_last_error fixes_socket_close
  fixes_write_frame fixes_write_close_frame fixes_parse_handshake : fixes.

(** ** The identifier never changes *)

#[export] Instance of_core_id {Sock} : OfCore (@id_ Sock).
Proof. by intros c c' [= ? _ _ _ _ _ _]. Qed.

Section identity.
Context {Sock : Type} `{TcpSocket Sock} {target : Target}.
Variable env : Env Sock.

Section body.
Variable run_body : list ApiCall -> M Sock unit.
Hypothesis Hbody : forall calls, fixes id_ (run_body calls).

Lemma id_fire ev f : fixes id_ (fire run_body ev f).
Proof using Hbody. unfold fire. fixing. Qed.
#[local] Hint Resolve id_fire : fixes.

Lemma id_transition s : fixes id_ (transition_to_state env run_body s).
Proof using Hbody. destruct s; cbn [transition_to_state]; fixing. Qed.
#[local] Hint Resolve id_transition : fixes.

Lemma id_close code : fixes id_ (close env run_body code).
Proof using Hbody. unfold close. fixing. Qed.
Lemma id_check_low : fixes id_ (check_low_watermark env run_body).
Proof using Hbody. unfold check_low_watermark, when. fixing. Qed.
Lemma id_send_impl payload binary : fixes id_ (send_impl env run_body payload binary).
Proof using Hbody. unfold send_impl, check_high_watermark, when. fixing. Qed.
#[local] Hint Resolve id_close id_check_low id_send_impl : fixes.

Lemma id_exec_call call : fixes id_ (exec_call env run_body call).
Proof using Hbody. destruct call; cbn [exec_call]; unfold send, send_binary; auto with fixes. Qed.

Lemma id_dispatch op v : fixes id_ (dispatch_frame env run_body op v).
Proof using Hbody. destruct op; cbn [dispatch_frame]; fixing. Qed.
#[local] Hint Resolve id_dispatch : fixes.

Lemma id_parse_frames : fixes id_ (parse_frames env run_body).
Proof using Hbody.
  unfold parse_frames. induction frame_fuel as [|n IH]; cbn [parse_frames_loop]; [fixing|].
  apply fixes_bind; [unfold parse_frames_iter; fixing|]. intros []; [exact IH|fixing].
Qed.
#[local] Hint Resolve id_parse_frames : fixes.

Lemma id_on_data s : fixes id_ (ops_on_data (state_ops env run_body s)).
Proof using Hbody.
  destruct s; cbn [state_ops ops_on_data kHandshakeOps kOpenOps kClosingOps kClosedOps];
    unfold handshake_on_data, open_on_data, closing_on_data, closed_on_data, when; fixing.
Qed.
#[local] Hint Resolve id_on_data : fixes.

Lemma id_handle_read : fixes id_ (handle_read env run_body).
Proof using Hbody.
  unfold handle_read, touch_activity. apply fixes_bind; [fixing|]. intros iov. destruct (_ =? 0); [fixing|]. apply fixes_bind; [|fixing].
  apply fixes_step. intros c a c' E. cbv zeta in E. destruct (sys_readv env _ _ _) as [r buf]. by injection E as <- <-.
Qed.
Lemma id_handle_write : fixes id_ (handle_write env run_body).
Proof using Hbody. unfold handle_write. fixing. Qed.
Lemma id_handle_write_vectored : fixes id_ (handle_write_vectored env run_body).
Proof using Hbody. unfold handle_write_vectored. fixing. Qed.

End body.

Lemma id_run_calls depth : forall calls, fixes id_ (run_calls env depth calls).
Proof.
  induction depth as [|d IH]; intros calls; [destruct calls; cbn [run_calls]; fixing|].
  cbn [run_calls]. induction calls as [|call calls IHc]; cbn [foldr]; [fixing|].
  apply fixes_bind; [by apply id_exec_call|]. intros _. exact IHc.
Qed.

Lemma id_run_callback calls : fixes id_ (run_callback env calls).
Proof. apply id_run_calls. Qed.

End identity.

#[export] Hint Resolve id_run_callback id_close id_handle_read id_handle_write id_handle_write_vectored : fixes.
