(* ===== verification/ConnectionApi.v ===== *)
(** * ConnectionApi: what the user API and the callbacks can do

    A weakest-precondition calculus for the connection monad, and the effect
    of any sequence of API calls made from a callback ([api_step]): they
    terminate whatever the callbacks do, they only append to the transmit
    buffer, they never touch the receive side, the state only moves forward,
    and each of [on_backpressure] and [on_close] is invoked at most once. *)
From S2P Require Import Prelude Vocabulary RingBuffer Frame Connection.
Open Scope ewss_scope.
Import Conn Handlers Ws.

(** ** Weakest preconditions: the handler returns, and the result satisfies [Q] *)
Definition wp {Sock A} (m : M Sock A) (Q : A -> Connection Sock -> Prop) (c : Connection Sock) : Prop :=
  match m c with Ok (a, c') => Q a c' | _ => False end.

Section wp_rules.
Context {Sock : Type}.
Implicit Type c : Connection Sock.

Lemma wp_ret {A} (a : A) (Q : A -> Connection Sock -> Prop) c : Q a c -> wp (ret a) Q c.
Proof. done. Qed.
Lemma wp_bind {A B} (m : M Sock A) (k : A -> M Sock B) Q c :
  wp m (fun a c' => wp (k a) Q c') c -> wp (bind m k) Q c.
Proof. unfold wp, bind. by destruct (m c) as [[a c']| |]. Qed.
Lemma wp_gets {A} (f : Connection Sock -> A) (Q : A -> Connection Sock -> Prop) c :
  Q (f c) c -> wp (gets f) Q c.
Proof. done. Qed.
Lemma wp_modify f (Q : unit -> Connection Sock -> Prop) c : Q tt (f c) -> wp (modify f) Q c.
Proof. done. Qed.
Lemma wp_lift {A} (a : A) (Q : A -> Connection Sock -> Prop) c : Q a c -> wp (lift (Ok a)) Q c.
Proof. done. Qed.
Lemma wp_mono {A} (m : M Sock A) (P Q : A -> Connection Sock -> Prop) c :
  wp m P c -> (forall a c', P a c' -> Q a c') -> wp m Q c.
Proof. unfold wp. intros H HPQ. destruct (m c) as [[a c']| |]; auto. Qed.
Lemma wp_run {A} (m : M Sock A) (Q : A -> Connection Sock -> Prop) c :
  wp m Q c <-> exists a c', m c = Ok (a, c') /\ Q a c'.
Proof.
  unfold wp. split.
  - destruct (m c) as [[a c']| |]; [|done|done]. eauto.
  - by intros (a & c' & -> & HQ).
Qed.

End wp_rules.

(** Step through the administrative parts of a handler. *)
Ltac wp_step :=
  lazymatch goal with
  | |- wp (bind _ _) _ _ => apply wp_bind
  | |- wp (ret _) _ _ => apply wp_ret
  | |- wp (gets _) _ _ => apply wp_gets
  | |- wp (modify _) _ _ => apply wp_modify
  | |- wp (lift (Ok _)) _ _ => apply wp_lift
  | |- wp (let '(_, _) := ?p in _) _ _ => destruct p eqn:?
  end; cbn beta iota.
Ltac wp_go := repeat wp_step.

(** ** The transmit buffer *)
Section tx.
Context {Sock : Type}.
Implicit Type c : Connection Sock.

#[export] Instance rx_size : RingSize 4096.
Proof. unfold RingSize. lia. Qed.
#[export] Instance tx_size : RingSize 8192.
Proof. unfold RingSize. lia. Qed.

Abbreviation tx_list c := (Ring.contents (tx_buffer_ c)).
Abbreviation rx_list c := (Ring.contents (rx_buffer_ c)).

(** [tx_push]: all or nothing, by the laws of a bounded queue. *)
Lemma tx_push_spec c data (Q : bool -> Connection Sock -> Prop) :
  Ring.wf (tx_buffer_ c) ->
  (forall tx', zlen (tx_list c) + zlen data <= 8192 -> Ring.wf tx' ->
     Ring.contents tx' = tx_list c ++ data -> Q true (set_tx c tx')) ->
  (8192 < zlen (tx_list c) + zlen data -> Q false c) ->
  wp (tx_push data) Q c.
Proof.
  intros Hwf Hfit Hfull. unfold wp, tx_push.
  destruct (Z.leb_spec (zlen (tx_list c) + zlen data) 8192) as [Hle|Hgt].
  - destruct (q_push_fits (BQ := ring_queue Z 8192) (tx_buffer_ c) data Hwf Hle) as (tx' & E & Hwf' & Hc').
    cbn in E. rewrite E. cbn. by apply Hfit.
  - pose proof (q_push_full (BQ := ring_queue Z 8192) (tx_buffer_ c) data Hwf Hgt) as E. cbn in E. rewrite E. cbn.
    destruct c. by apply Hfull.
Qed.

(** A push of a view whose memory holds its bytes. *)
Lemma tx_push_view_spec c data (Q : bool -> Connection Sock -> Prop) :
  Ring.wf (tx_buffer_ c) ->
  (forall tx', zlen (tx_list c) + zlen data <= 8192 -> Ring.wf tx' ->
     Ring.contents tx' = tx_list c ++ data -> Q true (set_tx c tx')) ->
  (8192 < zlen (tx_list c) + zlen data -> Q false c) ->
  wp (tx_push_view (view_of data)) Q c.
Proof.
  intros Hwf Hfit Hfull. unfold tx_push_view, view_of, view_bytes. wp_go.
  rewrite available_eq by done. pose proof (contents_length _ Hwf) as Hl. cbn [sv_size sv_mem].
  destruct (Z.ltb_spec (8192 - Ring.count_ (tx_buffer_ c)) (zlen data)).
  - wp_go. apply Hfull. lia.
  - rewrite Z.leb_refl. wp_go. rewrite take_ge by len. by apply tx_push_spec.
Qed.

(** The stack buffer receives the header of the frame. *)
Lemma wp_encode_header (op : OpCode) len (Q : bytes * Z -> Connection Sock -> Prop) c :
  Q (header_bytes op len false ++ drop (Z.to_nat (zlen (header_bytes op len false))) header_buf,
     zlen (header_bytes op len false)) c ->
  wp (lift (encode_frame_header header_buf op len false)) Q c.
Proof. intros HQ. rewrite encode_frame_header_spec by (vm_compute; discriminate). by apply wp_lift. Qed.

Lemma take_header (h rest : bytes) : take (Z.to_nat (zlen h)) (h ++ rest) = h.
Proof. unfold zlen. by rewrite Nat2Z.id, take_app_length. Qed.

(** Pushing a header and, if it was accepted, a payload: the two pushes of
    a bounded queue. *)
Lemma push_frame_spec c (h d : bytes) (m : M Sock unit) (Q : unit -> Connection Sock -> Prop) :
  Ring.wf (tx_buffer_ c) ->
  (forall tx', Ring.push (tx_buffer_ c) h = Ok (true, tx') -> Ring.wf tx' ->
     m (set_tx c tx') = (let! (_, tx2) := Ring.push tx' d in Ok (tt, set_tx c tx2))) ->
  (forall tx', Ring.wf tx' ->
     Ring.contents tx' = tx_list c ++ appended_two (8192 - zlen (tx_list c)) h d -> Q tt (set_tx c tx')) ->
  wp (let* ok := tx_push h in if negb ok then ret tt else m) Q c.
Proof.
  intros Hwf Hm HQ.
  destruct (push_two_spec (BQ := ring_queue Z 8192) (tx_buffer_ c) h d Hwf) as (tx' & E & Hwf' & Hl).
  unfold push_two in E. cbn in E, Hl, Hwf'. unfold wp, bind, tx_push.
  destruct (ring_push_spec (tx_buffer_ c) h Hwf) as (tx1 & E1 & Hwf1 & _).
  rewrite E1 in E |- *. cbn [res_bind] in E |- *. destruct (fst _); cbn [negb] in E |- *.
  - rewrite Hm by done. destruct (Ring.push tx1 d) as [[b tx2]| |]; [|done|done].
    cbn in E |- *. injection E as <-. by apply HQ.
  - injection E as <-. by apply HQ.
Qed.

(** [write_frame] appends the whole frame if it fits, only its header if
    the payload does not fit after it, and nothing if not even the header
    fits. *)
Definition frame_appended (op : OpCode) (payload : bytes) (room : Z) : bytes :=
  appended_two room (header_bytes op (zlen payload) false) payload.

Lemma push_nil (tx : Ring.RingBuffer Z 8192) : Ring.wf tx -> Ring.push tx [] = Ok (true, tx).
Proof.
  intros Hwf. unfold Ring.push. rewrite available_eq by done. pose proof Hwf as [HS HB HR HW HC].
  rewrite zlen_nil. zcase. cbn. rewrite Z.add_0_r, u64_small by lia. by destruct tx.
Qed.

Lemma write_frame_spec c op payload (Q : unit -> Connection Sock -> Prop) :
  Ring.wf (tx_buffer_ c) ->
  (forall tx', Ring.wf tx' ->
     Ring.contents tx' = tx_list c ++ frame_appended op payload (8192 - zlen (tx_list c)) ->
     Q tt (set_tx c tx')) ->
  wp (write_frame (view_of payload) op) Q c.
Proof.
  intros Hwf HQ. unfold write_frame. wp_step. cbn [sv_size view_of]. apply wp_encode_header.
  cbn beta iota. rewrite take_header. apply push_frame_spec with payload; [done| |done].
  intros tx' _ Hwf'. destruct (Z.eqb_spec (zlen payload) 0) as [E|E]; cbn [negb].
  { destruct payload; [|rewrite zlen_cons in E; pose proof (zlen_nonneg payload); lia].
    by rewrite push_nil. }
  unfold bind, tx_push_view, bind, gets, view_of, view_bytes; cbn [res_bind sv_size sv_mem set_tx tx_buffer_].
  unfold Ring.push. destruct (Z.ltb_spec (Ring.available tx') (zlen payload)); [done|].
  rewrite Z.leb_refl. cbn [lift res_bind]. rewrite take_ge by len. unfold tx_push, Ring.push.
  cbn [set_tx tx_buffer_]. zcase. by destruct (Ring.push_loop _ _ _) as [[? ?]| |].
Qed.

Lemma write_close_frame_spec c code (Q : unit -> Connection Sock -> Prop) :
  Ring.wf (tx_buffer_ c) ->
  (forall tx', Ring.wf tx' ->
     Ring.contents tx' = tx_list c ++
       frame_appended kClose [u8 (Z.land (Z.shiftr code 8) 0xFF); u8 (Z.land code 0xFF)]
         (8192 - zlen (tx_list c)) ->
     Q tt (set_tx c tx')) ->
  wp (write_close_frame code) Q c.
Proof.
  intros Hwf HQ. unfold write_close_frame. wp_step. apply wp_encode_header. cbn beta iota.
  rewrite take_header.
  apply push_frame_spec with [u8 (Z.land (Z.shiftr code 8) 0xFF); u8 (Z.land code 0xFF)]; [done| |done].
  intros tx' _ Hwf'. unfold bind, tx_push; cbn [set_tx tx_buffer_].
  by destruct (Ring.push tx' _) as [[? ?]| |].
Qed.

End tx.

(** ** API calls *)

(** States in the order of a connection's life. *)
Definition rank (s : ConnectionState) : Z :=
  match s with kHandshaking => 0 | kOpen => 1 | kClosing => 2 | kClosed => 3 end.

Lemma rank_inj s t : rank s = rank t -> s = t.
Proof. destruct s, t; cbn; done. Qed.

(** The invocations of [on_backpressure] and of [on_close] still to come. *)
Definition budget {Sock} (c : Connection Sock) : nat :=
  ((if write_paused_ c then 0 else 1) + (if bool_decide (ops_ c = kClosed) then 0 else 1))%nat.

Definition opt_list {A} (b : bool) (x : A) : list A := if b then [x] else [].

(** What any sequence of API calls does to a connection. *)
Record api_step {Sock} `{TcpSocket Sock} (c c' : Connection Sock) : Prop := {
  as_same : id_ c' = id_ c /\ rx_buffer_ c' = rx_buffer_ c /\ created_at_ c' = created_at_ c
    /\ last_activity_ c' = last_activity_ c /\ handshake_completed_ c' = handshake_completed_ c
    /\ last_error_code_ c' = last_error_code_ c /\ wire_ c' = wire_ c;
  as_tx : Ring.wf (tx_buffer_ c')
    /\ exists sent, Ring.contents (tx_buffer_ c') = Ring.contents (tx_buffer_ c) ++ sent;
  as_rank : rank (ops_ c) <= rank (ops_ c');
  as_handshaking : ops_ c = kHandshaking -> ops_ c' = kHandshaking \/ ops_ c' = kClosed;
  as_handshaking_tx : ops_ c = kHandshaking -> tx_buffer_ c' = tx_buffer_ c;
  as_paused : write_paused_ c = true -> write_paused_ c' = true;
  as_socket_closed : ops_ c <> kClosed -> ops_ c' = kClosed -> socket_ c' = sock_close (socket_ c);
  as_socket_kept : ops_ c' <> kClosed -> socket_ c' = socket_ c;
  as_noop : ops_ c = kClosed -> c' = c;
  as_log : exists bp cl, log_ c' = log_ c ++ opt_list bp EvBackpressure ++ opt_list cl (EvClose true)
    /\ (bp = true -> write_paused_ c = false /\ write_paused_ c' = true)
    /\ (cl = true -> ops_ c <> kClosed /\ ops_ c' = kClosed);
}.

Lemma kept_app {A} (l : list A) : exists t, l = l ++ t.
Proof. exists []. by rewrite app_nil_r. Qed.

Lemma log_kept (l : list Event) (P Q : Prop) :
  exists bp cl, l = l ++ opt_list bp EvBackpressure ++ opt_list cl (EvClose true)
    /\ (bp = true -> P) /\ (cl = true -> Q).
Proof. exists false, false. cbn. by rewrite app_nil_r. Qed.

(** Fields of [api_step] that hold by computation. *)
Ltac api_fields := split; cbn; try done; try lia; auto using kept_app, log_kept.

Section api.
Context {Sock : Type} `{TcpSocket Sock}.
Implicit Type c : Connection Sock.

Lemma api_step_refl c : Ring.wf (tx_buffer_ c) -> api_step c c.
Proof.
  intros Hwf. api_fields.
Qed.

Lemma api_step_trans c1 c2 c3 : api_step c1 c2 -> api_step c2 c3 -> api_step c1 c3.
Proof.
  intros H12 H23. destruct (decide (ops_ c2 = kClosed)) as [E2|N2].
  { by rewrite (as_noop _ _ H23 E2). }
  assert (N1 : ops_ c1 <> kClosed).
  { intros E1. apply N2. by rewrite (as_noop _ _ H12 E1). }
  destruct H12 as [S12 [W12 (t12 & T12)] R12 Hh12 Ht12 P12 C12 K12 _ (bp1 & cl1 & L12 & B12 & Cl12)].
  destruct H23 as [S23 [W23 (t23 & T23)] R23 Hh23 Ht23 P23 C23 K23 _ (bp2 & cl2 & L23 & B23 & Cl23)].
  split.
  - destruct S12 as (?&?&?&?&?&?&?), S23 as (?&?&?&?&?&?&?). split_and!; congruence.
  - split; [done|]. exists (t12 ++ t23). by rewrite T23, T12, app_assoc.
  - lia.
  - intros E1. destruct (Hh12 E1); [by apply Hh23|done].
  - intros E1. destruct (Hh12 E1); [|done]. rewrite Ht23 by done. auto.
  - auto.
  - intros _ E3. rewrite (C23 N2 E3). by rewrite (K12 N2).
  - intros N3. rewrite (K23 N3). by apply K12.
  - done.
  - destruct cl1; [by destruct (Cl12 eq_refl)|]. exists (bp1 || bp2), cl2.
    split; [|split].
    + rewrite L23, L12. destruct bp1, bp2; cbn; rewrite ?app_nil_r, <- ?app_assoc; try done.
      destruct (B12 eq_refl), (B23 eq_refl); congruence.
    + intros Hb. destruct bp1; [destruct (B12 eq_refl); auto|]. cbn in Hb. destruct (B23 Hb) as [Hf Ht].
      split; [|done]. destruct (write_paused_ c1) eqn:E1; [|done]. rewrite P12 in Hf; done.
    + intros Hc. split; [done|]. by apply Cl23.
Qed.

Lemma budget_le c c' : api_step c c' -> (budget c' <= budget c)%nat.
Proof.
  intros [_ _ R _ _ P _ _ _ _]. unfold budget.
  destruct (write_paused_ c) eqn:E; [rewrite P by done|destruct (write_paused_ c')];
    (case_bool_decide as E1; case_bool_decide as E2; try lia);
    rewrite ?E1, ?E2 in R; cbn in R; destruct (ops_ c'); cbn in R; try lia; done.
Qed.

End api.

Section run_api.
Context {Sock : Type} `{TcpSocket Sock} {target : Target}.
Variable env : Env Sock.
Implicit Type c : Connection Sock.

(** A way of running callback bodies that is fine on connections with
    fewer than [d] callback invocations to come. *)
Definition body_ok (run_body : list ApiCall -> M Sock unit) (d : nat) : Prop :=
  forall calls c, Ring.wf (tx_buffer_ c) -> (budget c < d)%nat ->
    wp (run_body calls) (fun _ c' => api_step c c') c.

Lemma fire_spec run_body d ev f c (Q : unit -> Connection Sock -> Prop) :
  body_ok run_body d -> Ring.wf (tx_buffer_ c) -> (budget c < d)%nat ->
  (f = None -> Q tt c) -> (forall c', api_step (add_log c ev) c' -> Q tt c') ->
  wp (fire run_body ev f) Q c.
Proof.
  intros Hb Hwf Hd Hn HQ. unfold fire. destruct f as [f|]; [|wp_go; auto].
  wp_go. eapply wp_mono; [apply Hb; [done|exact Hd]|]. intros [] c' Hc'. by apply HQ.
Qed.

Variable run_body : list ApiCall -> M Sock unit.
Variable d : nat.
Hypothesis Hbody : body_ok run_body d.

(** Appending to the transmit buffer is an API step. *)
Lemma api_step_tx c tx' l :
  Ring.wf tx' -> Ring.contents tx' = Ring.contents (tx_buffer_ c) ++ l -> ops_ c <> kClosed -> ops_ c <> kHandshaking ->
  api_step c (set_tx c tx').
Proof.
  intros Hwf Hc Hn Hh. api_fields. eauto.
Qed.

Lemma check_high_watermark_spec c :
  Ring.wf (tx_buffer_ c) -> (budget c < S d)%nat -> ops_ c <> kClosed ->
  wp (check_high_watermark env run_body) (fun _ c' => api_step c c') c.
Proof.
  intros Hwf Hbud Hn. unfold check_high_watermark, when. wp_go.
  destruct (negb (write_paused_ c) && _) eqn:E; [|wp_go; by apply api_step_refl].
  apply andb_true_iff in E as [Ep%negb_true_iff _]. wp_go.
  assert (Hstep : forall c', (c' = set_paused c true \/ c' = add_log (set_paused c true) EvBackpressure) -> api_step c c').
  { intros c' [-> | ->]; api_fields. by exists true, false. }
  eapply fire_spec; [exact Hbody|done| |intros _; by apply Hstep; left|].
  - unfold budget in *. cbn. rewrite Ep in Hbud. case_bool_decide; lia.
  - intros c' Hc'. eapply api_step_trans; [|exact Hc']. apply Hstep. by right.
Qed.

Lemma send_impl_spec payload binary c :
  Ring.wf (tx_buffer_ c) -> (budget c < S d)%nat ->
  wp (send_impl env run_body payload binary) (fun _ c' => api_step c c') c.
Proof.
  intros Hwf Hbud. unfold send_impl, get_state. wp_go. case_bool_decide as E; cbn [negb].
  2: { wp_go. by apply api_step_refl. }
  wp_step. apply write_frame_spec; [done|]. intros tx' Hwf' Hc'.
  assert (ops_ c <> kClosed) by (by rewrite E). assert (ops_ c <> kHandshaking) by (by rewrite E).
  eapply wp_mono; [apply check_high_watermark_spec; [done|exact Hbud|done]|].
  intros [] c' Hs. eapply api_step_trans; [|exact Hs]. by eapply api_step_tx.
Qed.

(** Entering [kClosed] and closing the socket. *)
Lemma close_socket_step c c' :
  ops_ c <> kClosed -> Ring.wf (tx_buffer_ c) ->
  (c' = set_ops c kClosed \/ c' = add_log (set_ops c kClosed) (EvClose true)) ->
  api_step c (set_socket c' (sock_close (socket_ c'))).
Proof.
  intros Hn Hwf [-> | ->]; api_fields.
  1,2: by destruct (ops_ c); cbn.
  by exists false, true.
Qed.

Lemma enter_closed_spec c (Q : unit -> Connection Sock -> Prop) :
  Ring.wf (tx_buffer_ c) -> (budget (set_ops c kClosed) < d)%nat ->
  (forall c', (c' = set_ops c kClosed \/ c' = add_log (set_ops c kClosed) (EvClose true)) -> Q tt c') ->
  wp (transition_to_state env run_body kClosed) Q c.
Proof.
  intros Hwf Hbud HQ. cbn [transition_to_state]. wp_go.
  eapply fire_spec; [exact Hbody|done|exact Hbud|intros _; apply HQ; by left|].
  intros c' Hs. apply HQ. right. by apply (as_noop _ _ Hs).
Qed.

Lemma close_spec code c :
  Ring.wf (tx_buffer_ c) -> (budget c < S d)%nat ->
  wp (close env run_body code) (fun _ c' => api_step c c') c.
Proof.
  intros Hwf Hbud. unfold close, get_state. wp_go.
  case_bool_decide as Ec; [wp_go; by apply api_step_refl|].
  case_bool_decide as Eo.
  - wp_step. apply write_close_frame_spec; [done|]. intros tx' Hwf' Hc'. cbn [transition_to_state]. wp_go.
    api_fields; rewrite ?Eo; cbn; try done; eauto.
  - wp_step. apply enter_closed_spec; [done| |].
    + unfold budget in *. rewrite (bool_decide_eq_false_2 (ops_ c = kClosed)) in Hbud by done.
      rewrite bool_decide_eq_true_2 by done. cbn [set_ops write_paused_]. lia.
    + intros c' Hc'. wp_go. by apply close_socket_step.
Qed.

Lemma exec_call_spec call c :
  Ring.wf (tx_buffer_ c) -> (budget c < S d)%nat ->
  wp (exec_call env run_body call) (fun _ c' => api_step c c') c.
Proof. destruct call; [apply send_impl_spec|apply send_impl_spec|apply close_spec]. Qed.

End run_api.

(** Whatever the callbacks do, running their bodies terminates: nesting is
    bounded by the callbacks still to come. *)
Lemma run_calls_spec {Sock} `{TcpSocket Sock} {target : Target} (env : Env Sock) d :
  body_ok (run_calls env d) d.
Proof.
  induction d as [|d IH]; intros calls c Hwf Hbud; [lia|]. cbn [run_calls].
  revert c Hwf Hbud. induction calls as [|call calls IHc]; intros c Hwf Hbud; cbn [foldr].
  - by apply wp_ret, api_step_refl.
  - wp_step. eapply wp_mono; [by eapply exec_call_spec|]. intros [] c1 H1.
    eapply wp_mono; [apply IHc; [apply (as_tx _ _ H1)|pose proof (budget_le _ _ H1); lia]|].
    intros [] c2 H2. by eapply api_step_trans.
Qed.

Lemma run_callback_spec {Sock} `{TcpSocket Sock} {target : Target} (env : Env Sock) :
  body_ok (run_callback env) callback_depth.
Proof. apply run_calls_spec. Qed.

Lemma budget_bound {Sock} (c : Connection Sock) : (budget c < callback_depth)%nat.
Proof. unfold budget, callback_depth. destruct (write_paused_ c); case_bool_decide; lia. Qed.
#[export] Hint Resolve budget_bound : ewss.

(** ** Properties *)

(** C27: whatever a callback does with its connection, and whatever the
    callbacks do that its calls trigger in turn, running it terminates with
    callbacks nested at most three deep; it only appends to the transmit
    buffer, never touches the receive buffer or the bytes already sent,
    only moves the state forward, closes the socket exactly when it closes
    the connection, does nothing on a closed connection, and triggers
    [on_backpressure] and [on_close] at most once each, in this order. *)
Theorem api_calls_total {Sock} `{TcpSocket Sock} {target : Target} (env : Env Sock) calls (c : Connection Sock) :
  Ring.wf (tx_buffer_ c) ->
  exists c', run_callback env calls c = Ok (tt, c') /\ api_step c c'.
Proof.
  intros Hwf. destruct (proj1 (wp_run _ _ _) (run_callback_spec env calls c Hwf (budget_bound c))) as ([] & c' & E & Hs).
  by exists c'.
Qed.
