(* ===== verification/ConnectionInv.v ===== *)
(** * ConnectionInv: the invariant of a connection and how it evolves

    [conn_ok] is what holds of a connection whenever the reactor calls into
    it; [evolves] is what one entry point may change: the state only moves
    forward, the transmitted stream and the callback history only grow.
    Both are shown here for the building blocks (API calls, callbacks,
    state transitions); the parsers and the reactor entry points are in the
    files that follow. *)
From S2P Require Import Prelude Vocabulary RingBuffer Frame Connection ConnectionApi.
Open Scope ewss_scope.
Import Conn Handlers Ws.

Abbreviation tx_list c := (Ring.contents (tx_buffer_ c)).
Abbreviation rx_list c := (Ring.contents (rx_buffer_ c)).

(** Everything handed to the socket or waiting for it, in order. *)
Definition stream {Sock} (c : Connection Sock) : bytes := wire_ c ++ tx_list c.

(** The payloads handed to [on_message]. *)
Definition message_of (e : Event) : option bytes :=
  match e with EvMessage p => Some p | _ => None end.
Definition messages (l : list Event) : list bytes := omap message_of l.

(** The buffers are well formed and hold bytes, and the state agrees with
    the handshake flag and with the socket.  Nothing is queued before the
    handshake. *)
Record conn_ok {Sock} `{TcpSocket Sock} (c : Connection Sock) : Prop := mk_conn_ok {
  ok_rx : Ring.wf (rx_buffer_ c);
  ok_tx : Ring.wf (tx_buffer_ c);
  ok_rx_bytes : bytes_ok (rx_list c);
  ok_handshaking : ops_ c = kHandshaking -> handshake_completed_ c = false /\ tx_list c = [];
  ok_established : ops_ c = kOpen \/ ops_ c = kClosing -> handshake_completed_ c = true;
  ok_closed : ops_ c = kClosed -> sock_is_open (socket_ c) = false;
  ok_open : ops_ c <> kClosed -> sock_is_open (socket_ c) = true;
}.

Record evolves {Sock} (c c' : Connection Sock) : Prop := mk_evolves {
  ev_id : id_ c' = id_ c;
  ev_created : created_at_ c' = created_at_ c;
  ev_rank : rank (ops_ c) <= rank (ops_ c');
  ev_handshake : handshake_completed_ c = true -> handshake_completed_ c' = true;
  ev_stream : exists t, stream c' = stream c ++ t;
  ev_log : exists t, log_ c' = log_ c ++ t;
}.

#[export] Instance evolves_preorder {Sock} : PreOrder (@evolves Sock).
Proof.
  split.
  - intros c. split; try done; apply kept_app.
  - intros c1 c2 c3 [I1 C1 R1 H1 (t1 & S1) (l1 & L1)] [I2 C2 R2 H2 (t2 & S2) (l2 & L2)].
    split; [congruence|congruence|lia|auto| |].
    + exists (t1 ++ t2). by rewrite S2, S1, app_assoc.
    + exists (l1 ++ l2). by rewrite L2, L1, app_assoc.
Qed.

Lemma messages_app l k : messages (l ++ k) = messages l ++ messages k.
Proof. apply omap_app. Qed.

Section inv.
Context {Sock : Type} `{TcpSocketLaws Sock}.
Implicit Type c : Connection Sock.

(** ** API calls *)

Lemma api_step_evolves c c' : api_step c c' -> evolves c c'.
Proof.
  intros [(Eid & _ & Ec & _ & Eh & _ & Ew) [_ (t & Et)] R _ _ _ _ _ _ (bp & cl & L & _)].
  split; [done|done|done|congruence| |].
  - exists t. unfold stream. by rewrite Ew, Et, app_assoc.
  - eauto.
Qed.

Lemma api_step_ok c c' : conn_ok c -> api_step c c' -> conn_ok c'.
Proof.
  intros [Hrx Htx Hb Hh He Hc Ho] Hs.
  pose proof (as_same _ _ Hs) as (_ & Er & _ & _ & Ehs & _).
  pose proof (as_rank _ _ Hs) as R. split; rewrite ?Er, ?Ehs; [done|apply Hs|done| | | |].
  - intros E. assert (E0 : ops_ c = kHandshaking).
    { rewrite E in R. destruct (ops_ c); cbn in R; lia || done. }
    rewrite (as_handshaking_tx _ _ Hs E0). auto.
  - intros E. destruct (ops_ c) eqn:E0; cbn in R.
    + destruct (as_handshaking _ _ Hs E0), E; congruence.
    + auto.
    + auto.
    + destruct E as [E|E]; rewrite E in R; cbn in R; lia.
  - intros E. destruct (decide (ops_ c = kClosed)) as [E0|N0].
    + rewrite (as_noop _ _ Hs E0). auto.
    + rewrite (as_socket_closed _ _ Hs N0 E). apply sock_close_not_open.
  - intros N. rewrite (as_socket_kept _ _ Hs N). apply Ho. intros E0. by rewrite (as_noop _ _ Hs E0) in N.
Qed.

Lemma is_closed_ok c : conn_ok c -> is_closed c = true <-> ops_ c = kClosed.
Proof.
  intros Hok. unfold is_closed, get_state. rewrite orb_true_iff, negb_true_iff, bool_decide_eq_true.
  split; [|by right]. intros [E|]; [|done]. destruct (decide (ops_ c = kClosed)) as [|N]; [done|]. by rewrite (ok_open _ Hok N) in E.
Qed.

Lemma api_step_messages c c' : api_step c c' -> messages (log_ c') = messages (log_ c).
Proof.
  intros Hs. destruct (as_log _ _ Hs) as (bp & cl & -> & _).
  rewrite messages_app. by destruct bp, cl; cbn; rewrite app_nil_r.
Qed.

(** ** Callbacks *)

Lemma add_log_ok c e : conn_ok c -> conn_ok (add_log c e).
Proof. by intros []. Qed.
Lemma add_log_evolves c e : evolves c (add_log c e).
Proof. split; try done; [apply kept_app|by exists [e]]. Qed.

(** Invoking a callback: one event, then API calls. *)
Lemma fire_ok {target : Target} (env : Env Sock) ev f c (Q : unit -> Connection Sock -> Prop) :
  Ring.wf (tx_buffer_ c) ->
  (f = None -> Q tt c) -> (forall c', api_step (add_log c ev) c' -> Q tt c') ->
  wp (fire (run_callback env) ev f) Q c.
Proof. intros. eapply fire_spec; [apply run_callback_spec|done|auto with ewss|done|done]. Qed.

Lemma transition_open_spec {target : Target} (env : Env Sock) c (Q : unit -> Connection Sock -> Prop) :
  conn_ok (set_ops c kOpen) ->
  (on_open (cb env) = None -> Q tt (set_ops c kOpen)) ->
  (forall c', api_step (add_log (set_ops c kOpen) EvOpen) c' -> Q tt c') ->
  wp (transition_to_state env (run_callback env) kOpen) Q c.
Proof. intros Hok Hn HQ. cbn [transition_to_state]. wp_go. apply fire_ok; [apply Hok|done|done]. Qed.

(** Entering [kClosed]: the callback finds the connection closed, so its
    calls do nothing. *)
Lemma transition_closed_spec {target : Target} (env : Env Sock) c (Q : unit -> Connection Sock -> Prop) :
  Ring.wf (tx_buffer_ c) ->
  (forall l, messages l = [] -> Q tt (mk_conn (id_ c) (socket_ c) (rx_buffer_ c) (tx_buffer_ c) kClosed
     (handshake_completed_ c) (sec_websocket_key_ c) (last_error_code_ c) (write_paused_ c)
     (created_at_ c) (closing_at_ c) (last_activity_ c) (log_ c ++ l) (wire_ c))) ->
  wp (transition_to_state env (run_callback env) kClosed) Q c.
Proof.
  intros Hwf HQ. eapply enter_closed_spec; [apply run_callback_spec|done|auto with ewss|].
  intros c' [-> | ->].
  - specialize (HQ []). rewrite app_nil_r in HQ. by apply HQ.
  - by apply (HQ [EvClose true]).
Qed.

(** Closing from any state: enter [kClosed], close the socket. *)
Lemma shut_spec {target : Target} (env : Env Sock) c (Q : unit -> Connection Sock -> Prop) :
  conn_ok c ->
  (forall c', conn_ok c' -> evolves c c' -> ops_ c' = kClosed -> rx_buffer_ c' = rx_buffer_ c ->
     tx_buffer_ c' = tx_buffer_ c -> messages (log_ c') = messages (log_ c) -> Q tt c') ->
  wp (transition_to_state env (run_callback env) kClosed ;;; socket_close) Q c.
Proof.
  intros Hok HQ. wp_step. apply transition_closed_spec; [apply Hok|]. intros l Hl. unfold socket_close. wp_go.
  apply HQ; cbn; try done.
  - destruct Hok. split; cbn; try done; [by intros [|]|]. intros _. apply sock_close_not_open.
  - split; cbn; try done; [destruct (ops_ c); cbn; lia|apply kept_app|by exists l].
  - by rewrite messages_app, Hl, app_nil_r.
Qed.

End inv.

#[export] Hint Resolve api_step_ok api_step_evolves add_log_ok : ewss.

(** ** A concrete socket and environments, for evaluation *)
Module Demo.

Record Socket := mk_socket { fd : Z; is_open : bool; non_blocking : bool }.

#[export] Instance socket_tcp : TcpSocket Socket := {
  sock_of_fd n := mk_socket n (0 <=? n) false;
  sock_is_open := is_open;
  sock_handle := fd;
  sock_close s := mk_socket (-1) false (non_blocking s);
  sock_set_non_blocking s b := mk_socket (fd s) (is_open s) b;
}.

#[export] Instance socket_laws : TcpSocketLaws Socket.
Proof. split; [done|done|]. intros n Hn. cbn. by apply Z.leb_le. Qed.

(** Callbacks of an echo server that says goodbye to [bye]. *)
Definition echo_callbacks : Callbacks Socket :=
  mk_callbacks Socket (Some (fun _ => [])) 
    (Some (fun _ msg => if bool_decide (msg = str "bye") then [ApiSend msg; ApiClose 1000] else [ApiSend msg]))
    (Some (fun _ _ => [])) None (Some (fun _ => [])) (Some (fun _ => [])).

(** A socket that delivers [input] and takes at most [room] bytes. *)
Definition env_with (cbs : Callbacks Socket) (t : Z) (input : bytes) (room : Z) : Env Socket :=
  mk_env Socket cbs t
    (fun _ buf iov =>
       let data := take (Z.to_nat (Ring.total_len iov)) input in
       if bool_decide (data = []) then (mk_sys (-1) EAGAIN, buf)
       else (mk_sys (zlen data) 0, Ring.scatter buf iov data))
    (fun _ data => mk_sys (Z.min room (zlen data)) 0)
    (fun _ data => inl (Z.min room (zlen data))).

(** A connection in state [s] with [bs] received. *)
Definition conn_with (s : ConnectionState) (bs : bytes) : Connection Socket :=
  mk_conn 1 (mk_socket 7 (negb (bool_decide (s = kClosed))) true)
    (Ring.mk_ring (bs ++ replicate (4096 - length bs) 0) 0 (zlen bs mod 4096) (zlen bs))
    Ring.empty_ring s (negb (bool_decide (s = kHandshaking))) [] kOk false 0 0 0 [] [].

Lemma conn_with_rx s bs : (length bs <= 4096)%nat -> rx_list (conn_with s bs) = bs.
Proof.
  intros Hl. unfold conn_with, Ring.contents, Ring.window; cbn.
  rewrite drop_0, <- app_assoc, take_app_length'; [done|unfold zlen; lia].
Qed.

Lemma conn_with_ok s bs : (length bs <= 4096)%nat -> bytes_ok bs -> conn_ok (conn_with s bs).
Proof.
  intros Hl Hb. split.
  - split; cbn; try (len; lia). by rewrite Z.add_0_l.
  - by apply empty_ring_ok.
  - by rewrite conn_with_rx.
  - intros E. cbn in E. subst s. by split.
  - intros [E|E]; cbn in E; by subst s.
  - intros E. cbn in E. by subst s.
  - intros E. cbn in E |- *. by rewrite bool_decide_eq_false_2.
Qed.

End Demo.
