(* ===== verification/ConnectionFrames.v ===== *)
(** * ConnectionFrames: the frame loop against a reference deframer

    [next_frame] and [deframe] describe, on plain byte strings, how a
    received stream splits into WebSocket frames.  [parse_frames] is shown
    to be exactly: deliver the frames of the receive buffer in order, stop
    at a Close frame, leave the incomplete rest in the buffer. *)
From S2P Require Import Prelude Vocabulary RingBuffer Frame Connection ConnectionApi ConnectionInv.
Open Scope ewss_scope.
Import Conn Handlers Ws.

(** ** Reference *)

(** A frame as the application sees it: unmasked. *)
Record Frame := mk_frame { f_op : OpCode; f_payload : bytes }.

(** The first frame of a byte string and what follows it, if complete. *)
Definition next_frame (bs : bytes) : option (Frame * bytes) :=
  match bs with
  | d0 :: d1 :: rest =>
      let need := header_need d1 in
      let total := need + header_len d1 rest in
      if (zlen bs <? need) || (zlen bs <? total) then None else
      let body := drop (Z.to_nat need) (take (Z.to_nat total) bs) in
      let key := take 4 (drop (Z.to_nat (need - 4)) bs) in
      Some (mk_frame (opcode_of_u8 (d0 mod 16)) (if 128 <=? d1 then mask_bytes key 0 body else body),
            drop (Z.to_nat total) bs)
  | _ => None
  end.

(** No complete header at the front announces a frame of 2^64 bytes or
    more. *)
Definition no_wrap (bs : bytes) : Prop :=
  match bs with
  | _ :: d1 :: rest => header_need d1 <= zlen bs -> header_need d1 + header_len d1 rest < 2 ^ 64
  | _ => True
  end.

#[export] Instance no_wrap_dec bs : Decision (no_wrap bs).
Proof. destruct bs as [|? [|? ?]]; cbn; solve_decision. Defined.

(** The frames of a byte string up to the first Close frame, and the bytes
    left: an incomplete frame, or everything from the Close frame on. *)
Fixpoint deframe (fuel : nat) (bs : bytes) : list Frame * bytes :=
  match fuel, next_frame bs with
  | S fuel', Some (f, rest) =>
      if bool_decide (f_op f = kClose) then ([f], bs) else
      let (fs, r) := deframe fuel' rest in (f :: fs, r)
  | _, _ => ([], bs)
  end.

Definition frames_of (bs : bytes) : list Frame := fst (deframe (length bs) bs).
Definition rest_of (bs : bytes) : bytes := snd (deframe (length bs) bs).

Definition is_data (f : Frame) : bool := bool_decide (f_op f = kText) || bool_decide (f_op f = kBinary).
Definition is_close (f : Frame) : bool := bool_decide (f_op f = kClose).

(** The messages a list of frames carries. *)
Definition data_payloads (fs : list Frame) : list bytes := f_payload <$> filter (fun f => is_data f = true) fs.

Section reference_facts.

Lemma header_len_nonneg d1 rest : bytes_ok rest -> 0 <= header_len d1 rest.
Proof.
  intros Hr. unfold header_len. destruct (Z.eqb_spec (ext_size d1) 0).
  - apply Z.mod_pos_bound. lia.
  - apply be_value_range. by apply Forall_take.
Qed.

Lemma next_frame_Some bs f rest :
  bytes_ok bs -> next_frame bs = Some (f, rest) ->
  exists n, 2 <= n <= zlen bs /\ rest = drop (Z.to_nat n) bs.
Proof.
  intros Hok. destruct bs as [|d0 [|d1 r]]; [done|done|]. cbn [next_frame].
  apply Forall_cons in Hok as [_ [_ Hr]%Forall_cons].
  pose proof (header_need_bounds d1). pose proof (header_len_nonneg d1 r Hr).
  destruct (_ || _) eqn:E; [done|]. intros [= _ <-].
  apply orb_false_iff in E as [_ E%Z.ltb_ge]. eexists. split; [|done]. lia.
Qed.

Lemma next_frame_rest_ok bs f rest :
  bytes_ok bs -> next_frame bs = Some (f, rest) -> bytes_ok rest /\ (length rest < length bs)%nat.
Proof.
  intros Hok (n & Hn & ->)%next_frame_Some; [|done]. split; [by apply Forall_drop|len].
Qed.

(** Any fuel of at least the length gives the same split. *)
Lemma deframe_fuel n : forall m bs, bytes_ok bs -> (length bs <= n)%nat -> (length bs <= m)%nat ->
  deframe n bs = deframe m bs.
Proof.
  assert (Hnil : forall k, deframe k [] = ([], [])) by (intros []; done).
  induction n as [|n IH]; intros m bs Hok Hn Hm.
  { destruct bs; [|cbn in Hn; lia]. by rewrite !Hnil. }
  destruct m as [|m]; [destruct bs; [by rewrite !Hnil|cbn in Hm; lia]|].
  cbn [deframe]. destruct (next_frame bs) as [[f rest]|] eqn:E; [|done].
  destruct (next_frame_rest_ok _ _ _ Hok E). by rewrite (IH m rest) by (done || lia).
Qed.

(** The split, one frame at a time. *)
Lemma deframe_unfold bs :
  bytes_ok bs ->
  (frames_of bs, rest_of bs) =
  match next_frame bs with
  | None => ([], bs)
  | Some (f, rest) => if is_close f then ([f], bs) else (f :: frames_of rest, rest_of rest)
  end.
Proof.
  intros Hok. unfold frames_of, rest_of. rewrite <- surjective_pairing.
  rewrite (deframe_fuel _ (S (length bs))) by (done || lia). cbn [deframe].
  destruct (next_frame bs) as [[f rest]|] eqn:E; [|done]. unfold is_close.
  destruct (next_frame_rest_ok _ _ _ Hok E). case_bool_decide; [done|].
  rewrite (deframe_fuel _ (length rest)) by (done || lia). by destruct (deframe _ rest).
Qed.

(** What the header parser says of a complete frame. *)
Lemma next_frame_header {target : Target} bs f rest h :
  bytes_ok bs -> next_frame bs = Some (f, rest) ->
  exists hs hd, parse_frame_header bs h = Ok (hs, hd)
    /\ 2 <= hs /\ (masked hd = true -> 6 <= hs) /\ 0 <= payload_len hd
    /\ hs + payload_len hd <= zlen bs
    /\ rest = drop (Z.to_nat (hs + payload_len hd)) bs
    /\ f = mk_frame (opcode hd)
             (let body := take (Z.to_nat (payload_len hd)) (drop (Z.to_nat hs) bs) in
              if masked hd then mask_bytes (take 4 (drop (Z.to_nat (hs - 4)) bs)) 0 body else body).
Proof.
  intros Hok. destruct bs as [|d0 [|d1 r]]; [done|done|]. cbn [next_frame].
  destruct (parse_frame_header_spec d0 d1 r h Hok) as (hd & -> & Hhd).
  apply Forall_cons in Hok as [_ [_ Hr]%Forall_cons]. rewrite !zlen_cons.
  pose proof (header_need_bounds d1). pose proof (header_len_nonneg d1 r Hr).
  destruct (_ || _) eqn:E; [done|]. apply orb_false_iff in E as [E1%Z.ltb_ge E2%Z.ltb_ge].
  intros [= <- <-]. destruct (Z.ltb_spec (zlen r + 2) (header_need d1)); [lia|].
  rewrite Hhd by lia. eexists _, _. split; [done|]. cbn [masked payload_len opcode header_of].
  split; [lia|]. split; [unfold header_need; pose proof (ext_size_cases d1); zcase|].
  split; [done|]. split; [lia|]. split; [done|]. cbn zeta.
  replace (Z.to_nat (header_need d1 + header_len d1 r))
    with (Z.to_nat (header_need d1) + Z.to_nat (header_len d1 r))%nat by lia.
  by rewrite <- take_drop_commute.
Qed.

Lemma next_frame_None_header {target : Target} bs h :
  bytes_ok bs -> next_frame bs = None -> no_wrap bs ->
  exists hs hd, parse_frame_header bs h = Ok (hs, hd)
    /\ (hs = 0 \/ zlen bs < u64 (hs + payload_len hd)).
Proof.
  intros Hok. destruct bs as [|d0 [|d1 r]]; [by eauto|by eauto|]. cbn [next_frame no_wrap].
  destruct (parse_frame_header_spec d0 d1 r h Hok) as (hd & -> & Hhd).
  apply Forall_cons in Hok as [_ [_ Hr]%Forall_cons]. rewrite !zlen_cons.
  pose proof (header_need_bounds d1). pose proof (header_len_nonneg d1 r Hr).
  destruct (_ || _) eqn:E; [|done]. intros _ Hnw. eexists _, _. split; [done|].
  destruct (Z.ltb_spec (zlen r + 2) (header_need d1)); [by left|right].
  rewrite Hhd by lia. cbn [payload_len header_of]. rewrite u64_small by lia.
  apply orb_true_iff in E as [E%Z.ltb_lt|E%Z.ltb_lt]; lia.
Qed.

(** ** Splitting a stream that arrives in pieces *)

Lemma header_len_app d1 rest more :
  header_need d1 <= zlen rest + 2 -> header_len d1 (rest ++ more) = header_len d1 rest.
Proof.
  intros Hneed. unfold header_len, header_need in *. pose proof (ext_size_cases d1).
  destruct (Z.eqb_spec (ext_size d1) 0); [done|]. f_equal. apply take_app_le. revert Hneed. zcase; len.
Qed.

Lemma next_frame_app a b f rest :
  bytes_ok a -> next_frame a = Some (f, rest) -> next_frame (a ++ b) = Some (f, rest ++ b).
Proof.
  intros Hok. destruct a as [|d0 [|d1 r]]; [done|done|]. cbn [next_frame app].
  apply Forall_cons in Hok as [_ [_ Hr]%Forall_cons]. pose proof (header_need_bounds d1).
  pose proof (header_len_nonneg d1 r Hr). pose proof (zlen_nonneg b).
  destruct (_ || _) eqn:E; [done|]. apply orb_false_iff in E as [E1%Z.ltb_ge E2%Z.ltb_ge].
  rewrite header_len_app by (revert E1; rewrite !zlen_cons; lia).
  change (d0 :: d1 :: r ++ b) with ((d0 :: d1 :: r) ++ b). set (a := d0 :: d1 :: r) in *. clearbody a.
  rewrite zlen_app. rewrite !(proj2 (Z.ltb_ge _ _)) by lia. cbn [orb]. intros [= <- <-].
  rewrite take_app_le, (drop_app_le _ _ (Z.to_nat (_ + _))) by len. do 3 f_equal.
  destruct (Z.leb_spec 128 d1) as [Hm|Hm]; [|done]. f_equal.
  assert (6 <= header_need d1).
  { unfold header_need. pose proof (ext_size_cases d1). zcase. }
  rewrite drop_app_le, take_app_le by len. done.
Qed.

(** Frames do not depend on how the stream was cut. *)
Lemma deframe_app n : forall a b,
  (length a <= n)%nat -> bytes_ok a -> bytes_ok b -> existsb is_close (frames_of a) = false ->
  frames_of (a ++ b) = frames_of a ++ frames_of (rest_of a ++ b)
  /\ rest_of (a ++ b) = rest_of (rest_of a ++ b).
Proof.
  induction n as [|n IH]; intros a b Hn Ha Hb Hc.
  { destruct a; [done|cbn in Hn; lia]. }
  pose proof (deframe_unfold a Ha) as Hu. destruct (next_frame a) as [[f rest]|] eqn:E.
  2: { injection Hu as -> ->. done. }
  destruct (next_frame_rest_ok _ _ _ Ha E) as [Hr Hl]. destruct (is_close f) eqn:Ecl.
  { injection Hu as Ef _. rewrite Ef in Hc. cbn in Hc. by rewrite Ecl in Hc. }
  injection Hu as Ef Er. rewrite Ef in Hc |- *. rewrite Er. cbn [existsb] in Hc. rewrite Ecl in Hc.
  pose proof (deframe_unfold (a ++ b) (Forall_app_2 _ _ _ Ha Hb)) as Hu.
  rewrite (next_frame_app _ b _ _ Ha E), Ecl in Hu. injection Hu as -> ->.
  destruct (IH rest b) as [-> ->]; [lia|done|done|done|done].
Qed.

(** ** Frames a peer builds *)

(** A frame as a peer sends it: header, key if masked, payload. *)
Definition wire_frame (op : OpCode) (key : option bytes) (payload : bytes) : bytes :=
  match key with
  | Some k => header_bytes op (zlen payload) true ++ k ++ mask_bytes k 0 payload
  | None => header_bytes op (zlen payload) false ++ payload
  end.

(** The two fixed bytes and the length extension of an encoded header. *)
Lemma header_bytes_shape op len mask :
  opcode_ok op -> 0 <= len < 2 ^ 64 ->
  exists d1 ext, header_bytes op len mask = (128 + opcode_to_u8 op) :: d1 :: ext
    /\ header_need d1 = 2 + zlen ext + (if mask then 4 else 0)
    /\ (128 <=? d1) = mask
    /\ forall more, header_len d1 (ext ++ more) = len.
Proof.
  intros [Hop _] Hlen. unfold header_bytes. rewrite lor_80 by lia.
  assert (Hm : forall x, 0 <= x < 128 -> u8 (Z.lor (mask_bit mask) x) = (if mask then 128 else 0) + x).
  { intros x Hx. destruct mask; cbn [mask_bit]; [by apply lor_80|]. rewrite Z.lor_0_l. apply u8_small. lia. }
  assert (Hmod : forall x, 0 <= x < 128 -> ((if mask then 128 else 0) + x) mod 128 = x).
  { intros x Hx. destruct mask; [symmetry; apply (Z.mod_unique _ _ 1); lia|apply Z.mod_small; lia]. }
  assert (Hb : forall x, 0 <= x < 128 -> (128 <=? (if mask then 128 else 0) + x) = mask)
    by (intros x Hx; destruct mask; zcase).
  destruct (Z.ltb_spec len 126); [|destruct (Z.ltb_spec len 65536)].
  - exists ((if mask then 128 else 0) + len), []. rewrite Hm by lia.
    unfold header_need, header_len, ext_size. rewrite Hmod, Hb by lia. split; [done|]. cbn.
    split_and!; [by zcase|done|by intros; zcase].
  - exists ((if mask then 128 else 0) + 126), [Z.shiftr len 8 mod 256; len mod 256]. rewrite Hm, !u8_land_ff by lia.
    unfold header_need, header_len, ext_size. rewrite Hmod, Hb by lia. cbn. split_and!; try done. intros more.
    change (Z.to_nat 2) with 2%nat. cbn [take]. unfold be_value; cbn [foldl].
    rewrite take_0, Z.shiftr_div_pow2 by lia. change (2 ^ 8) with 256. cbn [foldl].
    rewrite (Z.mod_small (len / 256)) by (Z.div_mod_to_equations; lia). Z.div_mod_to_equations; lia.
  - exists ((if mask then 128 else 0) + 127), (len_bytes 8 len). rewrite Hm by lia.
    unfold header_need, header_len, ext_size. rewrite Hmod, Hb by lia.
    pose proof (len_bytes_spec 8 len) as (_ & Hl & Hv); [lia|]. rewrite Hl. split_and!; try done. intros more.
    cbn [Z.eqb Pos.eqb]. rewrite take_app_length' by (unfold zlen in Hl; lia).
    rewrite Hv. apply Z.mod_small. cbn. lia.
Qed.

(** The deframer takes such a frame off the front of the stream. *)
Lemma next_frame_wire op key payload rest :
  opcode_ok op -> zlen payload < 2 ^ 64 -> bytes_ok payload ->
  match key with Some k => length k = 4%nat /\ bytes_ok k | None => True end ->
  next_frame (wire_frame op key payload ++ rest) = Some (mk_frame op payload, rest).
Proof.
  intros Hop Hlen Hok Hkey. pose proof (zlen_nonneg payload) as Hnn. pose proof (zlen_nonneg rest).
  assert (Hop16 : (128 + opcode_to_u8 op) mod 16 = opcode_to_u8 op).
  { destruct Hop. symmetry. apply (Z.mod_unique _ _ 8); lia. }
  set (mask := bool_decide (is_Some key)).
  destruct (header_bytes_shape op (zlen payload) mask) as (d1 & ext & Eh & Hneed & Hm & Hl); [done|lia|].
  assert (Ew : wire_frame op key payload ++ rest =
    (128 + opcode_to_u8 op) :: d1 :: ext ++
      match key with Some k => k ++ mask_bytes k 0 payload ++ rest | None => payload ++ rest end).
  { unfold wire_frame. destruct key; subst mask; cbn in Eh; rewrite Eh; cbn; by rewrite <- ?app_assoc. }
  rewrite Ew. cbn [next_frame]. rewrite Hl, Hneed, Hm, Hop16. destruct Hop as [_ ->].
  pose proof (zlen_nonneg ext). destruct key as [k|]; subst mask; cbn -[Z.ltb Z.add Z.to_nat].
  - destruct Hkey as [Hk Hkok]. set (body := mask_bytes k 0 payload).
    assert (Hbl : zlen body = zlen payload) by apply mask_bytes_len.
    rewrite !zlen_cons, !zlen_app. rewrite !(proj2 (Z.ltb_ge _ _)) by len. cbn [orb].
    replace (2 + zlen ext + 4 - 4) with (2 + zlen ext) by lia.
    set (h := (128 + opcode_to_u8 op) :: d1 :: ext).
    assert (Hh : zlen h = 2 + zlen ext) by (unfold h; rewrite !zlen_cons; lia).
    change (_ :: d1 :: ext ++ k ++ body ++ rest) with (h ++ k ++ body ++ rest). clearbody h.
    replace (take 4 _) with k by (rewrite drop_app_length' by len; by rewrite take_app_length').
    replace (h ++ k ++ body ++ rest) with ((h ++ k ++ body) ++ rest) by (by rewrite <- !app_assoc).
    rewrite take_app_length' by len. rewrite (drop_app_length' (h ++ k ++ body) rest) by len.
    rewrite app_assoc, (drop_app_length' (h ++ k) body) by len.
    unfold body. by rewrite mask_bytes_involutive.
  - rewrite !zlen_cons, !zlen_app. rewrite !(proj2 (Z.ltb_ge _ _)) by lia. cbn [orb].
    set (h := (128 + opcode_to_u8 op) :: d1 :: ext).
    assert (Hh : zlen h = 2 + zlen ext) by (unfold h; rewrite !zlen_cons; lia).
    change (_ :: d1 :: ext ++ payload ++ rest) with (h ++ payload ++ rest). clearbody h.
    rewrite app_assoc, take_app_length' by len. rewrite (drop_app_length' (h ++ payload) rest) by len.
    by rewrite drop_app_length' by len.
Qed.

End reference_facts.

(** ** One iteration *)
Section frames.
Context {Sock : Type} `{TcpSocketLaws Sock} {target : Target}.
Variable env : Env Sock.
Implicit Type c : Connection Sock.

Abbreviation dispatch := (dispatch_frame env (run_callback env)).

(** A view into a larger memory behaves like the bytes it shows. *)
Lemma view_bytes_take mem len :
  0 <= len <= zlen mem -> view_bytes (mk_view mem len) = view_bytes (view_of (take (Z.to_nat len) mem)).
Proof.
  intros Hl. unfold view_bytes, view_of; cbn [sv_size sv_mem]. rewrite Z.leb_refl.
  destruct (Z.leb_spec len (zlen mem)); [|lia]. f_equal. rewrite take_take. f_equal. len.
Qed.

Lemma write_frame_view mem len op :
  0 <= len <= zlen mem ->
  write_frame (Sock := Sock) (mk_view mem len) op = write_frame (view_of (take (Z.to_nat len) mem)) op.
Proof.
  intros Hl. unfold write_frame, tx_push_view. rewrite view_bytes_take by done. cbn [sv_size view_of].
  by replace (zlen (take (Z.to_nat len) mem)) with len by len.
Qed.

Lemma dispatch_view op mem len :
  0 <= len <= zlen mem -> dispatch op (mk_view mem len) = dispatch op (view_of (take (Z.to_nat len) mem)).
Proof.
  intros Hl. unfold dispatch_frame. destruct op; rewrite ?view_bytes_take, ?write_frame_view by done; done.
Qed.

(** On a complete frame an iteration dispatches it, then consumes it. *)
Lemma iter_frame c f rest :
  conn_ok c -> next_frame (rx_list c) = Some (f, rest) ->
  exists n, 2 <= n <= zlen (rx_list c) /\ rest = drop (Z.to_nat n) (rx_list c)
  /\ parse_frames_iter env (run_callback env) c =
  (let* k := dispatch (f_op f) (view_of (f_payload f)) in
   if negb k then ret false else rx_advance n ;;; ret true) c.
Proof.
  intros [Hrx _ Hok _ _ _] Hf. pose proof (contents_length _ Hrx) as Hlen. pose proof (Ring.wf_count _ Hrx) as Hcnt.
  destruct (next_frame_header _ _ _ uninit_header Hok Hf) as (hs & hd & Hp & H2 & H6 & Hpl & Hfit & -> & ->).
  exists (hs + payload_len hd). split; [lia|]. split; [done|].
  unfold parse_frames_iter, rx_peek. unfold bind at 1. rewrite peek_spec by (done || lia).
  rewrite take_ge by len. cbn [res_bind]. destruct (Z.eqb_spec (zlen (rx_list c)) 0); [lia|].
  rewrite Hp. unfold bind at 1. cbn [lift res_bind]. destruct (Z.eqb_spec hs 0); [lia|].
  rewrite u64_small by lia. destruct (Z.ltb_spec (zlen (rx_list c)) (hs + payload_len hd)); [lia|].
  set (mem := drop (Z.to_nat hs) (rx_list c)). set (pl := payload_len hd) in *.
  assert (Hmem : pl <= zlen mem) by (unfold mem; len). cbn [f_op f_payload].
  destruct (masked hd); unfold bind at 1.
  - rewrite <- (take_drop (Z.to_nat pl) mem) at 1. unfold unmask_payload.
    rewrite unmask_loop_spec by (len). cbn [lift res_bind].
    set (out := mask_bytes _ 0 _). assert (Hout : zlen out = pl) by (unfold out; rewrite mask_bytes_len; len).
    rewrite dispatch_view by (rewrite zlen_app; pose proof (zlen_nonneg (drop (Z.to_nat pl) mem)); lia).
    by rewrite take_app_length' by len.
  - cbn [ret res_bind]. by rewrite dispatch_view.
Qed.

(** Otherwise the loop is left. *)
Lemma iter_none c :
  conn_ok c -> next_frame (rx_list c) = None -> no_wrap (rx_list c) ->
  parse_frames_iter env (run_callback env) c = Ok (false, c).
Proof.
  intros [Hrx _ Hok _ _ _] Hf Hnw. pose proof (contents_length _ Hrx) as Hlen. pose proof (Ring.wf_count _ Hrx) as Hcnt.
  destruct (next_frame_None_header _ uninit_header Hok Hf Hnw) as (hs & hd & Hp & Hor).
  unfold parse_frames_iter, rx_peek. unfold bind at 1. rewrite peek_spec by (done || lia).
  rewrite take_ge by len. cbn [res_bind]. destruct (Z.eqb_spec (zlen (rx_list c)) 0); [done|].
  rewrite Hp. unfold bind at 1. cbn [lift res_bind]. destruct (Z.eqb_spec hs 0); [done|].
  destruct Hor as [|Hor]; [done|]. by destruct (Z.ltb_spec (zlen (rx_list c)) (u64 (hs + payload_len hd))); [|lia].
Qed.

(** ** Dispatch *)

(** What [on_message] receives from a list of frames. *)
Definition delivered (fs : list Frame) : list bytes :=
  match on_message (cb env) with Some _ => data_payloads fs | None => [] end.

(** What handling [f] does to a connection past the handshake. *)
Record frame_step (c : Connection Sock) (f : Frame) (c' : Connection Sock) : Prop := {
  fs_ok : conn_ok c';
  fs_evolves : evolves c c';
  fs_rx : rx_buffer_ c' = rx_buffer_ c;
  fs_messages : messages (log_ c') = messages (log_ c) ++ delivered [f];
  fs_close : is_close f = true -> ops_ c' = kClosed;
}.

Lemma delivered_nil_other f : is_data f = false -> delivered [f] = [].
Proof.
  intros Hf. unfold delivered, data_payloads. rewrite filter_cons_False by (by rewrite Hf).
  by destruct (on_message (cb env)).
Qed.

Lemma append_tx_ok c tx' l :
  conn_ok c -> ops_ c <> kHandshaking -> Ring.wf tx' -> Ring.contents tx' = tx_list c ++ l ->
  conn_ok (set_tx c tx') /\ evolves c (set_tx c tx').
Proof.
  intros Hok Hn Hwf Hc. split; [by destruct Hok|].
  split; cbn; try done; [|apply kept_app]. exists l. unfold stream; cbn. by rewrite Hc, app_assoc.
Qed.

Lemma skip_step c f : conn_ok c -> is_data f = false -> is_close f = false -> frame_step c f c.
Proof.
  intros Hok Hd Hc. split; [done|reflexivity|done| |congruence].
  by rewrite delivered_nil_other, app_nil_r.
Qed.

Lemma data_step c f :
  conn_ok c -> is_data f = true -> is_close f = false ->
  wp (match on_message (cb env) with
      | None => ret true
      | Some g =>
          let* msg := lift (view_bytes (view_of (f_payload f))) in
          fire (run_callback env) (EvMessage msg) (Some (fun c => g c msg)) ;;; ret true
      end) (fun k c' => k = true /\ frame_step c f c') c.
Proof.
  intros Hok Hd Hc. destruct (on_message (cb env)) as [g|] eqn:Eg.
  - unfold view_bytes, view_of; cbn [sv_size sv_mem]. rewrite Z.leb_refl, take_ge by len.
    wp_step. wp_step. wp_step. apply fire_ok; [apply Hok|done|]. intros c' Hs. wp_go. split; [done|].
    assert (conn_ok (add_log c (EvMessage (f_payload f)))) by auto with ewss.
    split; [by eapply api_step_ok| | | |congruence].
    + etrans; [apply add_log_evolves|by apply api_step_evolves].
    + apply (as_same _ _ Hs).
    + rewrite (api_step_messages _ _ Hs). cbn. rewrite messages_app. unfold delivered, data_payloads.
      rewrite Eg, filter_cons_True by done. done.
  - wp_go. split; [done|]. split; [done|reflexivity|done| |congruence].
    unfold delivered. by rewrite Eg, app_nil_r.
Qed.

Lemma close_step c f :
  conn_ok c -> is_data f = false ->
  wp (fire (run_callback env) (EvClose false) ((fun g c => g c false) <$> on_close (cb env)) ;;;
      transition_to_state env (run_callback env) kClosed ;;; socket_close ;;; ret false)
    (fun k c' => k = false /\ frame_step c f c') c.
Proof.
  intros Hok Hd. wp_step.
  assert (Hfin : forall c1, conn_ok c1 -> evolves c c1 -> rx_buffer_ c1 = rx_buffer_ c ->
    messages (log_ c1) = messages (log_ c) ->
    wp (transition_to_state env (run_callback env) kClosed ;;; socket_close ;;; ret false)
      (fun k c' => k = false /\ frame_step c f c') c1).
  { intros c1 Hok1 Hev1 Erx1 Em1. 
    pose proof (shut_spec env c1 (fun _ c' => frame_step c f c') Hok1) as Hs.
    assert (wp (transition_to_state env (run_callback env) kClosed ;;; socket_close)
      (fun _ c' => frame_step c f c') c1) as Hw.
    { apply Hs. intros c' Hok' Hev Ec Erx _ Em. split; [done|by etrans|congruence| |done].
      by rewrite delivered_nil_other, app_nil_r, Em, Em1. }
    unfold wp, bind in Hw |- *. destruct (transition_to_state _ _ _ c1) as [[[] c2]| |]; cbn in Hw |- *; done. }
  apply fire_ok; [apply Hok|intros _; by apply Hfin|]. intros c1 Hs. apply Hfin.
  - eauto with ewss.
  - etrans; [apply add_log_evolves|by apply api_step_evolves].
  - apply (as_same _ _ Hs).
  - rewrite (api_step_messages _ _ Hs). cbn. by rewrite messages_app, app_nil_r.
Qed.

Lemma dispatch_spec c f :
  conn_ok c -> ops_ c <> kHandshaking ->
  wp (dispatch (f_op f) (view_of (f_payload f)))
    (fun k c' => k = negb (is_close f) /\ frame_step c f c') c.
Proof.
  intros Hok Hn. assert (Hskip := skip_step c f Hok).
  assert (Hdata := data_step c f Hok). assert (Hclose := close_step c f Hok).
  assert (Ed : is_data f = match f_op f with kText | kBinary => true | _ => false end)
    by (unfold is_data; by destruct (f_op f)).
  assert (Ec : is_close f = match f_op f with kClose => true | _ => false end)
    by (unfold is_close; by destruct (f_op f)).
  unfold dispatch_frame. destruct (f_op f); rewrite Ec; auto; try (wp_go; auto).
  apply write_frame_spec; [apply Hok|]. intros tx' Hwf' Hc'. wp_go. split; [done|].
  destruct (append_tx_ok c tx' _ Hok Hn Hwf' Hc'). destruct (Hskip Ed Ec) as [_ _ _ Hm _].
  split; [done|done|done|done|congruence].
Qed.

(** ** The loop *)

(** What handling the frames of the receive buffer does. *)
Record parse_step (c c' : Connection Sock) : Prop := {
  ps_ok : conn_ok c';
  ps_evolves : evolves c c';
  ps_rx : rx_list c' = rest_of (rx_list c);
  ps_messages : messages (log_ c') = messages (log_ c) ++ delivered (frames_of (rx_list c));
  ps_close : existsb is_close (frames_of (rx_list c)) = true -> ops_ c' = kClosed;
}.

Lemma delivered_cons f fs : delivered (f :: fs) = delivered [f] ++ delivered fs.
Proof.
  unfold delivered. destruct (on_message (cb env)); [|done]. unfold data_payloads.
  rewrite <- fmap_app, <- filter_app. done.
Qed.

Lemma advance_rx_ok c n :
  conn_ok c -> 0 <= n ->
  let c' := set_rx c (Ring.advance (rx_buffer_ c) n) in
  conn_ok c' /\ evolves c c' /\ rx_list c' = drop (Z.to_nat n) (rx_list c).
Proof.
  intros Hok Hn. destruct (advance_spec _ n (ok_rx _ Hok) Hn) as [Hwf Hc]. cbn zeta. split_and!.
  - destruct Hok. split; cbn; try done. rewrite Hc. by apply Forall_drop.
  - split; try done; apply kept_app.
  - done.
Qed.

Lemma parse_frames_loop_spec fuel : forall c,
  conn_ok c -> ops_ c <> kHandshaking -> no_wrap (rest_of (rx_list c)) ->
  zlen (rx_list c) < 2 * Z.of_nat fuel ->
  wp (parse_frames_loop env (run_callback env) fuel) (fun _ c' => parse_step c c') c.
Proof.
  induction fuel as [|fuel IH]; intros c Hok Hn Hnw Hfuel.
  { pose proof (zlen_nonneg (rx_list c)). lia. }
  cbn [parse_frames_loop]. apply wp_bind. unfold wp at 1.
  pose proof (deframe_unfold _ (ok_rx_bytes _ Hok)) as Hun.
  destruct (next_frame (rx_list c)) as [[f rest]|] eqn:Ef.
  2: { injection Hun as Efs Er. rewrite Er in Hnw. rewrite iter_none by done. apply wp_ret.
       split; rewrite ?Efs; [done|reflexivity|by rewrite Er| |done].
       unfold delivered. by destruct (on_message (cb env)); rewrite app_nil_r. }
  destruct (iter_frame c f rest Hok Ef) as (n & Hsz & Hrest & ->).
  change (wp (let* k := dispatch (f_op f) (view_of (f_payload f)) in
              if negb k then ret false else rx_advance n ;;; ret true)
    (fun a c' => wp (if a then parse_frames_loop env (run_callback env) fuel else ret tt)
                   (fun _ c' => parse_step c c') c') c).
  apply wp_bind. eapply wp_mono; [by apply dispatch_spec|]. intros k c1 [-> Hf].
  destruct (is_close f) eqn:Ecl; cbn [negb]; injection Hun as Efs Er.
  { wp_go. destruct Hf as [Hok1 Hev1 Erx1 Em1 Ec1]. split; rewrite ?Efs, ?Er; auto. by rewrite Erx1. }
  unfold rx_advance. wp_go. destruct Hf as [Hok1 Hev1 Erx1 Em1 Ec1].
  destruct (advance_rx_ok c1 n Hok1) as (Hok2 & Hev2 & Erx2); [lia|]. revert Hok2 Hev2 Erx2. cbn zeta.
  set (c2 := set_rx c1 _). intros Hok2 Hev2 Erx2. rewrite Erx1, <- Hrest in Erx2.
  assert (ops_ c2 <> kHandshaking).
  { pose proof (ev_rank _ _ (transitivity Hev1 Hev2)) as R. intros E. apply Hn.
    rewrite E in R. destruct (ops_ c); cbn in R; lia || done. }
  eapply wp_mono; [apply IH; [done|done|by rewrite Erx2, <- Er|rewrite Erx2, Hrest; len]|].
  intros [] c3 [Hok3 Hev3 Erx3 Em3 Ec3]. rewrite Erx2 in *. split.
  - done.
  - etrans; [done|]. by etrans.
  - congruence.
  - rewrite Em3. change (log_ c2) with (log_ c1). by rewrite Em1, Efs, (delivered_cons f (frames_of rest)), app_assoc.
  - rewrite Efs. cbn [existsb]. rewrite Ecl. exact Ec3.
Qed.

Lemma parse_frames_spec c :
  conn_ok c -> ops_ c <> kHandshaking -> no_wrap (rest_of (rx_list c)) ->
  wp (parse_frames env (run_callback env)) (fun _ c' => parse_step c c') c.
Proof.
  intros Hok Hn Hnw. apply parse_frames_loop_spec; [done|done|done|].
  pose proof (contents_length _ (ok_rx _ Hok)). pose proof (Ring.wf_count _ (ok_rx _ Hok)).
  unfold frame_fuel. lia.
Qed.

End frames.

(** ** Properties *)
Section frame_properties.
Context {Sock : Type} `{TcpSocketLaws Sock} {target : Target}.
Variable env : Env Sock.
Implicit Type c : Connection Sock.

(** C3: [parse_frames] terminates and is exactly the reference deframer:
    for every content of the receive buffer (whose unfinished frame, if
    any, does not announce 2^64 bytes or more) and whatever the callbacks
    do, [on_message] receives the payloads of the text and binary frames in
    order, unmasked, up to the first Close frame; the buffer keeps exactly
    the unparsed rest; a Close frame leaves the connection closed; the
    invariant is kept. *)
Theorem parse_frames_delivers c :
  conn_ok c -> ops_ c <> kHandshaking -> no_wrap (rest_of (rx_list c)) ->
  exists c', parse_frames env (run_callback env) c = Ok (tt, c')
    /\ conn_ok c' /\ evolves c c'
    /\ rx_list c' = rest_of (rx_list c)
    /\ messages (log_ c') = messages (log_ c) ++ delivered env (frames_of (rx_list c))
    /\ (existsb is_close (frames_of (rx_list c)) = true ->
        ops_ c' = kClosed /\ sock_is_open (socket_ c') = false).
Proof.
  intros Hok Hn Hnw.
  destruct (proj1 (wp_run _ _ _) (parse_frames_spec env c Hok Hn Hnw)) as ([] & c' & E & [Hok' Hev Hrx Hm Hc]).
  exists c'. split_and!; try done. intros Hcl. split; [by apply Hc|]. apply (ok_closed _ Hok'). by apply Hc.
Qed.

(** C20: delivery does not depend on how TCP cuts the stream: handling a
    first part [a], then [b] once it has been appended to what was left,
    delivers the messages of [a ++ b] and leaves the rest of [a ++ b]. *)
Theorem parse_frames_segmentation c c1 c2 c3 b :
  conn_ok c -> ops_ c <> kHandshaking -> bytes_ok b ->
  no_wrap (rest_of (rx_list c)) -> no_wrap (rest_of (rx_list c ++ b)) ->
  existsb is_close (frames_of (rx_list c)) = false ->
  parse_frames env (run_callback env) c = Ok (tt, c1) ->
  conn_ok c2 -> ops_ c2 <> kHandshaking -> rx_list c2 = rx_list c1 ++ b -> log_ c2 = log_ c1 ->
  parse_frames env (run_callback env) c2 = Ok (tt, c3) ->
  messages (log_ c3) = messages (log_ c) ++ delivered env (frames_of (rx_list c ++ b))
  /\ rx_list c3 = rest_of (rx_list c ++ b).
Proof.
  intros Hok Hn Hb Hnw Hnw2 Hc E1 Hok2 Hn2 Erx Elog E3.
  pose proof (parse_frames_spec env c Hok Hn Hnw) as H1. unfold wp in H1. rewrite E1 in H1.
  destruct H1 as [_ _ Hrx1 Hm1 _].
  destruct (deframe_app (length (rx_list c)) (rx_list c) b) as [Ef Er]; [done|apply Hok|done|done|].
  rewrite Hrx1 in Erx. rewrite Er, <- Erx in Hnw2.
  pose proof (parse_frames_spec env c2 Hok2 Hn2 Hnw2) as H2. unfold wp in H2. rewrite E3 in H2.
  destruct H2 as [_ _ Hrx2 Hm2 _]. rewrite Hm2, Hrx2, Elog, Hm1, Erx, Ef, Er. split; [|done].
  unfold delivered. destruct (on_message (cb env)); [|by rewrite !app_nil_r].
  unfold data_payloads. by rewrite filter_app, fmap_app, app_assoc.
Qed.

(** The unmasked Pong frame that announces 2^64 - 10 payload bytes. *)
Definition looping_frame : bytes := [0x8A; 127; 255; 255; 255; 255; 255; 255; 255; 0xF6].

(** The masked text frame that announces 2^64 - 14 payload bytes. *)
Definition overrunning_frame (key : bytes) : bytes :=
  [0x81; 0xFF; 255; 255; 255; 255; 255; 255; 255; 0xF2] ++ key.

(** [advance(0)] changes nothing. *)
Lemma advance_0 c : conn_ok c -> set_rx c (Ring.advance (rx_buffer_ c) 0) = c.
Proof.
  intros [Hrx _ _ _ _ _]. unfold Ring.advance. pose proof Hrx as [HS HB HR HW HC].
  destruct (Z.ltb_spec (Ring.count_ (rx_buffer_ c)) 0); [lia|].
  rewrite Z.add_0_r, Z.sub_0_r, !u64_small by lia. unfold Ring.kCapacity. rewrite Z.mod_small by lia.
  destruct c as [? ? [] ]. done.
Qed.

Lemma parse_header_at_rx c bs :
  conn_ok c -> rx_list c = bs ->
  rx_peek 4096 c = Ok (bs, c).
Proof.
  intros [Hrx _ _ _ _ _] <-. unfold rx_peek. rewrite peek_spec by (done || lia).
  pose proof (contents_length _ Hrx). pose proof (Ring.wf_count _ Hrx). by rewrite take_ge by len.
Qed.

(** C40: the sum [header_size + payload_len] of [parse_frames] wraps at
    2^64.  A ten-byte Pong frame makes the loop spin for ever (no fuel is
    enough), and a fourteen-byte masked frame makes [unmask_payload] write
    outside its buffer. *)
Theorem frame_length_wraps c key :
  conn_ok c -> length key = 4%nat -> bytes_ok key ->
  (rx_list c = looping_frame ->
    forall fuel, parse_frames_loop env (run_callback env) fuel c = OutOfFuel)
  /\ (rx_list c = overrunning_frame key -> parse_frames env (run_callback env) c = Undefined).
Proof.
  intros Hok Hk Hkok. split.
  - intros Erx. assert (Hit : parse_frames_iter env (run_callback env) c = Ok (true, c)).
    { unfold parse_frames_iter. unfold bind at 1. rewrite (parse_header_at_rx _ _ Hok Erx). cbn [res_bind].
      destruct (parse_frame_header_spec 0x8A 127 (drop 2 looping_frame) uninit_header) as (hd & E & Hhd); [by_decide|].
      change (0x8A :: 127 :: drop 2 looping_frame) with looping_frame in E. rewrite E, Hhd by (vm_compute; discriminate).
      unfold bind at 1, lift. cbn [res_bind].
      change (header_of _ _ _) with (mk_header true kPong false (2 ^ 64 - 10)). transitivity (Ok (true, set_rx c (Ring.advance (rx_buffer_ c) 0))); [reflexivity|].
      by rewrite advance_0. }
    induction fuel as [|fuel IH]; [done|]. cbn [parse_frames_loop]. unfold bind. rewrite Hit. exact IH.
  - intros Erx. destruct key as [|k0 [|k1 [|k2 [|k3 [|]]]]]; try done.
    unfold parse_frames, frame_fuel. cbn [parse_frames_loop]. unfold bind at 1, parse_frames_iter. unfold bind at 1.
    rewrite (parse_header_at_rx _ _ Hok Erx). cbn [res_bind].
    destruct (parse_frame_header_spec 0x81 0xFF (drop 2 (overrunning_frame [k0; k1; k2; k3])) uninit_header)
      as (hd & E & Hhd).
    { apply (Forall_app_2 _ (take 10 (overrunning_frame [])) [k0; k1; k2; k3]); [by_decide|done]. }
    change (0x81 :: 0xFF :: drop 2 (overrunning_frame [k0; k1; k2; k3])) with (overrunning_frame [k0; k1; k2; k3]) in E.
    rewrite E, Hhd by (vm_compute; discriminate). reflexivity.
Qed.

End frame_properties.

#[local] Existing Instances Demo.socket_tcp Demo.socket_laws.

(** Frames a client sends, and the start of another one. *)
Definition demo_key : bytes := [0x12; 0x34; 0x56; 0x78].
Definition demo_stream : bytes :=
  wire_frame kText (Some demo_key) (str "Hello") ++ wire_frame kPing (Some demo_key) [1; 2]
  ++ wire_frame kBinary (Some demo_key) (str "World") ++ [0x81; 0xFE; 0].
Definition demo_env : Env Demo.Socket := Demo.env_with Demo.echo_callbacks 0 [] 0.

Lemma parse_frames_delivers_witness :
  exists c', parse_frames (target := true) demo_env (run_callback demo_env) (Demo.conn_with kOpen demo_stream) = Ok (tt, c')
    /\ messages (log_ c') = [str "Hello"; str "World"] /\ rx_list c' = [0x81; 0xFE; 0].
Proof.
  destruct (parse_frames_delivers (target := true) demo_env (Demo.conn_with kOpen demo_stream))
    as (c' & E & _ & _ & Hr & Hm & _).
  - apply Demo.conn_with_ok; [vm_compute; lia|by_decide].
  - discriminate.
  - by_decide.
  - exists c'. split; [exact E|]. split; [etrans; [exact Hm|]|etrans; [exact Hr|]]; vm_compute; reflexivity.
Defined.

(** The same stream in two parts: all of it but the last five bytes of the
    second message, then these. *)
Definition demo_part1 : bytes := take 24 demo_stream.
Definition demo_part2 : bytes := drop 24 demo_stream.
Definition demo_after {A} (r : Res (A * Connection Demo.Socket)) : Connection Demo.Socket :=
  match r with Ok (_, c) => c | _ => Demo.conn_with kClosed [] end.
Definition demo_c1 : Connection Demo.Socket :=
  demo_after (parse_frames (target := true) demo_env (run_callback demo_env) (Demo.conn_with kOpen demo_part1)).
Definition demo_c2 : Connection Demo.Socket :=
  match Ring.push (rx_buffer_ demo_c1) demo_part2 with Ok (_, rx) => set_rx demo_c1 rx | _ => demo_c1 end.

Lemma parse_frames_segmentation_witness :
  messages (log_ (demo_after (parse_frames (target := true) demo_env (run_callback demo_env) demo_c2)))
  = [str "Hello"; str "World"].
Proof.
  destruct (parse_frames_segmentation (target := true) demo_env (Demo.conn_with kOpen demo_part1) demo_c1 demo_c2
    (demo_after (parse_frames (target := true) demo_env (run_callback demo_env) demo_c2)) demo_part2) as [Hm _].
  1: apply Demo.conn_with_ok; [vm_compute; lia|by_decide].
  1: discriminate.
  1-3: by_decide.
  1: reflexivity.
  1: vm_compute; reflexivity.
  1: { split; [split; by_decide|split; by_decide|by_decide| |reflexivity| |reflexivity]; vm_compute; discriminate. }
  1: vm_compute; discriminate.
  1-3: vm_compute; reflexivity.
  etrans; [exact Hm|]. vm_compute. reflexivity.
Defined.

Lemma frame_length_wraps_witness :
  parse_frames_loop (target := true) demo_env (run_callback demo_env) 5000 (Demo.conn_with kOpen looping_frame) = OutOfFuel
  /\ parse_frames (target := false) demo_env (run_callback demo_env)
       (Demo.conn_with kOpen (overrunning_frame demo_key)) = Undefined.
Proof.
  split.
  - refine (proj1 (frame_length_wraps (target := true) demo_env (Demo.conn_with kOpen looping_frame) demo_key _ _ _) _ _).
    + apply Demo.conn_with_ok; [vm_compute; lia|by_decide].
    + reflexivity.
    + by_decide.
    + vm_compute. reflexivity.
  - refine (proj2 (frame_length_wraps (target := false) demo_env (Demo.conn_with kOpen (overrunning_frame demo_key)) demo_key _ _ _) _).
    + apply Demo.conn_with_ok; [vm_compute; lia|by_decide].
    + reflexivity.
    + by_decide.
    + vm_compute. reflexivity.
Defined.
