(* ===== verification/Handshake.v ===== *)
(** * Handshake: the opening handshake of a connection

    What [parse_handshake] accepts, what it answers, and what it leaves
    alone when it does not accept.  [handshake_verdict] is the decision on
    the peeked bytes; the theorems relate it to the form of the request and
    the answer to SHA-1 and Base64 as their standards define them. *)
From S2P Require Import Prelude Vocabulary RingBuffer Frame Base64 Sha1 Text Connection ConnectionApi ConnectionInv.
Open Scope ewss_scope.
Import Conn Handlers Ws.

(** ** The accept key *)

(** The value RFC 6455 prescribes for [Sec-WebSocket-Accept]. *)
Definition accept_value (key : bytes) : bytes := Base64.encode (Fips.sha1 (key ++ kMagic)).

Lemma generate_accept_key_spec key :
  bytes_ok key -> zlen key < 2 ^ 60 -> generate_accept_key key = Ok (accept_value key).
Proof.
  intros Hok Hlen. unfold generate_accept_key. rewrite compute_fips; [done| |].
  - apply Forall_app. split; [done|by_decide].
  - rewrite zlen_app. change (zlen kMagic) with 36. lia.
Qed.

Lemma accept_value_len key : zlen (accept_value key) = 28.
Proof. unfold accept_value. by rewrite encode_length, fips_digest_len. Qed.

Lemma c_str_id l : Forall (fun c => 43 <= c <= 122) l -> c_str l = l.
Proof. induction 1 as [|x l Hx Hl IH]; [done|]. cbn [c_str]. rewrite IH. zcase. Qed.

(** The response to a key; it always has 129 bytes. *)
Definition response_to (key : bytes) : bytes := handshake_response (accept_value key).

Lemma response_len key : zlen (response_to key) = 129.
Proof.
  unfold response_to, handshake_response. rewrite c_str_id by apply encode_printable.
  rewrite !zlen_app, accept_value_len. reflexivity.
Qed.

(** ** The decision *)

(** Size of the accepted request and its key. *)
Definition handshake_verdict (data : bytes) : option (Z * bytes) :=
  match Text.find (crlf ++ crlf) data 0 with
  | None => None
  | Some end_pos =>
      if negb (bool_decide (take 4 data = str "GET ")) then None else
      match (match Text.find kKeyHeader data 0 with
             | None => Text.find kKeyHeaderLower data 0 | Some p => Some p end) with
      | None => None
      | Some key_pos =>
          match Text.find crlf data (key_pos + 19) with
          | None => None
          | Some value_end =>
              let key := Text.rtrim (Text.substr data (key_pos + 19) (value_end - (key_pos + 19))) in
              if bool_decide (key = []) then None else Some (end_pos + 4, key)
          end
      end
  end.

Lemma find_bound pat data pos p :
  0 <= pos -> Text.find pat data pos = Some p -> pos <= p /\ p + zlen pat <= zlen data.
Proof.
  intros Hpos. unfold Text.find. destruct (Z.ltb_spec (zlen data) pos); [done|]. intros Hf.
  apply find_from_Some in Hf as (Hle & pre & post & E & Hl & _). split; [done|].
  assert (zlen (drop (Z.to_nat pos) data) = zlen (pre ++ pat ++ post)) as El by (by rewrite E).
  rewrite !zlen_app in El. pose proof (zlen_nonneg post). len.
Qed.

Lemma verdict_bounds data n key :
  handshake_verdict data = Some (n, key) -> bytes_ok data -> 4 <= n <= zlen data /\ bytes_ok key /\ zlen key <= zlen data.
Proof.
  unfold handshake_verdict. intros Hv Hok.
  destruct (Text.find (crlf ++ crlf) data 0) as [e|] eqn:Ee; [|done].
  apply find_bound in Ee; [|lia]. change (zlen (crlf ++ crlf)) with 4 in Ee.
  destruct (negb _); [done|].
  destruct (match Text.find kKeyHeader data 0 with None => _ | Some p => _ end); [|done].
  destruct (Text.find crlf data _); [|done]. revert Hv. case_bool_decide; [done|]. intros [= <- <-].
  split; [lia|]. unfold Text.rtrim. set (s := Text.substr _ _ _).
  destruct (trim_blank_app (length s) s) as (t & E & _).
  assert (Hs : bytes_ok s) by (unfold s, Text.substr; by apply Forall_take, Forall_drop).
  assert (Hl : zlen s <= zlen data) by (unfold s, Text.substr; len).
  rewrite E in Hs, Hl. apply Forall_app in Hs as [? _]. split; [done|]. rewrite zlen_app in Hl.
  pose proof (zlen_nonneg t). lia.
Qed.

(** ** The handler *)
Section handshake.
Context {Sock : Type} `{TcpSocketLaws Sock} {target : Target}.
Implicit Type c : Connection Sock.

(** The connection after an accepted request. *)
Definition handshaken c (n : Z) (tx : Ring.RingBuffer Z 8192) : Connection Sock :=
  set_error (set_handshake_done (set_tx (set_rx c (Ring.advance (rx_buffer_ c) n)) tx)) kOk.

Definition peeked c : bytes := take 1024 (rx_list c).

(** What the handler returns on a verdict. *)
Definition handshake_outcome c (v : option (Z * bytes)) (r : Res (expected * Connection Sock)) : Prop :=
  match v with
  | None => exists c', r = Ok (error kHandshakeFailed, c') /\ (c' = c \/ c' = set_error c kHandshakeFailed)
  | Some (n, key) => exists tx', r = Ok (success, handshaken c n tx')
      /\ Ring.wf tx' /\ Ring.contents tx' = response_to key
  end.

Lemma rejected c : handshake_outcome c None (handshake_failed c).
Proof. exists (set_error c kHandshakeFailed). split; [done|by right]. Qed.
Lemma incomplete c : handshake_outcome c None (ret (error kHandshakeFailed) c).
Proof. exists c. split; [done|by left]. Qed.

Lemma parse_handshake_spec c :
  conn_ok c -> tx_list c = [] -> handshake_outcome c (handshake_verdict (peeked c)) (parse_handshake c).
Proof.
  intros Hok Etx. unfold parse_handshake, rx_peek. unfold bind at 1.
  rewrite peek_spec by (apply Hok || lia). cbn [res_bind]. change (Z.to_nat 1024) with 1024%nat.
  fold (peeked c). set (data := peeked c).
  assert (Hd : bytes_ok data) by (apply Forall_take, Hok).
  assert (Hdl : zlen data <= 1024) by (unfold data, peeked; len). clearbody data.
  pose proof (verdict_bounds data) as Hvb. unfold handshake_verdict in Hvb |- *.
  destruct (Z.eqb_spec (zlen data) 0) as [E0|N0].
  { destruct data; [|pose proof (zlen_nonneg data); rewrite zlen_cons in E0; lia].
    apply incomplete. }
  destruct (Text.find (crlf ++ crlf) data 0) as [e|] eqn:Ee; [|apply incomplete].
  apply find_bound in Ee; [|lia]. change (zlen (crlf ++ crlf)) with 4 in Ee.
  change (Text.substr data 0 4) with (take 4 (drop 0 data)). rewrite drop_0.
  destruct (negb (bool_decide (take 4 data = _))); [apply rejected|].
  destruct (match Text.find kKeyHeader data 0 with None => _ | Some p => _ end) as [kp|] eqn:Ek; [|apply rejected].
  assert (Hkp : 0 <= kp /\ kp + 19 <= zlen data).
  { destruct (Text.find kKeyHeader data 0) as [p|] eqn:E1; [injection Ek as <-; by apply find_bound in E1|].
    by apply find_bound in Ek. }
  change (zlen kKeyHeader) with 19. rewrite (u64_small (kp + 19)) by lia.
  destruct (Text.find crlf data (kp + 19)) as [ve|] eqn:Ev; [|apply rejected].
  apply find_bound in Ev; [|lia]. rewrite (u64_small (ve - _)) by (pose proof (zlen_nonneg crlf); lia).
  set (key := Text.rtrim _) in *. case_bool_decide as Ekey; [apply rejected|].
  destruct (Hvb _ _ eq_refl Hd) as (Hn & Hkok & Hkl). rewrite (u64_small (e + 4)) by lia. clear Hvb.
  unfold bind at 1, rx_advance, modify. cbn [res_bind]. unfold bind at 1.
  rewrite generate_accept_key_spec by (done || lia). cbn [lift res_bind]. fold (response_to key).
  rewrite response_len. change (_ || _) with false. cbn iota. unfold bind at 1, tx_push. cbn [set_rx tx_buffer_].
  destruct (push_fits (tx_buffer_ c) (response_to key)) as (tx' & -> & Hwf' & Hc'); [apply Hok| |].
  { rewrite <- contents_length, Etx, response_len by apply Hok. done. }
  rewrite Etx in Hc'. exists tx'. done.
Qed.

(** ** The state handler *)

Lemma handshaken_open_ok c n tx' key :
  conn_ok c -> 0 <= n -> Ring.wf tx' -> Ring.contents tx' = response_to key ->
  ops_ c = kHandshaking ->
  conn_ok (set_ops (handshaken c n tx') kOpen) /\ evolves c (set_ops (handshaken c n tx') kOpen).
Proof.
  intros Hok Hn Hwf Hc Eop. destruct (advance_spec _ n (ok_rx _ Hok) Hn) as [Hwf' Hc'].
  destruct (ok_handshaking _ Hok Eop) as [_ Etx]. split.
  - destruct Hok. split; cbn; try done; [rewrite Hc'; by apply Forall_drop|]. intros _. apply ok_open. by rewrite Eop.
  - split; cbn; try done; [rewrite Eop; cbn; lia| |apply kept_app].
    exists (response_to key). unfold stream. cbn. by rewrite Hc, Etx, app_nil_r.
Qed.

Lemma handshake_on_data_spec (env : Env Sock) c :
  conn_ok c -> ops_ c = kHandshaking ->
  wp (handshake_on_data env (run_callback env)) (fun _ c' => conn_ok c' /\ evolves c c'
    /\ messages (log_ c') = messages (log_ c)) c.
Proof.
  intros Hok Eop. destruct (ok_handshaking _ Hok Eop) as [_ Etx].
  pose proof (parse_handshake_spec c Hok Etx) as Hs. unfold handshake_on_data. apply wp_bind.
  unfold wp at 1. destruct (handshake_verdict (peeked c)) as [[n key]|] eqn:Ev; cbn [handshake_outcome] in Hs.
  - destruct Hs as (tx' & -> & Hwf' & Hc'). change (ExpectedVoid.has_value success) with true. cbn iota.
    apply verdict_bounds in Ev as (Hn & _); [|apply Forall_take, Hok].
    destruct (handshaken_open_ok c n tx' key) as [Hok' Hev']; [done|lia|done|done|done|].
    wp_step. apply transition_open_spec; [done|intros _; wp_go; by split_and!|].
    intros c' Hs'. wp_go. split_and!.
    + eauto with ewss.
    + etrans; [exact Hev'|]. etrans; [apply add_log_evolves|by apply api_step_evolves].
    + rewrite (api_step_messages _ _ Hs'). cbn. by rewrite messages_app, app_nil_r.
  - destruct Hs as (c' & -> & [-> | ->]); cbn; (split_and!; [by destruct Hok| |done]);
      split; try done; apply kept_app.
Qed.

End handshake.

(** ** Properties *)
Section handshake_properties.
Context {Sock : Type} `{TcpSocketLaws Sock}.
Implicit Type c : Connection Sock.

(** Where the key header starts: its first spelling if it occurs at all,
    otherwise the lower-case one. *)
Definition key_header_at (data before : bytes) : Prop :=
  first_occurrence kKeyHeader before data
  \/ ((forall pre post, data <> pre ++ kKeyHeader ++ post) /\ first_occurrence kKeyHeaderLower before data).

(** A request as the parser accepts it: it starts with GET, [head] goes up
    to the first empty line, and the first key header is followed by [key],
    blanks and the end of the line. *)
Record upgrade_request (data head key : bytes) : Prop := {
  ur_get : take 4 data = str "GET ";
  ur_head : first_occurrence (crlf ++ crlf) head data;
  ur_key : exists before blanks x,
    key_header_at data before
    /\ first_occurrence crlf (key ++ blanks) (drop (length before + 19) data)
    /\ Forall (fun b => b = 32 \/ b = 9) blanks
    /\ last key = Some x /\ x <> 32 /\ x <> 9;
}.

Lemma upgrade_request_verdict data head key :
  upgrade_request data head key -> handshake_verdict data = Some (zlen head + 4, key).
Proof.
  intros [Hget Hhead (before & blanks & x & Hat & Hval & Hb & Hl & H32 & H9)]. unfold handshake_verdict.
  rewrite (find_first_occurrence _ _ _ Hhead), bool_decide_eq_true_2 by done. cbn [negb].
  assert (Hpos : zlen before + 19 <= zlen data
    /\ match Text.find kKeyHeader data 0 with
       | None => Text.find kKeyHeaderLower data 0 | Some p => Some p end = Some (zlen before)).
  { destruct Hat as [Hf|[Hn Hf]]; (split; [destruct Hf as [[post ->] _]; rewrite !zlen_app;
      pose proof (zlen_nonneg post); cbn [zlen] in *;
      change (zlen kKeyHeader) with 19; change (zlen kKeyHeaderLower) with 19; lia|]).
    - by rewrite (find_first_occurrence _ _ _ Hf).
    - by rewrite (find_absent _ _ Hn), (find_first_occurrence _ _ _ Hf). }
  destruct Hpos as [Hle ->]. pose proof (zlen_nonneg before).
  rewrite find_drop by lia. replace (Z.to_nat (zlen before + 19)) with (length before + 19)%nat by len.
  rewrite (find_first_occurrence _ _ _ Hval). cbn [fmap option_fmap option_map].
  replace (zlen (key ++ blanks) + (zlen before + 19) - (zlen before + 19)) with (zlen (key ++ blanks)) by lia.
  unfold Text.substr. replace (Z.to_nat (zlen before + 19)) with (length before + 19)%nat by len.
  destruct Hval as [[post ->] _].
  rewrite take_app_length' by (unfold zlen; lia). rewrite (rtrim_app _ _ x) by done.
  rewrite bool_decide_eq_false_2; [done|]. intros ->. done.
Qed.

Lemma find_found pat data p : Text.find pat data 0 = Some p ->
  0 <= p /\ p + zlen pat <= zlen data /\ zlen (take (Z.to_nat p) data) = p
  /\ first_occurrence pat (take (Z.to_nat p) data) data.
Proof.
  intros Hf. apply find_bound in Hf as Hb; [|done]. pose proof (zlen_nonneg pat). apply find_Some_first in Hf.
  split_and!; [lia|lia|len|done].
Qed.

(** Nothing else is accepted. *)
Lemma verdict_upgrade_request data n key :
  handshake_verdict data = Some (n, key) -> exists head, upgrade_request data head key /\ n = zlen head + 4.
Proof.
  unfold handshake_verdict. destruct (Text.find (crlf ++ crlf) data 0) as [e|] eqn:Ee; [|done].
  apply find_found in Ee as (_ & _ & Le & He). case_bool_decide as Hget; cbn [negb]; [|done].
  destruct (match Text.find kKeyHeader data 0 with None => _ | Some p => _ end) as [kp|] eqn:Ek; [|done].
  assert (Hk : exists before, zlen before = kp /\ kp + 19 <= zlen data /\ key_header_at data before).
  { destruct (Text.find kKeyHeader data 0) as [p|] eqn:E1.
    - injection Ek as <-. apply find_found in E1 as (_ & Hb & Lp & Hp). eexists. split_and!; [exact Lp|exact Hb|by left].
    - apply find_found in Ek as (_ & Hb & Lp & Hp). eexists. split_and!; [exact Lp|exact Hb|]. right. split; [|done].
      unfold Text.find in E1. destruct (Z.ltb_spec (zlen data) 0); [pose proof (zlen_nonneg data); lia|].
      rewrite drop_0 in E1. by eapply find_from_None. }
  destruct Hk as (before & <- & Hle & Hat). pose proof (zlen_nonneg before).
  destruct (Text.find crlf data (zlen before + 19)) as [ve|] eqn:Ev; [|done].
  rewrite find_drop in Ev by lia. apply fmap_Some in Ev as (p & Ep & ->). apply find_found in Ep as (Hp0 & _ & _ & Hp).
  replace (p + (zlen before + 19) - (zlen before + 19)) with p by lia. cbv zeta. case_bool_decide as Hkey; [done|]. intros [= <- <-].
  exists (take (Z.to_nat e) data). rewrite Le. split; [|done]. split; [done|done|].
  replace (Z.to_nat (zlen before + 19)) with (length before + 19)%nat in Hp by len.
  unfold Text.substr, Text.rtrim in *. replace (Z.to_nat (zlen before + 19)) with (length before + 19)%nat in * by len.
  set (s := take (Z.to_nat p) (drop (length before + 19) data)) in *.
  destruct (trim_blank_app (length s) s) as (blanks & Es & Hb). destruct (trim_blank_last (length s) s) as (x & Hx); [done|done|].
  exists before, blanks, x. rewrite <- Es. split; [done|]. split; [done|]. split; [done|]. done.
Qed.

(** C10: a well-formed upgrade request within the first 1024 bytes is
    accepted: exactly the request is consumed, the handshake flag is set,
    and the queued answer is the 129-byte 101 response whose accept value
    is Base64 (SHA-1 (key ++ GUID)) as RFC 6455 defines it. *)
Theorem handshake_accepts c head key :
  conn_ok c -> ops_ c = kHandshaking -> upgrade_request (peeked c) head key ->
  exists c', parse_handshake c = Ok (success, c')
    /\ rx_list c' = drop (length head + 4) (rx_list c)
    /\ tx_list c' =
         str "HTTP/1.1 101 Switching Protocols" ++ crlf ++ str "Upgrade: websocket" ++ crlf
         ++ str "Connection: Upgrade" ++ crlf
         ++ str "Sec-WebSocket-Accept: " ++ Base64.encode (Fips.sha1 (key ++ kMagic)) ++ crlf ++ crlf
    /\ zlen (tx_list c') = 129
    /\ handshake_completed_ c' = true /\ last_error_code_ c' = kOk.
Proof.
  intros Hok Eop Hreq. destruct (ok_handshaking _ Hok Eop) as [_ Etx].
  pose proof (parse_handshake_spec c Hok Etx) as Hs. rewrite (upgrade_request_verdict _ _ _ Hreq) in Hs.
  destruct Hs as (tx' & -> & Hwf & Hc). eexists. split; [done|]. pose proof (zlen_nonneg head).
  destruct (advance_spec (rx_buffer_ c) (zlen head + 4) (ok_rx _ Hok)) as [_ Hd]; [lia|].
  cbn. rewrite Hd, Hc, response_len. split; [f_equal; len|]. split_and!; try done.
  unfold response_to, handshake_response. by rewrite c_str_id by apply encode_printable.
Qed.

(** C18: [parse_handshake] always returns, and a connection in the
    handshake either gets its answer or fails with [kHandshakeFailed] and
    nothing consumed, queued or flagged (the queue-full error cannot
    happen); an accepted request starts with GET and has an empty line. *)
Theorem handshake_total c :
  conn_ok c -> ops_ c = kHandshaking ->
  exists r c', parse_handshake c = Ok (r, c')
    /\ ((r = error kHandshakeFailed /\ (c' = c \/ c' = set_error c kHandshakeFailed))
        \/ (r = success /\ take 4 (peeked c) = str "GET "
            /\ (exists head, first_occurrence (crlf ++ crlf) head (peeked c)
                 /\ rx_list c' = drop (length head + 4) (rx_list c))
            /\ exists key, key <> [] /\ tx_list c' = handshake_response (accept_value key))).
Proof.
  intros Hok Eop. destruct (ok_handshaking _ Hok Eop) as [_ Etx].
  pose proof (parse_handshake_spec c Hok Etx) as Hs.
  destruct (handshake_verdict (peeked c)) as [[n key]|] eqn:Ev; cbn [handshake_outcome] in Hs.
  - destruct Hs as (tx' & -> & Hwf & Hc). eexists _, _. split; [done|right]. split; [done|].
    unfold handshake_verdict in Ev.
    destruct (Text.find (crlf ++ crlf) (peeked c) 0) as [e|] eqn:Ee; [|done].
    case_bool_decide as Hget; cbn [negb] in Ev; [|done].
    destruct (match Text.find kKeyHeader (peeked c) 0 with None => _ | Some p => _ end); [|done].
    destruct (Text.find crlf (peeked c) _); [|done]. case_bool_decide as Hk; [done|]. injection Ev as <- <-.
    split; [done|]. split; [|by eexists].
    unfold Text.find in Ee. destruct (zlen (peeked c) <? 0); [done|]. rewrite drop_0 in Ee.
    apply find_from_Some in Ee as (He & pre & post & El & Hl & Hmin). exists pre.
    split; [split; [by exists post|done]|].
    destruct (advance_spec (rx_buffer_ c) (e + 4) (ok_rx _ Hok)) as [_ Hd]; [lia|].
    cbn. rewrite Hd. f_equal. len.
  - destruct Hs as (c' & -> & Hc'). eexists _, _. split; [done|]. by left.
Qed.

End handshake_properties.

#[local] Existing Instances Demo.socket_tcp Demo.socket_laws.

(** The request of the echo benchmark's client, with a blank after the key
    and a first frame behind it. *)
Definition demo_head : bytes :=
  str "GET / HTTP/1.1" ++ crlf ++ str "Host: localhost" ++ crlf ++ str "Upgrade: websocket" ++ crlf
  ++ str "Connection: Upgrade" ++ crlf ++ str "Sec-WebSocket-Version: 13" ++ crlf
  ++ str "Sec-WebSocket-Key: dGhlIHNhbXBsZSBub25jZQ== ".
Definition demo_request : bytes := demo_head ++ crlf ++ crlf.
Definition demo_conn : Connection Demo.Socket := Demo.conn_with kHandshaking (demo_request ++ [0x81; 0x80]).

Lemma demo_conn_ok : conn_ok demo_conn.
Proof. apply Demo.conn_with_ok; [vm_compute; lia|by_decide]. Qed.

Lemma handshake_accepts_witness :
  exists c', parse_handshake demo_conn = Ok (success, c') /\ rx_list c' = [0x81; 0x80]
    /\ take 28 (drop 97 (tx_list c')) = str "s3pPLMBiTxaQ9kYGzzhZRbK+xOo=".
Proof.
  destruct (handshake_accepts demo_conn demo_head (str "dGhlIHNhbXBsZSBub25jZQ==")) as (c' & E & Hr & Ht & _).
  - exact demo_conn_ok.
  - reflexivity.
  - split.
    + vm_compute. reflexivity.
    + exact (find_Some_first (crlf ++ crlf) (peeked demo_conn) 145 ltac:(vm_compute; reflexivity)).
    + exists (take 101 demo_head), [32], 61. split; [|split; [|split; [|split; [|split]]]].
      * left. exact (find_Some_first kKeyHeader (peeked demo_conn) 101 ltac:(vm_compute; reflexivity)).
      * exact (find_Some_first crlf (drop (101 + 19) (peeked demo_conn)) 25 ltac:(vm_compute; reflexivity)).
      * by_decide.
      * reflexivity.
      * discriminate.
      * discriminate.
  - exists c'. split; [exact E|]. split; [etrans; [exact Hr|]|rewrite Ht]; vm_compute; reflexivity.
Defined.

Lemma handshake_total_witness :
  exists r c', parse_handshake (Demo.conn_with kHandshaking (str "POST / HTTP/1.1" ++ crlf ++ crlf)) = Ok (r, c')
    /\ r = error kHandshakeFailed.
Proof.
  destruct (handshake_total (Demo.conn_with kHandshaking (str "POST / HTTP/1.1" ++ crlf ++ crlf)))
    as (r & c' & E & _).
  - apply Demo.conn_with_ok; [vm_compute; lia|by_decide].
  - reflexivity.
  - exists r, c'. split; [exact E|]. vm_compute in E. injection E as <- _. reflexivity.
Defined.
