(* ===== verification/ConnectionIo.v ===== *)
(** * ConnectionIo: the reactor entry points and the life of a connection

    [handle_read], [handle_write], [handle_write_vectored] and the API
    calls return on every connection that satisfies the invariant, keep it,
    and neither lose, duplicate nor reorder a byte in either direction.
    [conn_step] is one such event; the connections reachable from a fresh
    one satisfy [conn_ok], and their states only move forward. *)
From stdpp Require Import relations.
From S2P Require Import Prelude Vocabulary RingBuffer Frame Connection ConnectionApi ConnectionInv ConnectionFrames Handshake.
Open Scope ewss_scope.
Import Conn Handlers Ws.

(** ** What the operating system promises *)
Section posix.
Context {Sock : Type} `{TcpSocket Sock}.
Variable env : Env Sock.

(** [readv] stores [data] in the spans it is given, in order, and returns
    its length; it stores nothing when it returns 0 or -1. *)
Definition readv_delivers (c : Connection Sock) (data : bytes) : Prop :=
  let rx := rx_buffer_ c in
  let iov := Ring.fill_iovec_write rx 2 in
  let res := sys_readv env (sock_handle (socket_ c)) (Ring.buffer_ rx) iov in
  bytes_ok data /\ zlen data <= Ring.total_len iov
  /\ snd res = Ring.scatter (Ring.buffer_ rx) iov data
  /\ (if bool_decide (data = []) then sys_n (fst res) <= 0 else sys_n (fst res) = zlen data).

(** [writev] takes at most what it is given. *)
Definition writev_bounded (c : Connection Sock) : Prop :=
  sys_n (sys_writev env (sock_handle (socket_ c)) (tx_list c)) <= zlen (tx_list c).

(** So does sockpp's [write], which returns a count or an error. *)
Definition write_bounded (c : Connection Sock) : Prop :=
  let temp := take (Z.to_nat kTempReadSize) (tx_list c) in
  match sock_write env (socket_ c) temp with inl n => 0 <= n <= zlen temp | inr _ => True end.

End posix.

Section io.
Context {Sock : Type} `{TcpSocketLaws Sock} {target : Target}.
Variable env : Env Sock.
Implicit Type c : Connection Sock.

Abbreviation cbs := (run_callback env).

(** ** Small steps *)

Lemma set_error_ok c e : conn_ok c -> conn_ok (set_error c e).
Proof. by intros []. Qed.
Lemma set_error_evolves c e : evolves c (set_error c e).
Proof. split; try done; apply kept_app. Qed.

(** ** Handlers of received data *)

Lemma closing_on_data_spec c :
  conn_ok c ->
  wp (closing_on_data env cbs) (fun _ c' => conn_ok c' /\ evolves c c' /\ rx_buffer_ c' = rx_buffer_ c
    /\ messages (log_ c') = messages (log_ c)) c.
Proof.
  intros Hok. unfold closing_on_data. wp_step. unfold rx_peek, wp at 1.
  rewrite peek_spec by (apply Hok || lia). cbn [res_bind]. change (Z.to_nat 1024) with 1024%nat.
  fold (peeked c). assert (Hd : bytes_ok (peeked c)) by (apply Forall_take, Hok).
  assert (Hself : conn_ok c /\ evolves c c /\ rx_buffer_ c = rx_buffer_ c /\ messages (log_ c) = messages (log_ c))
    by (split_and!; done || reflexivity).
  wp_step. destruct (0 <? zlen (peeked c)); [|by wp_go].
  assert (exists r, parse_frame_header (peeked c) uninit_header = Ok r) as [[hs hd] ->].
  { destruct (peeked c) as [|d0 [|d1 r]]; [by eexists|by eexists|].
    destruct (parse_frame_header_spec d0 d1 r uninit_header Hd) as (hd & -> & _). by eexists. }
  wp_go. unfold when. destruct (_ && _); [|by wp_go]. apply shut_spec; [done|].
  intros c' Hok' Hev _ Erx _ Em. wp_go. done.
Qed.

Lemma on_data_spec c :
  conn_ok c -> (ops_ c = kOpen -> no_wrap (rest_of (rx_list c))) ->
  wp (ops_on_data (state_ops env cbs (ops_ c)))
    (fun _ c' => conn_ok c' /\ evolves c c'
      /\ (ops_ c = kOpen -> parse_step env c c')
      /\ (ops_ c <> kOpen -> messages (log_ c') = messages (log_ c))) c.
Proof.
  intros Hok Hnw. destruct (ops_ c) eqn:Eop; cbn [state_ops ops_on_data kHandshakeOps kOpenOps kClosingOps kClosedOps].
  - eapply wp_mono; [by apply handshake_on_data_spec|]. intros _ c' (? & ? & ?). by split_and!.
  - unfold open_on_data. wp_step. eapply wp_mono; [apply parse_frames_spec; [done|congruence|auto]|].
    intros [] c' Hs. wp_go. destruct Hs. by split_and!.
  - eapply wp_mono; [by apply closing_on_data_spec|]. intros _ c' (? & ? & _ & ?). by split_and!.
  - unfold closed_on_data. wp_go. split_and!; done || reflexivity.
Qed.

Lemma scatter_nil {T} (buf : list T) iov : Ring.scatter buf iov [] = buf.
Proof.
  revert buf. induction iov as [|s iov IH]; intros buf; [done|]. cbn [Ring.scatter].
  rewrite take_nil, drop_nil, IH. unfold Ring.splice. cbn. by rewrite Nat.add_0_r, take_drop.
Qed.

(** The connection after [data] has been received. *)
Definition received c (data : bytes) (c1 : Connection Sock) : Prop :=
  conn_ok c1 /\ evolves c c1 /\ rx_list c1 = rx_list c ++ data /\ ops_ c1 = ops_ c
  /\ log_ c1 = log_ c /\ tx_buffer_ c1 = tx_buffer_ c.

Lemma commit_received c data :
  conn_ok c -> bytes_ok data -> zlen data <= Ring.total_len (Ring.fill_iovec_write (rx_buffer_ c) 2) ->
  let rx := rx_buffer_ c in
  let rx1 : Ring.RingBuffer Z 4096 :=
    Ring.mk_ring (Ring.scatter (Ring.buffer_ rx) (Ring.fill_iovec_write rx 2) data)
      (Ring.read_idx_ rx) (Ring.write_idx_ rx) (Ring.count_ rx) in
  received c data (set_last_activity (set_rx c (Ring.commit_write rx1 (zlen data))) (now env)).
Proof.
  intros Hok Hd Hl. pose proof (ok_rx _ Hok) as Hrx. rewrite total_fill_iovec_write in Hl by done.
  destruct (scatter_commit (rx_buffer_ c) data Hrx Hl) as [Hwf Hc]. cbn zeta in Hwf, Hc |- *.
  split_and!; try done.
  - destruct Hok. split; cbn; try done. rewrite Hc. by apply Forall_app.
  - split; try done; apply kept_app.
Qed.

(** ** [handle_read] *)

(** The result of a read, branch by branch. *)
Definition read_result c (data : bytes) (res : SysResult) (r : expected) (c' : Connection Sock) : Prop :=
  if bool_decide (Ring.fill_iovec_write (rx_buffer_ c) 2 = []) then
    r = error kBufferFull /\ c' = set_error c kBufferFull
  else if bool_decide (data = []) then
    let e := if sys_n res =? 0 then kConnectionClosed
             else if retryable (sys_errno res) then kOk else kSocketError in
    r = (if bool_decide (e = kOk) then success else error e) /\ c' = set_error c e
  else r = success /\ last_error_code_ c' = kOk
    /\ (ops_ c = kOpen ->
        messages (log_ c') = messages (log_ c) ++ delivered env (frames_of (rx_list c ++ data))
        /\ rx_list c' = rest_of (rx_list c ++ data))
    /\ (ops_ c <> kOpen -> messages (log_ c') = messages (log_ c)).

Lemma handle_read_spec c data :
  conn_ok c -> readv_delivers env c data ->
  (ops_ c = kOpen -> no_wrap (rest_of (rx_list c ++ data))) ->
  wp (handle_read env cbs) (fun r c' => conn_ok c' /\ evolves c c'
    /\ read_result c data
         (fst (sys_readv env (sock_handle (socket_ c)) (Ring.buffer_ (rx_buffer_ c)) (Ring.fill_iovec_write (rx_buffer_ c) 2))) r c') c.
Proof.
  intros Hok (Hd & Hl & Hbuf & Hn) Hnw. unfold handle_read, read_result. wp_step. wp_step.
  destruct (Ring.fill_iovec_write (rx_buffer_ c) 2) as [|s iov] eqn:Eiov.
  { change (zlen [] =? 0) with true. cbn iota. unfold set_last_error. wp_go.
    rewrite bool_decide_eq_true_2 by done. auto using set_error_ok, set_error_evolves. }
  rewrite <- Eiov in *. rewrite (bool_decide_eq_false_2 (_ = [])) by (by rewrite Eiov).
  assert ((zlen (Ring.fill_iovec_write (rx_buffer_ c) 2) =? 0) = false) as ->
    by (rewrite Eiov, zlen_cons; pose proof (zlen_nonneg iov); zcase). clear Eiov.
  wp_step. unfold wp at 1. destruct (sys_readv _ _ _ _) as [res buf] eqn:Er. cbn [fst snd] in *. subst buf.
  case_bool_decide as Ed.
  - subst data. rewrite scatter_nil.
    assert (set_rx c (Ring.mk_ring (Ring.buffer_ (rx_buffer_ c)) (Ring.read_idx_ (rx_buffer_ c))
      (Ring.write_idx_ (rx_buffer_ c)) (Ring.count_ (rx_buffer_ c))) = c) as -> by (by destruct c as [? ? []]).
    destruct (Z.ltb_spec 0 (sys_n res)); [lia|]. unfold set_last_error.
    destruct (Z.eqb_spec (sys_n res) 0); [|destruct (retryable (sys_errno res))]; cbn [negb]; wp_go;
      auto using set_error_ok, set_error_evolves.
  - assert (0 < zlen data) by (destruct data; [done|rewrite zlen_cons; pose proof (zlen_nonneg data); lia]).
    rewrite Hn. destruct (Z.ltb_spec 0 (zlen data)); [|lia]. unfold touch_activity, set_last_error. wp_go.
    pose proof (commit_received c data Hok Hd Hl) as Hrec. cbn zeta in Hrec.
    cbn [set_rx rx_buffer_]. set (c1 := set_last_activity _ _) in *. 
    destruct Hrec as (Hok1 & Hev1 & Erx1 & Eop1 & Elog1 & _). rewrite <- Eop1.
    eapply wp_mono; [apply on_data_spec; [done|by rewrite Erx1, Eop1]|].
    intros _ c' (Hok' & Hev' & Hopen & Hother). wp_go. split_and!; auto using set_error_ok.
    + etrans; [done|]. etrans; [done|]. apply set_error_evolves.
    + intros E. destruct (Hopen E) as [_ _ Hrx' Hm' _]. cbn [set_error log_ rx_buffer_]. by rewrite Hm', Hrx', Erx1, Elog1.
Qed.

(** ** Writing *)

Lemma check_low_watermark_spec c :
  conn_ok c ->
  wp (check_low_watermark env cbs) (fun _ c' => conn_ok c' /\ evolves c c' /\ wire_ c' = wire_ c
    /\ rx_buffer_ c' = rx_buffer_ c /\ exists more, tx_list c' = tx_list c ++ more
    /\ (more <> [] -> write_paused_ c = true /\ zlen (tx_list c) < kTxLowWatermark)) c.
Proof.
  intros Hok. unfold check_low_watermark, when. wp_go.
  assert (Hpz : conn_ok (set_paused c false) /\ evolves c (set_paused c false)).
  { split; [by destruct Hok|]. split; try done; apply kept_app. }
  assert (Hsame : exists more, tx_list c = tx_list c ++ more
    /\ (more <> [] -> write_paused_ c = true /\ zlen (tx_list c) < kTxLowWatermark)) by (exists []; by rewrite app_nil_r).
  destruct Hpz as [Hokp Hevp]. destruct (write_paused_ c && _) eqn:Ego.
  2: { wp_go. by split_and!. }
  apply andb_true_iff in Ego as [Ep Esz]. unfold Ring.size in Esz. rewrite <- contents_length in Esz by apply Hok. apply Z.ltb_lt in Esz.
  wp_go. apply fire_ok; [apply Hok|by intros _; split_and!|]. intros c' Hs.
  destruct (as_same _ _ Hs) as (_ & Erx & _ & _ & _ & _ & Ew). destruct (as_tx _ _ Hs) as [_ [more Et]]. split_and!; [| |done|done|by exists more].
  - eauto with ewss.
  - etrans; [exact Hevp|]. etrans; [apply add_log_evolves|by apply api_step_evolves].
Qed.

(** Handing [n] queued bytes to the socket. *)
Lemma sent_ok c n temp k :
  conn_ok c -> temp = take k (tx_list c) -> 0 <= n <= zlen temp ->
  let c1 := add_wire (set_tx c (Ring.advance (tx_buffer_ c) n)) (take (Z.to_nat n) temp) in
  conn_ok c1 /\ evolves c c1 /\ stream c1 = stream c
  /\ wire_ c1 = wire_ c ++ take (Z.to_nat n) (tx_list c) /\ tx_list c1 = drop (Z.to_nat n) (tx_list c).
Proof.
  intros Hok -> Hn. cbn zeta. destruct (advance_spec (tx_buffer_ c) n (ok_tx _ Hok)) as [Hwf Hc]; [lia|].
  assert (Et : take (Z.to_nat n) (take k (tx_list c)) = take (Z.to_nat n) (tx_list c)).
  { rewrite take_take. f_equal. revert Hn. len. }
  assert (Hs : stream (add_wire (set_tx c (Ring.advance (tx_buffer_ c) n)) (take (Z.to_nat n) (take k (tx_list c)))) = stream c).
  { unfold stream. cbn [add_wire set_tx wire_ tx_buffer_]. by rewrite Hc, Et, <- app_assoc, take_drop. }
  split_and!; try done.
  - destruct Hok as [? ? ? Hh ? ? ?]. split; cbn; try done. intros E. destruct (Hh E) as [? Etx].
    rewrite Hc, Etx, drop_nil. done.
  - split; try done; [|apply kept_app]. rewrite Hs. apply kept_app.
  - cbn [add_wire set_tx wire_]. by rewrite Et.
Qed.

(** What the socket says to a write. *)
Inductive Written := Took (n : Z) | WouldBlock | Failed.

(** [sockpp]'s [write] of the first bytes of the queue; [writev] of all. *)
Definition write_answer c : Written :=
  match sock_write env (socket_ c) (take (Z.to_nat kTempReadSize) (tx_list c)) with
  | inl n => Took n
  | inr err => if retryable err then WouldBlock else Failed
  end.
Definition writev_answer c : Written :=
  let res := sys_writev env (sock_handle (socket_ c)) (tx_list c) in
  if 0 <? sys_n res then Took (sys_n res)
  else if (sys_n res <? 0) && negb (retryable (sys_errno res)) then Failed else WouldBlock.

(** What a write handler does on each answer.  With nothing queued it does
    not write.  Bytes the socket took go from the front of the queue to the
    wire, in order; what the drain callback queues, if the queue has drained
    enough, comes after the rest. *)
Definition write_result c (answer : Written) (r : expected) (c' : Connection Sock) : Prop :=
  if bool_decide (tx_list c = []) then r = success /\ c' = set_error c kOk else
  match answer with
  | Took n =>
      r = success /\ last_error_code_ c' = kOk /\ rx_buffer_ c' = rx_buffer_ c
      /\ wire_ c' = wire_ c ++ take (Z.to_nat n) (tx_list c)
      /\ exists more, tx_list c' = drop (Z.to_nat n) (tx_list c) ++ more
           /\ (more <> [] -> write_paused_ c = true /\ zlen (drop (Z.to_nat n) (tx_list c)) < kTxLowWatermark)
  | WouldBlock => r = success /\ c' = set_error c kOk
  | Failed => r = error kSocketError /\ c' = set_error c kSocketError
  end.

Definition wrote c (answer : Written) (r : expected) (c' : Connection Sock) : Prop :=
  conn_ok c' /\ evolves c c' /\ write_result c answer r c'.

Lemma empty_iff c : conn_ok c -> Ring.empty (tx_buffer_ c) = bool_decide (tx_list c = []).
Proof. intros Hok. apply empty_spec, Hok. Qed.

Lemma write_idle c answer : conn_ok c -> tx_list c = [] -> wrote c answer success (set_error c kOk).
Proof.
  intros Hok Et. split_and!; [by apply set_error_ok|apply set_error_evolves|]. unfold write_result.
  by rewrite bool_decide_eq_true_2.
Qed.
Lemma write_blocked c : conn_ok c -> tx_list c <> [] -> wrote c WouldBlock success (set_error c kOk).
Proof.
  intros Hok Et. split_and!; [by apply set_error_ok|apply set_error_evolves|]. unfold write_result.
  by rewrite bool_decide_eq_false_2.
Qed.
Lemma write_failed c : conn_ok c -> tx_list c <> [] -> wrote c Failed (error kSocketError) (set_error c kSocketError).
Proof.
  intros Hok Et. split_and!; [by apply set_error_ok|apply set_error_evolves|]. unfold write_result.
  by rewrite bool_decide_eq_false_2.
Qed.

Lemma write_taken c n temp k :
  conn_ok c -> tx_list c <> [] -> temp = take k (tx_list c) -> 0 <= n <= zlen temp ->
  wp (modify (fun c => add_wire (set_tx c (Ring.advance (tx_buffer_ c) n)) (take (Z.to_nat n) temp)) ;;;
      check_low_watermark env cbs ;;; set_last_error kOk ;;; ret success)
    (fun r c' => wrote c (Took n) r c') c.
Proof.
  intros Hok Hne Ht Hn. destruct (sent_ok c n temp k Hok Ht Hn) as (Hok1 & Hev1 & _ & Ew1 & Et1).
  wp_step. wp_step. wp_step. eapply wp_mono; [by apply check_low_watermark_spec|].
  intros [] c2 (Hok2 & Hev2 & Ew2 & Erx2 & more & Et2 & Hmore). unfold set_last_error. wp_go.
  split_and!; [by apply set_error_ok|etrans; [done|]; etrans; [done|]; apply set_error_evolves|].
  unfold write_result. rewrite bool_decide_eq_false_2 by done. split_and!; [done|done|exact Erx2| |exists more].
  - cbn [set_error wire_]. congruence.
  - cbn [set_error tx_buffer_]. rewrite Et2, Et1 in *. by split.
Qed.

Lemma handle_write_spec c :
  conn_ok c -> write_bounded env c -> wp (handle_write env cbs) (wrote c (write_answer c)) c.
Proof.
  intros Hok Hb. unfold handle_write. wp_go. rewrite empty_iff by done. case_bool_decide as Et.
  { unfold set_last_error. wp_go. by apply write_idle. }
  wp_step. unfold wp at 1. rewrite peek_spec by (apply Hok || (unfold kTempReadSize; lia)). cbn [res_bind].
  unfold write_bounded in Hb. unfold write_answer. set (temp := take _ (tx_list c)) in *. wp_step. wp_step.
  destruct (sock_write env (socket_ c) temp) as [n|err].
  - by apply (write_taken c n temp (Z.to_nat kTempReadSize)).
  - unfold set_last_error. destruct (retryable err); cbn [negb]; wp_go; [by apply write_blocked|by apply write_failed].
Qed.

(** A queue that holds something is given to [writev]. *)
Lemma iovec_nonempty c : conn_ok c -> tx_list c <> [] -> (zlen (Ring.fill_iovec (tx_buffer_ c) 2) =? 0) = false.
Proof.
  intros Hok Hne. apply Z.eqb_neq. intros E. apply Hne.
  pose proof (gather_fill_iovec (tx_buffer_ c) (ok_tx _ Hok)) as Hg.
  destruct (Ring.fill_iovec _ _) as [|s l]; [|rewrite zlen_cons in E; pose proof (zlen_nonneg l); lia].
  cbn in Hg. by injection Hg.
Qed.

Lemma handle_write_vectored_spec c :
  conn_ok c -> writev_bounded env c -> wp (handle_write_vectored env cbs) (wrote c (writev_answer c)) c.
Proof.
  intros Hok Hb. unfold handle_write_vectored. wp_go. rewrite empty_iff by done. case_bool_decide as Et.
  { unfold set_last_error. wp_go. by apply write_idle. }
  wp_step. wp_step. rewrite iovec_nonempty by done.
  wp_step. unfold wp at 1. rewrite gather_fill_iovec by apply Hok. cbn [res_bind].
  unfold writev_bounded in Hb. unfold writev_answer. wp_step. wp_step. set (res := sys_writev _ _ _) in *. cbv zeta.
  destruct (Z.ltb_spec 0 (sys_n res)).
  - apply (write_taken c (sys_n res) (tx_list c) (length (tx_list c))); [done|done|by rewrite firstn_all|lia].
  - unfold set_last_error. destruct ((sys_n res <? 0) && negb (retryable (sys_errno res))); wp_go;
      [by apply write_failed|by apply write_blocked].
Qed.

(** ** API calls *)

Lemma exec_call_ok c call :
  conn_ok c -> wp (exec_call env cbs call) (fun _ c' => conn_ok c' /\ evolves c c') c.
Proof.
  intros Hok. eapply wp_mono; [eapply exec_call_spec; [apply run_callback_spec|apply Hok|]|].
  - pose proof (budget_bound c). lia.
  - intros [] c' Hs. split; eauto with ewss.
Qed.

End io.

(** ** The life of a connection *)
Section life.
Context {Sock : Type} `{TcpSocketLaws Sock} {target : Target}.
Implicit Type c : Connection Sock.

(** The environment's promises for one read on [c]. *)
Definition read_fine (env : Env Sock) c (data : bytes) : Prop :=
  readv_delivers env c data /\ (ops_ c = kOpen -> no_wrap (rest_of (rx_list c ++ data))).

(** One event: the reactor reads or writes, or the application calls; the
    environment (callbacks, clock, system calls) may differ every time. *)
Inductive conn_step : Connection Sock -> Connection Sock -> Prop :=
| step_read env data c r c' :
    read_fine env c data -> handle_read env (run_callback env) c = Ok (r, c') -> conn_step c c'
| step_write env c r c' :
    write_bounded env c -> handle_write env (run_callback env) c = Ok (r, c') -> conn_step c c'
| step_writev env c r c' :
    writev_bounded env c -> handle_write_vectored env (run_callback env) c = Ok (r, c') -> conn_step c c'
| step_call env call c c' :
    exec_call env (run_callback env) call c = Ok (tt, c') -> conn_step c c'.

(** Connections that can occur, from construction on. *)
Inductive reachable : Connection Sock -> Prop :=
| reach_new env id fd : 0 <= fd -> reachable (make_connection env id fd)
| reach_step c c' : reachable c -> conn_step c c' -> reachable c'.

Lemma make_connection_ok env id fd : 0 <= fd -> conn_ok (make_connection (Sock := Sock) env id fd).
Proof.
  intros Hfd. destruct (empty_ring_ok (T := Z) (Size := 4096)) as [Hr1 Hr2]; [lia|].
  destruct (empty_ring_ok (T := Z) (Size := 8192)) as [Ht1 Ht2]; [lia|].
  split; cbn [make_connection rx_buffer_ tx_buffer_ ops_ handshake_completed_ socket_]; try done.
  - by intros [|].
  - intros _. by rewrite sock_non_blocking_open, sock_of_fd_open.
Qed.

Lemma conn_step_ok c c' : conn_ok c -> conn_step c c' -> conn_ok c' /\ evolves c c'.
Proof.
  intros Hok Hs. destruct Hs as [env data c r c' [Hr Hnw] E|env c r c' Hw E|env c r c' Hw E|env call c c' E].
  - pose proof (handle_read_spec env c data Hok Hr Hnw) as Hwp. unfold wp in Hwp. rewrite E in Hwp.
    by destruct Hwp as (? & ? & _).
  - pose proof (handle_write_spec env c Hok Hw) as Hwp. unfold wp in Hwp. rewrite E in Hwp.
    by destruct Hwp as (? & ? & _).
  - pose proof (handle_write_vectored_spec env c Hok Hw) as Hwp. unfold wp in Hwp. rewrite E in Hwp.
    by destruct Hwp as (? & ? & _).
  - pose proof (exec_call_ok env c call Hok) as Hwp. unfold wp in Hwp. by rewrite E in Hwp.
Qed.

Lemma reachable_conn_ok c : reachable c -> conn_ok c.
Proof. induction 1; [by apply make_connection_ok|]. by eapply conn_step_ok. Qed.

(** C1: the invariant holds in every reachable connection, whatever the
    peer sends, the system calls return and the callbacks do: both ring
    buffers are well formed, an open or closing connection has completed
    its handshake, nothing is queued before the handshake, and a
    connection is closed exactly when its socket is. *)
Theorem connection_invariant c :
  reachable c ->
  Ring.wf (rx_buffer_ c) /\ Ring.wf (tx_buffer_ c)
  /\ (ops_ c = kHandshaking -> handshake_completed_ c = false /\ has_data_to_send c = false)
  /\ (ops_ c = kOpen \/ ops_ c = kClosing -> handshake_completed_ c = true)
  /\ (ops_ c = kClosed <-> sock_is_open (socket_ c) = false)
  /\ (is_closed c = true <-> ops_ c = kClosed).
Proof.
  intros Hr. apply reachable_conn_ok in Hr as Hok. destruct Hok as [Hrx Htx _ Hh He Hc Ho].
  split_and!; try done.
  - intros E. destruct (Hh E) as [? Etx]. split; [done|]. unfold has_data_to_send.
    rewrite empty_spec by done. by rewrite Etx.
  - split; [done|]. intros E. destruct (decide (ops_ c = kClosed)) as [|N]; [done|]. by rewrite (Ho N) in E.
  - by apply is_closed_ok, reachable_conn_ok.
Qed.

(** C2: progress: on every reachable connection each entry point returns,
    without undefined behaviour and without exhausting its fuel, on three
    conditions.  [readv] delivers bytes that fit the room it was given;
    when the connection is open, no unfinished frame at the front of what is
    then in its buffer announces so many bytes that [header_size +
    payload_len] overflows (both [read_fine]; on such a frame [handle_read]
    may spin for ever or write outside its buffer, as [ConnectionFrames] shows);
    and a write takes no more bytes than it was given ([write_bounded],
    [writev_bounded]). *)
Theorem connection_progress c env data call :
  reachable c -> read_fine env c data -> write_bounded env c -> writev_bounded env c ->
  (exists r c', handle_read env (run_callback env) c = Ok (r, c'))
  /\ (exists r c', handle_write env (run_callback env) c = Ok (r, c'))
  /\ (exists r c', handle_write_vectored env (run_callback env) c = Ok (r, c'))
  /\ (exists c', exec_call env (run_callback env) call c = Ok (tt, c')).
Proof.
  intros Hok%reachable_conn_ok [Hr Hnw] Hw Hv. split_and!.
  - destruct (proj1 (wp_run _ _ _) (handle_read_spec env c data Hok Hr Hnw)) as (r & c' & E & _). eauto.
  - destruct (proj1 (wp_run _ _ _) (handle_write_spec env c Hok Hw)) as (r & c' & E & _). eauto.
  - destruct (proj1 (wp_run _ _ _) (handle_write_vectored_spec env c Hok Hv)) as (r & c' & E & _). eauto.
  - destruct (proj1 (wp_run _ _ _) (exec_call_ok env c call Hok)) as ([] & c' & E & _). eauto.
Qed.

(** C7: the life of a connection only moves forward: along any sequence of
    events the state goes Handshaking, Open, Closing, Closed without ever
    going back, closed connections stay closed, and what was handed to the
    socket or to the callbacks is never taken back (the outgoing byte
    stream and the callback history only grow). *)
Theorem lifecycle_monotone c c' :
  reachable c -> rtc conn_step c c' ->
  rank (ops_ c) <= rank (ops_ c')
  /\ (ops_ c = kClosed -> ops_ c' = kClosed)
  /\ (handshake_completed_ c = true -> handshake_completed_ c' = true)
  /\ (exists t, stream c' = stream c ++ t) /\ (exists t, log_ c' = log_ c ++ t).
Proof.
  intros Hr Hsteps.
  assert (Hev : evolves c c').
  { apply reachable_conn_ok in Hr. induction Hsteps as [c|c c1 c2 Hs Hss IH]; [reflexivity|].
    destruct (conn_step_ok _ _ Hr Hs) as [Hok Hev]. etrans; [exact Hev|]. by apply IH. }
  destruct Hev as [_ _ R Hh Hst Hl]. split_and!; try done. intros E. rewrite E in R.
  destruct (ops_ c'); cbn in R; lia || done.
Qed.

(** C5: [handle_read] on every branch.  With the buffer full it reports
    [kBufferFull] and touches nothing; end of stream, a retryable and a
    fatal error give [kConnectionClosed], success and [kSocketError];
    received bytes are appended to the unparsed ones and, on an open
    connection, exactly the messages completed by them are delivered. *)
Theorem handle_read_correct env c data :
  conn_ok c -> readv_delivers env c data ->
  (ops_ c = kOpen -> no_wrap (rest_of (rx_list c ++ data))) ->
  exists r c', handle_read env (run_callback env) c = Ok (r, c') /\ conn_ok c' /\ evolves c c'
    /\ read_result env c data
         (fst (sys_readv env (sock_handle (socket_ c)) (Ring.buffer_ (rx_buffer_ c))
                (Ring.fill_iovec_write (rx_buffer_ c) 2))) r c'.
Proof.
  intros Hok Hr Hnw.
  destruct (proj1 (wp_run _ _ _) (handle_read_spec env c data Hok Hr Hnw)) as (r & c' & E & ? & ? & ?).
  by exists r, c'.
Qed.

(** C6: writing is first in, first out, on every answer of the socket.  With
    nothing queued nothing is written.  When the socket takes n bytes,
    [handle_write] (which offers it the first 512) and
    [handle_write_vectored] (which offers it all) move exactly the first n
    bytes of the queue to the wire, keep the rest, and succeed; only the
    drain callback, when writing was paused and the queue has fallen below
    the low watermark, queues more, behind the rest.  A would-block answer
    (and a [writev] of 0) is a success that moves nothing; any other error
    reports [kSocketError], and the queue, the wire and the state stay as
    they were. *)
Theorem writes_are_fifo env c :
  conn_ok c -> write_bounded env c -> writev_bounded env c ->
  (exists r c', handle_write env (run_callback env) c = Ok (r, c') /\ conn_ok c'
    /\ write_result c (write_answer env c) r c')
  /\ (exists r c', handle_write_vectored env (run_callback env) c = Ok (r, c') /\ conn_ok c'
    /\ write_result c (writev_answer env c) r c').
Proof.
  intros Hok Hw Hv. split.
  - destruct (proj1 (wp_run _ _ _) (handle_write_spec env c Hok Hw)) as (r & c' & E & ? & _ & ?). by exists r, c'.
  - destruct (proj1 (wp_run _ _ _) (handle_write_vectored_spec env c Hok Hv)) as (r & c' & E & ? & _ & ?). by exists r, c'.
Qed.

End life.

(** ** Evaluated examples *)
Lemma result_took {Sock} (c : Connection Sock) answer n r c' :
  tx_list c <> [] -> answer = Took n -> write_result c answer r c' ->
  r = success /\ wire_ c' = wire_ c ++ take (Z.to_nat n) (tx_list c).
Proof. intros Hne ->. unfold write_result. rewrite bool_decide_eq_false_2 by done. tauto. Qed.
Lemma result_failed {Sock} (c : Connection Sock) answer r c' :
  tx_list c <> [] -> answer = Failed -> write_result c answer r c' -> r = error kSocketError /\ c' = set_error c kSocketError.
Proof. intros Hne ->. unfold write_result. by rewrite bool_decide_eq_false_2. Qed.

#[local] Existing Instances Demo.socket_tcp Demo.socket_laws.
#[local] Instance demo_target : Target := true.

Lemma total_len_nonneg iov : Forall (fun s => 0 <= Ring.sp_len s) iov -> 0 <= Ring.total_len iov.
Proof. unfold Ring.total_len. induction 1 as [|s l Hs Hl IH]; cbn [foldr]; lia. Qed.

(** The example environment keeps the promises. *)
Lemma demo_readv cbs t input room (c : Connection Demo.Socket) :
  bytes_ok input ->
  readv_delivers (Demo.env_with cbs t input room) c
    (take (Z.to_nat (Ring.total_len (Ring.fill_iovec_write (rx_buffer_ c) 2))) input).
Proof.
  intros Hb. set (iov := Ring.fill_iovec_write (rx_buffer_ c) 2).
  assert (Hnn : 0 <= Ring.total_len iov).
  { apply total_len_nonneg. unfold iov, Ring.fill_iovec_write, Ring.available, u64.
    repeat case_match; repeat constructor; cbn; apply Z.mod_pos_bound; lia. }
  unfold readv_delivers. fold iov. cbn [Demo.env_with sys_readv]. set (data := take _ input).
  split; [by apply Forall_take|]. split; [unfold data; len|].
  case_bool_decide as E; cbn [fst snd sys_n]; [|done]. rewrite E, scatter_nil. by split.
Qed.

Lemma demo_write_bounded cbs t input room (c : Connection Demo.Socket) :
  0 <= room -> write_bounded (Demo.env_with cbs t input room) c /\ writev_bounded (Demo.env_with cbs t input room) c.
Proof.
  intros Hr. split; [unfold write_bounded|unfold writev_bounded]; cbn [Demo.env_with sock_write sys_writev sys_n].
  - set (temp := take _ _). pose proof (zlen_nonneg temp). lia.
  - lia.
Qed.

(** A session: the request arrives, the answer leaves in part, a message
    arrives and is echoed. *)
Definition req_env := Demo.env_with Demo.echo_callbacks 1 demo_request 100.
Definition msg_env := Demo.env_with Demo.echo_callbacks 2 (wire_frame kText (Some demo_key) (str "Hello")) 100.
Definition c_new : Connection Demo.Socket := make_connection req_env 1 7.
Definition c_open : Connection Demo.Socket := demo_after (handle_read req_env (run_callback req_env) c_new).
Definition c_sent : Connection Demo.Socket := demo_after (handle_write_vectored req_env (run_callback req_env) c_open).
Definition c_echoed : Connection Demo.Socket := demo_after (handle_read msg_env (run_callback msg_env) c_sent).

Lemma demo_read_fine env cbs t input room c :
  env = Demo.env_with cbs t input room -> bytes_ok input ->
  zlen input <= Ring.total_len (Ring.fill_iovec_write (rx_buffer_ c) 2) ->
  (ops_ c = kOpen -> no_wrap (rest_of (rx_list c ++ input))) -> read_fine env c input.
Proof.
  intros -> Hb Hl Hnw. split; [|done]. pose proof (demo_readv cbs t input room c Hb) as Hr.
  rewrite take_ge in Hr by len. done.
Qed.

Lemma c_open_reachable : reachable c_open.
Proof.
  apply reach_step with c_new; [by apply reach_new|].
  apply (step_read req_env demo_request c_new success); [|vm_compute; reflexivity].
  eapply demo_read_fine; [reflexivity|by_decide|vm_compute; discriminate|vm_compute; discriminate].
Qed.

Lemma c_sent_step : conn_step c_open c_sent.
Proof.
  apply (step_writev req_env c_open success); [by apply demo_write_bounded|vm_compute; reflexivity].
Qed.

Lemma c_echoed_step : conn_step c_sent c_echoed.
Proof.
  apply (step_read msg_env (wire_frame kText (Some demo_key) (str "Hello")) c_sent success); [|vm_compute; reflexivity].
  eapply demo_read_fine; [reflexivity|by_decide|vm_compute; discriminate|]. intros _. by_decide.
Qed.

Lemma connection_invariant_witness : ops_ c_open = kOpen /\ handshake_completed_ c_open = true.
Proof.
  assert (E : ops_ c_open = kOpen) by (vm_compute; reflexivity). split; [exact E|].
  destruct (connection_invariant c_open c_open_reachable) as (_ & _ & _ & He & _). apply He. left. exact E.
Defined.

Lemma connection_progress_witness :
  exists r c', handle_read msg_env (run_callback msg_env) c_open = Ok (r, c').
Proof.
  destruct (connection_progress c_open msg_env (wire_frame kText (Some demo_key) (str "Hello")) (ApiClose 1000))
    as (H & _).
  - exact c_open_reachable.
  - eapply demo_read_fine; [reflexivity|by_decide|vm_compute; discriminate|]. intros _. by_decide.
  - by apply demo_write_bounded.
  - by apply demo_write_bounded.
  - exact H.
Defined.

Lemma lifecycle_monotone_witness :
  log_ c_echoed = [EvOpen; EvMessage (str "Hello")] /\ exists t, stream c_echoed = stream c_open ++ t.
Proof.
  split; [vm_compute; reflexivity|].
  destruct (lifecycle_monotone c_open c_echoed) as (_ & _ & _ & H & _).
  - exact c_open_reachable.
  - eapply rtc_l; [exact c_sent_step|]. eapply rtc_once, c_echoed_step.
  - exact H.
Defined.

Lemma handle_read_correct_witness :
  exists r c', handle_read msg_env (run_callback msg_env) c_open = Ok (r, c') /\ r = success
    /\ messages (log_ c') = [str "Hello"].
Proof.
  destruct (handle_read_correct msg_env c_open (wire_frame kText (Some demo_key) (str "Hello")))
    as (r & c' & E & _).
  - apply reachable_conn_ok, c_open_reachable.
  - pose proof (demo_readv Demo.echo_callbacks 2 (wire_frame kText (Some demo_key) (str "Hello")) 100 c_open) as H.
    rewrite take_ge in H; [apply H; by_decide|apply Nat.leb_le; vm_compute; reflexivity].
  - intros _. by_decide.
  - exists r, c'. split; [exact E|]. vm_compute in E. injection E as <- <-. split; vm_compute; reflexivity.
Defined.

(** A socket that has been reset. *)
Definition broken_env : Env Demo.Socket :=
  mk_env _ Demo.echo_callbacks 1 (sys_readv req_env) (fun _ _ => mk_sys (-1) 104) (fun _ _ => inr 104).

Lemma writes_are_fifo_witness :
  (exists r c', handle_write_vectored req_env (run_callback req_env) c_open = Ok (r, c') /\ r = success
    /\ wire_ c' = take 100 (tx_list c_open))
  /\ exists r c', handle_write_vectored broken_env (run_callback broken_env) c_open = Ok (r, c')
    /\ r = error kSocketError /\ c' = set_error c_open kSocketError.
Proof.
  pose proof (reachable_conn_ok c_open c_open_reachable) as Hok.
  assert (Hne : tx_list c_open <> []) by (vm_compute; discriminate). split.
  - destruct (writes_are_fifo req_env c_open) as (_ & r & c' & E & _ & Hres);
      [exact Hok|by apply demo_write_bounded|by apply demo_write_bounded|].
    assert (Ha : writev_answer req_env c_open = Took 100) by (vm_compute; reflexivity).
    destruct (result_took c_open _ 100 r c' Hne Ha Hres) as [Hr Hw].
    exists r, c'. split; [exact E|]. split; [exact Hr|]. rewrite Hw. vm_compute. reflexivity.
  - destruct (writes_are_fifo broken_env c_open) as (_ & r & c' & E & _ & Hres);
      [exact Hok|exact I|vm_compute; discriminate|].
    assert (Ha : writev_answer broken_env c_open = Failed) by (vm_compute; reflexivity).
    exists r, c'. split; [exact E|]. exact (result_failed c_open _ r c' Hne Ha Hres).
Defined.
