(* ===== verification/ConnectionProtocol.v ===== *)
(** * ConnectionProtocol: the order in which callbacks are invoked

    [protocol] is an automaton over callback invocations.  Whatever the
    peer, the kernel and the callbacks do, the history of a connection is
    one it accepts: [on_open] comes first and once, messages come between it
    and the peer's Close frame, [on_backpressure] and [on_drain] alternate,
    and a connection refused in the handshake hears of its end only.

    The proofs use weakest liberal preconditions: nothing is assumed about
    the system calls, since a handler that does not return breaks no rule. *)
From S2P Require Import Prelude Vocabulary RingBuffer Frame Connection Fixes ConnectionApi ConnectionInv ConnectionFrames Handshake ConnectionIo.
Open Scope ewss_scope.
Import Conn Handlers Ws.

(** ** The automaton *)

(** Nothing heard yet; refused in the handshake; open (or closed since); the
    peer's Close frame has been reported. *)
Inductive Phase : Type := Fresh | Refused | Live | PeerGone.

#[export] Instance Phase_eq_dec : EqDecision Phase.
Proof. solve_decision. Defined.

(** The second component: between [on_backpressure] and [on_drain]. *)
Definition protocol_step (st : Phase * bool) (e : Event) : option (Phase * bool) :=
  match e, st with
  | EvOpen, (Fresh, p) => Some (Live, p)
  | EvMessage _, (Live, p) => Some (Live, p)
  | EvClose false, (Live, p) => Some (PeerGone, p)
  | EvClose true, (Fresh, p) => Some (Refused, p)
  | EvClose true, (Live, p) => Some (Live, p)
  | EvClose true, (PeerGone, p) => Some (PeerGone, p)
  | EvBackpressure, (Live, false) => Some (Live, true)
  | EvBackpressure, (PeerGone, false) => Some (PeerGone, true)
  | EvDrain, (Live, true) => Some (Live, false)
  | EvDrain, (PeerGone, true) => Some (PeerGone, false)
  | _, _ => None
  end.

Definition protocol (log : list Event) : option (Phase * bool) :=
  foldl (fun st e => st ≫= fun st => protocol_step st e) (Some (Fresh, false)) log.

Lemma protocol_snoc log e : protocol (log ++ [e]) = protocol log ≫= fun st => protocol_step st e.
Proof. unfold protocol. by rewrite foldl_app. Qed.

(** What the protocol sees of a connection. *)
Definition visible {Sock} (c : Connection Sock) : list Event * ConnectionState * bool :=
  (log_ c, ops_ c, write_paused_ c).

#[export] Instance of_core_visible {Sock} : OfCore (@visible Sock).
Proof. unfold visible. by intros c c' [= _ -> -> _ _ -> _]. Qed.

(** A handler that changes nothing of it. *)
Abbreviation silent := (fixes visible).
Ltac silently := fixing.

(** ** What is heard of a history *)

(** Which events have a callback. *)
Definition listens {Sock} (cbs : Callbacks Sock) (ev : Event) : bool :=
  match ev with
  | EvOpen => bool_decide (is_Some (on_open cbs))
  | EvMessage _ => bool_decide (is_Some (on_message cbs))
  | EvClose _ => bool_decide (is_Some (on_close cbs))
  | EvBackpressure => bool_decide (is_Some (on_backpressure cbs))
  | EvDrain => bool_decide (is_Some (on_drain cbs))
  end.

Definition heard_of (hears : Event -> bool) (full : list Event) : list Event := filter (fun e => hears e = true) full.

(** A history that leads to [st], of which [log] has been heard. *)
Definition story (hears : Event -> bool) (st : Phase * bool) (log : list Event) : Prop :=
  exists full, protocol full = Some st /\ log = heard_of hears full.

Lemma heard_snoc hears full e : heard_of hears (full ++ [e]) = heard_of hears full ++ if hears e then [e] else [].
Proof. unfold heard_of. rewrite filter_app. f_equal. rewrite filter_cons, filter_nil. by destruct (hears e). Qed.

Lemma heard_all hears full : (forall e, hears e = true) -> heard_of hears full = full.
Proof. intros Hh. unfold heard_of. induction full as [|e full IH]; [done|]. by rewrite filter_cons_True, IH. Qed.

Lemma story_step hears st st' log e :
  story hears st log -> protocol_step st e = Some st' -> story hears st' (log ++ if hears e then [e] else []).
Proof.
  intros (full & Hp & ->) Hs. exists (full ++ [e]). by rewrite protocol_snoc, Hp, heard_snoc.
Qed.

(** ** API calls keep the phase *)

(** A closed connection has been told so. *)
Definition reported {Sock} (hears : Event -> bool) (c : Connection Sock) : Prop :=
  ops_ c = kClosed -> hears (EvClose true) = true -> EvClose true ∈ log_ c.

(** Past the handshake, with the history in phase [ph]. *)
Definition at_phase {Sock} (hears : Event -> bool) (ph : Phase) (c : Connection Sock) : Prop :=
  story hears (ph, write_paused_ c) (log_ c) /\ ops_ c <> kHandshaking /\ reported hears c.

Definition past (ph : Phase) : Prop := ph = Live \/ ph = PeerGone.

Section api.
Context {Sock : Type} `{TcpSocket Sock} {target : Target}.
Variable hears : Event -> bool.
Variable env : Env Sock.
Hypothesis Henv : forall ev, listens (cb env) ev = hears ev.
Implicit Type c : Connection Sock.
Abbreviation at_phase := (at_phase hears).

Lemma at_phase_visible ph c c' : visible c' = visible c -> at_phase ph c -> at_phase ph c'.
Proof. unfold visible, ConnectionProtocol.at_phase, reported. by intros [= -> -> ->]. Qed.

Lemma reported_log c ev : reported hears c -> reported hears (add_log c ev).
Proof. intros Hr E Hh. cbn [add_log log_]. rewrite elem_of_app. left. by apply Hr. Qed.

Section body.
Variable run_body : list ApiCall -> M Sock unit.
Hypothesis Hbody : forall ph calls c, past ph -> at_phase ph c -> wlp (run_body calls) (fun _ c' => at_phase ph c') c.
Hypothesis Hclosed : forall calls c, ops_ c = kClosed -> wlp (run_body calls) (fun _ c' => c' = c) c.

(** Invoking a callback, if there is one, moves the automaton by its
    event. *)
Lemma fire_phase ev f st ph c :
  bool_decide (is_Some f) = hears ev -> past ph -> story hears st (log_ c) -> protocol_step st ev = Some (ph, write_paused_ c) ->
  ops_ c <> kHandshaking -> reported hears c -> wlp (fire run_body ev f) (fun _ c' => at_phase ph c') c.
Proof.
  intros Hf Hp Hs Hst Hops Hr. pose proof (story_step _ _ _ _ _ Hs Hst) as Hs'. rewrite <- Hf in Hs'. unfold fire.
  destruct f as [f|]; cbn in Hs'; [|apply wlp_ret; rewrite app_nil_r in Hs'; by split_and!].
  apply wlp_bind, wlp_modify, wlp_bind, wlp_gets, Hbody; [done|]. split_and!; [done|done|by apply reported_log].
Qed.

Lemma check_high_phase ph c : past ph -> at_phase ph c ->
  wlp (check_high_watermark env run_body) (fun _ c' => at_phase ph c') c.
Proof.
  intros Hp (Hl & Hops & Hr). apply wlp_bind, wlp_gets.
  destruct (write_paused_ c) eqn:Ep; cbn [negb andb when]; [by apply wlp_ret; split_and!; rewrite ?Ep|].
  destruct (_ <? _); [|by apply wlp_ret; split_and!; rewrite ?Ep].
  apply wlp_bind, wlp_modify. apply (fire_phase _ _ (ph, false)); [exact (Henv EvBackpressure)|done|done| |done|done].
  by destruct Hp as [-> | ->].
Qed.

Lemma check_low_phase ph c : past ph -> at_phase ph c ->
  wlp (check_low_watermark env run_body) (fun _ c' => at_phase ph c') c.
Proof.
  intros Hp (Hl & Hops & Hr). apply wlp_bind, wlp_gets.
  destruct (write_paused_ c) eqn:Ep; cbn [negb andb when]; [|by apply wlp_ret; split_and!; rewrite ?Ep].
  destruct (_ <? _); [|by apply wlp_ret; split_and!; rewrite ?Ep].
  apply wlp_bind, wlp_modify. apply (fire_phase _ _ (ph, true)); [exact (Henv EvDrain)|done|done| |done|done].
  by destruct Hp as [-> | ->].
Qed.

(** Entering Closed, and reporting it. *)
Lemma enter_closed_phase ph c : past ph -> at_phase ph c ->
  wlp (transition_to_state env run_body kClosed) (fun _ c' => at_phase ph c' /\ ops_ c' = kClosed) c.
Proof.
  intros Hp (Hl & Hops & _). cbn [transition_to_state]. apply wlp_bind, wlp_modify. unfold fire.
  assert (Hs : protocol_step (ph, write_paused_ c) (EvClose true) = Some (ph, write_paused_ c)) by (by destruct Hp as [-> | ->]).
  pose proof (story_step _ _ _ _ _ Hl Hs) as Hl'. unfold ConnectionProtocol.at_phase, reported. rewrite <- Henv in Hl' |- *.
  cbn [listens] in Hl' |- *.
  destruct (on_close (cb env)) as [f|]; cbn in Hl' |- *; [|apply wlp_ret; rewrite app_nil_r in Hl'; by split_and!].
  apply wlp_bind, wlp_modify, wlp_bind, wlp_gets. eapply wlp_mono; [by apply Hclosed|].
  intros _ ? ->. split_and!; [done|done| |done]. intros _ _. cbn. rewrite elem_of_app. right. by left.
Qed.

Lemma exec_call_phase ph call c : past ph -> at_phase ph c ->
  wlp (exec_call env run_body call) (fun _ c' => at_phase ph c') c.
Proof.
  intros Hp Hc. assert (Hsend : forall payload binary, wlp (send_impl env run_body payload binary) (fun _ c' => at_phase ph c') c).
  { intros payload binary. apply wlp_bind, wlp_gets. destruct (negb _); [by apply wlp_ret|].
    apply wlp_bind, (fixes_wlp visible); [silently|]. intros _ c' E.
    by apply check_high_phase, (at_phase_visible _ c). }
  destruct call; [apply Hsend|apply Hsend|]. cbn [exec_call]. apply wlp_bind, wlp_gets.
  destruct (bool_decide _); [by apply wlp_ret|]. destruct (bool_decide _).
  - apply wlp_bind, (fixes_wlp visible); [silently|]. intros _ c' E. cbn [transition_to_state].
    apply wlp_bind, wlp_modify, wlp_modify. by destruct (at_phase_visible _ _ _ E Hc) as (? & _ & _).
  - apply wlp_bind. eapply wlp_mono; [by apply enter_closed_phase|]. intros _ c' [Hc' _].
    apply (fixes_wlp visible); [silently|]. intros _ c2 E. exact (at_phase_visible ph c' c2 E Hc').
Qed.

(** A closed connection ignores every call. *)
Lemma exec_call_closed call c : ops_ c = kClosed -> wlp (exec_call env run_body call) (fun _ c' => c' = c) c.
Proof.
  intros E. destruct call; cbn [exec_call]; apply wlp_bind, wlp_gets; unfold get_state; rewrite E; by apply wlp_ret.
Qed.

End body.

Lemma run_calls_closed depth calls c :
  ops_ c = kClosed -> wlp (run_calls env depth calls) (fun _ c' => c' = c) c.
Proof.
  revert c. destruct depth as [|d]; induction calls as [|call calls IH]; intros c E; cbn [run_calls foldr];
    [by apply wlp_ret|by apply wlp_lift|by apply wlp_ret|].
  apply wlp_bind. eapply wlp_mono; [by apply exec_call_closed|]. intros _ ? ->. by apply IH.
Qed.

Lemma run_calls_phase depth : forall ph calls c, past ph -> at_phase ph c ->
  wlp (run_calls env depth calls) (fun _ c' => at_phase ph c') c.
Proof.
  induction depth as [|d IHd]; intros ph calls; induction calls as [|call calls IH]; intros c Hp Hc;
    cbn [run_calls foldr]; [by apply wlp_ret|by apply wlp_lift|by apply wlp_ret|].
  apply wlp_bind. eapply wlp_mono; [apply (exec_call_phase _ IHd (run_calls_closed d)); done|].
  intros ? c' Hc'. by apply IH.
Qed.

End api.

(** ** The reactor entry points *)

(** After the frames of an open connection have been handled. *)
Definition settled {Sock} hears (c : Connection Sock) : Prop :=
  at_phase hears Live c \/ (at_phase hears PeerGone c /\ ops_ c = kClosed).

Definition unheard {Sock} (c : Connection Sock) : Prop :=
  ops_ c = kHandshaking /\ log_ c = [] /\ write_paused_ c = false.

(** Closed without ever having been open. *)
Definition refused {Sock} (hears : Event -> bool) (c : Connection Sock) : Prop :=
  ops_ c = kClosed /\ write_paused_ c = false /\ log_ c = if hears (EvClose true) then [EvClose true] else [].

Definition orderly {Sock} hears (c : Connection Sock) : Prop := unheard c \/ refused hears c \/ settled hears c.

Section entry.
Context {Sock : Type} `{TcpSocket Sock} {target : Target}.
Variable hears : Event -> bool.
Variable env : Env Sock.
Hypothesis Henv : forall ev, listens (cb env) ev = hears ev.
Implicit Type c : Connection Sock.
Abbreviation at_phase := (at_phase hears).
Abbreviation settled := (settled hears).
Abbreviation orderly := (orderly hears).
Abbreviation cbs := (run_callback env).

Lemma orderly_visible c c' : visible c' = visible c -> orderly c -> orderly c'.
Proof. unfold visible, ConnectionProtocol.orderly, unheard, refused, ConnectionProtocol.settled, ConnectionProtocol.at_phase, reported. by intros [= -> -> ->]. Qed.

Lemma orderly_silent {A} (m : M Sock A) c : silent m -> orderly c -> wlp m (fun _ c' => orderly c') c.
Proof. intros Hm Hc. apply (fixes_wlp visible); [done|]. intros _ c' E. by apply (orderly_visible c). Qed.

Lemma enter_closed_settled ph c : past ph -> at_phase ph c ->
  wlp (transition_to_state env cbs kClosed) (fun _ c' => settled c') c.
Proof.
  intros Hp Hc. eapply wlp_mono; [apply (enter_closed_phase hears env Henv _ (run_calls_closed env _) ph); done|].
  intros _ c' [Hc' Ec']. destruct Hp as [-> | ->]; [by left|by right].
Qed.

Lemma settled_visible c c' : visible c' = visible c -> settled c -> settled c'.
Proof. unfold visible, ConnectionProtocol.settled, ConnectionProtocol.at_phase, reported. by intros [= -> -> ->]. Qed.

Lemma dispatch_phase op v c : at_phase Live c ->
  wlp (dispatch_frame env cbs op v) (fun go c' => if go then at_phase Live c' else settled c') c.
Proof.
  intros Hc. pose proof (run_calls_phase hears env Henv callback_depth) as Hrun. fold cbs in Hrun. destruct Hc as (Hl & Hops & Hr).
  assert (Hmsg : wlp (match on_message (cb env) with
                      | None => ret true
                      | Some f => let* msg := lift (view_bytes v) in
                          fire cbs (EvMessage msg) (Some (fun c => f c msg)) ;;; ret true
                      end) (fun go c' => if go then at_phase Live c' else settled c') c).
  { pose proof (fun msg => Henv (EvMessage msg)) as Hm. cbn [listens] in Hm.
    destruct (on_message (cb env)) as [f|]; [|by apply wlp_ret].
    apply wlp_bind, wlp_lift. intros msg _. apply wlp_bind.
    eapply wlp_mono; [apply (fire_phase hears _ Hrun _ _ (Live, write_paused_ c) Live); [exact (Hm msg)|by left|exact Hl|done|done|done]|].
    intros ? c' Hc'. by apply wlp_ret. }
  destruct op; cbn [dispatch_frame]; try (exact Hmsg); try (by apply wlp_ret).
  - apply wlp_bind. set (f := _ <$> _).
    assert (Hf : bool_decide (is_Some f) = hears (EvClose false)).
    { rewrite <- Henv. cbn [listens]. unfold f. by destruct (on_close (cb env)). }
    eapply wlp_mono; [apply (fire_phase hears _ Hrun _ _ (Live, write_paused_ c) PeerGone _ Hf); [by right|exact Hl|done|done|done]|]. intros ? c1 Hc1. apply wlp_bind.
    eapply wlp_mono; [by apply (enter_closed_settled PeerGone); [right|]|]. intros ? c2 Hc2.
    apply wlp_bind, (fixes_wlp visible); [silently|]. intros _ c3 E. by apply wlp_ret, (settled_visible c2).
  - apply wlp_bind, (fixes_wlp visible); [silently|]. intros _ c' E. by apply wlp_ret, (at_phase_visible _ _ c).
Qed.

Lemma parse_frames_settled fuel : forall c, at_phase Live c ->
  wlp (parse_frames_loop env cbs fuel) (fun _ c' => settled c') c.
Proof.
  assert (Hiter : forall c, at_phase Live c ->
    wlp (parse_frames_iter env cbs) (fun go c' => if go then at_phase Live c' else settled c') c).
  { intros c Hc. apply wlp_bind, (fixes_wlp visible); [silently|]. intros temp c1 E1.
    pose proof (at_phase_visible _ _ _ _ E1 Hc) as Hc1. cbn beta zeta.
    destruct (_ =? 0); [by apply wlp_ret; left|]. apply wlp_bind, wlp_lift. intros [hs hd] _.
    destruct (hs =? 0); [by apply wlp_ret; left|]. destruct (_ <? _); [by apply wlp_ret; left|].
    apply wlp_bind, (fixes_wlp visible); [by silently|]. intros mem c2 E2.
    apply wlp_bind. eapply wlp_mono; [by apply dispatch_phase, (at_phase_visible _ _ c1)|].
    intros [] c3 Hc3; cbn [negb]; [|by apply wlp_ret].
    apply wlp_bind, (fixes_wlp visible); [silently|]. intros _ c4 E4. by apply wlp_ret, (at_phase_visible _ _ c3). }
  induction fuel as [|fuel IH]; intros c Hc; cbn [parse_frames_loop]; [by apply wlp_lift|].
  apply wlp_bind. eapply wlp_mono; [by apply Hiter|]. intros [] c' Hc'; [by apply IH|by apply wlp_ret].
Qed.

Lemma handshake_orderly c : unheard c -> wlp (handshake_on_data env cbs) (fun _ c' => orderly c') c.
Proof.
  intros Hc. apply wlp_bind, (fixes_wlp visible); [silently|]. intros r c1 E1.
  assert (Hc1 : unheard c1) by (revert Hc; unfold visible, unheard in *; by injection E1 as -> -> ->).
  destruct (ExpectedVoid.has_value r); [|apply wlp_ret; by left].
  destruct Hc1 as (_ & Hl & Hp). apply wlp_bind. cbn [transition_to_state]. apply wlp_bind, wlp_modify.
  eapply wlp_mono; [apply (fire_phase hears _ (run_calls_phase hears env Henv callback_depth) _ _ (Fresh, false) Live)|].
  - exact (Henv EvOpen).
  - by left.
  - cbn [set_ops log_ write_paused_]. rewrite Hl. by exists [].
  - cbn [set_ops write_paused_]. by rewrite Hp.
  - done.
  - done.
  - intros ? c2 Hc2. apply wlp_ret. right; right. by left.
Qed.

Lemma closing_orderly c : at_phase Live c -> wlp (closing_on_data env cbs) (fun _ c' => orderly c') c.
Proof.
  intros Hc. assert (Hset : forall c', visible c' = visible c -> orderly c').
  { intros c' E. right; right; left. by apply (at_phase_visible _ _ c). }
  apply wlp_bind, (fixes_wlp visible); [silently|]. intros data c1 E1. apply wlp_bind.
  eapply (wlp_mono _ (fun _ => orderly)); [|intros ? c' Hc'; by apply wlp_ret].
  destruct (0 <? _); [|by apply wlp_ret, Hset]. apply wlp_bind, wlp_lift. intros [hs hd] _. unfold when.
  destruct (_ && _); [|by apply wlp_ret, Hset]. apply wlp_bind.
  eapply wlp_mono; [apply (enter_closed_settled Live); [by left|by apply (at_phase_visible _ _ c)]|].
  intros ? c2 Hc2. apply orderly_silent; [silently|by right; right].
Qed.

Lemma on_data_orderly c : orderly c -> wlp (ops_on_data (state_ops env cbs (ops_ c))) (fun _ c' => orderly c') c.
Proof.
  intros Hc. destruct (ops_ c) eqn:Eo; cbn [state_ops ops_on_data kHandshakeOps kOpenOps kClosingOps kClosedOps].
  - apply handshake_orderly. destruct Hc as [Hc|[[E _]|[[_ [E _]]|[_ E]]]]; congruence.
  - destruct Hc as [[E _]|[[E _]|[Hc|[_ E]]]]; try congruence.
    apply wlp_bind. eapply wlp_mono; [by apply parse_frames_settled|]. intros ? c' Hc'. apply wlp_ret. by right; right.
  - destruct Hc as [[E _]|[[E _]|[Hc|[_ E]]]]; try congruence. by apply closing_orderly.
  - by apply wlp_ret.
Qed.

Lemma handle_read_orderly c : orderly c -> wlp (handle_read env cbs) (fun _ c' => orderly c') c.
Proof.
  intros Hc. apply wlp_bind, wlp_gets. destruct (_ =? 0); [apply orderly_silent; [by silently|done]|].
  apply wlp_bind, (fixes_wlp visible).
  { apply fixes_step. intros c0 a c' E. cbv zeta in E. destruct (sys_readv env _ _ _) as [r buf]. by injection E as <- <-. }
  intros res c1 E1. pose proof (orderly_visible _ _ E1 Hc) as Hc1. cbv zeta. destruct (0 <? _).
  - apply wlp_bind, wlp_modify, wlp_bind, (fixes_wlp visible); [unfold touch_activity; by silently|]. intros _ c2 E2.
    apply wlp_bind, wlp_gets, wlp_bind. eapply wlp_mono; [by apply on_data_orderly, (orderly_visible c1)|].
    intros ? c3 Hc3. apply orderly_silent; [by silently|done].
  - apply orderly_silent; [by silently|done].
Qed.

Lemma check_low_orderly c : orderly c -> wlp (check_low_watermark env cbs) (fun _ c' => orderly c') c.
Proof.
  intros Hc. destruct (write_paused_ c) eqn:Ep.
  2: { apply wlp_bind, wlp_gets. rewrite Ep. by apply wlp_ret. }
  destruct Hc as [(_ & _ & E)|[(_ & E & _)|[Hc|[Hc Ec]]]]; [congruence|congruence| |].
  - eapply wlp_mono; [apply (check_low_phase hears env Henv _ (run_calls_phase hears env Henv _) Live); [by left|done]|].
    intros ? c' Hc'. by right; right; left.
  - apply wlp_bind, wlp_gets. unfold when. destruct (_ && _); [|apply wlp_ret; right; right; by right].
    apply wlp_bind, wlp_modify. destruct Hc as (Hl & Hn & Hr). rewrite Ep in Hl.
    pose proof (story_step _ _ (PeerGone, false) _ EvDrain Hl eq_refl) as Hl'. rewrite <- Henv in Hl'. cbn [listens] in Hl'. unfold fire.
    destruct (on_drain (cb env)) as [f|]; cbn in Hl'; [|apply wlp_ret; rewrite app_nil_r in Hl'; right; right; right; by split; [split_and!|]].
    apply wlp_bind, wlp_modify, wlp_bind, wlp_gets. eapply wlp_mono; [by apply run_calls_closed|].
    intros ? c' ->. right; right; right. split; [split_and!; [done|done|by apply reported_log]|done].
Qed.

(** What follows a successful write. *)
Lemma drained_orderly (f : Connection Sock -> Connection Sock) c :
  (forall c, visible (f c) = visible c) -> orderly c ->
  wlp (modify f ;;; check_low_watermark env cbs ;;; set_last_error kOk ;;; ret success) (fun _ c' => orderly c') c.
Proof.
  intros Hf Hc. apply wlp_bind, wlp_modify, wlp_bind.
  eapply wlp_mono; [by apply check_low_orderly, (orderly_visible c)|].
  intros ? c' Hc'. apply orderly_silent; [by silently|done].
Qed.

Lemma handle_write_orderly c : orderly c -> wlp (handle_write env cbs) (fun _ c' => orderly c') c.
Proof.
  intros Hc. apply wlp_bind, wlp_gets. destruct (Ring.empty _); [apply orderly_silent; [by silently|done]|].
  apply wlp_bind, (fixes_wlp visible).
  { apply fixes_step. intros c0 a c' E. destruct (Ring.peek _ _); [|done|done]. by injection E as <- <-. }
  intros temp c1 E1. pose proof (orderly_visible _ _ E1 Hc) as Hc1. apply wlp_bind, wlp_gets.
  destruct (sock_write env _ _) as [n|err]; [by apply drained_orderly|apply orderly_silent; [by silently|done]].
Qed.

Lemma handle_write_vectored_orderly c :
  orderly c -> wlp (handle_write_vectored env cbs) (fun _ c' => orderly c') c.
Proof.
  intros Hc. apply wlp_bind, wlp_gets. destruct (Ring.empty _); [apply orderly_silent; [by silently|done]|].
  apply wlp_bind, wlp_gets. destruct (_ =? 0); [apply orderly_silent; [by silently|done]|].
  apply wlp_bind, (fixes_wlp visible).
  { apply fixes_step. intros c0 a c' E. destruct (Ring.gather _ _); [|done|done]. by injection E as <- <-. }
  intros data c1 E1. pose proof (orderly_visible _ _ E1 Hc) as Hc1. apply wlp_bind, wlp_gets.
  cbv zeta. destruct (0 <? _); [by apply drained_orderly|apply orderly_silent; [by silently|done]].
Qed.

(** A call from outside any callback; in the handshake only [close] acts. *)
Lemma call_orderly call c : orderly c -> wlp (exec_call env cbs call) (fun _ c' => orderly c') c.
Proof.
  intros Hc. destruct (decide (ops_ c = kClosed)) as [Ec|Nc].
  { eapply wlp_mono; [by apply exec_call_closed|]. by intros ? c' ->. }
  destruct Hc as [(Eo & Hl & Hp)|[[E _]|[Hc|[_ E]]]]; [|done| |done].
  - destruct call; cbn [exec_call]; apply wlp_bind, wlp_gets; unfold get_state; rewrite Eo;
      [apply wlp_ret; by left|apply wlp_ret; by left|].
    apply wlp_bind. cbn [transition_to_state]. apply wlp_bind, wlp_modify. unfold fire.
    assert (Hshut : forall c', ops_ c' = kClosed -> write_paused_ c' = false ->
      log_ c' = (if hears (EvClose true) then [EvClose true] else []) -> wlp (socket_close (Sock := Sock)) (fun _ c' => orderly c') c').
    { intros c' E1 E2 E3. apply orderly_silent; [silently|]. right; by left. }
    pose proof (Henv (EvClose true)) as Hh. cbn [listens] in Hh.
    destruct (on_close (cb env)) as [f|]; cbn in Hh; rewrite <- Hh in Hshut; [|by apply wlp_ret, Hshut].
    apply wlp_bind, wlp_modify, wlp_bind, wlp_gets. eapply wlp_mono; [by apply run_calls_closed|].
    intros ? c' ->. apply Hshut; [done|done|]. cbn [add_log set_ops log_]. by rewrite Hl.
  - eapply wlp_mono.
    + apply (exec_call_phase hears env Henv _ (run_calls_phase hears env Henv _) (run_calls_closed env _) Live); [by left|done].
    + intros ? c' Hc'. by right; right; left.
Qed.

End entry.

(** ** Histories *)

Section histories.
Context {Sock : Type} `{TcpSocket Sock} {target : Target}.

(** Connections with the callbacks of [hears] (and any bodies), under any
    events, whatever the system calls do. *)
Inductive served (hears : Event -> bool) : Connection Sock -> Prop :=
| served_new env id fd : served hears (make_connection env id fd)
| served_read env c r c' :
    (forall ev, listens (cb env) ev = hears ev) -> served hears c ->
    handle_read env (run_callback env) c = Ok (r, c') -> served hears c'
| served_write env c r c' :
    (forall ev, listens (cb env) ev = hears ev) -> served hears c ->
    handle_write env (run_callback env) c = Ok (r, c') -> served hears c'
| served_writev env c r c' :
    (forall ev, listens (cb env) ev = hears ev) -> served hears c ->
    handle_write_vectored env (run_callback env) c = Ok (r, c') -> served hears c'
| served_call env call c c' :
    (forall ev, listens (cb env) ev = hears ev) -> served hears c ->
    exec_call env (run_callback env) call c = Ok (tt, c') -> served hears c'.

Lemma served_orderly hears c : served hears c -> orderly hears c.
Proof.
  induction 1 as [env id fd|env c r c' He _ IH E|env c r c' He _ IH E|env c r c' He _ IH E|env call c c' He _ IH E].
  - by left.
  - exact (handle_read_orderly hears env He c IH r c' E).
  - exact (handle_write_orderly hears env He c IH r c' E).
  - exact (handle_write_vectored_orderly hears env He c IH r c' E).
  - exact (call_orderly hears env He call c IH tt c' E).
Qed.

(** The history behind what has been heard. *)
Lemma orderly_story hears (c : Connection Sock) : orderly hears c ->
  exists full ph, protocol full = Some (ph, is_write_paused c) /\ log_ c = heard_of hears full
    /\ (ops_ c = kHandshaking -> log_ c = [])
    /\ (ops_ c = kOpen \/ ops_ c = kClosing -> ph = Live)
    /\ (ph = PeerGone -> ops_ c = kClosed)
    /\ reported hears c.
Proof.
  unfold is_write_paused, reported.
  intros [(E & Hl & Hp)|[(E & Hp & Hl)|[((full & Hf & Hl) & Hn & Hr)|[((full & Hf & Hl) & Hn & Hr) E]]]].
  - exists [], Fresh. rewrite Hl, Hp, E. split_and!; [done|done|done|by intros [|]|done|done].
  - exists [EvClose true], Refused. rewrite Hp, E, Hl. split_and!; [done| |done|by intros [|]|done|].
    + unfold heard_of. rewrite filter_cons, filter_nil. by destruct (hears (EvClose true)).
    + intros _ ->. by left.
  - exists full, Live. by split_and!.
  - exists full, PeerGone. split_and!; [done|done| |by rewrite E; intros [|]|done|done]. by rewrite E.
Qed.

(** C19: the callback history of every connection follows the protocol,
    whichever callbacks are installed: what was heard are the events with a
    callback of a history in which [on_open] is the first and comes once;
    messages come only after it and never after the peer's Close frame has
    been reported, which happens once; [on_backpressure] and [on_drain]
    alternate, starting with the former, and [is_write_paused] says which
    was last; a connection closed in the handshake hears nothing but its
    end; once the peer's Close is reported the connection is closed; and a
    closed connection has been told so, if it has an [on_close].
    When every callback is installed that history is the log itself.
    Nothing is assumed of the system calls. *)
Theorem callback_protocol hears (c : Connection Sock) :
  served hears c ->
  exists full ph, protocol full = Some (ph, is_write_paused c) /\ log_ c = heard_of hears full
    /\ ((forall e, hears e = true) -> log_ c = full)
    /\ (ops_ c = kHandshaking -> log_ c = [])
    /\ (ops_ c = kOpen \/ ops_ c = kClosing -> ph = Live)
    /\ (ph = PeerGone -> ops_ c = kClosed)
    /\ (ops_ c = kClosed -> hears (EvClose true) = true -> EvClose true ∈ log_ c).
Proof.
  intros Hs. destruct (orderly_story _ _ (served_orderly _ _ Hs)) as (full & ph & Hp & Hl & Hrest). exists full, ph.
  split; [done|]. split; [done|]. split; [|exact Hrest]. intros Hh. by rewrite Hl, heard_all.
Qed.

End histories.

#[local] Existing Instances Demo.socket_tcp Demo.socket_laws.
#[local] Instance demo_target : Target := true.

(** The demo session, ended by the peer's Close frame. *)
Definition bye_env := Demo.env_with Demo.echo_callbacks 4 (wire_frame kClose (Some demo_key) []) 100.
Definition c_gone : Connection Demo.Socket := demo_after (handle_read bye_env (run_callback bye_env) c_echoed).

Lemma demo_heard t input room ev : listens (cb (Demo.env_with Demo.echo_callbacks t input room)) ev = true.
Proof. by destruct ev. Qed.

Lemma c_gone_served : served (fun _ => true) c_gone.
Proof.
  apply (served_read _ bye_env c_echoed success); [apply demo_heard| |vm_compute; reflexivity].
  apply (served_read _ msg_env c_sent success); [apply demo_heard| |vm_compute; reflexivity].
  apply (served_writev _ req_env c_open success); [apply demo_heard| |vm_compute; reflexivity].
  apply (served_read _ req_env c_new success); [apply demo_heard|apply served_new|vm_compute; reflexivity].
Qed.

Lemma callback_protocol_witness :
  log_ c_gone = [EvOpen; EvMessage (str "Hello"); EvClose false; EvClose true]
  /\ exists ph, protocol (log_ c_gone) = Some (ph, is_write_paused c_gone).
Proof.
  split; [vm_compute; reflexivity|].
  destruct (callback_protocol (fun _ => true) c_gone c_gone_served) as (full & ph & H & _ & Hl & _). exists ph. rewrite Hl by done. exact H.
Defined.
