(* ===== verification/ConnectionSend.v ===== *)
(** * ConnectionSend: sending, closing, deadlines

    What the user API queues: a frame that a peer's parser reads back, or
    (when the transmit buffer is nearly full) only part of one; the closing
    handshake; the two deadlines; the notifications of a peer's Close. *)
From S2P Require Import Prelude Vocabulary RingBuffer Frame Connection ConnectionApi ConnectionInv ConnectionFrames Handshake ConnectionIo.
Open Scope ewss_scope.
Import Conn Handlers Ws.

Lemma wp_unit {Sock} (m : M Sock unit) (Q : Connection Sock -> Prop) c :
  wp m (fun _ c' => Q c') c -> exists c', m c = Ok (tt, c') /\ Q c'.
Proof. intros ([] & c' & E & HQ)%wp_run. by exists c'. Qed.

Section send.
Context {Sock : Type} `{TcpSocketLaws Sock} {target : Target}.
Variable env : Env Sock.
Implicit Type c : Connection Sock.

Abbreviation cbs := (run_callback env).

Definition send_opcode (binary : bool) : OpCode := if binary then kBinary else kText.

(** [send_impl] on an open connection: append what [write_frame] appends,
    then check the high watermark. *)
Lemma send_impl_open run_body c payload binary (Q : unit -> Connection Sock -> Prop) :
  Ring.wf (tx_buffer_ c) -> ops_ c = kOpen ->
  (forall tx', Ring.wf tx' ->
     Ring.contents tx' = tx_list c ++ frame_appended (send_opcode binary) payload (8192 - zlen (tx_list c)) ->
     wp (check_high_watermark env run_body) Q (set_tx c tx')) ->
  wp (send_impl env run_body payload binary) Q c.
Proof.
  intros Hwf Eop HQ. unfold send_impl, get_state. wp_go. rewrite bool_decide_eq_true_2 by done. cbn [negb].
  wp_step. apply write_frame_spec; [done|]. intros tx' Hwf' Hc. by apply HQ.
Qed.

Lemma check_high_quiet run_body c (Q : unit -> Connection Sock -> Prop) :
  Ring.wf (tx_buffer_ c) -> zlen (tx_list c) <= kTxHighWatermark -> Q tt c ->
  wp (check_high_watermark env run_body) Q c.
Proof.
  intros Hwf Hle HQ. unfold check_high_watermark, when. wp_go. rewrite contents_length in Hle by done.
  unfold Ring.size. destruct (Z.ltb_spec kTxHighWatermark (Ring.count_ (tx_buffer_ c))); [lia|].
  rewrite andb_false_r. by wp_go.
Qed.

(** Whole, header only, or nothing. *)
Lemma frame_appended_cases op payload room :
  let h := header_bytes op (zlen payload) false in
  frame_appended op payload room =
    if zlen h + zlen payload <=? room then encode_frame op payload false
    else if zlen h <=? room then h else [].
Proof.
  cbn zeta. unfold frame_appended, appended_two. rewrite encode_frame_split.
  pose proof (zlen_nonneg payload). zcase; rewrite ?app_nil_r; done.
Qed.

(** A frame that fits below the high watermark is queued whole, and nothing
    else happens. *)
Lemma send_fits run_body c payload binary :
  Ring.wf (tx_buffer_ c) -> ops_ c = kOpen ->
  zlen (tx_list c) + zlen (encode_frame (send_opcode binary) payload false) <= kTxHighWatermark ->
  exists tx', send_impl env run_body payload binary c = Ok (tt, set_tx c tx') /\ Ring.wf tx'
    /\ Ring.contents tx' = tx_list c ++ encode_frame (send_opcode binary) payload false.
Proof.
  intros Hok Eop Hfit. pose proof Hfit as Hfit'. rewrite encode_frame_split, zlen_app in Hfit'.
  unfold kTxHighWatermark, kTxBufferSize in Hfit'. change (8192 * 3 / 4) with 6144 in Hfit'.
  assert (Hs : exists c', send_impl env run_body payload binary c = Ok (tt, c') /\ exists tx', c' = set_tx c tx'
    /\ Ring.wf tx' /\ Ring.contents tx' = tx_list c ++ encode_frame (send_opcode binary) payload false).
  { apply wp_unit, send_impl_open; [done|done|]. intros tx' Hwf Hc. rewrite frame_appended_cases in Hc.
    rewrite (proj2 (Z.leb_le _ _)) in Hc by lia. apply check_high_quiet; [done| |by exists tx'].
    cbn [set_tx tx_buffer_]. by rewrite Hc, zlen_app. }
  destruct Hs as (c' & E & tx' & -> & Hwf & Hc). by exists tx'.
Qed.

(** On a connection that is not open, nothing happens. *)
Lemma send_not_open run_body c payload binary :
  ops_ c <> kOpen -> send_impl env run_body payload binary c = Ok (tt, c).
Proof. intros Hn. unfold send_impl, bind, gets, get_state. cbn [res_bind]. by rewrite bool_decide_eq_false_2. Qed.

(** ** Properties *)

(** C26: sending on an open connection queues, after everything queued
    before, exactly one frame (text or binary) that a peer's parser reads
    back to the same payload, provided it fits below the high watermark;
    nothing else of the connection changes.  On a connection that is not
    open nothing happens at all. *)
Theorem send_queues_frame c payload binary :
  conn_ok c -> zlen (tx_list c) + zlen (encode_frame (send_opcode binary) payload false) <= kTxHighWatermark ->
  (ops_ c <> kOpen -> send_impl env cbs payload binary c = Ok (tt, c))
  /\ (ops_ c = kOpen -> exists tx', send_impl env cbs payload binary c = Ok (tt, set_tx c tx') /\ Ring.wf tx'
        /\ Ring.contents tx' = tx_list c ++ encode_frame (send_opcode binary) payload false
        /\ (bytes_ok payload -> forall rest, next_frame (encode_frame (send_opcode binary) payload false ++ rest)
              = Some (mk_frame (send_opcode binary) payload, rest))).
Proof.
  intros Hok Hfit. split; [apply send_not_open|]. intros Eop.
  destruct (send_fits cbs c payload binary (ok_tx _ Hok) Eop Hfit) as (tx' & E & Hwf & Hc).
  exists tx'. split_and!; try done. intros Hb rest.
  pose proof (next_frame_wire (send_opcode binary) None payload rest) as Hn. unfold wire_frame in Hn.
  rewrite encode_frame_split in *. apply Hn; [by destruct binary| |done|done].
  revert Hfit. unfold kTxHighWatermark, kTxBufferSize. change (8192 * 3 / 4) with 6144. rewrite zlen_app.
  pose proof (zlen_nonneg (tx_list c)). pose proof (zlen_nonneg (header_bytes (send_opcode binary) (zlen payload) false)). lia.
Qed.

(** When the transmit buffer has room for the frame header but not for
    the payload, sending queues the header alone: the stream then announces
    payload bytes that never come (the next frame is read as payload). *)
Theorem send_can_queue_bare_header c payload binary :
  let h := header_bytes (send_opcode binary) (zlen payload) false in
  conn_ok c -> ops_ c = kOpen ->
  zlen (tx_list c) + zlen h <= 8192 < zlen (tx_list c) + zlen h + zlen payload ->
  write_paused_ c = true ->
  exists tx', send_impl env cbs payload binary c = Ok (tt, set_tx c tx') /\ Ring.wf tx'
    /\ Ring.contents tx' = tx_list c ++ h.
Proof.
  cbn zeta. intros Hok Eop Hroom Hp.
  assert (Hs : exists c', send_impl env cbs payload binary c = Ok (tt, c') /\ exists tx', c' = set_tx c tx'
    /\ Ring.wf tx' /\ Ring.contents tx' = tx_list c ++ header_bytes (send_opcode binary) (zlen payload) false).
  { apply wp_unit, send_impl_open; [apply Hok|done|]. intros tx' Hwf Hc. rewrite frame_appended_cases in Hc.
    rewrite (proj2 (Z.leb_gt _ _)), (proj2 (Z.leb_le _ _)) in Hc by lia.
    unfold check_high_watermark. wp_go. cbn [set_tx write_paused_]. rewrite Hp. cbn [negb andb when]. wp_go.
    by exists tx'. }
  destruct Hs as (c' & E & tx' & -> & Hwf & Hc). by exists tx'.
Qed.

(** [close] starts the closing handshake on an open connection (a
    Close frame with the status code is queued if it fits, the state is
    Closing, the deadline is set from now), ends any other live connection
    at once (Closed, socket closed, nothing queued), and does nothing on a
    closed one. *)
Theorem close_by_state c code :
  conn_ok c -> 0 <= code < 65536 ->
  exists c', close env cbs code c = Ok (tt, c') /\ conn_ok c'
    /\ match ops_ c with
       | kOpen => ops_ c' = kClosing /\ closing_at_ c' = now env /\ log_ c' = log_ c
           /\ (zlen (tx_list c) + 4 <= 8192 -> exists b1 b2, tx_list c' = tx_list c ++ [0x88; 2; b1; b2]
                 /\ is_u8 b1 /\ is_u8 b2 /\ be_value [b1; b2] = code)
       | kClosed => c' = c
       | _ => ops_ c' = kClosed /\ sock_is_open (socket_ c') = false /\ tx_buffer_ c' = tx_buffer_ c
       end.
Proof.
  intros Hok Hcode. apply wp_unit. unfold close, get_state. wp_go.
  destruct (ops_ c) eqn:Eop; do 2 (case_bool_decide; try done).
  - apply shut_spec; [done|]. intros c' Hok' _ Ec _ Et _. split_and!; try done. by apply (ok_closed _ Hok').
  - wp_step. apply write_close_frame_spec; [apply Hok|]. intros tx' Hwf Hc. cbn [transition_to_state]. wp_go.
    split; [|split_and!; try done].
    + destruct Hok as [? ? ? ? He ? Ho]. split; cbn; try done; intros _; [apply He; by left|apply Ho; by rewrite Eop].
    + intros Hroom. rewrite frame_appended_cases in Hc. cbn [set_closing_at set_ops set_tx tx_buffer_].
      change (zlen [_; _]) with 2 in Hc. change (zlen (header_bytes kClose 2 false)) with 2 in Hc.
      rewrite (proj2 (Z.leb_le _ _)) in Hc by lia. rewrite Hc, !u8_land_ff.
      exists (Z.shiftr code 8 mod 256), (code mod 256). split; [done|].
      unfold is_u8. rewrite Z.shiftr_div_pow2 by lia. unfold be_value. cbn [foldl].
      change (2 ^ 8) with 256. rewrite (Z.mod_small (code / 256)) by (Z.div_mod_to_equations; lia).
      split_and!; Z.div_mod_to_equations; lia.
  - apply shut_spec; [done|]. intros c' Hok' _ Ec _ Et _. split_and!; try done. by apply (ok_closed _ Hok').
Qed.

(** The deadlines: a connection is overdue exactly when it has been in
    the handshake, or closing, for at least 5001 milliseconds (the elapsed
    time is truncated to milliseconds and must exceed 5000), and a
    connection in another state never is. *)
Theorem deadlines_exact c :
  created_at_ c <= now env < created_at_ c + 2 ^ 63 -> closing_at_ c <= now env < closing_at_ c + 2 ^ 63 ->
  (is_handshake_timed_out env c = true <-> ops_ c = kHandshaking /\ 5001000000 <= now env - created_at_ c)
  /\ (is_close_timed_out env c = true <-> ops_ c = kClosing /\ 5001000000 <= now env - closing_at_ c).
Proof.
  intros Hcr Hcl.
  assert (Hms : forall d, 0 <= d < 2 ^ 63 -> (5000 <? u64 (ms_count d)) = true <-> 5001000000 <= d).
  { intros d Hd. unfold ms_count. rewrite Z.quot_div_nonneg by lia.
    rewrite u64_small by (Z.div_mod_to_equations; lia). rewrite Z.ltb_lt. Z.div_mod_to_equations. lia. }
  unfold is_handshake_timed_out, is_close_timed_out, get_state, kHandshakeTimeout, kCloseTimeout.
  split; (case_bool_decide as E; cbn [negb]; [rewrite Hms by lia|split; [done|by intros []]]);
    (split; [by split|by intros [_ ?]]).
Qed.

(** ** A single control frame in the receive buffer *)

(** When the buffer holds one complete frame and nothing else, the loop
    dispatches it and stops. *)
Lemma parse_single c f (Q : Connection Sock -> Prop) :
  conn_ok c -> ops_ c <> kHandshaking -> next_frame (rx_list c) = Some (f, []) ->
  (forall c1, frame_step env c f c1 ->
     dispatch_frame env cbs (f_op f) (view_of (f_payload f)) c = Ok (negb (is_close f), c1) ->
     forall rx', rx_list (set_rx c1 rx') = [] -> Q (if is_close f then c1 else set_rx c1 rx')) ->
  exists c', parse_frames env cbs c = Ok (tt, c') /\ Q c'.
Proof.
  intros Hok Hn Hf HQ. destruct (iter_frame env c f [] Hok Hf) as (n & Hsz & Hrest & Hit).
  destruct (proj1 (wp_run _ _ _) (dispatch_spec env c f Hok Hn)) as (k & c1 & Ed & -> & Hfs).
  unfold parse_frames, frame_fuel. cbn [parse_frames_loop]. unfold bind at 1. rewrite Hit.
  unfold bind at 1. rewrite Ed. cbn [res_bind].
  destruct (advance_rx_ok c1 n (fs_ok _ _ _ _ Hfs)) as (Hok2 & _ & Erx2); [lia|].
  assert (Enil : rx_list (set_rx c1 (Ring.advance (rx_buffer_ c1) n)) = [])
    by (rewrite Erx2, Hrest; by rewrite (fs_rx _ _ _ _ Hfs)).
  specialize (HQ c1 Hfs Ed _ Enil).
  destruct (is_close f); cbn [negb ret res_bind]; [by exists c1|].
  unfold bind at 1, rx_advance, modify. cbn [ret res_bind].
  cbn [parse_frames_loop]. unfold bind at 1.
  rewrite iter_none; [|done|by rewrite Enil|by rewrite Enil]. cbn [res_bind ret]. eauto.
Qed.

(** A ping is answered: the Pong frame queued for it carries the same
    payload (a peer's parser reads it back), the ping is consumed, and no
    callback is invoked. *)
Theorem ping_answered c key payload :
  conn_ok c -> ops_ c = kOpen -> bytes_ok payload ->
  match key with Some k => length k = 4%nat /\ bytes_ok k | None => True end ->
  rx_list c = wire_frame kPing key payload ->
  zlen (tx_list c) + zlen (encode_frame kPong payload false) <= 8192 ->
  exists c', parse_frames env cbs c = Ok (tt, c')
    /\ rx_list c' = [] /\ log_ c' = log_ c /\ ops_ c' = kOpen
    /\ tx_list c' = tx_list c ++ encode_frame kPong payload false
    /\ next_frame (encode_frame kPong payload false) = Some (mk_frame kPong payload, []).
Proof.
  intros Hok Eop Hb Hkey Erx Hroom. rewrite encode_frame_split, zlen_app in Hroom.
  pose proof (zlen_nonneg (tx_list c)). pose proof (zlen_nonneg (header_bytes kPong (zlen payload) false)).
  pose proof (next_frame_wire kPing key payload []) as Hf. rewrite app_nil_r, <- Erx in Hf.
  pose proof (next_frame_wire kPong None payload []) as Hp. rewrite app_nil_r in Hp.
  apply (parse_single c (mk_frame kPing payload)); [done|congruence|apply Hf; done || lia|].
  intros c1 Hfs Ed rx' Erx'. change (is_close (mk_frame kPing payload)) with false. cbn iota.
  split; [exact Erx'|]. cbn [f_op f_payload dispatch_frame] in Ed.
  assert (Hw : wp (write_frame (view_of payload) kPong) (fun _ c' => exists tx', c' = set_tx c tx'
    /\ Ring.contents tx' = tx_list c ++ encode_frame kPong payload false) c).
  { apply write_frame_spec; [apply Hok|]. intros tx' _ Hc. exists tx'. split; [done|].
    rewrite frame_appended_cases in Hc. by rewrite (proj2 (Z.leb_le _ _)) in Hc by lia. }
  apply wp_run in Hw as ([] & c2 & E & tx' & -> & Hc).
  unfold bind in Ed. rewrite E in Ed. injection Ed as <-. split_and!; try done.
  rewrite encode_frame_split. apply Hp; try done. lia.
Qed.

(** A peer's Close frame is reported to [on_close] twice: once as
    not clean when the frame is handled and once as clean by the transition
    to the closed state. *)
Theorem peer_close_reported_twice c key payload f :
  conn_ok c -> ops_ c = kOpen -> bytes_ok payload -> zlen payload < 2 ^ 64 ->
  match key with Some k => length k = 4%nat /\ bytes_ok k | None => True end ->
  rx_list c = wire_frame kClose key payload ->
  on_close (cb env) = Some f -> (forall c' b, f c' b = []) ->
  exists c', parse_frames env cbs c = Ok (tt, c')
    /\ log_ c' = log_ c ++ [EvClose false; EvClose true]
    /\ ops_ c' = kClosed /\ sock_is_open (socket_ c') = false.
Proof.
  intros Hok Eop Hb Hlen Hkey Erx Hcb Hf0.
  pose proof (next_frame_wire kClose key payload []) as Hf. rewrite app_nil_r, <- Erx in Hf.
  apply (parse_single c (mk_frame kClose payload)); [done|congruence|by apply Hf|].
  intros c1 Hfs Ed rx' _. change (is_close (mk_frame kClose payload)) with true in *. cbn iota.
  pose proof (fs_close _ _ _ _ Hfs eq_refl) as Ecl. pose proof (ok_closed _ (fs_ok _ _ _ _ Hfs) Ecl).
  split_and!; try done. cbn [f_op f_payload dispatch_frame transition_to_state] in Ed. rewrite Hcb in Ed.
  unfold bind, fire, modify, gets, socket_close, ret in Ed. cbn [fmap option_fmap option_map res_bind] in Ed.
  unfold bind, modify in Ed. cbn [res_bind] in Ed. rewrite Hf0 in Ed.
  change (cbs []) with (ret (Sock := Sock) tt) in Ed. cbn [ret res_bind] in Ed. rewrite Hf0 in Ed.
  change (cbs []) with (ret (Sock := Sock) tt) in Ed. cbn [ret res_bind] in Ed.
  injection Ed as <-. cbn. by rewrite <- app_assoc.
Qed.

End send.

(** ** Evaluated examples *)
#[local] Existing Instances Demo.socket_tcp Demo.socket_laws.
#[local] Instance demo_target : Target := true.

(** A transmit buffer that holds [n] bytes. *)
Definition conn_queued (st : ConnectionState) (n : Z) (paused : bool) (rx : bytes) : Connection Demo.Socket :=
  set_paused (set_tx (Demo.conn_with st rx)
    (Ring.mk_ring (replicate (Z.to_nat n) 7 ++ replicate (Z.to_nat (8192 - n)) 0) 0 (n mod 8192) n)) paused.

Lemma conn_queued_list st n paused rx : 0 <= n -> tx_list (conn_queued st n paused rx) = replicate (Z.to_nat n) 7.
Proof.
  intros Hn. unfold conn_queued, Ring.contents, Ring.window; cbn [set_paused set_tx tx_buffer_ Ring.buffer_ Ring.read_idx_ Ring.count_].
  rewrite drop_0, <- app_assoc, take_app_length'; [done|by rewrite length_replicate].
Qed.

Lemma conn_queued_ok st n paused rx :
  0 <= n <= 8192 -> st <> kHandshaking -> (length rx <= 4096)%nat -> bytes_ok rx -> conn_ok (conn_queued st n paused rx).
Proof.
  intros Hn Hst Hl Hb. pose proof (Demo.conn_with_ok st rx Hl Hb) as [? ? ? ? ? ? ?].
  split; try done. split; cbn [conn_queued set_paused set_tx tx_buffer_ Ring.buffer_ Ring.read_idx_ Ring.write_idx_ Ring.count_];
    try lia.
  - rewrite zlen_app. unfold zlen. rewrite !length_replicate. lia.
  - by rewrite Z.add_0_l.
Qed.

Lemma send_queues_frame_witness :
  exists tx', send_impl demo_env (run_callback demo_env) (str "hi") false (conn_queued kOpen 20 false [])
      = Ok (tt, set_tx (conn_queued kOpen 20 false []) tx')
    /\ Ring.contents tx' = replicate (Z.to_nat 20) 7 ++ [0x81; 2; 104; 105].
Proof.
  destruct (send_queues_frame demo_env (conn_queued kOpen 20 false []) (str "hi") false) as [_ H].
  - apply conn_queued_ok; [lia|discriminate|cbn; lia|constructor].
  - rewrite conn_queued_list by lia. vm_compute. discriminate.
  - destruct (H eq_refl) as (tx' & E & _ & Hc & _). exists tx'. split; [exact E|].
    etrans; [exact Hc|]. rewrite conn_queued_list by lia. vm_compute. reflexivity.
Defined.

Lemma send_can_queue_bare_header_witness :
  exists tx', send_impl demo_env (run_callback demo_env) (replicate 100 65) true (conn_queued kOpen 8100 true [])
      = Ok (tt, set_tx (conn_queued kOpen 8100 true []) tx')
    /\ Ring.contents tx' = replicate (Z.to_nat 8100) 7 ++ [0x82; 100].
Proof.
  destruct (send_can_queue_bare_header demo_env (conn_queued kOpen 8100 true []) (replicate 100 65) true) as (tx' & E & _ & Hc).
  - apply conn_queued_ok; [lia|discriminate|cbn; lia|constructor].
  - reflexivity.
  - rewrite conn_queued_list by lia. vm_compute. split; [discriminate|reflexivity].
  - reflexivity.
  - exists tx'. split; [exact E|]. etrans; [exact Hc|].
    rewrite conn_queued_list by lia. vm_compute. reflexivity.
Defined.

Lemma close_by_state_witness :
  exists c', close demo_env (run_callback demo_env) 1000 (conn_queued kOpen 2 false []) = Ok (tt, c')
    /\ ops_ c' = kClosing /\ log_ c' = [].
Proof.
  destruct (close_by_state demo_env (conn_queued kOpen 2 false []) 1000) as (c' & E & _ & Hs & _ & Hl & _).
  - apply conn_queued_ok; [lia|discriminate|cbn; lia|constructor].
  - lia.
  - exists c'. split; [exact E|]. split; [exact Hs|exact Hl].
Defined.

Lemma deadlines_exact_witness :
  let env := Demo.env_with Demo.echo_callbacks 5000999999 [] 0 in
  is_handshake_timed_out env (Demo.conn_with kHandshaking []) = false
  /\ (is_close_timed_out env (Demo.conn_with kClosing []) = true <-> kClosing = kClosing /\ 5001000000 <= 5000999999 - 0).
Proof.
  cbn zeta. split; [vm_compute; reflexivity|].
  apply (deadlines_exact (Demo.env_with Demo.echo_callbacks 5000999999 [] 0) (Demo.conn_with kClosing []));
    split; vm_compute; first [discriminate|reflexivity].
Defined.

Lemma ping_answered_witness :
  exists c', parse_frames demo_env (run_callback demo_env)
      (conn_queued kOpen 3 false (wire_frame kPing (Some demo_key) [1; 2; 3])) = Ok (tt, c')
    /\ tx_list c' = [7; 7; 7; 0x8A; 3; 1; 2; 3].
Proof.
  destruct (ping_answered demo_env (conn_queued kOpen 3 false (wire_frame kPing (Some demo_key) [1; 2; 3]))
    (Some demo_key) [1; 2; 3]) as (c' & E & _ & _ & _ & Ht & _).
  - apply conn_queued_ok; [lia|discriminate|vm_compute; lia|by_decide].
  - reflexivity.
  - by_decide.
  - split; [reflexivity|by_decide].
  - vm_compute. reflexivity.
  - rewrite conn_queued_list by lia. vm_compute. discriminate.
  - exists c'. split; [exact E|]. etrans; [exact Ht|]. rewrite conn_queued_list by lia. vm_compute. reflexivity.
Defined.

Lemma peer_close_reported_twice_witness :
  exists c', parse_frames demo_env (run_callback demo_env)
      (Demo.conn_with kOpen (wire_frame kClose (Some demo_key) [3; 232])) = Ok (tt, c')
    /\ log_ c' = [EvClose false; EvClose true].
Proof.
  destruct (peer_close_reported_twice demo_env (Demo.conn_with kOpen (wire_frame kClose (Some demo_key) [3; 232]))
    (Some demo_key) [3; 232] (fun _ _ => [])) as (c' & E & Hl & _).
  - apply Demo.conn_with_ok; [vm_compute; lia|by_decide].
  - reflexivity.
  - by_decide.
  - vm_compute. reflexivity.
  - split; [reflexivity|by_decide].
  - vm_compute. reflexivity.
  - reflexivity.
  - reflexivity.
  - exists c'. split; [exact E|exact Hl].
Defined.

Lemma api_calls_total_witness :
  exists c', run_callback demo_env [ApiSend (str "a"); ApiClose 1000; ApiClose 1000; ApiSend (str "b")] (conn_queued kOpen 2 false [])
    = Ok (tt, c') /\ log_ c' = [EvClose true].
Proof.
  destruct (api_calls_total demo_env [ApiSend (str "a"); ApiClose 1000; ApiClose 1000; ApiSend (str "b")] (conn_queued kOpen 2 false []))
    as (c' & E & _).
  - apply (conn_queued_ok kOpen 2 false []); [lia|discriminate|cbn; lia|constructor].
  - exists c'. split; [exact E|]. vm_compute in E. injection E as <-. reflexivity.
Defined.
