(* ===== verification/ConnectionStream.v ===== *)
(** * ConnectionStream: what a connection puts on the wire

    The bytes handed to the socket, followed by those still queued, are the
    handshake response and then the frames the connection writes, each whole
    or, when its payload did not fit, reduced to its header; and all of them
    are bytes.  The proofs are in the style of [ConnectionProtocol]: a
    handler [keeps] the invariant whatever it returns. *)
From S2P Require Import Prelude Vocabulary RingBuffer Frame Base64 Connection ConnectionApi ConnectionInv ConnectionFrames Handshake ConnectionIo Fixes ConnectionProtocol ConnectionSend.
Open Scope ewss_scope.
Import Conn Handlers Ws.

(** ** The grammar *)

(** A frame, or the header of a frame whose payload of [len] bytes was left
    out. *)
Inductive Piece := Whole (op : OpCode) (payload : bytes) | Bare (op : OpCode) (len : Z).

Definition piece_bytes (p : Piece) : bytes :=
  match p with
  | Whole op payload => encode_frame op payload false
  | Bare op len => header_bytes op len false
  end.

(** The opcodes the connection writes. *)
Definition written_op (op : OpCode) : Prop := op = kText \/ op = kBinary \/ op = kClose \/ op = kPong.

Definition piece_ok (p : Piece) : Prop :=
  match p with
  | Whole op payload => written_op op /\ bytes_ok payload
  | Bare op len => written_op op /\ 0 < len
  end.

Definition pieces (ps : list Piece) : bytes := mjoin (piece_bytes <$> ps).

(** What the peer has sent so far. *)
Class Received := received_bytes : bytes.

(** [key] is the key of the upgrade request with which the peer began. *)
Definition asked_for {got : Received} (key : bytes) : Prop :=
  exists asked later head, received_bytes = asked ++ later /\ upgrade_request (take 1024 asked) head key.

(** Nothing before the handshake is complete; then the response to the
    peer's key and the pieces. *)
Definition stream_ok {Sock} {got : Received} (c : Connection Sock) : Prop :=
  if handshake_completed_ c
  then exists key ps, asked_for key /\ Forall piece_ok ps /\ stream c = response_to key ++ pieces ps
  else stream c = [].

Lemma piece_bytes_ok p : piece_ok p -> bytes_ok (piece_bytes p).
Proof.
  destruct p as [op payload|op len]; intros [_ Hp]; cbn [piece_bytes]; [|apply header_bytes_ok].
  rewrite encode_frame_split. apply Forall_app. by split; [apply header_bytes_ok|].
Qed.

Lemma pieces_ok ps : Forall piece_ok ps -> bytes_ok (pieces ps).
Proof.
  induction 1 as [|p ps Hp _ IH]; [by constructor|]. apply Forall_app. by split; [apply piece_bytes_ok|].
Qed.

Lemma response_ok key : bytes_ok (response_to key).
Proof.
  unfold response_to, handshake_response. rewrite c_str_id by apply encode_printable.
  assert (bytes_ok (accept_value key)).
  { eapply Forall_impl; [apply encode_printable|]. cbn. unfold is_u8. lia. }
  rewrite !Forall_app. split_and!; (assumption || by_decide).
Qed.

Lemma stream_ok_bytes {Sock} {got : Received} (c : Connection Sock) : stream_ok c -> bytes_ok (stream c).
Proof.
  unfold stream_ok. destruct (handshake_completed_ c); [|by intros ->].
  intros (key & ps & _ & Hps & ->). apply Forall_app. split; [apply response_ok|by apply pieces_ok].
Qed.

(** What [write_frame] appends is a piece or nothing. *)
Lemma frame_appended_piece op payload room :
  written_op op -> bytes_ok payload -> exists ps, Forall piece_ok ps /\ frame_appended op payload room = pieces ps.
Proof.
  intros Hop Hb. rewrite frame_appended_cases. cbn zeta.
  destruct (Z.leb_spec (zlen (header_bytes op (zlen payload) false) + zlen payload) room).
  { exists [Whole op payload]. split; [by apply Forall_singleton|]. unfold pieces. cbn. by rewrite app_nil_r. }
  destruct (Z.leb_spec (zlen (header_bytes op (zlen payload) false)) room); [|by exists []].
  exists [Bare op (zlen payload)]. split; [|unfold pieces; cbn; by rewrite app_nil_r].
  apply Forall_singleton. split; [done|lia].
Qed.

(** ** The invariant *)

(** What applications must provide: payloads that are bytes. *)
Definition call_ok (call : ApiCall) : Prop :=
  match call with ApiSend payload | ApiSendBinary payload => bytes_ok payload | ApiClose _ => True end.

Definition event_ok (e : Event) : Prop := match e with EvMessage msg => bytes_ok msg | _ => True end.

Record callbacks_ok {Sock} (cbs : Callbacks Sock) : Prop := {
  cbs_open : forall f, on_open cbs = Some f -> forall c, Forall call_ok (f c);
  cbs_message : forall f, on_message cbs = Some f -> forall c msg, bytes_ok msg -> Forall call_ok (f c msg);
  cbs_close : forall f, on_close cbs = Some f -> forall c b, Forall call_ok (f c b);
  cbs_backpressure : forall f, on_backpressure cbs = Some f -> forall c, Forall call_ok (f c);
  cbs_drain : forall f, on_drain cbs = Some f -> forall c, Forall call_ok (f c);
}.

Record sound {Sock} {got : Received} (c : Connection Sock) : Prop := {
  so_tx : Ring.wf (tx_buffer_ c);
  so_rx : Ring.wf (rx_buffer_ c);
  so_rx_bytes : bytes_ok (rx_list c);
  so_open : ops_ c = kOpen -> handshake_completed_ c = true;
  so_stream : stream_ok c;
  so_log : Forall event_ok (log_ c);
  so_waiting : handshake_completed_ c = false -> rx_list c = received_bytes;
}.

Definition live_if {Sock} (live : bool) (c : Connection Sock) : Prop := live = true -> handshake_completed_ c = true.

(** A handler keeps the invariant, and does not undo the handshake; with
    [live] it is only run after the handshake. *)
Definition kept {Sock} {got : Received} (c c' : Connection Sock) : Prop :=
  sound c' /\ (handshake_completed_ c = true -> handshake_completed_ c' = true).
Definition keeps {Sock A} {got : Received} (live : bool) (m : M Sock A) : Prop :=
  forall c, sound c -> live_if live c -> wlp m (fun _ c' => kept c c') c.

(** What the invariant looks at. *)
Definition seen {Sock} (c : Connection Sock) :=
  (tx_buffer_ c, rx_buffer_ c, ops_ c, handshake_completed_ c, wire_ c, log_ c).

Create HintDb keeps.

Section rules.
Context {Sock : Type} {got : Received}.
Implicit Type c : Connection Sock.

Lemma sound_seen c c' : seen c' = seen c -> sound c -> kept c c'.
Proof.
  unfold seen. intros [= Et Er Eo Eh Ew El] []. split; [|congruence].
  split; unfold stream_ok, stream in *; rewrite ?Et, ?Er, ?Eo, ?Eh, ?Ew, ?El; done.
Qed.

Lemma kept_refl c : sound c -> kept c c.
Proof. by apply sound_seen. Qed.
Lemma kept_trans c1 c2 c3 : kept c1 c2 -> kept c2 c3 -> kept c1 c3.
Proof. intros [_ H12] [? H23]. split; auto. Qed.

Lemma ret_kept {A} (a : A) c : sound c -> wlp (ret a) (fun _ c' => kept c c') c.
Proof. intros Hc. by apply wlp_ret, kept_refl. Qed.

Lemma keeps_bind {A B} live (m : M Sock A) (k : A -> M Sock B) :
  keeps live m -> (forall a, keeps live (k a)) -> keeps live (bind m k).
Proof.
  intros Hm Hk c Hc Hl. apply wlp_bind. eapply wlp_mono; [by apply Hm|]. intros a c1 H1.
  eapply wlp_mono; [apply Hk; [apply H1|intros E; by apply H1, Hl]|]. intros b c2 H2. by apply kept_trans with c1.
Qed.
Lemma keeps_ret {A} live (a : A) : keeps live (ret (Sock := Sock) a).
Proof. intros c Hc _. apply wlp_ret. by apply kept_refl. Qed.
Lemma keeps_gets {A} live (f : Connection Sock -> A) : keeps live (gets f).
Proof. intros c Hc _. apply wlp_gets. by apply kept_refl. Qed.
Lemma keeps_lift {A} live (r : Res A) : keeps live (lift (Sock := Sock) r).
Proof. intros c Hc _. apply wlp_lift. intros a _. by apply kept_refl. Qed.
Lemma keeps_same live f : (forall c, seen (f c) = seen c) -> keeps live (modify (Sock := Sock) f).
Proof. intros Hf c Hc _. apply wlp_modify. by apply sound_seen. Qed.
Lemma keeps_live {A} (m : M Sock A) : keeps false m -> keeps true m.
Proof. intros Hm c Hc _. by apply Hm. Qed.

(** Leaving the open state, or entering it after the handshake. *)
Lemma keeps_ops live st : st <> kOpen -> keeps live (modify (fun c => set_ops c st) : M Sock unit).
Proof. intros Hn c [] _. apply wlp_modify. by split; [split|]. Qed.

Lemma sound_log c e : event_ok e -> sound c -> kept c (add_log c e).
Proof.
  intros He []. split; [|done]. split; try done. cbn. apply Forall_app. split; [done|]. by apply Forall_singleton.
Qed.

End rules.

#[export] Hint Resolve keeps_ret keeps_gets keeps_lift : keeps.

(** Walk through a handler made of steps that keep the invariant. *)
Ltac keeping :=
  repeat match goal with
  | |- forall _, _ => intro
  | |- keeps _ (bind _ _) => apply keeps_bind
  | |- keeps _ (let '(_, _) := ?p in _) => destruct p
  | |- keeps _ (if ?b then _ else _) => destruct b
  | |- keeps _ (match ?x with _ => _ end) => destruct x
  | |- keeps _ (modify _) => apply keeps_same; reflexivity
  | |- keeps _ _ => solve [auto with keeps nocore]
  end.

Section steps.
Context {Sock : Type} `{TcpSocket Sock} {target : Target} {got : Received}.
Implicit Type c : Connection Sock.

Lemma keeps_rx_advance n : 0 <= n -> keeps (Sock := Sock) true (rx_advance n).
Proof.
  intros Hn c [] Hl. apply wlp_modify. destruct (advance_spec (rx_buffer_ c) n) as [Hwf Hc]; [done|done|].
  split; [|done]. split; try done; cbn; [rewrite Hc; by apply Forall_drop|]. by rewrite Hl.
Qed.
Lemma keeps_set_last_error live e : keeps (Sock := Sock) live (set_last_error e).
Proof. unfold set_last_error. keeping. Qed.
Lemma keeps_socket_close live : keeps (Sock := Sock) live socket_close.
Proof. unfold socket_close. keeping. Qed.

(** Bytes peeked are bytes. *)
Lemma wlp_rx_peek n c : 0 <= n -> sound c -> wlp (rx_peek n) (fun l c' => c' = c /\ bytes_ok l) c.
Proof.
  intros Hn [] l c'. unfold rx_peek. rewrite peek_spec by done. cbn [res_bind]. intros [= <- <-].
  split; [done|]. by apply Forall_take.
Qed.

(** ** Writing *)

Lemma kept_append c tx' ps :
  sound c -> handshake_completed_ c = true -> Ring.wf tx' -> Ring.contents tx' = tx_list c ++ pieces ps ->
  Forall piece_ok ps -> kept c (set_tx c tx').
Proof.
  intros [] Hl Hwf Hc Hps. split; [|done]. split; try done.
  unfold stream_ok, stream in *. cbn [set_tx handshake_completed_ wire_ tx_buffer_].
  rewrite Hl in *. destruct so_stream0 as (key & ps0 & Hk & Hps0 & E). exists key, (ps0 ++ ps).
  split; [done|]. split; [by apply Forall_app|].
  unfold pieces in *. by rewrite Hc, fmap_app, join_app, !app_assoc, E.
Qed.

Lemma wlp_tx_push data c (Q : bool -> Connection Sock -> Prop) :
  Ring.wf (tx_buffer_ c) ->
  (forall (b : bool) tx', Ring.wf tx' -> Ring.contents tx' = tx_list c ++ (if b then data else []) -> Q b (set_tx c tx')) ->
  wlp (tx_push data) Q c.
Proof.
  intros Hwf HQ b c'. unfold tx_push. destruct (ring_push_spec (tx_buffer_ c) data Hwf) as (tx' & E & Hwf' & Hc).
  rewrite E. cbn [res_bind]. intros [= <- <-]. apply HQ; [done|]. rewrite Hc. unfold QueueSpec.push.
  destruct (_ <=? _); cbn; [done|by rewrite app_nil_r].
Qed.

Lemma pieces_one p : pieces [p] = piece_bytes p.
Proof. unfold pieces. cbn. by rewrite app_nil_r. Qed.

Lemma keeps_write_frame v op c :
  sound c -> handshake_completed_ c = true -> written_op op -> bytes_ok (sv_mem v) -> 0 <= sv_size v ->
  wlp (write_frame v op) (fun _ c' => kept c c') c.
Proof.
  intros Hc Hl Hop Hmem Hsz. pose proof (kept_append c) as Happ. unfold write_frame. apply wlp_bind, wlp_lift. intros [buf hl] E.
  rewrite encode_frame_header_spec in E by (vm_compute; discriminate). remember (header_bytes op (sv_size v) false) as h eqn:Eh.
  injection E as <- <-. cbn beta iota. rewrite take_header.
  apply wlp_bind, wlp_tx_push; [apply Hc|]. intros b tx1 Hwf1 Hc1.
  destruct b; cbn [negb]; [|apply wlp_ret; by apply (Happ tx1 [])].
  destruct (Z.eqb_spec (sv_size v) 0) as [E0|Hn]; cbn [negb].
  { apply wlp_ret, (Happ tx1 [Whole op []]); [done..| |]; rewrite ?pieces_one; cbn [piece_bytes].
    - by rewrite Hc1, Eh, E0, encode_frame_split, app_nil_r.
    - apply Forall_singleton. by split. }
  assert (Hbare : kept c (set_tx c tx1)).
  { apply (Happ tx1 [Bare op (sv_size v)]); [done..|by rewrite pieces_one, Hc1, Eh|]. apply Forall_singleton. split; [done|lia]. }
  apply wlp_bind, wlp_bind, wlp_gets. destruct (_ <? _); [apply wlp_ret; by apply wlp_ret|].
  apply wlp_bind, wlp_lift. intros data Ed. unfold view_bytes in Ed.
  destruct (Z.leb_spec (sv_size v) (zlen (sv_mem v))); [|done]. injection Ed as <-.
  apply wlp_tx_push; [done|]. intros b tx2 Hwf2 Hc2. apply wlp_ret. change (set_tx (set_tx c tx1) tx2) with (set_tx c tx2).
  cbn [set_tx tx_buffer_] in Hc2. destruct b.
  - apply (Happ tx2 [Whole op (take (Z.to_nat (sv_size v)) (sv_mem v))]); [done..| |].
    + rewrite pieces_one. cbn [piece_bytes]. rewrite encode_frame_split, Hc2, Hc1, Eh, <- app_assoc. do 3 f_equal. len.
    + apply Forall_singleton. split; [done|]. by apply Forall_take.
  - apply (Happ tx2 [Bare op (sv_size v)]); [done..|by rewrite pieces_one, Hc2, Hc1, Eh, app_nil_r|].
    apply Forall_singleton. split; [done|lia].
Qed.

Lemma keeps_write_close_frame code : keeps (Sock := Sock) true (write_close_frame code).
Proof.
  intros c Hc Hl. specialize (Hl eq_refl).
  assert (Hw : wp (write_close_frame code) (fun _ c' => kept c c') c).
  { apply write_close_frame_spec; [apply Hc|]. intros tx' Hwf Ht.
    destruct (frame_appended_piece kClose [u8 (Z.land (Z.shiftr code 8) 0xFF); u8 (Z.land code 0xFF)]
      (8192 - zlen (tx_list c))) as (ps & Hps & E); [by right; right; left|by repeat constructor; apply u8_range|].
    apply (kept_append c tx' ps); try done. by rewrite Ht, E. }
  intros [] c' E. unfold wp in Hw. by rewrite E in Hw.
Qed.

End steps.

#[export] Hint Resolve keeps_set_last_error keeps_socket_close keeps_write_close_frame : keeps.

(** ** API calls and callbacks *)
Section api.
Context {Sock : Type} `{TcpSocket Sock} {target : Target} {got : Received}.
Variable env : Env Sock.
Hypothesis Hcbs : callbacks_ok (cb env).
Implicit Type c : Connection Sock.

Section body.
Variable run_body : list ApiCall -> M Sock unit.
Hypothesis Hbody : forall calls, Forall call_ok calls -> keeps false (run_body calls).

Lemma keeps_fire live ev f :
  event_ok ev -> (forall g, f = Some g -> forall c, Forall call_ok (g c)) -> keeps live (fire run_body ev f).
Proof.
  intros He Hf c Hc Hl. unfold fire. destruct f as [g|]; [|by apply ret_kept].
  apply wlp_bind, wlp_modify, wlp_bind, wlp_gets. pose proof (sound_log c ev He Hc) as Hlog.
  eapply wlp_mono; [apply Hbody; [by apply Hf|apply Hlog|done]|]. intros ? c' Hc'. by apply kept_trans with (add_log c ev).
Qed.

Lemma keeps_check_high live : keeps live (check_high_watermark env run_body).
Proof.
  unfold check_high_watermark, when. keeping. apply keeps_fire; [done|]. intros g E. by apply (cbs_backpressure _ Hcbs).
Qed.
Lemma keeps_check_low live : keeps live (check_low_watermark env run_body).
Proof.
  unfold check_low_watermark, when. keeping. apply keeps_fire; [done|]. intros g E. by apply (cbs_drain _ Hcbs).
Qed.

Lemma close_calls b g :
  (fun (f : Connection Sock -> bool -> list ApiCall) c => f c b) <$> on_close (cb env) = Some g ->
  forall c, Forall call_ok (g c).
Proof.
  destruct (on_close (cb env)) as [f|] eqn:E; [|done]. intros [= <-] c. by apply (cbs_close _ Hcbs).
Qed.

Lemma keeps_leave live st : st = kClosing \/ st = kClosed -> keeps live (transition_to_state env run_body st).
Proof.
  intros [-> | ->]; cbn [transition_to_state]; apply keeps_bind.
  - by apply keeps_ops.
  - intros []. keeping.
  - by apply keeps_ops.
  - intros []. apply keeps_fire; [done|apply close_calls].
Qed.

Lemma keeps_send payload binary : bytes_ok payload -> keeps false (send_impl env run_body payload binary).
Proof.
  intros Hb c Hc _. apply wlp_bind, wlp_gets. unfold get_state. case_bool_decide as E; cbn [negb]; [|by apply ret_kept].
  apply wlp_bind. eapply wlp_mono.
  - apply keeps_write_frame; [done|by apply Hc|destruct binary; [by right; left|by left]|done|apply zlen_nonneg].
  - intros ? c1 H1. eapply wlp_mono; [apply (keeps_check_high false); [apply H1|done]|]. intros ? c2 H2. by apply kept_trans with c1.
Qed.

Lemma keeps_exec_call call : call_ok call -> keeps false (exec_call env run_body call).
Proof.
  intros Hcall. destruct call as [p|p|code]; [by apply keeps_send|by apply keeps_send|]. cbn [exec_call].
  intros c Hc Hl. apply wlp_bind, wlp_gets. unfold get_state. case_bool_decide; [by apply ret_kept|].
  case_bool_decide as E.
  - assert (Hk : keeps (Sock := Sock) true (write_close_frame code ;;; transition_to_state env run_body kClosing)).
    { apply keeps_bind; [auto with keeps|]. intros _. apply keeps_leave. by left. }
    apply Hk; [done|]. intros _. by apply Hc.
  - assert (Hk : keeps (Sock := Sock) false (transition_to_state env run_body kClosed ;;; socket_close)).
    { apply keeps_bind; [|auto with keeps]. apply keeps_leave. by right. }
    by apply Hk.
Qed.

End body.

Lemma keeps_run_calls depth : forall calls, Forall call_ok calls -> keeps false (run_calls env depth calls).
Proof.
  induction depth as [|d IHd]; intros calls Hc; destruct Hc as [|call calls Hc Hcs]; cbn [run_calls]; [keeping|keeping| |].
  { cbn [foldr]. keeping. }
  assert (Hall : Forall call_ok (call :: calls)) by (by constructor).
  clear Hc Hcs. induction Hall as [|a l Ha _ IH]; cbn [foldr]; [keeping|].
  apply keeps_bind; [|done]. by apply keeps_exec_call.
Qed.

Abbreviation cbs := (run_callback env).

Lemma keeps_callback live ev f :
  event_ok ev -> (forall g, f = Some g -> forall c, Forall call_ok (g c)) -> keeps live (fire cbs ev f).
Proof. apply keeps_fire, keeps_run_calls. Qed.

(** ** Received data *)

Lemma keeps_dispatch op v :
  bytes_ok (sv_mem v) -> 0 <= sv_size v -> keeps true (dispatch_frame env cbs op v).
Proof.
  intros Hmem Hsz.
  assert (Hmsg : keeps true (match on_message (cb env) with
    | None => ret true
    | Some f => let* msg := lift (view_bytes v) in
        fire cbs (EvMessage msg) (Some (fun c => f c msg)) ;;; ret true
    end)).
  { destruct (on_message (cb env)) as [f|] eqn:Ef; [|keeping]. intros c Hc Hl. apply wlp_bind, wlp_lift.
    intros msg Em. assert (bytes_ok msg).
    { unfold view_bytes in Em. destruct (_ <=? _); [|done]. injection Em as <-. by apply Forall_take. }
    assert (Hk : keeps true (fire cbs (EvMessage msg) (Some (fun c => f c msg)) ;;; ret true)).
    { apply keeps_bind; [|intros; auto with keeps]. apply keeps_callback; [done|]. intros g [= <-] c0. by apply (cbs_message _ Hcbs). }
    by apply Hk. }
  destruct op; cbn [dispatch_frame]; try exact Hmsg; try (by apply keeps_ret).
  - apply keeps_bind; [apply keeps_callback; [done|apply close_calls]|]. intros _.
    apply keeps_bind; [apply keeps_leave; [apply keeps_run_calls|by right]|]. keeping.
  - apply keeps_bind; [|keeping]. intros c Hc Hl. apply keeps_write_frame; auto. by right; right; right.
Qed.

(** What the frame parser computes is typed. *)
Lemma parse_header_len data n hd :
  bytes_ok data -> parse_frame_header data uninit_header = Ok (n, hd) -> n <> 0 -> 0 <= payload_len hd.
Proof.
  intros Hd. destruct data as [|d0 [|d1 r]]; [by intros [= <- <-]|by intros [= <- <-]|].
  destruct (parse_frame_header_spec d0 d1 r uninit_header Hd) as (hd' & -> & Hs). intros [= <- <-] Hn.
  destruct (Z.ltb_spec (zlen r + 2) (header_need d1)); [done|]. rewrite Hs by done. cbn.
  apply header_len_nonneg. apply Forall_cons in Hd as [_ [_ Hr]%Forall_cons]. done.
Qed.

Lemma unmask_bytes mem key i len r : bytes_ok mem -> unmask_loop mem key i len = Ok r -> bytes_ok r.
Proof.
  intros Hm. revert i r. induction Hm as [|b mem Hb Hm IH]; intros i r; cbn [unmask_loop]; destruct (len <=? i);
    [by intros [= <-]|done|intros [= <-]; by constructor|].
  destruct (at_ key (i mod 4)) as [k| |]; [|done|done]. cbn [res_bind].
  destruct (unmask_loop mem key (i + 1) len) as [rest| |] eqn:E; [|done|done]. intros [= <-].
  constructor; [apply u8_range|by eapply IH].
Qed.

Lemma keeps_iter : keeps true (parse_frames_iter env cbs).
Proof.
  intros c Hc Hl. apply wlp_bind. eapply wlp_mono; [by apply wlp_rx_peek|]. intros temp c0 [-> Ht]. cbn beta zeta.
  destruct (_ =? 0); [by apply ret_kept|]. apply wlp_bind, wlp_lift. intros [hs hd] Eh.
  destruct (Z.eqb_spec hs 0) as [|Hn]; [by apply ret_kept|]. destruct (_ <? _); [by apply ret_kept|].
  pose proof (parse_header_len _ _ _ Ht Eh Hn) as Hlen.
  set (m := if masked hd then _ else _).
  assert (Hm : wlp m (fun mem c' => c' = c /\ bytes_ok mem) c).
  { unfold m. destruct (masked hd); [apply wlp_lift; intros mem Em|apply wlp_ret]; (split; [done|]).
    - eapply unmask_bytes; [|exact Em]. by apply Forall_drop.
    - by apply Forall_drop. }
  apply wlp_bind. eapply wlp_mono; [exact Hm|]. intros mem ? [-> Hmem].
  assert (Hk : keeps true (let* continue := dispatch_frame env cbs (opcode hd) (mk_view mem (payload_len hd)) in
    if negb continue then ret false else rx_advance (u64 (hs + payload_len hd)) ;;; ret true)).
  { apply keeps_bind; [by apply keeps_dispatch|]. intros go. destruct (negb go); [keeping|].
    apply keeps_bind; [|keeping]. apply keeps_rx_advance. pose proof (u64_range (hs + payload_len hd)). unfold is_u64 in *. lia. }
  by apply Hk.
Qed.

Lemma keeps_parse_frames : keeps true (parse_frames env cbs).
Proof.
  unfold parse_frames. generalize frame_fuel. intros fuel. induction fuel as [|fuel IH]; cbn [parse_frames_loop]; [keeping|].
  apply keeps_bind; [apply keeps_iter|]. intros [|]; [done|keeping].
Qed.

Lemma keeps_closing : keeps false (closing_on_data env cbs).
Proof.
  intros c Hc Hl. apply wlp_bind. eapply wlp_mono; [by apply wlp_rx_peek|]. intros temp c0 [-> _].
  assert (Hk : keeps (Sock := Sock) false ((if 0 <? zlen temp then
     let* (header_size, header) := lift (parse_frame_header temp uninit_header) in
     when ((0 <? header_size) && bool_decide (opcode header = kClose))
       (transition_to_state env cbs kClosed ;;; socket_close)
     else ret tt) ;;; ret success)).
  { unfold when. keeping. apply keeps_leave; [apply keeps_run_calls|by right]. }
  by apply Hk.
Qed.

End api.

(** ** The reactor entry points *)
Section entry.
Context {Sock : Type} `{TcpSocketLaws Sock} {target : Target} {got : Received}.
Variable env : Env Sock.
Hypothesis Hcbs : callbacks_ok (cb env).
Implicit Type c : Connection Sock.
Abbreviation cbs := (run_callback env).

Lemma handshaken_kept c n key tx' :
  conn_ok c -> sound c -> ops_ c = kHandshaking -> handshake_verdict (peeked c) = Some (n, key) ->
  Ring.wf tx' -> Ring.contents tx' = response_to key -> kept c (handshaken c n tx').
Proof.
  intros Hok [] Eo Hv Hwf Ht. destruct (ok_handshaking _ Hok Eo) as [Eh Etx].
  destruct (verdict_bounds _ _ _ Hv) as (Hn & _); [by apply Forall_take|].
  destruct (verdict_upgrade_request _ _ _ Hv) as (head & Hreq & _).
  destruct (advance_spec (rx_buffer_ c) n) as [Hwfr Hcr]; [done|lia|].
  split; [|done]. split; cbn; try done.
  - rewrite Hcr. by apply Forall_drop.
  - unfold stream_ok, stream in *. rewrite Eh, Etx, app_nil_r in so_stream0. cbn. rewrite so_stream0, Ht.
    exists key, []. split; [|by rewrite app_nil_r]. exists received_bytes, [], head. rewrite app_nil_r. split; [done|].
    unfold peeked in Hreq. by rewrite so_waiting0 in Hreq.
Qed.

Lemma handshake_kept c :
  conn_ok c -> sound c -> ops_ c = kHandshaking -> wlp (handshake_on_data env cbs) (fun _ c' => kept c c') c.
Proof.
  intros Hok Hc Eo. pose proof (parse_handshake_spec c Hok (proj2 (ok_handshaking _ Hok Eo))) as Hout. unfold handshake_outcome in Hout.
  apply wlp_bind. destruct (handshake_verdict (peeked c)) as [[n key]|] eqn:Ev.
  - destruct Hout as (tx' & E & Hwf & Ht). intros r c1 E1. rewrite E in E1. injection E1 as <- <-.
    pose proof (handshaken_kept c n key tx' Hok Hc Eo Ev Hwf Ht) as Hk. cbn [ExpectedVoid.has_value success].
    apply wlp_bind. cbn [transition_to_state]. apply wlp_bind, wlp_modify.
    assert (Hk2 : kept c (set_ops (handshaken c n tx') kOpen)) by (destruct Hk as [[] ?]; by split; [split|]).
    eapply wlp_mono; [apply (keeps_callback env Hcbs false); [done|by apply (cbs_open _ Hcbs)|apply Hk2|done]|].
    intros ? c2 H2. apply wlp_ret. by eapply kept_trans.
  - destruct Hout as (c1 & E & Hc1). intros r c2 E2. rewrite E in E2. injection E2 as <- <-. apply wlp_ret.
    destruct Hc1 as [-> | ->]; by apply sound_seen.
Qed.

Lemma on_data_kept c :
  conn_ok c -> sound c -> wlp (ops_on_data (state_ops env cbs (ops_ c))) (fun _ c' => kept c c') c.
Proof.
  intros Hok Hc. destruct (ops_ c) eqn:Eo; cbn [state_ops ops_on_data kHandshakeOps kOpenOps kClosingOps kClosedOps].
  - by apply handshake_kept.
  - assert (Hk : keeps (Sock := Sock) true (open_on_data env cbs)).
    { apply keeps_bind; [by apply keeps_parse_frames|keeping]. }
    apply Hk; [done|]. intros _. by apply Hc.
  - by apply (keeps_closing env Hcbs).
  - by apply ret_kept.
Qed.

End entry.

(** More bytes of the peer. *)
Lemma asked_more {got : Received} data key : asked_for key -> asked_for (got := received_bytes ++ data) key.
Proof. intros (asked & later & head & E & Hr). exists asked, (later ++ data), head. by rewrite app_assoc, <- E. Qed.

Lemma received_sound {Sock} `{TcpSocket Sock} {got : Received} (c c' : Connection Sock) data :
  sound c -> received c data c' -> handshake_completed_ c' = handshake_completed_ c -> wire_ c' = wire_ c ->
  sound (got := received_bytes ++ data) c'.
Proof.
  intros [] (Hok & _ & Erx & Eo & El & Etx) Eh Ew. split; rewrite ?Etx, ?El, ?Eo, ?Eh; try done; [apply Hok|apply Hok| |].
  - unfold stream_ok, stream in *. rewrite Eh, Ew, Etx. destruct (handshake_completed_ c); [|done].
    destruct so_stream0 as (key & ps & Hk & Hps). exists key, ps. split; [by apply asked_more|done].
  - intros Hn. by rewrite Erx, so_waiting0.
Qed.

Section entry.
Context {Sock : Type} `{TcpSocketLaws Sock} {target : Target} {got : Received}.
Variable env : Env Sock.
Hypothesis Hcbs : callbacks_ok (cb env).
Implicit Type c : Connection Sock.
Abbreviation cbs := (run_callback env).

Lemma handle_read_kept c data :
  conn_ok c -> sound c -> readv_delivers env c data ->
  wlp (handle_read env cbs) (fun _ c' => kept (got := received_bytes ++ data) c c') c.
Proof.
  intros Hok Hc (Hd & Hl & Hbuf & Hn). apply wlp_bind, wlp_gets.
  assert (Hnone : forall m : M Sock expected, data = [] -> keeps false m -> wlp m (fun _ c' => kept (got := received_bytes ++ data) c c') c).
  { intros m -> Hm. rewrite app_nil_r. by apply Hm. }
  destruct (Z.eqb_spec (zlen (Ring.fill_iovec_write (rx_buffer_ c) 2)) 0) as [E0|_].
  { apply Hnone; [|keeping]. destruct (Ring.fill_iovec_write _ _); [|rewrite zlen_cons in E0; pose proof (zlen_nonneg l); lia].
    destruct data; [done|]. rewrite zlen_cons in Hl. pose proof (zlen_nonneg data). cbn in Hl. lia. }
  apply wlp_bind. intros res c1 E. cbv beta zeta in E. destruct (sys_readv env _ _ _) as [r buf] eqn:Er. cbn [fst snd] in *. subst buf.
  injection E as <- <-. cbv zeta. destruct (Z.ltb_spec 0 (sys_n r)) as [Hpos|Hneg].
  - rewrite bool_decide_eq_false_2 in Hn by (intros ->; cbn in Hn; lia). rewrite Hn.
    apply wlp_bind, wlp_modify. cbn [set_rx rx_buffer_].
    pose proof (commit_received env c data Hok Hd Hl) as Hrec. cbn zeta in Hrec.
    apply wlp_bind. unfold touch_activity. apply wlp_modify. cbn [set_rx rx_buffer_] in *. set (c2 := set_last_activity _ _) in *.
    pose proof (received_sound c c2 data Hc Hrec eq_refl eq_refl) as Hc2. pose proof (proj1 Hrec) as Hok2.
    apply wlp_bind, wlp_gets, wlp_bind. eapply wlp_mono; [by apply (on_data_kept (got := received_bytes ++ data) env Hcbs)|]. intros ? c3 Hc3.
    assert (Hk : keeps (Sock := Sock) (got := received_bytes ++ data) false (set_last_error kOk ;;; ret success)) by keeping.
    eapply wlp_mono; [apply Hk; [apply Hc3|done]|]. intros ? c4 Hc4. by apply (kept_trans c2 c3 c4).
  - destruct (bool_decide (data = [])) eqn:Ed.
    2: { pose proof (zlen_nonneg data). apply bool_decide_eq_false in Ed. destruct data; [done|]. rewrite zlen_cons in *.
         pose proof (zlen_nonneg data). lia. }
    apply bool_decide_eq_true in Ed. subst data. rewrite scatter_nil.
    assert (set_rx c (Ring.mk_ring (Ring.buffer_ (rx_buffer_ c)) (Ring.read_idx_ (rx_buffer_ c))
      (Ring.write_idx_ (rx_buffer_ c)) (Ring.count_ (rx_buffer_ c))) = c) as -> by (by destruct c as [? ? []]).
    apply Hnone; [done|]. keeping.
Qed.

(** What follows a successful write. *)
Lemma drained_kept c n temp k :
  conn_ok c -> sound c -> temp = take k (tx_list c) -> 0 <= n <= zlen temp ->
  wlp (modify (fun c => add_wire (set_tx c (Ring.advance (tx_buffer_ c) n)) (take (Z.to_nat n) temp)) ;;;
       check_low_watermark env cbs ;;; set_last_error kOk ;;; ret success) (fun _ c' => kept c c') c.
Proof.
  intros Hok Hc Ht Hn. destruct (sent_ok c n temp k Hok Ht Hn) as (Hok1 & _ & Es & _). apply wlp_bind, wlp_modify.
  set (c1 := add_wire _ _) in *. assert (Hk1 : kept c c1).
  { split; [|done]. destruct Hc, Hok1. split; try done. unfold stream_ok in *. by rewrite Es. }
  assert (Hk : keeps (Sock := Sock) false (check_low_watermark env cbs ;;; set_last_error kOk ;;; ret success)).
  { apply keeps_bind; [apply keeps_check_low; [done|by apply keeps_run_calls]|keeping]. }
  eapply wlp_mono; [apply Hk; [apply Hk1|done]|]. intros ? c2 H2. by eapply kept_trans.
Qed.

Lemma handle_write_kept c :
  conn_ok c -> sound c -> write_bounded env c -> wlp (handle_write env cbs) (fun _ c' => kept c c') c.
Proof.
  intros Hok Hc Hb. assert (Hke : forall e r, keeps (Sock := Sock) false (set_last_error e ;;; ret r : M Sock expected)) by (intros; keeping).
  apply wlp_bind, wlp_gets. destruct (Ring.empty _); [by apply Hke|].
  apply wlp_bind. intros temp c1. rewrite peek_spec by (apply Hok || (unfold kTempReadSize; lia)). cbn [res_bind].
  intros [= <- <-]. unfold write_bounded in Hb. apply wlp_bind, wlp_gets. set (temp := take _ (tx_list c)) in *.
  destruct (sock_write env (socket_ c) temp) as [n|err].
  - by apply (drained_kept c n temp (Z.to_nat kTempReadSize)).
  - destruct (negb _); by apply Hke.
Qed.

Lemma handle_write_vectored_kept c :
  conn_ok c -> sound c -> writev_bounded env c -> wlp (handle_write_vectored env cbs) (fun _ c' => kept c c') c.
Proof.
  intros Hok Hc Hb. assert (Hke : forall e r, keeps (Sock := Sock) false (set_last_error e ;;; ret r : M Sock expected)) by (intros; keeping).
  apply wlp_bind, wlp_gets. destruct (Ring.empty _); [by apply Hke|].
  apply wlp_bind, wlp_gets. destruct (_ =? 0); [by apply Hke|].
  apply wlp_bind. intros data c1. rewrite gather_fill_iovec by apply Hok. cbn [res_bind]. intros [= <- <-].
  unfold writev_bounded in Hb. apply wlp_bind, wlp_gets. cbv zeta. set (res := sys_writev _ _ _) in *.
  destruct (Z.ltb_spec 0 (sys_n res)).
  - apply (drained_kept c (sys_n res) (tx_list c) (length (tx_list c))); [done|done|by rewrite firstn_all|lia].
  - destruct (_ && _); by apply Hke.
Qed.

End entry.

(** ** Properties *)
Section properties.
Context {Sock : Type} `{TcpSocketLaws Sock} {target : Target}.
Implicit Type c : Connection Sock.

(** The life of a connection whose application passes bytes: the steps of
    [conn_step], with callbacks and calls that do, and the bytes that the
    reads have delivered. *)
Inductive runs : bytes -> Connection Sock -> Prop :=
| runs_new env id fd : 0 <= fd -> runs [] (make_connection env id fd)
| runs_read got env data c r c' : runs got c -> callbacks_ok (cb env) ->
    read_fine env c data -> handle_read env (run_callback env) c = Ok (r, c') -> runs (got ++ data) c'
| runs_write got env c r c' : runs got c -> callbacks_ok (cb env) ->
    write_bounded env c -> handle_write env (run_callback env) c = Ok (r, c') -> runs got c'
| runs_writev got env c r c' : runs got c -> callbacks_ok (cb env) ->
    writev_bounded env c -> handle_write_vectored env (run_callback env) c = Ok (r, c') -> runs got c'
| runs_call got env call c c' : runs got c -> callbacks_ok (cb env) -> call_ok call ->
    exec_call env (run_callback env) call c = Ok (tt, c') -> runs got c'.

Lemma runs_reachable got c : runs got c -> reachable c.
Proof.
  induction 1 as [|got env data c r c' _ IH _ Hr E|got env c r c' _ IH _ Hw E|got env c r c' _ IH _ Hw E|got env call c c' _ IH _ _ E].
  - by apply reach_new.
  - apply reach_step with c; [done|by eapply step_read].
  - apply reach_step with c; [done|by eapply step_write].
  - apply reach_step with c; [done|by eapply step_writev].
  - apply reach_step with c; [done|by eapply step_call].
Qed.

Lemma make_connection_sound env id fd : 0 <= fd -> sound (got := []) (make_connection (Sock := Sock) env id fd).
Proof. intros Hfd. destruct (make_connection_ok env id fd Hfd). by split. Qed.

Lemma runs_sound got c : runs got c -> sound (got := got) c.
Proof.
  induction 1 as [|got env data c r c' Hc IH Hcbs [Hr _] E|got env c r c' Hc IH Hcbs Hw E|got env c r c' Hc IH Hcbs Hw E
    |got env call c c' Hc IH Hcbs Hcall E]; [by apply make_connection_sound|..];
    apply runs_reachable, reachable_conn_ok in Hc.
  - by apply (handle_read_kept env Hcbs c data Hc IH Hr) in E as [? _].
  - by apply (handle_write_kept env Hcbs c Hc IH Hw) in E as [? _].
  - by apply (handle_write_vectored_kept env Hcbs c Hc IH Hw) in E as [? _].
  - by apply (keeps_exec_call env Hcbs _ (keeps_run_calls env Hcbs _) call Hcall c IH) in E as [? _].
Qed.

(** C22: the outgoing stream is well typed.  Whatever the peer sends, the
    kernel answers and the callbacks do (as long as the application passes
    bytes): every element of what has been or will be written is a byte and
    so is every element of the messages delivered; nothing is written before
    the handshake is complete; and after it the stream is the 101 response
    to the key of the upgrade request with which the bytes received from the
    peer began, followed by frames the connection wrote as a server (text,
    binary, pong or close; final, unmasked), each whole or reduced to its
    header. *)
Theorem outgoing_stream_typed got c :
  runs got c -> bytes_ok (stream c) /\ Forall event_ok (log_ c) /\ stream_ok (got := got) c.
Proof.
  intros Hc. destruct (runs_sound got c Hc). split_and!; [by apply (stream_ok_bytes (got := got))|done|done].
Qed.

End properties.

(** ** Evaluated examples *)
#[local] Existing Instances Demo.socket_tcp Demo.socket_laws.
#[local] Instance demo_target : Target := true.

Lemma demo_callbacks_ok : callbacks_ok Demo.echo_callbacks.
Proof.
  split; intros f [= <-]; try done. intros c msg Hm. case_bool_decide; repeat constructor; done.
Qed.

Definition demo_hello : bytes := wire_frame kText (Some demo_key) (str "Hello").

Lemma c_echoed_runs : runs (demo_request ++ demo_hello) c_echoed.
Proof.
  apply (runs_read demo_request msg_env demo_hello c_sent success); [|apply demo_callbacks_ok| |vm_compute; reflexivity].
  - apply (runs_writev demo_request req_env c_open success); [|apply demo_callbacks_ok|by apply demo_write_bounded|vm_compute; reflexivity].
    apply (runs_read [] req_env demo_request c_new success); [by apply runs_new|apply demo_callbacks_ok| |vm_compute; reflexivity].
    eapply demo_read_fine; [reflexivity|by_decide|vm_compute; discriminate|vm_compute; discriminate].
  - eapply demo_read_fine; [reflexivity|by_decide|vm_compute; discriminate|]. intros _. by_decide.
Qed.

Lemma outgoing_stream_typed_witness :
  stream c_echoed = response_to (str "dGhlIHNhbXBsZSBub25jZQ==") ++ pieces [Whole kText (str "Hello")]
  /\ bytes_ok (stream c_echoed) /\ stream_ok (got := demo_request ++ demo_hello) c_echoed.
Proof.
  destruct (outgoing_stream_typed (demo_request ++ demo_hello) c_echoed c_echoed_runs) as (H1 & _ & H2).
  split; [vm_compute; reflexivity|split; [exact H1|exact H2]].
Defined.
