(* ===== verification/Client.v ===== *)
(** * Client: the echo benchmark's client (benchmark_echo.cpp, [BenchClient])

    [send_masked] and [recv_frame] as written, over a socket that takes and
    gives any number of bytes per call.  Together with the server side they
    give the end-to-end theorems: what the client sends is what
    [on_message] receives, and what the server sends is what the client
    accepts. *)
From S2P Require Import Prelude Vocabulary RingBuffer Frame Connection ConnectionApi ConnectionInv ConnectionFrames.
Open Scope ewss_scope.

Module BenchClient.
Import Ws.

(** [mask] of [send_masked], and the last four bytes of its header. *)
Definition mask_key : bytes := [0x12; 0x34; 0x56; 0x78].

Definition emit_mask_key (st : bytes * Z) : Res (bytes * Z) :=
  let! st := emit 0x12 st in
  let! st := emit 0x34 st in
  let! st := emit 0x56 st in
  emit 0x78 st.

(** [for (i = 0; i < payload_len; ++i) masked[i] = src[i] ^ mask[i % 4];] *)
Fixpoint mask_loop (src : bytes) (i : Z) : Res bytes :=
  match src with
  | [] => Ok []
  | b :: src' =>
      let! k := at_ mask_key (i mod 4) in
      let! rest := mask_loop src' (i + 1) in
      Ok (u8 (Z.lxor b k) :: rest)
  end.

(** [uint8_t header[14 + 4];] *)
Definition header_array : bytes := replicate 18 0.

(** The result, and the bytes the socket took.  [net_send] is the count
    [::send] returns. *)
Definition send_masked (net_send : bytes -> Z) (payload : bytes) : Res (bool * bytes) :=
  let payload_len := zlen payload in
  let! st := emit 0x81 (header_array, 0) in
  let! st :=
    if payload_len <? 126 then emit (u8 (Z.lor 0x80 payload_len)) st
    else if payload_len <? 65536 then
      let! st := emit (Z.lor 0x80 126) st in
      let! st := emit (u8 (Z.land (Z.shiftr payload_len 8) 0xFF)) st in
      emit (u8 (Z.land payload_len 0xFF)) st
    else
      let! st := emit (Z.lor 0x80 127) st in
      emit_len 8 payload_len st in
  let! (header, pos) := emit_mask_key st in
  let out := take (Z.to_nat pos) header in
  let n := net_send out in
  if negb (n =? pos) then Ok (false, take (Z.to_nat n) out) else
  let! masked := mask_loop payload 0 in
  let m := net_send masked in
  Ok (m =? zlen masked, out ++ take (Z.to_nat m) masked).

(** [recv_exact]: the result, the bytes stored, and the bytes still to come
    on the socket.  [net_recv] is the count [::recv] returns, given what is
    to come and the size asked for. *)
Fixpoint recv_loop (fuel : nat) (net_recv : bytes -> Z -> Z) (got len : Z) (stream : bytes)
  : Res (bool * bytes * bytes) :=
  if negb (got <? len) then Ok (true, [], stream) else
  match fuel with
  | O => OutOfFuel
  | S fuel' =>
      let n := net_recv stream (len - got) in
      if n <=? 0 then Ok (false, [], stream) else
      let! (ok, more, stream') := recv_loop fuel' net_recv (got + n) len (drop (Z.to_nat n) stream) in
      Ok (ok, take (Z.to_nat n) stream ++ more, stream')
  end.
Definition recv_exact (net_recv : bytes -> Z -> Z) (len : Z) (stream : bytes) : Res (bool * bytes * bytes) :=
  recv_loop (Z.to_nat len) net_recv 0 len stream.

(** [while (remaining > 0)] of the payload drain. *)
Fixpoint drain_loop (fuel : nat) (net_recv : bytes -> Z -> Z) (remaining : Z) (stream : bytes) : Res (bool * bytes) :=
  if negb (0 <? remaining) then Ok (true, stream) else
  match fuel with
  | O => OutOfFuel
  | S fuel' =>
      let chunk := Z.min remaining 4096 in
      let! (ok, _, stream') := recv_exact net_recv chunk stream in
      if negb ok then Ok (false, stream') else drain_loop fuel' net_recv (remaining - chunk) stream'
  end.

Definition recv_frame (net_recv : bytes -> Z -> Z) (expected_payload_len : Z) (stream : bytes) : Res (bool * bytes) :=
  let! (ok, hdr, stream) := recv_exact net_recv 2 stream in
  if negb ok then Ok (false, stream) else
  let! h1 := at_ hdr 1 in
  let plen := Z.land h1 0x7F in
  let! (ok, plen, stream) :=
    if plen =? 126 then
      let! (ok, ext, stream) := recv_exact net_recv 2 stream in
      if negb ok then Ok (false, 0, stream) else
      let! e0 := at_ ext 0 in
      let! e1 := at_ ext 1 in
      Ok (true, Z.lor (u64 (Z.shiftl e0 8)) e1, stream)
    else if plen =? 127 then
      let! (ok, ext, stream) := recv_exact net_recv 8 stream in
      if negb ok then Ok (false, 0, stream) else
      let! plen := parse_len64 8 ext 0 0 in
      Ok (true, plen, stream)
    else Ok (true, plen, stream) in
  if negb ok then Ok (false, stream) else
  let! (ok, stream) := drain_loop (Z.to_nat plen) net_recv plen stream in
  if negb ok then Ok (false, stream) else Ok (plen =? expected_payload_len, stream).

End BenchClient.

Import Conn Handlers Ws BenchClient.

Lemma res_bind_assoc3 {A B C D} (a : Res A) (b : A -> Res B) (c : B -> Res C) (d : C -> Res D) :
  res_bind a (fun x => res_bind (b x) (fun y => res_bind (c y) d))
  = res_bind (res_bind a (fun x => res_bind (b x) c)) d.
Proof. destruct a as [x| |]; cbn; [by destruct (b x)|done|done]. Qed.

(** ** What the client sends *)

Lemma mask_loop_spec src : forall i, 0 <= i -> mask_loop src i = Ok (mask_bytes mask_key i src).
Proof.
  induction src as [|b src IH]; intros i Hi; [done|]. cbn [mask_loop mask_bytes].
  pose proof (Z.mod_pos_bound i 4 ltac:(lia)). unfold at_.
  rewrite (nth_lookup_Some_length mask_key (i mod 4)) by (change (zlen mask_key) with 4; lia).
  cbn [of_option res_bind]. by rewrite IH by lia.
Qed.

(** The header array receives the header of a masked text frame and the key. *)
Lemma emit_header_spec len :
  exists post, (let! st := emit 0x81 (header_array, 0) in
    let! st :=
      if len <? 126 then emit (u8 (Z.lor 0x80 len)) st
      else if len <? 65536 then
        let! st := emit (Z.lor 0x80 126) st in
        let! st := emit (u8 (Z.land (Z.shiftr len 8) 0xFF)) st in
        emit (u8 (Z.land len 0xFF)) st
      else let! st := emit (Z.lor 0x80 127) st in emit_len 8 len st in
    emit_mask_key st)
  = Ok ((header_bytes kText len true ++ mask_key) ++ post, zlen (header_bytes kText len true ++ mask_key)).
Proof.
  pose proof (header_bytes_len kText len true) as Hl. set (out := header_bytes kText len true ++ mask_key).
  assert (Hout : zlen out <= 14) by (unfold out; rewrite zlen_app, Hl; change (zlen mask_key) with 4; zcase).
  exists (drop (length out) header_array).
  transitivity (emit_all out (header_array, 0)).
  - unfold out, header_bytes. cbn [mask_bit opcode_to_u8]. rewrite <- app_comm_cons. cbn [emit_all].
    change (u8 (Z.lor 0x80 1)) with 0x81.
    destruct (emit 0x81 (header_array, 0)) as [st| |]; [|done|done]. cbn [res_bind].
    assert (Hk : forall st, emit_mask_key st = emit_all mask_key st).
    { intros st'. unfold emit_mask_key, mask_key. cbn [emit_all].
      do 3 (destruct (emit _ _) as [?| |]; [cbn [res_bind]|done|done]). apply emit_last. }
    assert (Hb : forall l st, (let! st' := emit_all l st in emit_mask_key st') = emit_all (l ++ mask_key) st).
    { induction l as [|x l IH]; intros st'; [apply Hk|]. cbn [emit_all app].
      destruct (emit x st'); [apply IH|done|done]. }
    destruct (len <? 126); [rewrite emit_last; apply Hb|]. destruct (len <? 65536).
    + change (u8 (Z.lor 0x80 126)) with (Z.lor 0x80 126). rewrite <- Hb. apply (f_equal (fun r => res_bind r emit_mask_key)). cbn [emit_all].
      do 2 (destruct (emit _ _) as [?| |]; [cbn [res_bind]|done|done]). apply emit_last.
    + change (u8 (Z.lor 0x80 127)) with (Z.lor 0x80 127). rewrite <- Hb. apply (f_equal (fun r => res_bind r emit_mask_key)). cbn [emit_all].
      destruct (emit _ _) as [?| |]; [cbn [res_bind]|done|done]. apply emit_len_all.
  - pose proof (emit_all_spec out [] (take (length out) header_array) (drop (length out) header_array)) as E.
    cbn [app] in E. rewrite take_drop in E. apply E. unfold header_array. len.
Qed.

(** On a socket that takes everything, a masked text frame leaves. *)
Lemma send_masked_spec net_send payload :
  (forall out, net_send out = zlen out) ->
  send_masked net_send payload = Ok (true, wire_frame kText (Some mask_key) payload).
Proof.
  intros Hnet. unfold send_masked. destruct (emit_header_spec (zlen payload)) as (post & E).
  set (h := header_bytes kText (zlen payload) true ++ mask_key) in *.
  etrans; [apply (res_bind_assoc3 (emit 0x81 (header_array, 0)) _ emit_mask_key)|].
  etrans; [apply (f_equal (fun r => res_bind r _) E)|]. cbn [res_bind]. replace (take (Z.to_nat (zlen h)) (h ++ post)) with h
    by (symmetry; apply take_app_length'; len).
  rewrite !Hnet, Z.eqb_refl. cbn [negb]. rewrite mask_loop_spec by lia. cbn [res_bind].
  rewrite Hnet, Z.eqb_refl, take_ge by len. unfold wire_frame, h. by rewrite <- app_assoc.
Qed.

(** The bytes a sequence of messages puts on the wire. *)
Fixpoint send_all (net_send : bytes -> Z) (msgs : list bytes) : Res bytes :=
  match msgs with
  | [] => Ok []
  | m :: msgs' =>
      let! (_, out) := send_masked net_send m in
      let! rest := send_all net_send msgs' in Ok (out ++ rest)
  end.

Lemma send_all_spec net_send msgs :
  (forall out, net_send out = zlen out) ->
  send_all net_send msgs = Ok (mjoin (wire_frame kText (Some mask_key) <$> msgs)).
Proof.
  intros Hnet. induction msgs as [|m msgs IH]; [done|]. cbn [send_all]. rewrite send_masked_spec by done.
  cbn [res_bind]. by rewrite IH.
Qed.

Lemma mask_key_ok : bytes_ok mask_key.
Proof. by_decide. Qed.

Lemma wire_frame_ok op payload : bytes_ok (wire_frame op (Some mask_key) payload).
Proof.
  unfold wire_frame. apply Forall_app. split; [apply header_bytes_ok|].
  apply Forall_app. split; [apply mask_key_ok|apply mask_bytes_ok].
Qed.

(** The deframer recovers the messages. *)
Lemma deframe_messages msgs : forall tail,
  Forall bytes_ok msgs -> Forall (fun m => zlen m < 2 ^ 64) msgs -> bytes_ok tail -> next_frame tail = None ->
  frames_of (mjoin (wire_frame kText (Some mask_key) <$> msgs) ++ tail) = mk_frame kText <$> msgs
  /\ rest_of (mjoin (wire_frame kText (Some mask_key) <$> msgs) ++ tail) = tail
  /\ bytes_ok (mjoin (wire_frame kText (Some mask_key) <$> msgs) ++ tail).
Proof.
  induction msgs as [|m msgs IH]; intros tail Hok Hlen Htail Hnone.
  - cbn [fmap list_fmap mjoin list_join app]. pose proof (deframe_unfold tail Htail) as Hu. rewrite Hnone in Hu.
    injection Hu as -> ->. done.
  - apply Forall_cons in Hok as [Hm Hok]. apply Forall_cons in Hlen as [Hl Hlen].
    destruct (IH tail Hok Hlen Htail Hnone) as (Ef & Er & Hb).
    change (mjoin (wire_frame kText (Some mask_key) <$> m :: msgs))
      with (wire_frame kText (Some mask_key) m ++ mjoin (wire_frame kText (Some mask_key) <$> msgs)).
    rewrite <- app_assoc. set (rest := mjoin _ ++ tail) in *.
    assert (Hall : bytes_ok (wire_frame kText (Some mask_key) m ++ rest))
      by (apply Forall_app; split; [apply wire_frame_ok|done]).
    pose proof (deframe_unfold _ Hall) as Hu.
    rewrite next_frame_wire in Hu by first [done | by split | split; [done|apply mask_key_ok]].
    change (is_close (mk_frame kText m)) with false in Hu.
    pose proof (f_equal fst Hu) as E1. pose proof (f_equal snd Hu) as E2. cbn [fst snd] in E1, E2.
    rewrite E1, E2, Ef, Er. done.
Qed.

(** ** What the client accepts *)

(** [recv] gives at least one byte when some are there, and no more than
    asked for. *)
Definition recv_behaves (net_recv : bytes -> Z -> Z) : Prop :=
  forall stream len, stream <> [] -> 0 < len -> 0 < net_recv stream len <= Z.min len (zlen stream).

Section recv.
Variable net_recv : bytes -> Z -> Z.
Hypothesis Hnet : recv_behaves net_recv.

Lemma recv_loop_spec fuel : forall got data stream,
  0 <= got -> (length data <= fuel)%nat ->
  recv_loop fuel net_recv got (got + zlen data) (data ++ stream) = Ok (true, data, stream).
Proof.
  induction fuel as [|fuel IH]; intros got data stream Hgot Hf.
  { destruct data; [|cbn in Hf; lia]. cbn [recv_loop]. rewrite zlen_nil. by zcase. }
  cbn [recv_loop]. destruct (Z.ltb_spec got (got + zlen data)) as [Hlt|Hge]; cbn [negb].
  2: { destruct data; [done|]. rewrite zlen_cons in Hge. pose proof (zlen_nonneg data). lia. }
  replace (got + zlen data - got) with (zlen data) by lia.
  destruct (Hnet (data ++ stream) (zlen data)) as [H0 H1]; [by destruct data; [rewrite zlen_nil in Hlt; lia|]|lia|].
  set (n := net_recv _ _) in *. destruct (Z.leb_spec n 0); [lia|].
  assert (Ed : drop (Z.to_nat n) (data ++ stream) = drop (Z.to_nat n) data ++ stream) by (apply drop_app_le; len).
  replace (got + zlen data) with (got + n + zlen (drop (Z.to_nat n) data)) by len.
  rewrite Ed, IH by (revert Hf; len). cbn [res_bind].
  rewrite take_app_le by len. by rewrite take_drop.
Qed.

Lemma recv_exact_spec data stream :
  recv_exact net_recv (zlen data) (data ++ stream) = Ok (true, data, stream).
Proof. unfold recv_exact. rewrite <- (Z.add_0_l (zlen data)). apply recv_loop_spec; len. Qed.

Lemma drain_loop_spec fuel : forall data stream,
  (length data <= fuel)%nat ->
  drain_loop fuel net_recv (zlen data) (data ++ stream) = Ok (true, stream).
Proof.
  induction fuel as [|fuel IH]; intros data stream Hf.
  { destruct data; [done|cbn in Hf; lia]. }
  cbn [drain_loop]. destruct (Z.ltb_spec 0 (zlen data)) as [Hlt|Hge]; cbn [negb].
  2: { destruct data; [done|]. rewrite zlen_cons in Hge. pose proof (zlen_nonneg data). lia. }
  set (chunk := Z.min (zlen data) 4096).
  assert (Hd : data ++ stream = take (Z.to_nat chunk) data ++ drop (Z.to_nat chunk) data ++ stream)
    by (by rewrite app_assoc, take_drop).
  pose proof (recv_exact_spec (take (Z.to_nat chunk) data) (drop (Z.to_nat chunk) data ++ stream)) as E.
  replace (zlen (take (Z.to_nat chunk) data)) with chunk in E by len.
  rewrite Hd, E. cbn [res_bind negb].
  replace (zlen data - chunk) with (zlen (drop (Z.to_nat chunk) data)) by len.
  apply IH. revert Hf. len.
Qed.

(** The client accepts a frame of the server and stops right after it. *)
Lemma recv_frame_spec op payload stream :
  opcode_ok op -> zlen payload < 2 ^ 64 ->
  recv_frame net_recv (zlen payload) (encode_frame op payload false ++ stream) = Ok (true, stream).
Proof.
  intros Hop Hlen. pose proof (zlen_nonneg payload).
  assert (Hfin : (let! (ok, s) := drain_loop (Z.to_nat (zlen payload)) net_recv (zlen payload) (payload ++ stream) in
    if negb ok then Ok (false, s) else Ok (zlen payload =? zlen payload, s)) = Ok (true, stream)).
  { rewrite drain_loop_spec by (unfold zlen; lia). cbn. by rewrite Z.eqb_refl. }
  rewrite encode_frame_split, <- app_assoc. unfold header_bytes, mask_bit, recv_frame. rewrite !Z.lor_0_l.
  set (b0 := u8 (Z.lor 0x80 (opcode_to_u8 op))).
  assert (Hhdr : forall b1 s, recv_exact net_recv 2 (b0 :: b1 :: s) = Ok (true, [b0; b1], s))
    by (intros b1 s; apply (recv_exact_spec [b0; b1] s)).
  destruct (Z.ltb_spec (zlen payload) 126); [|destruct (Z.ltb_spec (zlen payload) 65536)]; cbn [app];
    rewrite Hhdr; cbn [res_bind negb]; rewrite at_1; cbn [res_bind].
  - rewrite u8_small, low_seven, Z.mod_small by (unfold is_u8; lia).
    destruct (Z.eqb_spec (zlen payload) 126); [lia|]. destruct (Z.eqb_spec (zlen payload) 127); [lia|].
    cbn [res_bind negb]. exact Hfin.
  - change (Z.land (u8 126) 0x7F =? 126) with true. cbn iota. rewrite !u8_land_ff.
    set (e0 := Z.shiftr (zlen payload) 8 mod 256). set (e1 := zlen payload mod 256).
    pose proof (recv_exact_spec [e0; e1] (payload ++ stream)) as E. change (zlen [e0; e1]) with 2 in E.
    cbn [app] in E. rewrite E. cbn [res_bind negb]. rewrite at_0, at_1. cbn [res_bind negb].
    replace (Z.lor (u64 (Z.shiftl e0 8)) e1) with (zlen payload); [exact Hfin|].
    unfold e0, e1. rewrite Z.shiftr_div_pow2 by lia. change (2 ^ 8) with 256.
    rewrite (Z.mod_small (zlen payload / 256)) by (Z.div_mod_to_equations; lia).
    rewrite u64_small by (rewrite Z.shiftl_mul_pow2 by lia; Z.div_mod_to_equations; lia).
    rewrite lor_shiftl_byte by (apply Z.mod_pos_bound; lia). Z.div_mod_to_equations; lia.
  - change (Z.land (u8 127) 0x7F =? 126) with false. change (Z.land (u8 127) 0x7F =? 127) with true. cbn iota.
    destruct (len_bytes_spec 8 (zlen payload)) as (Hok & Hl & Hv); [lia|].
    pose proof (recv_exact_spec (len_bytes 8 (zlen payload)) (payload ++ stream)) as E. rewrite Hl in E.
    change (Z.of_nat 8) with 8 in E. rewrite E. cbn [res_bind negb].
    rewrite parse_len64_spec by first [done | rewrite Hl; lia | vm_compute; discriminate]. cbn [res_bind negb].
    change (Z.to_nat 0) with 0%nat. rewrite drop_0, take_ge by (apply Nat.eq_le_incl, Nat2Z.inj; exact Hl).
    change (foldl _ 0 (len_bytes 8 (zlen payload))) with (be_value (len_bytes 8 (zlen payload))).
    rewrite Hv. change (256 ^ Z.of_nat 8) with (2 ^ 64). rewrite Z.mod_small by (change (2 ^ 64) with 18446744073709551616 in *; lia). exact Hfin.
Qed.

End recv.

(** ** Properties *)

(** C21: end to end, client to server: whatever messages the client sends
    with [send_masked], in whatever state of the connection past the
    handshake, once their bytes are in the receive buffer (followed by an
    unfinished frame or nothing) [parse_frames] hands exactly these
    messages, unmasked and in order, to [on_message]. *)
Theorem client_messages_delivered {Sock} `{TcpSocketLaws Sock} {target : Target} (env : Env Sock)
  (c : Connection Sock) net_send msgs tail g :
  conn_ok c -> ops_ c <> kHandshaking -> on_message (cb env) = Some g ->
  (forall out, net_send out = zlen out) ->
  Forall bytes_ok msgs -> Forall (fun m => zlen m < 2 ^ 64) msgs ->
  next_frame tail = None -> no_wrap tail -> bytes_ok tail ->
  (exists sent, send_all net_send msgs = Ok sent /\ rx_list c = sent ++ tail) ->
  exists c', parse_frames env (run_callback env) c = Ok (tt, c') /\ conn_ok c'
    /\ messages (log_ c') = messages (log_ c) ++ msgs /\ rx_list c' = tail.
Proof.
  intros Hok Hn Hg Hnet Hm Hl Hnone Hnw Htail (sent & Es & Erx). rewrite send_all_spec in Es by done. injection Es as <-.
  destruct (deframe_messages msgs tail Hm Hl Htail Hnone) as (Ef & Er & _). rewrite <- Erx in Ef, Er.
  destruct (proj1 (wp_run _ _ _) (parse_frames_spec env c Hok Hn ltac:(by rewrite Er))) as ([] & c' & E & [Hok' _ Hrx Hmsg _]).
  exists c'. split_and!; [done|done| |by rewrite Hrx]. rewrite Hmsg, Ef. f_equal.
  unfold delivered. rewrite Hg. unfold data_payloads. clear.
  induction msgs as [|m msgs IH]; [done|]. cbn [fmap list_fmap]. rewrite filter_cons_True by done. cbn. by rewrite IH.
Qed.

(** End to end, server to client: the client's [recv_frame] accepts
    every frame the server encodes, of any length, however the bytes arrive,
    and stops exactly at its end. *)
Theorem client_accepts_server_frame net_recv op payload stream :
  recv_behaves net_recv -> opcode_ok op -> zlen payload < 2 ^ 64 ->
  recv_frame net_recv (zlen payload) (encode_frame op payload false ++ stream) = Ok (true, stream).
Proof. intros Hnet Hop Hlen. by apply recv_frame_spec. Qed.

#[local] Existing Instances Demo.socket_tcp Demo.socket_laws.

Lemma client_messages_delivered_witness :
  exists c', parse_frames (target := false) demo_env (run_callback demo_env)
      (Demo.conn_with kOpen (mjoin (wire_frame kText (Some mask_key) <$> [str "one"; []; replicate 130 66]) ++ [0x81])) = Ok (tt, c')
    /\ messages (log_ c') = [str "one"; []; replicate 130 66].
Proof.
  destruct (client_messages_delivered (target := false) demo_env
    (Demo.conn_with kOpen (mjoin (wire_frame kText (Some mask_key) <$> [str "one"; []; replicate 130 66]) ++ [0x81]))
    zlen [str "one"; []; replicate 130 66] [0x81]
    (fun _ msg => if bool_decide (msg = str "bye") then [ApiSend msg; ApiClose 1000] else [ApiSend msg]))
    as (c' & E & _ & Hm & _).
  - apply Demo.conn_with_ok; [vm_compute; lia|by_decide].
  - discriminate.
  - reflexivity.
  - reflexivity.
  - by_decide.
  - by_decide.
  - reflexivity.
  - exact I.
  - by_decide.
  - exists (mjoin (wire_frame kText (Some mask_key) <$> [str "one"; []; replicate 130 66])). split; vm_compute; reflexivity.
  - exists c'. split; [exact E|exact Hm].
Defined.

(** A socket that gives at most three bytes at a time. *)
Definition three_at_a_time (stream : bytes) (len : Z) : Z := Z.min (Z.min len (zlen stream)) 3.

Lemma three_behaves : recv_behaves three_at_a_time.
Proof.
  intros stream len Hs Hl. unfold three_at_a_time.
  assert (0 < zlen stream) by (destruct stream; [done|rewrite zlen_cons; pose proof (zlen_nonneg stream); lia]). lia.
Qed.

Lemma client_accepts_server_frame_witness :
  recv_frame three_at_a_time 300 (encode_frame kBinary (replicate 300 9) false ++ [1; 2]) = Ok (true, [1; 2]).
Proof.
  apply (client_accepts_server_frame three_at_a_time kBinary (replicate 300 9) [1; 2]).
  - exact three_behaves.
  - split; [split; vm_compute; [discriminate|reflexivity]|reflexivity].
  - vm_compute. reflexivity.
Defined.
