(* ===== verification/ClientHandshake.v ===== *)
(** * ClientHandshake: [BenchClient::handshake] against [parse_handshake]

    The client of benchmark_echo.cpp sends a fixed request and reads the
    answer into a 512-byte array until it sees an empty line.  Together with
    [parse_handshake] this closes the loop of the opening handshake. *)
From S2P Require Import Prelude Vocabulary RingBuffer Frame Base64 Sha1 Text Connection ConnectionApi ConnectionInv ConnectionFrames Handshake Client.
Open Scope ewss_scope.
Import Conn Handlers Ws BenchClient.

Module ClientHandshake.

(** The string literal [req]. *)
Definition req : bytes :=
  str "GET / HTTP/1.1" ++ crlf ++ str "Host: localhost" ++ crlf ++ str "Upgrade: websocket" ++ crlf
  ++ str "Connection: Upgrade" ++ crlf ++ str "Sec-WebSocket-Version: 13" ++ crlf
  ++ str "Sec-WebSocket-Key: dGhlIHNhbXBsZSBub25jZQ==" ++ crlf ++ crlf.

(** [strstr(buf, pat)], as a test.  [buf] is the received bytes and a NUL. *)
Definition strstr (buf pat : bytes) : bool := bool_decide (is_Some (Text.find pat (c_str buf) 0)).

(** [while (total < sizeof(buf) - 1)]: the result, the received bytes and
    those still to come. *)
Fixpoint recv_response (fuel : nat) (net_recv : bytes -> Z -> Z) (buf stream : bytes) : Res (bool * bytes * bytes) :=
  if negb (zlen buf <? 512 - 1) then Ok (true, buf, stream) else
  match fuel with
  | O => OutOfFuel
  | S fuel' =>
      let n := net_recv stream (512 - 1 - zlen buf) in
      if n <=? 0 then Ok (false, buf, stream) else
      let buf := buf ++ take (Z.to_nat n) stream in
      let stream := drop (Z.to_nat n) stream in
      if strstr buf (crlf ++ crlf) then Ok (true, buf, stream) else recv_response fuel' net_recv buf stream
  end.

(** The result, the bytes sent and the bytes still to come. *)
Definition handshake (net_send : bytes -> Z) (net_recv : bytes -> Z -> Z) (stream : bytes) : Res (bool * bytes * bytes) :=
  let n := net_send req in
  let sent := take (Z.to_nat n) req in
  if negb (n =? zlen req) then Ok (false, sent, stream) else
  let! (ok, buf, stream) := recv_response 511 net_recv [] stream in
  if negb ok then Ok (false, sent, stream) else Ok (strstr buf (str "101"), sent, stream).

End ClientHandshake.

Import ClientHandshake.

(** ** The request is one the server accepts *)

Definition req_head : bytes := take 144 req.
Definition req_key : bytes := str "dGhlIHNhbXBsZSBub25jZQ==".

Lemma req_upgrades more : upgrade_request (req ++ more) req_head req_key.
Proof.
  split.
  - reflexivity.
  - apply first_occurrence_app. exact (find_Some_first (crlf ++ crlf) req 144 ltac:(vm_compute; reflexivity)).
  - exists (take 101 req), [], 61. split_and!; try done.
    + left. apply first_occurrence_app. exact (find_Some_first kKeyHeader req 101 ltac:(vm_compute; reflexivity)).
    + change (drop (length (take 101 req) + 19) (req ++ more)) with (drop 120 req ++ more).
      apply first_occurrence_app. exact (find_Some_first crlf (drop 120 req) 24 ltac:(vm_compute; reflexivity)).
Qed.

(** ** The answer as the client reads it *)

Definition response_head : bytes :=
  str "HTTP/1.1 101 Switching Protocols" ++ crlf ++ str "Upgrade: websocket" ++ crlf
  ++ str "Connection: Upgrade" ++ crlf ++ str "Sec-WebSocket-Accept: ".

Lemma response_shape key : response_to key = response_head ++ accept_value key ++ crlf ++ crlf.
Proof.
  unfold response_to, handshake_response. rewrite c_str_id by apply encode_printable.
  unfold response_head. by rewrite <- !app_assoc.
Qed.

(** No byte of the answer is a NUL. *)
Lemma response_no_nul key : Forall (fun b => b <> 0) (response_to key).
Proof.
  rewrite response_shape. apply Forall_app. split; [by_decide|]. apply Forall_app. split; [|by_decide].
  eapply Forall_impl; [apply encode_printable|]. cbn. lia.
Qed.

Lemma c_str_no_nul l : Forall (fun b => b <> 0) l -> c_str l = l.
Proof. induction 1 as [|x l Hx _ IH]; [done|]. cbn [c_str]. rewrite IH. destruct (Z.eqb_spec x 0); done. Qed.

Lemma strstr_spec buf pat : Forall (fun b => b <> 0) buf ->
  strstr buf pat = true <-> exists pre post, buf = pre ++ pat ++ post.
Proof.
  intros Hb. unfold strstr. rewrite c_str_no_nul, bool_decide_eq_true by done. split.
  - intros [p Hp]. destruct (find_Some_first _ _ _ Hp) as [[post E] _]. by exists (take (Z.to_nat p) buf), post.
  - intros (pre & post & E). destruct (Text.find pat buf 0) eqn:Ef; [done|]. exfalso.
    unfold Text.find in Ef. destruct (Z.ltb_spec (zlen buf) 0) as [H|_]; [pose proof (zlen_nonneg buf); lia|].
    rewrite drop_0 in Ef. by apply (find_from_None _ _ _ Ef pre post).
Qed.

(** The empty line is at the very end: a proper prefix does not hold it. *)
Lemma response_line_end key k : (k < 129)%nat -> strstr (take k (response_to key)) (crlf ++ crlf) = false.
Proof.
  intros Hk. apply not_true_is_false. rewrite strstr_spec by apply Forall_take, response_no_nul.
  intros (pre & post & E). pose proof (response_len key) as Hl.
  assert (Hpre : (length pre + 4 <= k)%nat).
  { apply (f_equal length) in E. rewrite length_take, !length_app in E. cbn in E. revert Hl. len. }
  assert (Hat : forall j b, (crlf ++ crlf) !! j = Some b -> response_to key !! (length pre + j)%nat = Some b).
  { intros j b Hj. pose proof (lookup_lt_Some _ _ _ Hj) as Hj4. cbn in Hj4.
    rewrite <- (lookup_take_lt _ k) by lia. rewrite E, lookup_app_r by lia.
    replace (length pre + j - length pre)%nat with j by lia. by apply lookup_app_l_Some. }
  pose proof (Hat 0%nat 13 eq_refl) as H0. pose proof (Hat 3%nat 10 eq_refl) as H3. rewrite Nat.add_0_r in H0.
  rewrite response_shape in H0, H3. set (a := accept_value key) in *.
  assert (Ha : length a = 28%nat) by (pose proof (accept_value_len key); unfold a, zlen in *; lia).
  assert (Hp : Forall (fun b => 43 <= b <= 122) a) by apply encode_printable.
  assert (Hmid : forall i b, (97 <= i < 125)%nat -> (response_head ++ a ++ crlf ++ crlf) !! i = Some b -> 43 <= b).
  { intros i b Hi Hb. rewrite lookup_app_r in Hb by (cbn; lia). change (length response_head) with 97%nat in Hb.
    rewrite lookup_app_l in Hb by lia. by apply (Forall_lookup_1 _ _ _ _ Hp Hb). }
  destruct (Nat.lt_ge_cases (length pre + 3) 97) as [Hlo|Hhi].
  - rewrite lookup_app_l in H0, H3 by (change (length response_head) with 97%nat; lia).
    pose proof (Hat 2%nat 13 eq_refl) as H2. rewrite response_shape, lookup_app_l in H2 by (change (length response_head) with 97%nat; lia).
    assert (Hc : forallb (fun i => negb (bool_decide (response_head !! i = Some 13 /\ response_head !! (i + 2)%nat = Some 13)))
              (seq 0 97) = true) by (vm_compute; reflexivity).
    rewrite forallb_forall in Hc. specialize (Hc (length pre)). rewrite in_seq in Hc.
    specialize (Hc ltac:(lia)). rewrite bool_decide_eq_true_2 in Hc by done. done.
  - destruct (Nat.lt_ge_cases (length pre + 3) 125).
    + pose proof (Hmid (length pre + 3)%nat 10 ltac:(lia) H3). lia.
    + pose proof (Hmid (length pre) 13 ltac:(lia) H0). lia.
Qed.

Lemma response_101 key : strstr (response_to key) (str "101") = true.
Proof.
  apply strstr_spec; [apply response_no_nul|]. rewrite response_shape.
  exists (take 9 response_head), (drop 12 response_head ++ accept_value key ++ crlf ++ crlf). reflexivity.
Qed.

Lemma response_line key : strstr (response_to key) (crlf ++ crlf) = true.
Proof.
  apply strstr_spec; [apply response_no_nul|]. rewrite response_shape.
  exists (response_head ++ accept_value key), []. by rewrite app_nil_r, <- !app_assoc.
Qed.

(** The loop reads the whole answer and nothing else, however it is cut. *)
Lemma recv_response_spec net_recv key fuel : forall k,
  recv_behaves net_recv -> (k < 129)%nat -> (129 - k <= fuel)%nat ->
  recv_response fuel net_recv (take k (response_to key)) (drop k (response_to key))
  = Ok (true, response_to key, []).
Proof.
  intros k Hnet. revert k. induction fuel as [|fuel IH]; intros k Hk Hf; [lia|].
  cbn [recv_response]. pose proof (response_len key) as Hl.
  assert (Hlen : zlen (take k (response_to key)) = Z.of_nat k) by (unfold zlen in *; rewrite length_take; lia).
  assert (Hdl : zlen (drop k (response_to key)) = 129 - Z.of_nat k) by (unfold zlen in *; rewrite length_drop; lia).
  rewrite Hlen. destruct (Z.ltb_spec (Z.of_nat k) (512 - 1)); [|lia]. cbn [negb].
  destruct (Hnet (drop k (response_to key)) (512 - 1 - Z.of_nat k)) as [Hn0 Hn1]; [|lia|].
  { intros E. rewrite E, zlen_nil in Hdl. lia. }
  set (n := net_recv _ _) in *. destruct (Z.leb_spec n 0); [lia|]. rewrite Hdl in Hn1.
  assert (Et : take k (response_to key) ++ take (Z.to_nat n) (drop k (response_to key)) = take (k + Z.to_nat n) (response_to key))
    by apply take_take_drop.
  assert (Ed : drop (Z.to_nat n) (drop k (response_to key)) = drop (k + Z.to_nat n) (response_to key)) by (rewrite drop_drop; done).
  rewrite Et, Ed. destruct (Nat.lt_ge_cases (k + Z.to_nat n) 129) as [Hlt|Hge].
  - rewrite response_line_end by done. apply IH; lia.
  - rewrite take_ge, drop_ge by (unfold zlen in Hl; lia). by rewrite response_line.
Qed.

(** ** Property *)

(** C25: the opening handshake end to end: when the client's request has
    arrived at a fresh connection (whatever follows it), [parse_handshake]
    accepts it and consumes exactly the request, and the client's
    [handshake] succeeds on the answer, reading all of it and nothing else,
    however [recv] cuts it. *)
Theorem handshake_round_trip {Sock} `{TcpSocketLaws Sock} (c : Connection Sock) net_send net_recv more :
  conn_ok c -> ops_ c = kHandshaking -> rx_list c = req ++ more ->
  (forall out, net_send out = zlen out) -> recv_behaves net_recv ->
  exists c', parse_handshake c = Ok (success, c') /\ rx_list c' = more
    /\ handshake net_send net_recv (tx_list c') = Ok (true, req, []).
Proof.
  intros Hok Eop Erx Hnet Hrecv. destruct (ok_handshaking _ Hok Eop) as [_ Etx].
  pose proof (parse_handshake_spec c Hok Etx) as Hs. unfold peeked in Hs. rewrite Erx in Hs.
  replace (take 1024 (req ++ more)) with (req ++ take (1024 - 148) more) in Hs
    by (rewrite take_app; by rewrite (take_ge req) by (vm_compute; lia)).
  rewrite (upgrade_request_verdict _ _ _ (req_upgrades _)) in Hs. destruct Hs as (tx' & -> & Hwf & Hc).
  eexists. split; [done|]. cbn [handshaken set_error set_handshake_done set_tx set_rx rx_buffer_ tx_buffer_].
  destruct (advance_spec (rx_buffer_ c) (zlen req_head + 4) (ok_rx _ Hok)) as [_ Hd]; [vm_compute; discriminate|].
  rewrite Hd, Erx, Hc. split; [done|]. unfold handshake. rewrite Hnet, Z.eqb_refl. cbn [negb].
  pose proof (recv_response_spec net_recv req_key 511 0 Hrecv ltac:(lia) ltac:(lia)) as Er.
  rewrite take_0, drop_0 in Er. rewrite Er. cbn [res_bind negb]. by rewrite response_101, take_ge by len.
Qed.

#[local] Existing Instances Demo.socket_tcp Demo.socket_laws.

Lemma handshake_round_trip_witness :
  exists c', parse_handshake (Demo.conn_with kHandshaking (req ++ [0x81])) = Ok (success, c') /\ rx_list c' = [0x81]
    /\ handshake zlen three_at_a_time (tx_list c') = Ok (true, req, []).
Proof.
  apply (handshake_round_trip (Demo.conn_with kHandshaking (req ++ [0x81])) zlen three_at_a_time [0x81]).
  - apply Demo.conn_with_ok; [vm_compute; lia|by_decide].
  - reflexivity.
  - apply Demo.conn_with_rx. vm_compute. lia.
  - reflexivity.
  - exact three_behaves.
Defined.
