(* ===== verification/Sockets.v ===== *)
(** * Sockets: setting up and tearing down descriptors

    The constructor and destructor of [Server] and [apply_tcp_tuning]
    (ewss.hpp), [connect] and [close_fd] of [BenchClient]
    (benchmark_echo.cpp), as sequences of system calls.  The kernel's answer
    to a call may depend on the calls before it.  Constants are those of
    Linux.  The theorem is that no descriptor leaks and none is closed
    twice, whichever call fails. *)
From S2P Require Import Prelude Numbers.
Open Scope ewss_scope.

Module Sockets.

Definition AF_INET : Z := 2.
Definition SOCK_STREAM : Z := 1.
Definition INADDR_ANY : Z := 0.
Definition SOL_SOCKET : Z := 1.
Definition SO_REUSEADDR : Z := 2.
Definition SO_KEEPALIVE : Z := 9.
Definition IPPROTO_TCP : Z := 6.
Definition TCP_NODELAY : Z := 1.
Definition TCP_KEEPIDLE : Z := 4.
Definition TCP_KEEPINTVL : Z := 5.
Definition TCP_KEEPCNT : Z := 6.
Definition TCP_QUICKACK : Z := 12.
Definition F_SETFL : Z := 4.
Definition O_NONBLOCK : Z := 2048.

(** [struct sockaddr_in]; the port and the address are in network order. *)
Record sockaddr_in := mk_addr { sin_family : Z; sin_port : Z; sin_addr : Z }.

Inductive Call : Type :=
| CSocket (domain type protocol : Z)
| CSetsockopt (fd level name value : Z)
| CBind (fd : Z) (addr : sockaddr_in)
| CListen (fd backlog : Z)
| CConnect (fd : Z) (addr : sockaddr_in)
| CAccept (fd : Z)
| CFcntl (fd cmd arg : Z)
| CClose (fd : Z).

(** The calls made so far, oldest first, each with its result. *)
Abbreviation Trace := (list (Call * Z)).

(** What the C library computes; [error_text] is what [strerror] says of
    the [errno] that the calls so far have left. *)
Record Libc := mk_libc {
  htons : Z -> Z;
  htonl : Z -> Z;
  inet_addr : bytes -> Z;
  error_text : Trace -> bytes;
}.

(** A program that makes calls and may throw. *)
Definition T (A : Type) : Type := Trace -> (bytes + A) * Trace.

Section monad.
Variable kernel : Trace -> Call -> Z.

Definition tret {A} (a : A) : T A := fun tr => (inr a, tr).
Definition throw {A} (what : bytes) : T A := fun tr => (inl what, tr).
Definition tbind {A B} (m : T A) (k : A -> T B) : T B :=
  fun tr => match m tr with
            | (inl e, tr') => (inl e, tr')
            | (inr a, tr') => k a tr'
            end.
Definition calls_so_far : T Trace := fun tr => (inr tr, tr).
Definition sys (c : Call) : T Z := fun tr => let r := kernel tr c in (inr r, tr ++ [(c, r)]).

End monad.

End Sockets.

Notation "'do*' x ':=' m 'in' k" := (Sockets.tbind m (fun x => k))
  (at level 10, x pattern, m at level 100, k at level 200) : ewss_scope.

Module SocketSetup.
Import Sockets.

Record TcpTuning := mk_tuning {
  tcp_nodelay : bool;
  tcp_quickack : bool;
  so_keepalive : bool;
  keepalive_idle_s : Z;
  keepalive_interval_s : Z;
  keepalive_count : Z;
}.

Definition default_tuning : TcpTuning := mk_tuning false false false 60 10 5.

(** What the example servers configure. *)
Definition perf_tuning : TcpTuning := mk_tuning true true true 30 5 3.
Definition bench_tuning : TcpTuning := mk_tuning true false false 60 10 5.

Section setup.
Variable kernel : Trace -> Call -> Z.
Variable libc : Libc.

Abbreviation call := (sys kernel).

(** [if (b) m;] *)
Definition only_if (b : bool) (m : T Z) : T unit := if b then do* _ := m in tret tt else tret tt.

(** ** Server *)

(** The result is [server_sock_]. *)
Definition server_ctor (port : Z) (bind_addr : bytes) : T Z :=
  do* server_sock := call (CSocket AF_INET SOCK_STREAM 0) in
  if server_sock <? 0 then throw (str "Failed to create socket") else
  do* _ := call (CSetsockopt server_sock SOL_SOCKET SO_REUSEADDR 1) in
  let addr := mk_addr AF_INET (htons libc port)
                (match bind_addr with [] => htonl libc INADDR_ANY | _ => inet_addr libc bind_addr end) in
  do* bound := call (CBind server_sock addr) in
  if bound <? 0 then
    do* err := calls_so_far in
    do* _ := call (CClose server_sock) in
    throw (str "Failed to bind port " ++ Numbers.to_string port ++ str ": " ++ error_text libc err)
  else
  do* listening := call (CListen server_sock 128) in
  if listening <? 0 then do* _ := call (CClose server_sock) in throw (str "Failed to listen") else
  do* _ := call (CFcntl server_sock F_SETFL O_NONBLOCK) in
  tret server_sock.

Definition server_dtor (server_sock : Z) : T unit := only_if (0 <=? server_sock) (call (CClose server_sock)).

(** Each option is set when its flag is; failures are ignored. *)
Definition apply_tcp_tuning (t : TcpTuning) (fd : Z) : T unit :=
  do* _ := only_if (tcp_nodelay t) (call (CSetsockopt fd IPPROTO_TCP TCP_NODELAY 1)) in
  do* _ := only_if (tcp_quickack t) (call (CSetsockopt fd IPPROTO_TCP TCP_QUICKACK 1)) in
  if so_keepalive t then
    do* _ := call (CSetsockopt fd SOL_SOCKET SO_KEEPALIVE 1) in
    do* _ := call (CSetsockopt fd IPPROTO_TCP TCP_KEEPIDLE (keepalive_idle_s t)) in
    do* _ := call (CSetsockopt fd IPPROTO_TCP TCP_KEEPINTVL (keepalive_interval_s t)) in
    do* _ := call (CSetsockopt fd IPPROTO_TCP TCP_KEEPCNT (keepalive_count t)) in
    tret tt
  else tret tt.

(** What [accept_connection] does with a new descriptor before the
    connection is made. *)
Definition prepare_client (t : TcpTuning) (fd : Z) : T unit :=
  do* _ := call (CFcntl fd F_SETFL O_NONBLOCK) in apply_tcp_tuning t fd.

(** ** BenchClient *)

(** The result, and [fd_]. *)
Definition client_connect (port : Z) : T (bool * Z) :=
  do* fd := call (CSocket AF_INET SOCK_STREAM 0) in
  if fd <? 0 then tret (false, fd) else
  do* _ := call (CSetsockopt fd IPPROTO_TCP TCP_NODELAY 1) in
  let addr := mk_addr AF_INET (htons libc port) (inet_addr libc (str "127.0.0.1")) in
  do* r := call (CConnect fd addr) in
  if r <? 0 then do* _ := call (CClose fd) in tret (false, -1)
  else tret (true, fd).

(** The result is the new [fd_]. *)
Definition close_fd (fd : Z) : T Z :=
  if 0 <=? fd then do* _ := call (CClose fd) in tret (-1) else tret fd.

(** ** The life of a server's and of a client's descriptor *)

Definition server_life (port : Z) (bind_addr : bytes) : T unit :=
  do* s := server_ctor port bind_addr in server_dtor s.

(** [close_fd] is called again, as an early return and the destructor of a
    caller might. *)
Definition client_life (port : Z) : T bool :=
  do* (ok, fd) := client_connect port in
  do* fd := close_fd fd in
  do* _ := close_fd fd in
  tret ok.

End setup.

End SocketSetup.

Import Sockets SocketSetup.

(** ** Descriptors *)

Definition opened_by (e : Call * Z) : option Z :=
  match e with (CSocket _ _ _, fd) | (CAccept _, fd) => if 0 <=? fd then Some fd else None | _ => None end.
Definition closed_by (e : Call * Z) : option Z :=
  match e with (CClose fd, _) => Some fd | _ => None end.
Definition opened (tr : Trace) : list Z := omap opened_by tr.
Definition closed (tr : Trace) : list Z := omap closed_by tr.

(** The accepted descriptors that were prepared to become connections:
    nothing else is made non-blocking by a running server. *)
Definition handed_by (e : Call * Z) : option Z :=
  match e with (CFcntl fd _ _, _) => Some fd | _ => None end.
Definition handed (tr : Trace) : list Z := omap handed_by tr.

(** The descriptor a call works on. *)
Definition used_by (e : Call * Z) : option Z :=
  match e with
  | (CSocket _ _ _, _) | (CClose _, _) => None
  | (CSetsockopt fd _ _ _, _) | (CBind fd _, _) | (CListen fd _, _) | (CConnect fd _, _) | (CAccept fd, _)
  | (CFcntl fd _ _, _) => Some fd
  end.

(** Every call works on a descriptor that is open at that point, and every
    close closes one. *)
Fixpoint uses_open (tr : Trace) (live : list Z) : Prop :=
  match tr with
  | [] => True
  | e :: tr' =>
      match used_by e with Some fd => fd ∈ live | None => True end
      /\ match closed_by e with
         | Some fd => fd ∈ live /\ uses_open tr' (filter (fun x => x <> fd) live)
         | None => uses_open tr' (match opened_by e with Some fd => fd :: live | None => live end)
         end
  end.

(** Evaluate a program on an unknown kernel, splitting on the results it
    tests. *)
Ltac run_calls_tac tuning :=
  repeat first
    [ progress cbn -[Z.ltb Z.leb str]
    | match goal with |- context [if ?a <? 0 then _ else _] => destruct (Z.ltb_spec a 0) end
    | match goal with |- context [if ?b tuning then _ else _] => destruct (b tuning) end
    | match goal with |- context [if 0 <=? ?a then _ else _] => destruct (Z.leb_spec 0 a); try lia end ].

(** [tr] works on open descriptors, whatever else is open, as long as [sock]
    is, and leaves [sock] open. *)
Definition orderly (sock : Z) (tr : Trace) : Prop :=
  forall k live, sock ∈ live -> (forall live, sock ∈ live -> uses_open k live) -> uses_open (tr ++ k) live.

Lemma orderly_nil sock : orderly sock [].
Proof. intros k live Hl Hk. by apply Hk. Qed.
Lemma orderly_app sock tr1 tr2 : orderly sock tr1 -> orderly sock tr2 -> orderly sock (tr1 ++ tr2).
Proof. intros H1 H2 k live Hl Hk. rewrite <- app_assoc. apply H1; [done|]. intros live' Hl'. by apply H2. Qed.

(** The constructor leaves its socket open. *)
Lemma server_ctor_live kernel libc port bind_addr :
  match server_ctor kernel libc port bind_addr [] with
  | (inl _, tr) => True
  | (inr s, tr) => 0 <= s /\ opened tr = [s] /\ closed tr = []
      /\ forall k, (forall live, s ∈ live -> uses_open k live) -> uses_open (tr ++ k) []
  end.
Proof.
  unfold server_ctor, tbind, sys, calls_so_far, tret, throw.
  run_calls_tac default_tuning; try done. split_and!; [done|done|done|]. intros k Hk.
  split_and!; [done|by apply list_elem_of_singleton..|]. apply Hk. by apply list_elem_of_singleton.
Qed.

(** A constructed server, whatever orderly calls come after it, and the
    destructor. *)
Lemma server_life_balanced kernel libc port bind_addr sock tr mid :
  server_ctor kernel libc port bind_addr [] = (inr sock, tr) -> orderly sock mid ->
  let calls := snd (server_dtor kernel sock (tr ++ mid)) in
  opened calls = sock :: opened mid /\ closed calls = closed mid ++ [sock] /\ uses_open calls [].
Proof.
  intros E Hmid. pose proof (server_ctor_live kernel libc port bind_addr) as Hc. rewrite E in Hc.
  destruct Hc as (Hs & Ho & Hcl & Hu). unfold server_dtor, only_if, tbind, sys, tret.
  destruct (Z.leb_spec 0 sock); [|lia]. cbn [snd]. unfold opened, closed in *. rewrite !omap_app, Ho, Hcl. cbn.
  split_and!; [by rewrite app_nil_r|done|]. rewrite <- app_assoc. apply Hu. intros live Hl. apply Hmid; [done|].
  intros live' Hl'. cbn. by split_and!.
Qed.

(** An accepted descriptor is closed at once, or prepared. *)
Lemma refused_orderly sock fd r : 0 <= fd -> fd <> sock -> orderly sock [(CAccept sock, fd); (CClose fd, r)].
Proof.
  intros Hfd Hne k live Hl Hk. cbn. destruct (Z.leb_spec 0 fd); [|lia].
  split_and!; [done|done|left|]. apply Hk. apply list_elem_of_filter. split; [done|by right].
Qed.
Lemma failed_orderly sock fd : fd < 0 -> orderly sock [(CAccept sock, fd)].
Proof. intros Hfd k live Hl Hk. cbn. destruct (Z.leb_spec 0 fd); [lia|]. split; [done|by apply Hk]. Qed.

(** Calls that only work on [fd]. *)
Definition works_on (fd : Z) (e : Call * Z) : Prop := used_by e = Some fd /\ opened_by e = None /\ closed_by e = None.

Lemma works_on_open fd tr k live : Forall (works_on fd) tr -> fd ∈ live -> uses_open k live -> uses_open (tr ++ k) live.
Proof. induction 1 as [|e tr (Eu & Eo & Ec) _ IH]; intros Hl Hk; [done|]. cbn. rewrite Eu, Eo, Ec. split; [done|by apply IH]. Qed.
Lemma works_on_none fd tr : Forall (works_on fd) tr -> opened tr = [] /\ closed tr = [].
Proof. induction 1 as [|e tr (Eu & Eo & Ec) _ [IHo IHc]]; [done|]. unfold opened, closed in *. cbn. by rewrite Eo, Ec. Qed.

Lemma prepare_calls kernel t fd tr :
  exists k, snd (prepare_client kernel t fd tr) = tr ++ k /\ Forall (works_on fd) k /\ handed k = [fd].
Proof.
  unfold prepare_client, apply_tcp_tuning, only_if, tbind, sys, tret. cbn [snd].
  destruct (tcp_nodelay t), (tcp_quickack t), (so_keepalive t); cbn [snd]; rewrite <- ?app_assoc;
    (eexists; split; [reflexivity|]; split; [by repeat constructor|reflexivity]).
Qed.

Lemma handed_orderly sock fd k : 0 <= fd -> Forall (works_on fd) k -> orderly sock ((CAccept sock, fd) :: k).
Proof.
  intros Hfd Hk k' live Hl Hk'. cbn. destruct (Z.leb_spec 0 fd); [|lia]. split; [done|].
  apply (works_on_open fd); [done|left|]. apply Hk'. by right.
Qed.

(** The constructor by itself, and with the destructor. *)
Lemma server_balanced kernel libc port bind_addr :
  match server_ctor kernel libc port bind_addr [] with
  | (inl _, tr) => closed tr = opened tr /\ uses_open tr []
  | (inr s, tr) => let tr := snd (server_dtor kernel s tr) in closed tr = opened tr /\ uses_open tr [] /\ opened tr = [s]
  end.
Proof.
  unfold server_ctor, server_dtor, only_if, tbind, sys, calls_so_far, tret, throw.
  run_calls_tac default_tuning; split_and!; try done; try (by apply list_elem_of_singleton).
Qed.

(** C32: descriptors: whatever the kernel answers to each call, the
    constructor of [Server] either throws and has closed the descriptor it
    opened (if it got one), or returns it open, listening and non-blocking,
    and then the destructor closes it; the client's [connect] and [close_fd]
    likewise, however often [close_fd] is called; preparing an accepted
    descriptor, whatever options are configured, works on that descriptor
    only.  No descriptor leaks, is closed twice, or is used before it is
    opened or after it is closed. *)
Theorem descriptors_balanced kernel libc port bind_addr tuning fd :
  let '(r, tr) := server_ctor kernel libc port bind_addr [] in
  let '(_, tr_life) := server_life kernel libc port bind_addr [] in
  let '(_, tr_client) := client_life kernel libc port [] in
  let '(_, tr_accept) := prepare_client kernel tuning fd [] in
  (match r with
   | inl _ => closed tr = opened tr
   | inr s => opened tr = [s] /\ closed tr = []
       /\ exists r1 r2 r3, 0 <= r1 /\ 0 <= r2 /\ drop 2 tr =
            [(CBind s (mk_addr AF_INET (htons libc port)
                 (match bind_addr with [] => htonl libc INADDR_ANY | _ => inet_addr libc bind_addr end)), r1);
             (CListen s 128, r2); (CFcntl s F_SETFL O_NONBLOCK, r3)]
   end)
  /\ closed tr_life = opened tr_life /\ uses_open tr_life []
  /\ closed tr_client = opened tr_client /\ uses_open tr_client []
  /\ closed tr_accept = [] /\ opened tr_accept = [] /\ uses_open tr_accept [fd].
Proof.
  unfold server_life, client_life, server_ctor, server_dtor, client_connect, close_fd, prepare_client, apply_tcp_tuning, only_if, tbind, sys, calls_so_far, tret, throw.
  run_calls_tac tuning; split_and!; try done; try (by apply list_elem_of_singleton).
  all: do 3 eexists; split_and!; [| |reflexivity]; done.
Qed.

(** A kernel that lets [bind] fail. *)
Definition busy_port (_ : Trace) (c : Call) : Z :=
  match c with CSocket _ _ _ => 5 | CBind _ _ => -1 | _ => 0 end.

Example busy_port_closes libc :
  server_ctor busy_port libc 80 [] [] =
    (inl (str "Failed to bind port 80: " ++ error_text libc
        [(CSocket 2 1 0, 5); (CSetsockopt 5 1 2 1, 0); (CBind 5 (mk_addr 2 (htons libc 80) (htonl libc 0)), -1)]),
     [(CSocket 2 1 0, 5); (CSetsockopt 5 1 2 1, 0); (CBind 5 (mk_addr 2 (htons libc 80) (htonl libc 0)), -1); (CClose 5, 0)]).
Proof. reflexivity. Qed.
