(* ===== verification/Responder.v ===== *)
(** * Responder: servers that answer every message

    The callbacks of the example servers ([echo_server.cpp], the echo server
    inside [benchmark_echo.cpp]) send one reply per message.  For such
    callbacks the transmit buffer is a function of the frames received; with
    the benchmark's client on the other side this closes the loop from
    [send_masked] to [recv_frame]. *)
From S2P Require Import Prelude Vocabulary RingBuffer Frame Connection ConnectionApi ConnectionInv ConnectionFrames ConnectionSend Client.
Open Scope ewss_scope.
Import Conn Handlers Ws BenchClient.

(** ** The callbacks of the examples *)

Module EchoServer.

(** [on_connect], [on_close] and [on_error] print. *)
Definition on_message {Sock} (_ : Connection Sock) (msg : bytes) : list ApiCall :=
  [ApiSend (str "Echo: " ++ msg)].

Definition callbacks {Sock} : Callbacks Sock :=
  mk_callbacks Sock (Some (fun _ => [])) (Some on_message) (Some (fun _ _ => [])) (Some (fun _ => [])) None None.

End EchoServer.

Module BenchServer.

(** The benchmark's server installs [on_message] only. *)
Definition on_message {Sock} (_ : Connection Sock) (msg : bytes) : list ApiCall := [ApiSend msg].

Definition callbacks {Sock} : Callbacks Sock := mk_callbacks Sock None (Some on_message) None None None None.

End BenchServer.

(** ** Reference: what a responder queues *)

Definition reply_to (answer : bytes -> bytes) (f : Frame) : bytes :=
  if is_data f then encode_frame kText (answer (f_payload f)) false
  else if bool_decide (f_op f = kPing) then encode_frame kPong (f_payload f) false
  else [].
Definition replies (answer : bytes -> bytes) (fs : list Frame) : bytes := mjoin (reply_to answer <$> fs).

(** An [on_message] that sends [answer msg], whatever the connection. *)
Definition responds {Sock} (env : Env Sock) (answer : bytes -> bytes) : Prop :=
  exists g, on_message (cb env) = Some g /\ forall c msg, g c msg = [ApiSend (answer msg)].

(** What handling frames that carry no Close does. *)
Record answered {Sock} `{TcpSocket Sock} (c c' : Connection Sock) (out : bytes) (msgs : list bytes) : Prop := {
  an_ok : conn_ok c';
  an_open : ops_ c' = kOpen;
  an_tx : tx_list c' = tx_list c ++ out;
  an_wire : wire_ c' = wire_ c;
  an_paused : write_paused_ c' = write_paused_ c;
  an_log : log_ c' = log_ c ++ (EvMessage <$> msgs);
}.

Section responder.
Context {Sock : Type} `{TcpSocketLaws Sock} {target : Target}.
Variable env : Env Sock.
Variable answer : bytes -> bytes.
Hypothesis Hresp : responds env answer.
Implicit Type c : Connection Sock.

Abbreviation cbs := (run_callback env).

Lemma reply_cons f fs : replies answer (f :: fs) = reply_to answer f ++ replies answer fs.
Proof. done. Qed.

Lemma set_tx_ok c tx' : conn_ok c -> ops_ c = kOpen -> Ring.wf tx' -> conn_ok (set_tx c tx').
Proof. intros [] Eop Hwf. split; cbn; try done. by rewrite Eop. Qed.

(** A message: the callback runs and queues its answer. *)
Lemma message_answered c p :
  conn_ok c -> ops_ c = kOpen ->
  zlen (tx_list c) + zlen (encode_frame kText (answer p) false) <= kTxHighWatermark ->
  exists c', fire cbs (EvMessage p) ((fun g => (fun c => g c p)) <$> on_message (cb env)) c = Ok (tt, c')
    /\ answered c c' (encode_frame kText (answer p) false) [p] /\ rx_buffer_ c' = rx_buffer_ c.
Proof.
  intros Hok Eop Hfit. destruct Hresp as (g & Eg & Hg). rewrite Eg. cbn [fmap option_fmap option_map].
  unfold fire. unfold bind at 1. cbn [modify res_bind]. unfold bind at 1. cbn [gets res_bind]. rewrite Hg.
  set (c1 := add_log c (EvMessage p)). assert (Hok1 : conn_ok c1) by (by apply add_log_ok).
  destruct (send_fits env (run_calls env 2) c1 (answer p) false (ok_tx _ Hok1) Eop Hfit) as (tx' & E & Hwf & Hc).
  exists (set_tx c1 tx'). split; [|split; [|done]].
  - change (bind (send_impl env (run_calls env 2) (answer p) false) (fun _ => ret tt) c1 = Ok (tt, set_tx c1 tx')).
    unfold bind. by rewrite E.
  - split; try done. by apply set_tx_ok.
Qed.

Lemma dispatch_answered c f :
  conn_ok c -> ops_ c = kOpen -> is_close f = false ->
  zlen (tx_list c) + zlen (reply_to answer f) <= kTxHighWatermark ->
  exists c', dispatch_frame env cbs (f_op f) (view_of (f_payload f)) c = Ok (true, c')
    /\ answered c c' (reply_to answer f) (data_payloads [f]) /\ rx_buffer_ c' = rx_buffer_ c.
Proof.
  intros Hok Eop Hc Hfit. unfold reply_to in *. set (p := f_payload f) in *.
  assert (Hskip : answered c c [] []) by (split; rewrite ?app_nil_r; done).
  assert (Hmsg : is_data f = true -> exists c',
    (match on_message (cb env) with
     | None => ret true
     | Some g => let* msg := lift (view_bytes (view_of p)) in
         fire cbs (EvMessage msg) (Some (fun c => g c msg)) ;;; ret true
     end) c = Ok (true, c')
    /\ answered c c' (encode_frame kText (answer p) false) [p] /\ rx_buffer_ c' = rx_buffer_ c).
  { intros Hd. rewrite Hd in Hfit. destruct (message_answered c p Hok Eop Hfit) as (c' & E & Ha & Hr).
    exists c'. split; [|done]. destruct Hresp as (g & Eg & _). rewrite Eg in E |- *. cbn [fmap option_fmap option_map] in E.
    unfold view_bytes, view_of; cbn [sv_size sv_mem]. rewrite Z.leb_refl, take_ge by len.
    unfold bind at 1. cbn [lift res_bind]. unfold bind. by rewrite E. }
  assert (Hping : f_op f = kPing -> exists c', (write_frame (view_of p) kPong ;;; ret true) c = Ok (true, c')
    /\ answered c c' (encode_frame kPong p false) [] /\ rx_buffer_ c' = rx_buffer_ c).
  { intros Ep. assert (is_data f = false) as Ed by (unfold is_data; by rewrite Ep). rewrite Ed, Ep in Hfit.
    rewrite bool_decide_eq_true_2 in Hfit by done.
    assert (Hw : wp (write_frame (view_of p) kPong) (fun _ c' => answered c c' (encode_frame kPong p false) [] /\ rx_buffer_ c' = rx_buffer_ c) c).
    { apply write_frame_spec; [apply Hok|]. intros tx' Hwf Ht. rewrite frame_appended_cases in Ht.
      rewrite encode_frame_split, zlen_app in Hfit. unfold kTxHighWatermark, kTxBufferSize in Hfit.
      change (8192 * 3 / 4) with 6144 in Hfit. rewrite (proj2 (Z.leb_le _ _)) in Ht by lia.
      split; [|done]. split; try done; [by apply set_tx_ok|by rewrite app_nil_r]. }
    apply wp_run in Hw as ([] & c' & E & Ha & Hr). exists c'. unfold bind. by rewrite E. }
  unfold is_data, is_close, data_payloads in *. destruct f as [op q]. cbn [f_op f_payload] in *. subst p.
  destruct op; cbn in Hc |- *; try discriminate; try (by exists c); first [by apply Hmsg|by apply Hping].
Qed.

Lemma answered_trans c1 c2 c3 o1 o2 m1 m2 :
  answered c1 c2 o1 m1 -> answered c2 c3 o2 m2 -> answered c1 c3 (o1 ++ o2) (m1 ++ m2).
Proof.
  intros [_ _ T1 W1 P1 L1] [O2 E2 T2 W2 P2 L2]. split; [done|done| |congruence|congruence|].
  - by rewrite T2, T1, app_assoc.
  - by rewrite L2, L1, fmap_app, app_assoc.
Qed.

Lemma loop_answered fuel : forall c,
  conn_ok c -> ops_ c = kOpen -> no_wrap (rest_of (rx_list c)) ->
  existsb is_close (frames_of (rx_list c)) = false ->
  zlen (tx_list c) + zlen (replies answer (frames_of (rx_list c))) <= kTxHighWatermark ->
  zlen (rx_list c) < 2 * Z.of_nat fuel ->
  exists c', parse_frames_loop env cbs fuel c = Ok (tt, c') /\ rx_list c' = rest_of (rx_list c)
    /\ answered c c' (replies answer (frames_of (rx_list c))) (data_payloads (frames_of (rx_list c))).
Proof.
  induction fuel as [|fuel IH]; intros c Hok Eop Hnw Hcl Hfit Hfuel.
  { pose proof (zlen_nonneg (rx_list c)). lia. }
  cbn [parse_frames_loop]. pose proof (deframe_unfold _ (ok_rx_bytes _ Hok)) as Hun.
  destruct (next_frame (rx_list c)) as [[f rest]|] eqn:Ef.
  2: { injection Hun as Efs Er. rewrite Er in Hnw. unfold bind. rewrite iter_none by done. cbn [res_bind ret].
       exists c. rewrite Efs, Er. split; [done|]. split; [done|]. split; rewrite ?app_nil_r; done. }
  destruct (iter_frame env c f rest Hok Ef) as (n & Hsz & Hrest & Eit). unfold bind at 1. rewrite Eit. clear Eit.
  destruct (is_close f) eqn:Ecl; injection Hun as Efs Er.
  { rewrite Efs in Hcl. cbn in Hcl. by rewrite Ecl in Hcl. }
  rewrite Efs in Hcl, Hfit |- *. rewrite Er in Hnw |- *. cbn [existsb] in Hcl. rewrite Ecl in Hcl.
  rewrite reply_cons, zlen_app in Hfit. pose proof (zlen_nonneg (replies answer (frames_of rest))).
  destruct (dispatch_answered c f Hok Eop Ecl) as (c1 & E1 & Ha1 & Erx1); [lia|].
  unfold bind at 1. rewrite E1. cbn [res_bind negb]. unfold bind, rx_advance, modify, ret. cbn [res_bind].
  destruct (advance_rx_ok c1 n (an_ok _ _ _ _ Ha1)) as (Hok2 & _ & Erx2); [lia|]. revert Hok2 Erx2. cbn zeta.
  set (c2 := set_rx c1 _). intros Hok2 Erx2. rewrite Erx1, <- Hrest in Erx2.
  assert (Ha2 : answered c c2 (reply_to answer f) (data_payloads [f])) by (by destruct Ha1; split).
  destruct (IH c2) as (c3 & E3 & Erx3 & Ha3); [done|by destruct Ha1|by rewrite Erx2|by rewrite Erx2| | |].
  - rewrite Erx2, (an_tx _ _ _ _ Ha2), zlen_app. lia.
  - rewrite Erx2, Hrest. len.
  - exists c3. split; [exact E3|]. rewrite Erx2 in *. split; [done|].
    rewrite reply_cons. change (f :: frames_of rest) with ([f] ++ frames_of rest). unfold data_payloads.
    rewrite filter_app, fmap_app. by eapply answered_trans.
Qed.

End responder.

(** ** Properties *)
Section properties.
Context {Sock : Type} `{TcpSocketLaws Sock} {target : Target}.
Implicit Type c : Connection Sock.

(** C30: a responding server answers everything it receives, in order: when
    the received frames contain no Close and the answers fit below the high
    watermark, [parse_frames] queues exactly one text frame per message
    (carrying the answer) and one Pong per ping (carrying its payload), each
    at the place of its frame; the messages are delivered, the connection
    stays open and the unfinished rest stays in the buffer. *)
Theorem responder_answers_in_order env answer c :
  responds env answer -> conn_ok c -> ops_ c = kOpen -> no_wrap (rest_of (rx_list c)) ->
  existsb is_close (frames_of (rx_list c)) = false ->
  zlen (tx_list c) + zlen (replies answer (frames_of (rx_list c))) <= kTxHighWatermark ->
  exists c', parse_frames env (run_callback env) c = Ok (tt, c')
    /\ rx_list c' = rest_of (rx_list c)
    /\ answered c c' (replies answer (frames_of (rx_list c))) (data_payloads (frames_of (rx_list c))).
Proof.
  intros Hr Hok Eop Hnw Hcl Hfit. apply loop_answered; try done.
  pose proof (contents_length _ (ok_rx _ Hok)). pose proof (Ring.wf_count _ (ok_rx _ Hok)). unfold frame_fuel. lia.
Qed.

End properties.

(** ** The echo session *)

(** The client's side of [n] exchanges: a [recv_frame] per expected length. *)
Fixpoint recv_all (net_recv : bytes -> Z -> Z) (lens : list Z) (stream : bytes) : Res (bool * bytes) :=
  match lens with
  | [] => Ok (true, stream)
  | len :: lens' =>
      let! (ok, stream) := recv_frame net_recv len stream in
      if negb ok then Ok (false, stream) else recv_all net_recv lens' stream
  end.

Lemma recv_all_spec net_recv answer msgs stream :
  recv_behaves net_recv -> Forall (fun m => zlen (answer m) < 2 ^ 64) msgs ->
  recv_all net_recv ((fun m => zlen (answer m)) <$> msgs)
    (replies answer (mk_frame kText <$> msgs) ++ stream) = Ok (true, stream).
Proof.
  intros Hnet Hl. induction Hl as [|m msgs Hm _ IH]; [done|].
  change (replies answer (mk_frame kText <$> m :: msgs))
    with (encode_frame kText (answer m) false ++ replies answer (mk_frame kText <$> msgs)).
  rewrite <- app_assoc. cbn [fmap list_fmap recv_all]. rewrite recv_frame_spec; [exact IH|done| |done].
  split; [split; vm_compute; [discriminate|reflexivity]|reflexivity].
Qed.

Lemma data_payloads_text msgs : data_payloads (mk_frame kText <$> msgs) = msgs.
Proof.
  unfold data_payloads. induction msgs as [|m msgs IH]; [done|]. cbn [fmap list_fmap].
  rewrite filter_cons_True by done. cbn. by rewrite IH.
Qed.

Lemma messages_delivered msgs : messages (EvMessage <$> msgs) = msgs.
Proof.
  induction msgs as [|m msgs IH]; [done|].
  change (messages (EvMessage <$> m :: msgs)) with (m :: messages (EvMessage <$> msgs)). by rewrite IH.
Qed.

Lemma no_close_text msgs : existsb is_close (mk_frame kText <$> msgs) = false.
Proof. by induction msgs. Qed.

(** C24: the echo benchmark end to end: what the client sends with
    [send_masked] comes back.  When the messages have arrived at an open
    connection of the benchmark's server with nothing queued, handling them
    queues bytes from which as many [recv_frame] calls of the client, each
    expecting the length it sent, all succeed and consume exactly these
    bytes, however [recv] cuts them. *)
Theorem echo_round_trip {Sock} `{TcpSocketLaws Sock} {target : Target} (env : Env Sock) (c : Connection Sock)
  net_send net_recv msgs more :
  responds env (fun m => m) -> conn_ok c -> ops_ c = kOpen -> tx_list c = [] ->
  (forall out, net_send out = zlen out) -> recv_behaves net_recv ->
  Forall bytes_ok msgs -> zlen (replies (fun m => m) (mk_frame kText <$> msgs)) <= kTxHighWatermark ->
  send_all net_send msgs = Ok (rx_list c) ->
  exists c', parse_frames env (run_callback env) c = Ok (tt, c')
    /\ messages (log_ c') = messages (log_ c) ++ msgs /\ rx_list c' = []
    /\ recv_all net_recv (zlen <$> msgs) (tx_list c' ++ more) = Ok (true, more).
Proof.
  intros Hr Hok Eop Etx Hnet Hrecv Hm Hfit Es. rewrite send_all_spec in Es by done. injection Es as Erx.
  assert (Hl : Forall (fun m => zlen m < 2 ^ 64) msgs).
  { clear -Hfit. induction msgs as [|m msgs IH]; [done|].
    change (replies (fun m => m) (mk_frame kText <$> m :: msgs))
      with (encode_frame kText m false ++ replies (fun m => m) (mk_frame kText <$> msgs)) in Hfit.
    rewrite zlen_app, encode_frame_split, zlen_app in Hfit.
    pose proof (zlen_nonneg (replies (fun m => m) (mk_frame kText <$> msgs))).
    pose proof (zlen_nonneg (header_bytes kText (zlen m) false)).
    pose proof (zlen_nonneg m). unfold kTxHighWatermark, kTxBufferSize in *. change (8192 * 3 / 4) with 6144 in *.
    constructor; [lia|apply IH; lia]. }
  destruct (deframe_messages msgs [] Hm Hl) as (Ef & Er & _); [done|done|]. rewrite app_nil_r, Erx in Ef, Er.
  destruct (responder_answers_in_order env (fun m => m) c) as (c' & E & Erx' & [_ _ Et _ _ El]); try done.
  - by rewrite Er.
  - by rewrite Ef, no_close_text.
  - by rewrite Ef, Etx.
  - exists c'. rewrite Ef in Et, El. rewrite data_payloads_text in El. split_and!; [done| |congruence|].
    + rewrite El, messages_app. by rewrite messages_delivered.
    + rewrite Et, Etx. by apply (recv_all_spec net_recv (fun m => m)).
Qed.

#[local] Existing Instances Demo.socket_tcp Demo.socket_laws.
#[local] Instance demo_target : Target := true.

(** The echo server meets a message, a ping and another message. *)
Definition echo_env : Env Demo.Socket := Demo.env_with EchoServer.callbacks 0 [] 0.
Definition echo_conn : Connection Demo.Socket :=
  Demo.conn_with kOpen (wire_frame kText (Some mask_key) (str "hi") ++ wire_frame kPing (Some mask_key) [7]
    ++ wire_frame kBinary (Some mask_key) (str "yo") ++ [0x81]).

Lemma responder_answers_in_order_witness :
  exists c', parse_frames echo_env (run_callback echo_env) echo_conn = Ok (tt, c')
    /\ tx_list c' = encode_frame kText (str "Echo: hi") false ++ encode_frame kPong [7] false
                    ++ encode_frame kText (str "Echo: yo") false.
Proof.
  destruct (responder_answers_in_order echo_env (fun m => str "Echo: " ++ m) echo_conn) as (c' & E & _ & [_ _ Et _ _ _]).
  - by exists EchoServer.on_message.
  - apply Demo.conn_with_ok; [vm_compute; lia|by_decide].
  - reflexivity.
  - by_decide.
  - vm_compute. reflexivity.
  - vm_compute. discriminate.
  - exists c'. split; [exact E|]. etrans; [exact Et|]. vm_compute. reflexivity.
Defined.

Definition bench_env : Env Demo.Socket := Demo.env_with BenchServer.callbacks 0 [] 0.
Definition bench_msgs : list bytes := [str "one"; []; replicate 130 66].
Definition bench_conn : Connection Demo.Socket :=
  Demo.conn_with kOpen (mjoin (wire_frame kText (Some mask_key) <$> bench_msgs)).

Lemma echo_round_trip_witness :
  exists c', parse_frames bench_env (run_callback bench_env) bench_conn = Ok (tt, c')
    /\ recv_all three_at_a_time [3; 0; 130] (tx_list c' ++ [1; 2]) = Ok (true, [1; 2]).
Proof.
  destruct (echo_round_trip bench_env bench_conn zlen three_at_a_time bench_msgs [1; 2]) as (c' & E & _ & _ & Hr).
  - by exists BenchServer.on_message.
  - apply Demo.conn_with_ok; [vm_compute; lia|by_decide].
  - reflexivity.
  - vm_compute. reflexivity.
  - reflexivity.
  - exact three_behaves.
  - by_decide.
  - vm_compute. discriminate.
  - vm_compute. reflexivity.
  - exists c'. split; [exact E|exact Hr].
Defined.
