(* ===== verification/Double.v ===== *)
(** * Double: floating-point figures

    The benchmark computes its figures in [double]: IEEE 754 binary64, with
    rounding to nearest, as the Standard Library specifies it ([SpecFloat],
    of precision 53 and maximal exponent 1024).  The conversions and the
    printing the program uses, the order [std::sort] uses, and what keeps
    the figures away from NaN and from overflow. *)
From Stdlib Require Import Floats.SpecFloat.
From S2P Require Import Prelude Numbers.
Open Scope Z_scope.
Open Scope ewss_scope.
Import Numbers.

Module Double.

Abbreviation double := spec_float.

#[export] Instance double_eq_dec : EqDecision double.
Proof. solve_decision. Defined.

(** The conversion of an integer, and the arithmetic operators. *)
Definition of_int (n : Z) : double := binary_normalize 53 1024 n 0 false.
Definition add (x y : double) : double := SFadd 53 1024 x y.
Definition div (x y : double) : double := SFdiv 53 1024 x y.

(** The order of [operator<], in which [std::sort] puts numbers; a NaN,
    which [std::sort] must not be given, goes last. *)
Definition le (x y : double) : Prop :=
  match SFcompare x y with
  | Some Gt => False
  | Some _ => True
  | None => y = S754_nan
  end.
#[export] Instance le_dec : RelDecision le.
Proof. intros x y. unfold le. destruct (SFcompare x y) as [[]|]; apply _. Defined.

(** [static_cast<int>]: the integral part, if an [int] can hold it. *)
Definition integral (x : double) : option Z :=
  match x with
  | S754_zero _ => Some 0
  | S754_finite s m e =>
      let a := if 0 <=? e then Z.pos m * 2 ^ e else Z.pos m / 2 ^ (- e) in
      Some (if s then - a else a)
  | S754_infinity _ | S754_nan => None
  end.
Definition to_int (x : double) : Res Z :=
  match integral x with
  | Some n => if is_int n then Ok n else Undefined
  | None => Undefined
  end.

(** ** [operator<<] with the default format: [%g], six significant digits *)

(** The decimal digits of [n]; at most 400. *)
Definition decimal (n : Z) : bytes := digits 400 n [].

(** The exponent of the first significant digit of [num / den]. *)
Definition exponent10 (num den : Z) : Z :=
  if den <=? num then zlen (decimal (num / den)) - 1 else - zlen (decimal ((den - 1) / num)).

(** [num / den], rounded to an integer, ties to even. *)
Definition nearest (num den : Z) : Z :=
  let q := num / den in
  match 2 * (num mod den) ?= den with
  | Lt => q
  | Eq => if Z.even q then q else q + 1
  | Gt => q + 1
  end.

(** Six digits and the exponent of the first. *)
Definition six_digits (num den : Z) : Z * Z :=
  let x := exponent10 num den in
  let r := if 5 <=? x then nearest num (den * 10 ^ (x - 5)) else nearest (num * 10 ^ (5 - x)) den in
  if r =? 1000000 then (100000, x + 1) else (r, x).

(** The digits without the zeros at the end. *)
Fixpoint strip (ds : bytes) : bytes :=
  match ds with
  | [] => []
  | c :: ds' => match strip ds' with
                | [] => if c =? 48 then [] else [c]
                | rest => c :: rest
                end
  end.

Definition fraction (ds : bytes) : bytes := match strip ds with [] => [] | rest => 46 :: rest end.

Definition exponent_text (x : Z) : bytes :=
  str "e" ++ (if x <? 0 then str "-" else str "+") ++ (if Z.abs x <? 10 then str "0" else []) ++ to_string (Z.abs x).

Definition magnitude (num den : Z) : bytes :=
  let (r, x) := six_digits num den in
  let ds := decimal r in
  if (x <? -4) || (6 <=? x) then take 1 ds ++ fraction (drop 1 ds) ++ exponent_text x
  else if x <? 0 then str "0" ++ fraction (replicate (Z.to_nat (- x - 1)) 48 ++ ds)
  else take (Z.to_nat (x + 1)) ds ++ fraction (drop (Z.to_nat (x + 1)) ds).

Definition print (x : double) : bytes :=
  let minus (s : bool) := if s then str "-" else [] in
  match x with
  | S754_zero s => minus s ++ str "0"
  | S754_infinity s => minus s ++ str "inf"
  | S754_nan => str "nan"
  | S754_finite s m e =>
      minus s ++ (if 0 <=? e then magnitude (Z.pos m * 2 ^ e) 1 else magnitude (Z.pos m) (2 ^ (- e)))
  end.

End Double.

Import Double.

Example print_some :
  print (div (of_int 1500) (of_int 1000)) = str "1.5"
  /\ print (div (of_int 1) (of_int 1000000000)) = str "1e-09"
  /\ print (div (of_int 1234567) (of_int 10)) = str "123457"
  /\ print (of_int 1234567) = str "1.23457e+06"
  /\ print (div (of_int 1) (of_int 3)) = str "0.333333"
  /\ print (div (of_int 9999999) (of_int 10000)) = str "1000"
  /\ print (div (of_int 25) (of_int 200000)) = str "0.000125"
  /\ print (of_int 100) = str "100"
  /\ print (div (of_int (-7)) (of_int 2)) = str "-3.5"
  /\ print (div (of_int 7) (of_int 0)) = str "inf".
Proof. vm_compute. by split_and!. Qed.

(** ** The order *)

(** A double as a triple that is compared lexicographically: its class, its
    exponent and its mantissa, the latter two negated when it is. *)
Definition key (x : double) : Z * Z * Z :=
  match x with
  | S754_infinity true => (-2, 0, 0)
  | S754_finite true m e => (-1, - e, - Z.pos m)
  | S754_zero _ => (0, 0, 0)
  | S754_finite false m e => (1, e, Z.pos m)
  | S754_infinity false => (2, 0, 0)
  | S754_nan => (3, 0, 0)
  end.

Definition lex (x y : Z * Z * Z) : Prop :=
  let '(x1, x2, x3) := x in let '(y1, y2, y3) := y in
  x1 < y1 \/ (x1 = y1 /\ (x2 < y2 \/ (x2 = y2 /\ x3 <= y3))).

Lemma le_key x y : le x y <-> lex (key x) (key y).
Proof.
  unfold le, lex, key. destruct x as [|[]| |[] mx ex], y as [|[]| |[] my ey]; cbn [SFcompare]; try (by intuition lia);
    try (split; [intros _; lia|done]); try (split; [done|lia]).
  - destruct (Z.compare_spec ex ey) as [->|?|?]; [|split; [done|lia]|split; [intros _; lia|done]].
    change (Pos.compare_cont Eq mx my) with (mx ?= my)%positive.
    destruct (Pos.compare_spec mx my) as [->|?|?]; cbn [CompOpp]; split; lia || done.
  - destruct (Z.compare_spec ex ey) as [->|?|?]; [|split; [intros _; lia|done]|split; [done|lia]].
    change (Pos.compare_cont Eq mx my) with (mx ?= my)%positive.
    destruct (Pos.compare_spec mx my) as [->|?|?]; split; lia || done.
Qed.

#[export] Instance le_total : Total le.
Proof.
  intros x y. rewrite !le_key. destruct (key x) as [[x1 x2] x3], (key y) as [[y1 y2] y3]. cbn. lia.
Qed.
#[export] Instance le_transitive : Transitive le.
Proof.
  intros x y z. rewrite !le_key. destruct (key x) as [[x1 x2] x3], (key y) as [[y1 y2] y3], (key z) as [[z1 z2] z3]. cbn. lia.
Qed.

(** On numbers it is [operator<=]. *)
Lemma le_SFleb x y : x <> S754_nan -> y <> S754_nan -> le x y <-> SFleb x y = true.
Proof.
  intros Hx Hy. unfold le, SFleb. destruct (SFcompare x y) as [[]|]; done.
Qed.

(** ** Figures that are not negative *)

(** Zero, positive, or infinite. *)
Definition nonneg (x : double) : Prop :=
  match x with
  | S754_zero s | S754_infinity s | S754_finite s _ _ => s = false
  | S754_nan => False
  end.

Lemma nonneg_number x : nonneg x -> x <> S754_nan.
Proof. by intros Hx ->. Qed.

Lemma iter_pos_shift (P : shr_record -> Prop) p : (forall r, P r -> P (shr_1 r)) -> forall r, P r -> P (SpecFloat.iter_pos shr_1 p r).
Proof. intros Hs. induction p as [p IH|p IH|]; intros r Hr; cbn [SpecFloat.iter_pos]; auto. Qed.

Lemma shr_nonneg m e l : 0 <= m -> 0 <= shr_m (fst (shr_fexp 53 1024 m e l)).
Proof.
  intros Hm. unfold shr_fexp, shr. assert (H0 : 0 <= shr_m (shr_record_of_loc m l)) by (by destruct l as [|[]]).
  destruct (_ - e) as [|p|p]; [done| |done]. cbn [fst]. apply (iter_pos_shift (fun r => 0 <= shr_m r)); [|done].
  intros [[|[m'|m'|]|m'] r s]; cbn; lia.
Qed.

Lemma round_nonneg m e l : 0 <= m -> nonneg (binary_round_aux 53 1024 false m e l).
Proof.
  intros Hm. unfold binary_round_aux. pose proof (shr_nonneg m e l Hm) as H1.
  destruct (shr_fexp 53 1024 m e l) as [r1 e1]. cbn [fst] in H1.
  assert (H2 : 0 <= round_nearest_even (shr_m r1) (loc_of_shr_record r1))
    by (unfold round_nearest_even; repeat case_match; lia).
  pose proof (shr_nonneg _ e1 loc_Exact H2) as H3. destruct (shr_fexp _ _ _ e1 _) as [r2 e2]. cbn [fst] in H3.
  destruct (shr_m r2); [done|by destruct (_ <=? _)|lia].
Qed.

Lemma binary_round_nonneg m e : nonneg (binary_round 53 1024 false m e).
Proof. unfold binary_round. destruct (shl_align _ _ _). by apply round_nonneg. Qed.

Lemma of_int_nonneg n : 0 <= n -> nonneg (of_int n).
Proof. intros Hn. unfold of_int, binary_normalize. destruct n; [done|apply binary_round_nonneg|lia]. Qed.

Lemma add_nonneg x y : nonneg x -> nonneg y -> nonneg (add x y).
Proof.
  intros Hx Hy. unfold add, SFadd. destruct x as [s|s| |s mx ex], y as [s'|s'| |s' my ey]; cbn in Hx, Hy; subst; try done.
  cbn [cond_Zopp]. unfold binary_normalize. cbn [Z.add]. apply binary_round_nonneg.
Qed.

Lemma div_nonneg x s m e : nonneg x -> s = false -> nonneg (div x (S754_finite s m e)).
Proof.
  intros Hx ->. unfold div, SFdiv. destruct x as [s|s| |s mx ex]; cbn in Hx; subst; try done.
  unfold SFdiv_core_binary. cbv zeta. set (m' := match _ with 0 => _ | Z.pos _ => _ | Z.neg _ => 0 end).
  assert (Hm : 0 <= m') by (unfold m'; destruct (_ - _ - _); [done|by apply Z.shiftl_nonneg|done]).
  pose proof (Z_div_mod m' (Z.pos m) eq_refl) as Hq. destruct (Z.div_eucl m' (Z.pos m)) as [q r]. destruct Hq as [Hq Hr].
  apply round_nonneg. nia.
Qed.

(** A positive number divided by one that is not negative. *)
Lemma positive_div_nonneg m e y : nonneg y -> nonneg (div (S754_finite false m e) y).
Proof. destruct y as [[]|[]| |[] m' e']; try done. intros _. by apply div_nonneg. Qed.

(** ** Magnitudes

    A positive double is below [2 ^ order] and not below half of that. *)

Definition finite_of (o : Z) (x : double) : Prop :=
  exists m e, x = S754_finite false m e /\ Zdigits2 (Z.pos m) + e = o.

Lemma digits2_log2 m : 0 < m -> Zdigits2 m = Z.log2 m + 1.
Proof.
  intros Hm. destruct m as [|p|]; [lia| |lia]. cbn [Zdigits2]. clear Hm.
  assert (E : forall p, Z.pos (digits2_pos p) = Z.log2 (Z.pos p) + 1); [|apply E]. clear p.
  induction p as [p IH|p IH|]; [| |done]; cbn [digits2_pos]; rewrite Pos2Z.inj_succ, IH.
  - change (Z.pos p~1) with (2 * Z.pos p + 1). rewrite Z.log2_succ_double; lia.
  - change (Z.pos p~0) with (2 * Z.pos p). rewrite Z.log2_double; lia.
Qed.

Lemma digits2_pos_range m : 0 < m -> 0 < Zdigits2 m.
Proof. intros Hm. rewrite digits2_log2 by done. pose proof (Z.log2_nonneg m). lia. Qed.

(** Shifting right divides; the record keeps what is lost. *)
Lemma shr_m_div p : forall r, 0 <= shr_m r -> shr_m (SpecFloat.iter_pos shr_1 p r) = shr_m r / 2 ^ Z.pos p.
Proof.
  assert (H1 : forall r, 0 <= shr_m r -> shr_m (shr_1 r) = shr_m r / 2).
  { intros [[|[m|m|]|m] b s] Hr; cbn in Hr |- *; try done.
    - change (Z.pos m~1) with (2 * Z.pos m + 1). Z.div_mod_to_equations; lia.
    - change (Z.pos m~0) with (2 * Z.pos m). Z.div_mod_to_equations; lia. }
  assert (H0 : forall p r, 0 <= shr_m r -> 0 <= shr_m (SpecFloat.iter_pos shr_1 p r)).
  { intros q r Hr. apply (iter_pos_shift (fun r => 0 <= shr_m r)); [|done]. intros r' Hr'. rewrite H1 by done. by apply Z.div_pos. }
  assert (Hd : forall a x y, 0 <= x -> 0 <= y -> a / 2 ^ x / 2 ^ y = a / 2 ^ (x + y))
    by (intros a x y Hx Hy; rewrite Z.div_div, <- Z.pow_add_r by lia; done).
  induction p as [p IH|p IH|]; intros r Hr; cbn [SpecFloat.iter_pos]; [| |by apply H1].
  - pose proof (Z.div_pos (shr_m r) 2 Hr ltac:(lia)).
    rewrite IH, IH, H1 by (try apply H0; rewrite ?H1; done). change 2 with (2 ^ 1) at 1.
    rewrite !Hd by lia. do 2 f_equal. lia.
  - rewrite IH, IH by (try apply H0; done). rewrite Hd by lia. do 2 f_equal. lia.
Qed.

(** How far [shr_fexp] shifts. *)
Definition excess (m e : Z) : Z := Z.max 0 (fexp 53 1024 (Zdigits2 m + e) - e).

Lemma shr_fexp_spec m e l : 0 <= m ->
  let '(r, e') := shr_fexp 53 1024 m e l in shr_m r = m / 2 ^ excess m e /\ e' = e + excess m e.
Proof.
  intros Hm. unfold shr_fexp, shr, excess. assert (E : shr_m (shr_record_of_loc m l) = m) by (by destruct l as [|[]]).
  set (n := fexp 53 1024 (Zdigits2 m + e) - e). change (IntDef.Z.sub (fexp 53 1024 (IntDef.Z.add (Zdigits2 m) e)) e) with n.
  destruct n as [|p|p]; cbn [Z.max Z.compare]; rewrite ?Z.div_1_r, ?E; [split; [done|lia]| |split; [done|lia]].
  rewrite shr_m_div by (by rewrite E). rewrite E. by split.
Qed.

(** The digits that remain. *)
Lemma digits2_shift m k : 0 < m -> 0 <= k < Zdigits2 m -> 0 < m / 2 ^ k /\ Zdigits2 (m / 2 ^ k) = Zdigits2 m - k.
Proof.
  intros Hm Hk. rewrite digits2_log2 in * by done. pose proof (Z.log2_spec m Hm) as [Hl _].
  assert (Hp : 0 < m / 2 ^ k).
  { apply Z.div_str_pos. split; [apply Z.pow_pos_nonneg; lia|]. etrans; [|exact Hl]. apply Z.pow_le_mono_r; lia. }
  split; [done|]. rewrite !digits2_log2 by done. rewrite <- Z.shiftr_div_pow2 by lia. rewrite Z.log2_shiftr by done. lia.
Qed.

(** Rounding keeps the order, or raises it by one. *)
Lemma round_order m e l : 0 < m -> -950 <= Zdigits2 m + e <= 950 ->
  exists o, finite_of o (binary_round_aux 53 1024 false m e l) /\ Zdigits2 m + e <= o <= Zdigits2 m + e + 1.
Proof.
  intros Hm He. unfold binary_round_aux. pose proof (shr_fexp_spec m e l (Z.lt_le_incl _ _ Hm)) as Hs.
  destruct (shr_fexp 53 1024 m e l) as [r1 e1]. destruct Hs as [-> ->]. pose proof (digits2_pos_range m Hm) as Hd.
  assert (Hk : excess m e = Z.max 0 (Zdigits2 m - 53)) by (unfold excess, fexp, emin; lia).
  destruct (digits2_shift m (excess m e)) as [H1 D1]; [done|lia|]. set (k1 := excess m e) in *. set (m1 := m / 2 ^ k1) in *.
  set (m2 := round_nearest_even m1 _).
  assert (H2 : 0 < m2 /\ Zdigits2 m1 <= Zdigits2 m2 <= Zdigits2 m1 + 1).
  { assert (m2 = m1 \/ m2 = m1 + 1) as [-> | ->] by (unfold m2, round_nearest_even; repeat case_match; auto); [lia|].
    split; [lia|]. rewrite !digits2_log2 by lia. destruct (Z.log2_succ_or m1) as [E|E]; unfold Z.succ in E; lia. }
  destruct H2 as [H2 D2]. pose proof (shr_fexp_spec m2 (e + k1) loc_Exact ltac:(lia)) as Hs.
  destruct (shr_fexp 53 1024 m2 _ _) as [r2 e2]. destruct Hs as [-> ->]. set (k2 := excess m2 (e + k1)).
  assert (Hk2 : k2 = Z.max 0 (Zdigits2 m2 - 53)) by (unfold k2, excess, fexp, emin; lia).
  destruct (digits2_shift m2 k2) as [H3 D3]; [done|lia|]. destruct (m2 / 2 ^ k2) as [|p|p] eqn:E3; [lia| |lia].
  replace (IntDef.Z.leb (e + k1 + k2) (IntDef.Z.sub 1024 53)) with true by (symmetry; apply Z.leb_le; lia).
  exists (Zdigits2 (Z.pos p) + (e + k1 + k2)). split; [by eexists _, _|]. lia.
Qed.

(** The order of an integer. *)
Lemma of_int_order n : 0 < n < 2 ^ 64 -> exists o, finite_of o (of_int n) /\ Zdigits2 n <= o <= Zdigits2 n + 1.
Proof.
  intros Hn. unfold of_int, binary_normalize. destruct n as [|p|p]; [lia| |lia]. unfold binary_round.
  assert (Hlog : Zdigits2 (Z.pos p) <= 64).
  { rewrite digits2_log2 by done. pose proof (Z.log2_lt_pow2 (Z.pos p) 64 ltac:(lia)). lia. }
  pose proof (digits2_pos_range (Z.pos p) eq_refl) as Hpos. change (Z.pos (digits2_pos p)) with (Zdigits2 (Z.pos p)).
  unfold shl_align. assert (Hf : IntDef.Z.sub (fexp 53 1024 (IntDef.Z.add (Zdigits2 (Z.pos p)) 0)) 0 = Zdigits2 (Z.pos p) - 53) by (unfold fexp, emin; lia).
  rewrite Hf. destruct (Zdigits2 (Z.pos p) - 53) as [|d|d] eqn:Ed.
  1,2: destruct (round_order (Z.pos p) 0 loc_Exact) as (o & Ho & Hr); [done|lia|]; exists o; split; [exact Ho|lia].
  assert (Hm : Z.pos (Pos.iter xO p d) = Z.pos p * 2 ^ Z.pos d).
  { rewrite <- Pos2Z.inj_pow, <- Pos2Z.inj_mul. f_equal. clear. rewrite Pos.mul_comm. unfold Pos.pow.
    induction d as [|d IH] using Pos.peano_ind; [done|]. rewrite !Pos.iter_succ, IH. lia. }
  assert (Hdig : Zdigits2 (Z.pos (Pos.iter xO p d)) = Zdigits2 (Z.pos p) + Z.pos d).
  { rewrite Hm, !digits2_log2 by lia. rewrite Z.log2_mul_pow2 by lia. lia. }
  assert (Hex : fexp 53 1024 (IntDef.Z.add (Zdigits2 (Z.pos p)) 0) = - Z.pos d) by (revert Hf; unfold fexp, emin; lia).
  rewrite Hex. destruct (round_order (Z.pos (Pos.iter xO p d)) (- Z.pos d) loc_Exact) as (o & Ho & Hr); [done|lia|].
  exists o. split; [exact Ho|lia].
Qed.

(** The order of a quotient. *)
Lemma div_order x y ox oy : finite_of ox x -> finite_of oy y -> -400 <= ox <= 400 -> -400 <= oy <= 400 ->
  exists o, finite_of o (div x y) /\ ox - oy <= o <= ox - oy + 2.
Proof.
  intros (mx & ex & -> & Hx) (my & ey & -> & Hy) Rx Ry. unfold div, SFdiv, SFdiv_core_binary. cbv zeta. cbn [xorb].
  set (dx := Zdigits2 (Z.pos mx)) in *. set (dy := Zdigits2 (Z.pos my)) in *.
  change (IntDef.Z.sub (IntDef.Z.add dx ex) (IntDef.Z.add dy ey)) with (dx + ex - (dy + ey)).
  change (IntDef.Z.sub ex ey) with (ex - ey). set (e' := IntDef.Z.min _ _).
  assert (He : e' <= dx + ex - (dy + ey) - 53 /\ e' <= ex - ey /\ (e' = dx + ex - (dy + ey) - 53 \/ e' = ex - ey)).
  { unfold e', fexp, emin. change IntDef.Z.min with Z.min. change IntDef.Z.max with Z.max. change IntDef.Z.sub with Z.sub. lia. }
  change (IntDef.Z.sub (ex - ey) e') with (ex - ey - e').
  assert (Hsh : match ex - ey - e' with 0 => Z.pos mx | Z.pos _ => IntDef.Z.shiftl (Z.pos mx) (ex - ey - e') | Z.neg _ => 0 end
    = Z.pos mx * 2 ^ (ex - ey - e')).
  { destruct (ex - ey - e') as [|d|d] eqn:Ed; [lia| |lia]. change IntDef.Z.shiftl with Z.shiftl. by rewrite Z.shiftl_mul_pow2 by lia. }
  rewrite Hsh. set (s := ex - ey - e') in *. set (m' := Z.pos mx * 2 ^ s).
  assert (Hs : 0 <= s /\ dy + 53 <= dx + s) by (unfold s; lia).
  assert (Hm' : 0 < m' /\ Z.log2 m' = dx - 1 + s).
  { unfold m'. split; [apply Z.mul_pos_pos; [done|apply Z.pow_pos_nonneg; lia]|].
    rewrite Z.log2_mul_pow2 by lia. unfold dx. rewrite digits2_log2 by done. lia. }
  destruct Hm' as [Hm' Lm']. pose proof (Z_div_mod m' (Z.pos my) eq_refl) as Hq.
  change (IntDef.Z.div_eucl m' (Z.pos my)) with (Z.div_eucl m' (Z.pos my)).
  destruct (Z.div_eucl m' (Z.pos my)) as [q r]. destruct Hq as [Hq Hr].
  assert (Ly : Z.log2 (Z.pos my) = dy - 1) by (unfold dy; rewrite digits2_log2 by done; lia).
  pose proof (Z.log2_spec _ Hm') as [L1 L2]. pose proof (Z.log2_spec (Z.pos my) eq_refl) as [Y1 Y2]. rewrite Lm', Ly in *.
  assert (Hqlo : 2 ^ (dx + s - dy - 1) <= q).
  { assert (2 ^ (dx - 1 + s) = 2 ^ (dx + s - dy - 1) * 2 ^ dy) as Ep by (rewrite <- Z.pow_add_r by (unfold dy, dx in *; pose proof (digits2_pos_range (Z.pos my) eq_refl); lia); f_equal; lia).
    replace (Z.succ (dy - 1)) with dy in Y2 by lia. nia. }
  assert (Hqhi : q < 2 ^ (dx + s - dy + 1)).
  { assert (2 ^ Z.succ (dx - 1 + s) = 2 ^ (dx + s - dy + 1) * 2 ^ (dy - 1)) as Ep by (rewrite <- Z.pow_add_r by (unfold dy, dx in *; pose proof (digits2_pos_range (Z.pos my) eq_refl); lia); f_equal; lia).
    nia. }
  assert (H0q : 0 < q) by (pose proof (Z.pow_pos_nonneg 2 (dx + s - dy - 1) eq_refl ltac:(lia)); lia).
  assert (Dq : dx + s - dy <= Zdigits2 q <= dx + s - dy + 1).
  { rewrite digits2_log2 by done. pose proof (Z.log2_le_mono _ _ Hqlo) as G1. rewrite Z.log2_pow2 in G1 by lia.
    apply Z.log2_lt_pow2 in Hqhi; [|done]. lia. }
  destruct (round_order q e' (new_location (Z.pos my) r)) as (o & Ho & Hrange); [done|unfold s in *; lia|].
  exists o. split; [exact Ho|]. unfold s in *. lia.
Qed.

(** An order of 31 fits an [int]. *)
Lemma to_int_fits o x : finite_of o x -> o <= 31 -> exists n, to_int x = Ok n /\ 0 <= n < 2 ^ 31.
Proof.
  intros (m & e & -> & Ho) Hle. unfold to_int. cbn [integral].
  rewrite digits2_log2 in Ho by done. pose proof (Z.log2_spec (Z.pos m) eq_refl) as [_ Hm]. pose proof (Z.log2_nonneg (Z.pos m)).
  set (a := if 0 <=? e then _ else _). assert (Ha : 0 <= a < 2 ^ 31).
  { unfold a. destruct (Z.leb_spec 0 e).
    - split; [pose proof (Z.pow_pos_nonneg 2 e eq_refl); nia|]. eapply Z.lt_le_trans; [apply Z.mul_lt_mono_pos_r; [apply Z.pow_pos_nonneg; lia|exact Hm]|].
      rewrite <- Z.pow_add_r by lia. apply Z.pow_le_mono_r; lia.
    - split; [apply Z.div_pos; [done|apply Z.pow_pos_nonneg; lia]|]. apply Z.div_lt_upper_bound; [apply Z.pow_pos_nonneg; lia|].
      eapply Z.lt_le_trans; [exact Hm|]. rewrite <- Z.pow_add_r by lia. apply Z.pow_le_mono_r; lia. }
  exists a. unfold is_int. rewrite (proj2 (Z.leb_le (- 2 ^ 31) a)), (proj2 (Z.ltb_lt a (2 ^ 31))) by lia. by split.
Qed.

Lemma billion_order : finite_of 30 (of_int 1000000000).
Proof. eexists _, _. split; vm_compute; reflexivity. Qed.

(** A rate of at most one per four nanoseconds, in hertz, fits an [int]. *)
Lemma rate_fits n ns : 0 < n -> 4 * n <= ns < 2 ^ 63 ->
  exists k, to_int (div (of_int n) (div (of_int ns) (of_int 1000000000))) = Ok k /\ 0 <= k < 2 ^ 31.
Proof.
  intros Hn Hns. destruct (of_int_order n) as (on & On & Rn); [lia|]. destruct (of_int_order ns) as (ot & Ot & Rt); [lia|].
  rewrite digits2_log2 in Rn, Rt by lia.
  pose proof (Z.log2_nonneg n). pose proof (Z.log2_le_mono (4 * n) ns ltac:(lia)) as Hl.
  replace (4 * n) with (n * 2 ^ 2) in Hl by lia. rewrite Z.log2_mul_pow2 in Hl by lia.
  assert (Z.log2 ns < 63) by (apply Z.log2_lt_pow2; lia).
  destruct (div_order _ _ _ _ Ot billion_order) as (oe & Oe & Re); [lia|lia|].
  destruct (div_order _ _ _ _ On Oe) as (o & Oo & Ro); [lia|lia|]. apply (to_int_fits _ _ Oo). lia.
Qed.

(** Nothing is a number per no time. *)
Lemma rate_undefined n : 0 < n < 2 ^ 64 -> to_int (div (of_int n) (div (of_int 0) (of_int 1000000000))) = Undefined.
Proof.
  intros Hn. destruct (of_int_order n Hn) as (o & (m & e & -> & _) & _). reflexivity.
Qed.
