(* ===== verification/Percentiles.v ===== *)
(** * Percentiles: order statistics of recorded latencies

    [std::sort] and the indexing by which the example programs read
    percentiles off a vector, and what rank the values so read have; for
    integers and for doubles, so over any total preorder. *)
From stdpp Require Import sorting.
From S2P Require Import Prelude.
Open Scope Z_scope.
Open Scope ewss_scope.

(** [v[i]], unchecked. *)
Definition index_ {A} (l : list A) (i : Z) : Res A := of_option (l !! Z.to_nat i).

(** The index of a percentile, [size() * k / 100], is in range even when the
    product wraps. *)
Lemma percent_in_range n k : 0 < n -> 0 <= k < 100 -> 0 <= u64 (n * k) / 100 < n.
Proof.
  intros Hn Hk. pose proof (u64_range (n * k)) as [H0 _]. split; [by apply Z.div_pos|].
  apply Z.div_lt_upper_bound; [lia|]. assert (u64 (n * k) <= n * k) by (apply Z.mod_le; nia). nia.
Qed.

Section statistics.
Context {A : Type} (R : relation A) `{!RelDecision R, !Total R, !Transitive R}.
Implicit Types (l : list A) (v : A).

(** ** Order statistics *)

(** [v] has rank [i] among [l] (counting from 0): at most [i] elements are
    smaller, and more than [i] are not larger. *)
Definition has_rank l (i : Z) v : Prop :=
  v ∈ l /\ zlen (filter (fun x => ~ R v x) l) <= i < zlen (filter (fun x => R x v) l).

Lemma total_refl v : R v v.
Proof. by destruct (total R v v). Qed.

Lemma sorted_lookup_le l i j x y :
  StronglySorted R l -> l !! i = Some x -> l !! j = Some y -> (i <= j)%nat -> R x y.
Proof.
  intros Hs. revert i j. induction Hs as [|z l Hs IH Hz]; intros i j Hi Hj Hij; [done|].
  destruct i as [|i], j as [|j]; cbn in Hi, Hj; [|injection Hi as ->; by eapply Forall_lookup_1|lia|by eapply (IH i j); auto; lia].
  injection Hi as ->. injection Hj as ->. apply total_refl.
Qed.

Lemma filter_none (P : A -> Prop) `{!forall x, Decision (P x)} l : Forall (fun x => ~ P x) l -> filter P l = [].
Proof. induction 1 as [|x l Hx _ IH]; [done|]. by rewrite filter_cons_False. Qed.
Lemma filter_every (P : A -> Prop) `{!forall x, Decision (P x)} l : Forall P l -> filter P l = l.
Proof. induction 1 as [|x l Hx _ IH]; [done|]. by rewrite filter_cons_True, IH. Qed.

Lemma sorted_rank l i v :
  StronglySorted R l -> l !! i = Some v -> has_rank l (Z.of_nat i) v.
Proof.
  intros Hs Hv. pose proof (lookup_lt_Some _ _ _ Hv) as Hi.
  split; [by eapply list_elem_of_lookup_2|]. split.
  - rewrite <- (take_drop i l), filter_app, (filter_none _ (drop i l)).
    + rewrite app_nil_r. unfold zlen. pose proof (length_filter (fun x => ~ R v x) (take i l)).
      rewrite length_take in *. lia.
    + apply Forall_lookup. intros j x Hx Hn. rewrite lookup_drop in Hx.
      apply Hn, (sorted_lookup_le l i (i + j) v x Hs Hv Hx). lia.
  - rewrite <- (take_drop (S i) l), filter_app, (filter_every _ (take (S i) l)).
    + rewrite zlen_app. unfold zlen at 1. rewrite length_take. pose proof (zlen_nonneg (filter (fun x => R x v) (drop (S i) l))). lia.
    + apply Forall_lookup. intros j x [Hx Hj]%lookup_take_Some.
      apply (sorted_lookup_le l j i x v Hs Hx Hv). lia.
Qed.

Lemma has_rank_perm l l' i v : l ≡ₚ l' -> has_rank l i v -> has_rank l' i v.
Proof.
  intros P [Hin Hr]. split; [by rewrite <- P|]. unfold zlen in *. by rewrite <- !P.
Qed.

(** ** Reading the sorted figures *)

Lemma index_sorted l i :
  0 <= i < zlen l ->
  exists v, index_ (merge_sort R l) i = Ok v /\ merge_sort R l !! Z.to_nat i = Some v.
Proof.
  intros Hi. assert (Hn : (Z.to_nat i < length (merge_sort R l))%nat)
    by (rewrite merge_sort_Permutation; revert Hi; len).
  apply lookup_lt_is_Some in Hn as [v Hv]. exists v. unfold index_. by rewrite Hv.
Qed.

Lemma sort_sorted l : StronglySorted R (merge_sort R l).
Proof. apply (StronglySorted_merge_sort R). Qed.

Lemma rank_sorted l i v : 0 <= i -> merge_sort R l !! Z.to_nat i = Some v -> has_rank l i v.
Proof.
  intros Hi Hv. apply (has_rank_perm (merge_sort R l)); [apply merge_sort_Permutation|].
  rewrite <- (Z2Nat.id i) by done. by apply sorted_rank; [apply sort_sorted|].
Qed.

(** The first and the last bound every element. *)
Lemma sorted_extremes l v0 vm :
  merge_sort R l !! 0%nat = Some v0 -> merge_sort R l !! Z.to_nat (zlen l - 1) = Some vm ->
  Forall (fun x => R v0 x /\ R x vm) l.
Proof.
  intros L0 Lm. apply Forall_forall. intros x Hx. rewrite <- (merge_sort_Permutation R l) in Hx.
  apply list_elem_of_lookup_1 in Hx as [j Hj]. pose proof (lookup_lt_Some _ _ _ Hj) as Hlt.
  rewrite merge_sort_Permutation in Hlt.
  split; [eapply (sorted_lookup_le _ 0 j); [apply sort_sorted|done..|lia]|].
  eapply (sorted_lookup_le _ j _); [apply sort_sorted|done..|]. unfold zlen. lia.
Qed.

(** [front], [back] and two positions of a sorted vector that is not empty. *)
Lemma sorted_ends l : l <> [] ->
  exists v0 vm, head (merge_sort R l) = Some v0 /\ last (merge_sort R l) = Some vm
    /\ merge_sort R l !! 0%nat = Some v0 /\ merge_sort R l !! Z.to_nat (zlen l - 1) = Some vm.
Proof.
  intros Hne. assert (0 < zlen l) by (destruct l as [|x l']; [done|]; rewrite zlen_cons; pose proof (zlen_nonneg l'); lia).
  destruct (index_sorted l 0) as (v0 & _ & L0); [lia|]. destruct (index_sorted l (zlen l - 1)) as (vm & _ & Lm); [lia|].
  exists v0, vm. split_and!; [by rewrite head_lookup| |done|done].
  rewrite last_lookup, <- Lm. f_equal. pose proof (merge_sort_Permutation R l) as Hp. apply Permutation_length in Hp.
  rewrite Hp. unfold zlen in *. lia.
Qed.

End statistics.
