(* ===== verification/PerfServer.v ===== *)
(** * PerfServer: the performance server (perf_server.cpp)

    Its statistics, the timestamp it reads from messages, its callbacks and
    the report it prints at the end. *)
From S2P Require Import Prelude Percentiles Vocabulary RingBuffer Frame Text Numbers Connection ConnectionApi ConnectionInv ConnectionFrames Handshake ConnectionIo ConnectionSend.
From stdpp Require Import sorting.
Open Scope Z_scope.
Open Scope ewss_scope.
Import Conn Handlers Ws Numbers.

Module Perf.

Record PerfStats := mk_perf {
  total_messages : Z;
  total_bytes : Z;
  active_connections : Z;
  start_time : Z;
  latencies_us : list Z;
}.

(** The members' initialisers; [start_time] is the epoch. *)
Definition initial : PerfStats := mk_perf 0 0 0 0 [].

Definition reset (now : Z) (_ : PerfStats) : PerfStats := mk_perf 0 0 0 now [].

Definition prefix : bytes := str "bench_".

Definition extract_timestamp_us (msg : bytes) : Z :=
  match Text.find prefix msg 0 with
  | None => 0
  | Some pos =>
      match stoull (Text.substr msg (u64 (pos + 6)) (zlen msg)) with
      | Some ns => ns / 1000
      | None => 0
      end
  end.

(** [on_connect], [on_message] and [on_close]; [now_us] is the clock in
    microseconds. *)
Definition on_connect (s : PerfStats) : PerfStats :=
  mk_perf (total_messages s) (total_bytes s) (u64 (active_connections s + 1)) (start_time s) (latencies_us s).

Definition on_message (now_us : Z) (msg : bytes) (s : PerfStats) : PerfStats :=
  let send_time_us := extract_timestamp_us msg in
  let latency_us := u64 (now_us - send_time_us) in
  mk_perf (u64 (total_messages s + 1)) (u64 (total_bytes s + zlen msg)) (active_connections s) (start_time s)
    (if (0 <? send_time_us) && (latency_us <? 1000000) then latencies_us s ++ [latency_us] else latencies_us s).

Definition on_close (s : PerfStats) : PerfStats :=
  mk_perf (total_messages s) (total_bytes s) (u64 (active_connections s - 1)) (start_time s) (latencies_us s).

Definition response (msg : bytes) : bytes := str "echo: " ++ msg.

(** What the callbacks do with the connection. *)
Definition callbacks {Sock} : Callbacks Sock :=
  mk_callbacks Sock (Some (fun _ => [])) (Some (fun _ msg => [ApiSend (response msg)])) (Some (fun _ _ => []))
    (Some (fun _ => [])) None None.

(** The statistics after a history of callbacks, each at its time. *)
Definition on_event (s : PerfStats) (te : Z * Event) : PerfStats :=
  match te.2 with
  | EvOpen => on_connect s
  | EvMessage msg => on_message te.1 msg s
  | EvClose _ => on_close s
  | EvBackpressure | EvDrain => s
  end.
Definition after (s : PerfStats) (log : list (Z * Event)) : PerfStats := foldl on_event s log.

(** The figures of [print_report], and the statistics it leaves (sorted). *)
Record Latencies := mk_latencies { min_lat : Z; p50 : Z; p95 : Z; p99 : Z; max_lat : Z }.
Record Report := mk_report {
  messages_per_sec : Z;
  bytes_per_sec : Z;
  avg_msg_size : Z;
  current : Z;
  duration : Z;
  latency : option Latencies;
}.

Definition print_report (now : Z) (s : PerfStats) : Res (Report * PerfStats) :=
  let elapsed_s := Z.quot (now - start_time s) 1000000000 in
  let elapsed_s := if elapsed_s =? 0 then 1 else elapsed_s in
  let msgs := total_messages s in
  let bytes := total_bytes s in
  let report := mk_report (msgs / u64 elapsed_s) (bytes / u64 elapsed_s) (if 0 <? msgs then bytes / msgs else 0)
                  (active_connections s) elapsed_s in
  if bool_decide (latencies_us s = []) then Ok (report None, s) else
  let l := merge_sort Z.le (latencies_us s) in
  let n := zlen l in
  let! p50 := index_ l (n / 2) in
  let! p95 := index_ l (u64 (n * 95) / 100) in
  let! p99 := index_ l (u64 (n * 99) / 100) in
  let! max_lat := of_option (last l) in
  let! min_lat := of_option (head l) in
  Ok (report (Some (mk_latencies min_lat p50 p95 p99 max_lat)),
      mk_perf (total_messages s) (total_bytes s) (active_connections s) (start_time s) l).

End Perf.

Import Perf.

(** What the report reads off the sorted latencies.  No index is out of
    range: even when [size() * 99] wraps, the quotient by 100 is below the
    size. *)
Lemma report_figures now s :
  latencies_us s <> [] ->
  let l := merge_sort Z.le (latencies_us s) in
  let n := zlen (latencies_us s) in
  exists r s' v0 v50 v95 v99 vm, print_report now s = Ok (r, s') /\ latency r = Some (mk_latencies v0 v50 v95 v99 vm)
    /\ latencies_us s' = l /\ l !! 0%nat = Some v0 /\ l !! Z.to_nat (n / 2) = Some v50
    /\ l !! Z.to_nat (u64 (n * 95) / 100) = Some v95 /\ l !! Z.to_nat (u64 (n * 99) / 100) = Some v99
    /\ l !! Z.to_nat (n - 1) = Some vm.
Proof.
  intros Hne. cbn zeta. unfold print_report. rewrite bool_decide_eq_false_2 by done. set (l := latencies_us s) in *.
  assert (Hpos : 0 < zlen l) by (destruct l; [done|rewrite zlen_cons; pose proof (zlen_nonneg l); lia]).
  assert (Hsz : zlen (merge_sort Z.le l) = zlen l) by (unfold zlen; by rewrite merge_sort_Permutation). rewrite Hsz.
  destruct (sorted_ends Z.le l Hne) as (v0 & vm & Eh & El & L0 & Lm).
  destruct (index_sorted Z.le l (zlen l / 2)) as (v50 & -> & L50); [Z.div_mod_to_equations; lia|].
  destruct (index_sorted Z.le l (u64 (zlen l * 95) / 100)) as (v95 & -> & L95); [apply percent_in_range; lia|].
  destruct (index_sorted Z.le l (u64 (zlen l * 99) / 100)) as (v99 & -> & L99); [apply percent_in_range; lia|].
  cbn [res_bind]. rewrite Eh, El.
  do 7 eexists. split; [reflexivity|]. by split_and!.
Qed.

Lemma print_report_returns now s : exists r s', print_report now s = Ok (r, s').
Proof.
  destruct (decide (latencies_us s = [])) as [E|Hne].
  - unfold print_report. rewrite bool_decide_eq_true_2 by done. by do 2 eexists.
  - destruct (report_figures now s Hne) as (r & s' & v0 & v50 & v95 & v99 & vm & Er & _). eauto.
Qed.

(** The figures that need no latency. *)
Lemma report_rates now s r s' : print_report now s = Ok (r, s') ->
  duration r = (let e := Z.quot (now - start_time s) 1000000000 in if e =? 0 then 1 else e)
  /\ messages_per_sec r = total_messages s / u64 (duration r)
  /\ bytes_per_sec r = total_bytes s / u64 (duration r)
  /\ current r = active_connections s.
Proof.
  unfold print_report. case_bool_decide.
  { intros [= <- _]. done. }
  destruct (index_ _ _); [|done|done]. destruct (index_ _ _); [|done|done]. destruct (index_ _ _); [|done|done]. cbn [res_bind].
  destruct (last _); [|done]. destruct (head _); [|done]. by intros [= <- _].
Qed.

(** C33: the latency figures of the report.  With at least one recorded
    latency the report is produced (no index is out of range), its figures
    are recorded latencies of rank 0, n/2, 95n/100, 99n/100 and n-1, in
    nondecreasing order, the first and the last bound every latency, and the
    statistics keep the same latencies. *)
Theorem perf_report_percentiles now s :
  let l := latencies_us s in
  let n := zlen l in
  l <> [] -> n < 2 ^ 57 ->
  exists r m s', print_report now s = Ok (r, s') /\ latency r = Some m
    /\ has_rank Z.le l 0 (min_lat m) /\ has_rank Z.le l (n / 2) (p50 m) /\ has_rank Z.le l (n * 95 / 100) (p95 m)
    /\ has_rank Z.le l (n * 99 / 100) (p99 m) /\ has_rank Z.le l (n - 1) (max_lat m)
    /\ min_lat m <= p50 m <= p95 m /\ p95 m <= p99 m <= max_lat m
    /\ Forall (fun x => min_lat m <= x <= max_lat m) l
    /\ latencies_us s' ≡ₚ l.
Proof.
  cbn zeta. intros Hne Hn. destruct (report_figures now s Hne) as (r & s' & v0 & v50 & v95 & v99 & vm & E & El & Els & L).
  set (l := latencies_us s) in *. set (n := zlen l) in *. pose proof (zlen_nonneg l). rewrite !u64_small in L by (fold n in H; lia).
  destruct L as (L0 & L50 & L95 & L99 & Lm).
  assert (Hpos : 0 < n) by (unfold n; destruct l; [done|rewrite zlen_cons; pose proof (zlen_nonneg l); lia]).
  exists r, (mk_latencies v0 v50 v95 v99 vm), s'. split; [done|]. split; [done|]. cbn [min_lat p50 p95 p99 max_lat].
  pose proof (fun i j x y => sorted_lookup_le Z.le _ i j x y (sort_sorted Z.le l)) as M.
  split_and!; try (by apply (rank_sorted Z.le); [Z.div_mod_to_equations; lia|]).
  - eapply M; [exact L0|exact L50|]. Z.div_mod_to_equations; lia.
  - eapply M; [exact L50|exact L95|]. Z.div_mod_to_equations; lia.
  - eapply M; [exact L95|exact L99|]. Z.div_mod_to_equations; lia.
  - eapply M; [exact L99|exact Lm|]. Z.div_mod_to_equations; lia.
  - by apply (sorted_extremes Z.le).
  - rewrite Els. apply merge_sort_Permutation.
Qed.

Definition stats_of (lat : list Z) : PerfStats := mk_perf 4 80 1 0 lat.

Lemma perf_report_percentiles_witness :
  let l := [700; 300; 500; 300] in
  exists r m s', print_report 2500000000 (stats_of l) = Ok (r, s') /\ latency r = Some m
    /\ has_rank Z.le l 0 (min_lat m) /\ has_rank Z.le l 2 (p50 m) /\ has_rank Z.le l 3 (p95 m)
    /\ has_rank Z.le l 3 (p99 m) /\ has_rank Z.le l 3 (max_lat m)
    /\ min_lat m <= p50 m <= p95 m /\ p95 m <= p99 m <= max_lat m
    /\ Forall (fun x => min_lat m <= x <= max_lat m) l
    /\ latencies_us s' ≡ₚ l.
Proof. apply (perf_report_percentiles 2500000000 (stats_of [700; 300; 500; 300])); [done|vm_compute; reflexivity]. Defined.

(** ** The statistics *)

Definition messages (log : list (Z * Event)) : list bytes :=
  omap (fun te : Z * Event => match te.2 with EvMessage msg => Some msg | _ => None end) log.
Definition is_open (e : Event) : bool := match e with EvOpen => true | _ => false end.
Definition is_close_ev (e : Event) : bool := match e with EvClose _ => true | _ => false end.
Definition count (p : Event -> bool) (log : list (Z * Event)) : Z := zlen (filter (fun te : Z * Event => p te.2) log).
Definition opened := count is_open.
Definition closed := count is_close_ev.

Lemma u64_add_l x y : u64 (u64 x + y) = u64 (x + y).
Proof. unfold u64. apply Zplus_mod_idemp_l. Qed.
Lemma u64_add_r x y : u64 (x + u64 y) = u64 (x + y).
Proof. unfold u64. apply Zplus_mod_idemp_r. Qed.
Lemma u64_sub_l x y : u64 (u64 x - y) = u64 (x - y).
Proof. unfold u64. apply Zminus_mod_idemp_l. Qed.

(** The statistics are those of the history: starting from [reset], the
    counters are, modulo 2^64, the messages received, their total size, and
    the [on_connect] calls less the [on_close] calls; at most one latency is
    recorded per message, each below one second. *)
Theorem perf_statistics now s0 log :
  let s := after (reset now s0) log in
  total_messages s = u64 (zlen (messages log))
  /\ total_bytes s = u64 (zlen (mjoin (messages log)))
  /\ active_connections s = u64 (opened log - closed log)
  /\ zlen (latencies_us s) <= zlen (messages log)
  /\ Forall (fun x => 0 <= x < 1000000) (latencies_us s)
  /\ start_time s = now.
Proof.
  cbn zeta. induction log as [|[t e] log IH] using rev_ind.
  { unfold after, messages, opened, closed, count. cbn [foldl omap list_omap filter mjoin list_join]. by split_and!. }
  unfold after, messages, opened, closed, count in *. rewrite foldl_app, omap_app, !filter_app. cbn [foldl].
  destruct IH as (IHm & IHb & IHa & IHl & IHf & IHs). set (s := foldl _ _ log) in *.
  destruct e as [|msg|clean| |]; cbn [on_event omap list_omap fst snd].
  2: { rewrite !app_nil_r. cbn. split_and!; try done.
       - rewrite IHm, u64_add_l, zlen_app. done.
       - rewrite IHb, u64_add_l, join_app, zlen_app. cbn. by rewrite app_nil_r.
       - rewrite zlen_app. case_match; rewrite ?zlen_app; change (zlen [msg]) with 1; change (zlen [_]) with 1; lia.
       - case_match eqn:E; [|done]. apply Forall_app. split; [done|]. constructor; [|done].
         apply andb_true_iff in E as [_ E%Z.ltb_lt]. pose proof (u64_range (t - extract_timestamp_us msg)).
         unfold is_u64 in *. lia. }
  all: rewrite !app_nil_r; cbn; split_and!; try done; rewrite IHa, ?u64_add_l, ?u64_sub_l, ?zlen_app, decide_True by done; f_equal; len.
Qed.

(** Timestamps survive the trip through decimal text: a message with
    ["bench_"] (first at [pre]), a nanosecond count as [to_string] prints it
    and then a non-digit records the message's age in microseconds, when that
    is positive time ago and less than a second. *)
Theorem perf_timestamp_roundtrip pre ns post now_us s :
  let msg := pre ++ prefix ++ to_string ns ++ post in
  first_occurrence prefix pre msg -> 1000 <= ns < 2 ^ 64 -> digit_prefix post = [] -> zlen msg < 2 ^ 64 ->
  ns / 1000 <= now_us < ns / 1000 + 1000000 ->
  extract_timestamp_us msg = ns / 1000
  /\ latencies_us (on_message now_us msg s) = latencies_us s ++ [now_us - ns / 1000].
Proof.
  cbn zeta. intros Hf Hns Hpost Hlen Hnow. set (msg := pre ++ _) in *.
  assert (E : extract_timestamp_us msg = ns / 1000).
  { unfold extract_timestamp_us. rewrite (find_first_occurrence _ _ _ Hf).
    assert (Hl : zlen msg = zlen pre + 6 + zlen (to_string ns ++ post))
      by (unfold msg; rewrite !(zlen_app pre), (zlen_app prefix); change (zlen prefix) with 6; lia).
    pose proof (zlen_nonneg pre). pose proof (zlen_nonneg (to_string ns ++ post)).
    assert (Es : Text.substr msg (u64 (zlen pre + 6)) (zlen msg) = to_string ns ++ post).
    { unfold Text.substr. rewrite u64_small by lia. unfold msg at 2. rewrite app_assoc.
      rewrite drop_app_length' by (rewrite length_app; change (length prefix) with 6%nat; len).
      apply take_ge. revert Hl. len. }
    rewrite Es, stoull_to_string; [done|lia|done]. }
  split; [done|]. unfold on_message. rewrite E. cbn [latencies_us].
  assert (0 < ns / 1000) by (apply Z.div_str_pos; lia).
  assert (ns / 1000 <= ns) by (apply Z.div_le_upper_bound; lia).
  rewrite u64_small by lia. zcase.
Qed.

Lemma perf_timestamp_roundtrip_witness :
  let msg := str "x" ++ prefix ++ to_string 1700000000123456 ++ str " y" in
  extract_timestamp_us msg = 1700000000123
  /\ latencies_us (on_message 1700000000500 msg initial) = [377].
Proof.
  apply (perf_timestamp_roundtrip (str "x") 1700000000123456 (str " y") 1700000000500 initial);
    [|lia|reflexivity|vm_compute; reflexivity|vm_compute; split; [discriminate|reflexivity]].
  exact (find_Some_first prefix (str "x" ++ prefix ++ to_string 1700000000123456 ++ str " y") 1 eq_refl).
Defined.

(** One client that closes its connection is subtracted twice: the
    server reports the peer's Close frame to [on_close] twice, so after a
    single connection has come and gone [active_connections] is 2^64 - 1. *)
Theorem perf_active_wraps {Sock} `{TcpSocketLaws Sock} {target : Target} (env : Env Sock) c key payload now s0 t :
  cb env = callbacks -> conn_ok c -> ops_ c = kOpen -> log_ c = [EvOpen] ->
  bytes_ok payload -> zlen payload < 2 ^ 64 ->
  match key with Some k => length k = 4%nat /\ bytes_ok k | None => True end ->
  rx_list c = wire_frame kClose key payload ->
  exists c', parse_frames env (run_callback env) c = Ok (tt, c')
    /\ sock_is_open (socket_ c') = false
    /\ active_connections (after (reset now s0) ((fun e => (t, e)) <$> log_ c')) = 2 ^ 64 - 1.
Proof.
  intros Hcb Hok Eop Hlog Hb Hlen Hkey Erx.
  destruct (peer_close_reported_twice env c key payload (fun _ _ => []) Hok Eop Hb Hlen Hkey Erx) as (c' & E & Hl & _ & Hcl);
    [by rewrite Hcb|done|].
  exists c'. split; [exact E|]. split; [exact Hcl|]. rewrite Hl, Hlog. reflexivity.
Qed.

#[local] Existing Instances Demo.socket_tcp Demo.socket_laws.
#[local] Instance demo_target : Target := true.

Lemma perf_active_wraps_witness :
  exists c', parse_frames (Demo.env_with callbacks 0 [] 0) (run_callback (Demo.env_with callbacks 0 [] 0))
      (add_log (Demo.conn_with kOpen (wire_frame kClose (Some demo_key) [3; 232])) EvOpen) = Ok (tt, c')
    /\ sock_is_open (socket_ c') = false
    /\ active_connections (after (reset 0 initial) ((fun e => (5, e)) <$> log_ c')) = 2 ^ 64 - 1.
Proof.
  apply (perf_active_wraps (Demo.env_with callbacks 0 [] 0)
    (add_log (Demo.conn_with kOpen (wire_frame kClose (Some demo_key) [3; 232])) EvOpen) (Some demo_key) [3; 232] 0 initial 5).
  - reflexivity.
  - apply add_log_ok, Demo.conn_with_ok; [vm_compute; lia|by_decide].
  - reflexivity.
  - reflexivity.
  - by_decide.
  - vm_compute. reflexivity.
  - split; [reflexivity|by_decide].
  - vm_compute. reflexivity.
Defined.
