(* ===== verification/Benchmark.v ===== *)
(** * Benchmark: the echo benchmark's threads (benchmark_echo.cpp)

    [run_echo_benchmark] as a transition system: the main thread spawns the
    clients, waits until all have connected, lets them go and joins them;
    each client connects, waits for the signal and exchanges messages.  The
    threads share [ready_count] and [go]; a schedule is the list of the
    threads that take a step, with the results of the calls they make.
    Then the figures of the latencies, and the text that reports them. *)
From Stdlib Require Import Floats.SpecFloat.
From stdpp Require Import sorting.
From S2P Require Import Prelude Numbers Double Percentiles.
Open Scope Z_scope.
Open Scope ewss_scope.
Import Numbers Double.

Module Bench.

(** Where a client thread is; [Thrown]: an exception has left it, which ends
    the program. *)
Inductive Phase := Connecting | Connected | Waiting | Sending (i : Z) | Returned | Thrown.

#[export] Instance Phase_eq_dec : EqDecision Phase.
Proof. solve_decision. Defined.

Record Client := mk_client { phase : Phase; latencies : list double }.

(** The microseconds of [ns] nanoseconds, and the seconds. *)
Definition microseconds (ns : Z) : double := div (of_int ns) (of_int 1000).
Definition seconds (ns : Z) : double := div (of_int ns) (of_int 1000000000).

(** Where the main thread is; [t] is the next thread to join. *)
Inductive MainPhase := Spawning | AwaitReady | Release | Joining (t : nat) | Joined.

#[export] Instance MainPhase_eq_dec : EqDecision MainPhase.
Proof. solve_decision. Defined.

Record State := mk_state { main : MainPhase; ready_count : Z; go : bool; clients : list Client }.

Definition init : State := mk_state Spawning 0 false [].

(** A thread that takes a step; for a client, whether [connect] and
    [handshake] succeed, and the nanoseconds of an exchange ([None]:
    [send_masked] or [recv_frame] fails). *)
Inductive Label := Main | Thread (c : nat) (connects : bool) (exchange : option Z).

Definition client_step (msgs_per_client : Z) (connects : bool) (exchange : option Z) (s : State) (c : Client)
  : Z * Client :=
  match phase c with
  | Connecting => (ready_count s, mk_client (if connects then Connected else Returned) (latencies c))
  | Connected =>
      (* [reserve] of a negative number, as a [size_t], throws [std::length_error] *)
      if msgs_per_client <? 0 then (ready_count s, mk_client Thrown (latencies c))
      else (i32 (ready_count s + 1), mk_client Waiting (latencies c))
  | Waiting => (ready_count s, if go s then mk_client (Sending 0) (latencies c) else c)
  | Sending i =>
      (ready_count s,
       if i <? msgs_per_client then
         match exchange with
         | None => mk_client Returned (latencies c)
         | Some ns => mk_client (Sending (i + 1)) (latencies c ++ [microseconds ns])
         end
       else mk_client Returned (latencies c))
  | Returned | Thrown => (ready_count s, c)
  end.

Definition main_step (num_clients : Z) (s : State) : State :=
  match main s with
  | Spawning =>
      if zlen (clients s) <? num_clients
      then mk_state Spawning (ready_count s) (go s) (clients s ++ [mk_client Connecting []])
      else mk_state AwaitReady (ready_count s) (go s) (clients s)
  | AwaitReady =>
      if ready_count s <? num_clients then s else mk_state Release (ready_count s) (go s) (clients s)
  | Release => mk_state (Joining 0) (ready_count s) true (clients s)
  | Joining t =>
      match clients s !! t with
      | None => mk_state Joined (ready_count s) (go s) (clients s)
      | Some c =>
          match phase c with
          | Returned => mk_state (Joining (S t)) (ready_count s) (go s) (clients s)
          | _ => s
          end
      end
  | Joined => s
  end.

Definition step (num_clients msgs_per_client : Z) (s : State) (l : Label) : State :=
  match l with
  | Main => main_step num_clients s
  | Thread c connects exchange =>
      match clients s !! c with
      | None => s
      | Some cl =>
          let (ready, cl) := client_step msgs_per_client connects exchange s cl in
          mk_state (main s) ready (go s) (<[c := cl]> (clients s))
      end
  end.

Definition run (num_clients msgs_per_client : Z) (ls : list Label) (s : State) : State :=
  foldl (step num_clients msgs_per_client) s ls.

(** Some thread has ended the program. *)
Definition has_thrown (s : State) : bool := existsb (fun c => bool_decide (phase c = Thrown)) (clients s).

(** ** After the join *)

Record BenchResult := mk_result {
  throughput_msg_per_sec : double;
  p50_us : double;
  p99_us : double;
  avg_us : double;
  min_us : double;
  max_us : double;
  total_messages : Z;
  elapsed_sec : double;
}.

(** [BenchResult result{}] *)
Definition no_result : BenchResult :=
  mk_result (of_int 0) (of_int 0) (of_int 0) (of_int 0) (of_int 0) (of_int 0) 0 (of_int 0).

(** [std::accumulate(begin, end, 0.0)] *)
Definition accumulate (l : list double) : double := foldl add (of_int 0) l.

(** The figures; [elapsed] is [bench_end - bench_start] in nanoseconds. *)
Definition aggregate (elapsed : Z) (s : State) : Res BenchResult :=
  let merged := mjoin (latencies <$> clients s) in
  if bool_decide (merged = []) then Ok no_result else
  let sorted := merge_sort le merged in
  let n := zlen sorted in
  let! front := of_option (head sorted) in
  let! back := of_option (last sorted) in
  let! p50 := index_ sorted (u64 (n * 50) / 100) in
  let! p99 := index_ sorted (u64 (n * 99) / 100) in
  Ok (mk_result (div (of_int n) (seconds elapsed)) p50 p99 (div (accumulate sorted) (of_int n)) front back n
        (seconds elapsed)).

(** [print_result]: what it writes. *)
Definition print_result (label : bytes) (r : BenchResult) : Res bytes :=
  let! throughput := to_int (throughput_msg_per_sec r) in
  Ok ([10] ++ str "=== " ++ label ++ str " ===" ++ [10] ++
      str "  Total messages: " ++ to_string (total_messages r) ++ [10] ++
      str "  Elapsed:        " ++ print (elapsed_sec r) ++ str " s" ++ [10] ++
      str "  Throughput:     " ++ int_text throughput ++ str " msg/s" ++ [10] ++
      str "  Latency P50:    " ++ print (p50_us r) ++ str " us" ++ [10] ++
      str "  Latency P99:    " ++ print (p99_us r) ++ str " us" ++ [10] ++
      str "  Latency avg:    " ++ print (avg_us r) ++ str " us" ++ [10] ++
      str "  Latency min:    " ++ print (min_us r) ++ str " us" ++ [10] ++
      str "  Latency max:    " ++ print (max_us r) ++ str " us" ++ [10]).

End Bench.

Import Bench.

(** ** Sums over the clients *)

Definition total (f : Client -> Z) (l : list Client) : Z := foldr (fun c n => f c + n) 0 l.
#[global] Arguments total : simpl never.

Lemma total_app f l k : total f (l ++ k) = total f l + total f k.
Proof.
  induction l as [|x l IH]; [done|]. change (f x + total f (l ++ k) = f x + total f l + total f k). rewrite IH. lia.
Qed.

Lemma total_insert f l i x y : l !! i = Some x -> total f (<[i := y]> l) = total f l - f x + f y.
Proof.
  revert i. induction l as [|z l IH]; intros [|i] H; cbn in H; [done|done| |].
  - injection H as ->. unfold total. cbn. lia.
  - change (f z + total f (<[i := y]> l) = f z + total f l - f x + f y). rewrite (IH _ H). lia.
Qed.

Lemma total_bounds f l : (forall c, 0 <= f c <= 1) -> 0 <= total f l <= zlen l.
Proof.
  intros Hf. induction l as [|c l IH]; [done|]. rewrite zlen_cons. change (total f (c :: l)) with (f c + total f l). specialize (Hf c). lia.
Qed.

(** All of them, or not all. *)
Lemma total_all f l : (forall c, 0 <= f c <= 1) -> zlen l <= total f l -> Forall (fun c => f c = 1) l.
Proof.
  intros Hf. induction l as [|c l IH]; intros Hle; [done|]. rewrite zlen_cons in Hle.
  pose proof (Hf c). pose proof (total_bounds f l Hf). change (total f (c :: l)) with (f c + total f l) in Hle. constructor; [lia|apply IH; lia].
Qed.

(** ** The invariant *)

Definition is_waiting (c : Client) : Z := match phase c with Waiting => 1 | _ => 0 end.

(** Before the signal, and after it. *)
Definition fresh (c : Client) : Prop := latencies c = [] /\ forall i, phase c <> Sending i.
Definition started (c : Client) : Prop := phase c <> Connecting /\ phase c <> Connected /\ phase c <> Thrown.

Definition signalled (m : MainPhase) : bool := match m with Joining _ | Joined => true | _ => false end.

(** The main thread has joined thread [j]. *)
Definition joined (m : MainPhase) (j : nat) : Prop :=
  match m with Joining t => (j < t)%nat | Joined => True | _ => False end.

Record bench_ok (num : Z) (s : State) : Prop := {
  b_len : zlen (clients s) <= num;
  b_full : main s <> Spawning -> zlen (clients s) = num;
  b_go : go s = signalled (main s);
  b_before : go s = false -> Forall fresh (clients s) /\ ready_count s = total is_waiting (clients s);
  b_release : main s = Release -> Forall (fun c => phase c = Waiting) (clients s);
  b_after : go s = true -> Forall started (clients s) /\ ready_count s = num;
  b_join : forall t, main s = Joining t -> (t <= length (clients s))%nat;
  b_joined : forall j c, clients s !! j = Some c -> joined (main s) j -> phase c = Returned;
}.

Section steps.
Context (num msgs : Z).
Hypothesis Hnum : 0 <= num < 2 ^ 31.
Implicit Type s : State.

Lemma is_waiting_bounds c : 0 <= is_waiting c <= 1.
Proof. unfold is_waiting. by destruct (phase c). Qed.

Lemma all_waiting l : zlen l <= total is_waiting l -> Forall (fun c => phase c = Waiting) l.
Proof.
  intros Hl. eapply Forall_impl; [by apply total_all; [apply is_waiting_bounds|]|].
  intros c. unfold is_waiting. by destruct (phase c).
Qed.

Lemma init_ok : bench_ok num init.
Proof. split; cbn; try done. rewrite zlen_nil. lia. Qed.

Lemma main_step_ok s : bench_ok num s -> bench_ok num (main_step num s).
Proof.
  intros Hs. pose proof Hs as [Hl Hf Hg Hb Hr Ha Hj Hjd]. unfold main_step. destruct (main s) as [| | |t|] eqn:Em; try done.
  - destruct (Z.ltb_spec (zlen (clients s)) num); split; cbn; try done.
    + rewrite zlen_app. change (zlen [_]) with 1. lia.
    + intros E. destruct (Hb E) as [Hfr Ec]. rewrite total_app. split; [|rewrite Ec; change (total is_waiting [_]) with 0; lia].
      apply Forall_app. split; [done|]. by apply Forall_singleton.
    + intros E. by rewrite Hg in E.
    + lia.
  - destruct (Z.ltb_spec (ready_count s) num); [done|].
    destruct (Hb Hg) as [Hfr Ec]. split; cbn; try done; intros _; [by apply Hf|].
    apply all_waiting. rewrite Hf by done. lia.
  - specialize (Hr eq_refl). destruct (Hb Hg) as [_ Ec]. split; cbn; try done; [by intros _; apply Hf| |intros t [= <-]; lia|intros j c _ Hlt; lia].
    intros _. split.
    + eapply Forall_impl; [exact Hr|]. intros c E. unfold started. by rewrite E.
    + rewrite Ec, <- (Hf ltac:(done)). clear -Hr. induction Hr as [|c l E _ IH]; [done|].
      rewrite zlen_cons, <- IH. change (total is_waiting (c :: l)) with (is_waiting c + total is_waiting l).
      unfold is_waiting at 1. rewrite E. lia.
  - assert (Hok : forall m, (forall t', m = Joining t' -> (t' <= length (clients s))%nat) -> signalled m = true ->
      (forall j c, clients s !! j = Some c -> joined m j -> phase c = Returned) ->
      bench_ok num (mk_state m (ready_count s) (go s) (clients s))).
    { intros m Ht Hsig Hret. split; cbn; try done; [intros _; by apply Hf|by rewrite Hg|intros ->; done]. }
    cbn [joined] in Hjd. specialize (Hj t eq_refl). destruct (clients s !! t) as [c|] eqn:Ec.
    + pose proof (lookup_lt_Some _ _ _ Ec). destruct (phase c) eqn:Ep; try done.
      apply Hok; [intros t' [= <-]; lia|done|]. cbn. intros j cj Ej Hlt.
      destruct (decide (j = t)) as [->|]; [congruence|]. apply (Hjd j cj Ej). lia.
    + apply lookup_ge_None in Ec. apply Hok; [done|done|]. intros j cj Ej _. pose proof (lookup_lt_Some _ _ _ Ej).
      apply (Hjd j cj Ej). lia.
Qed.

Lemma client_step_ok s c connects exchange cl :
  bench_ok num s -> clients s !! c = Some cl -> bench_ok num (step num msgs s (Thread c connects exchange)).
Proof.
  intros [Hl Hf Hg Hb Hr Ha Hj Hjd] Ec. unfold step. rewrite Ec.
  destruct (client_step msgs connects exchange s cl) as [ready cl'] eqn:Ecl. unfold client_step in Ecl.
  assert (Hz : zlen (<[c := cl']> (clients s)) = zlen (clients s)) by (unfold zlen; by rewrite length_insert).
  split; cbn; rewrite ?Hz, ?length_insert; try done.
  - intros E. destruct (Hb E) as [Hfr Er]. pose proof (Forall_lookup_1 _ _ _ _ Hfr Ec) as [Hlat Hns].
    pose proof (total_bounds is_waiting (clients s) is_waiting_bounds).
    assert (Hcl' : fresh cl' /\ ready = ready_count s - is_waiting cl + is_waiting cl').
    { unfold is_waiting, fresh. destruct (phase cl) as [| | |i| |] eqn:Ep.
      - injection Ecl as <- <-. by destruct connects; cbn; split; try done; lia.
      - destruct (Z.ltb_spec msgs 0); injection Ecl as <- <-; cbn; [split; [done|lia]|]. split; [done|]. 
        assert (Hw : total is_waiting (clients s) < zlen (clients s)).
        { destruct (Z.lt_ge_cases (total is_waiting (clients s)) (zlen (clients s))) as [|Hge]; [done|].
          pose proof (Forall_lookup_1 _ _ _ _ (all_waiting _ Hge) Ec) as Ew. cbn in Ew. congruence. }
        rewrite i32_small by lia. lia.
      - rewrite E in Ecl. injection Ecl as <- <-. rewrite Ep. split; [done|lia].
      - by destruct (Hns i).
      - injection Ecl as <- <-. rewrite Ep. split; [done|lia].
      - injection Ecl as <- <-. rewrite Ep. split; [done|lia]. }
    destruct Hcl' as [Hf' ->]. split; [by apply Forall_insert|].
    rewrite (total_insert _ _ _ _ _ Ec), Er. lia.
  - intros E. specialize (Hr E). pose proof (Forall_lookup_1 _ _ _ _ Hr Ec) as Ep. cbn in Ep. rewrite Ep in Ecl.
    assert (go s = false) as Eg by (by rewrite Hg, E). rewrite Eg in Ecl. injection Ecl as <- <-.
    by apply Forall_insert.
  - intros E. destruct (Ha E) as [Hst Er]. pose proof (Forall_lookup_1 _ _ _ _ Hst Ec) as (N1 & N2 & N3).
    assert (Hcl' : started cl' /\ ready = ready_count s).
    { unfold started. destruct (phase cl) as [| | |i| |] eqn:Ep; try done.
      - rewrite E in Ecl. by injection Ecl as <- <-.
      - injection Ecl as <- <-. destruct (i <? msgs); [destruct exchange|]; done.
      - injection Ecl as <- <-. by rewrite Ep. }
    destruct Hcl' as [Hs' ->]. split; [by apply Forall_insert|done].
  - intros j cj [[-> [<- _]]|[Hne Ej]]%list_lookup_insert_Some Hjn; [|by apply (Hjd j)].
    specialize (Hjd _ cl Ec Hjn). rewrite Hjd in Ecl. by injection Ecl as <- <-.
Qed.

Lemma step_ok s l : bench_ok num s -> bench_ok num (step num msgs s l).
Proof.
  intros Hs. destruct l as [|c connects exchange]; [by apply main_step_ok|].
  destruct (clients s !! c) as [cl|] eqn:Ec; [by eapply client_step_ok|]. unfold step. by rewrite Ec.
Qed.

Lemma run_ok ls s : bench_ok num s -> bench_ok num (run num msgs ls s).
Proof. revert s. induction ls as [|l ls IH]; intros s Hs; [done|]. by apply IH, step_ok. Qed.

End steps.

(** ** Clients that fail to connect *)

Definition refused (s : State) : Prop := go s = false /\ Exists (fun c => phase c = Returned) (clients s).

Section refusal.
Context (num msgs : Z).
Hypothesis Hnum : 0 <= num < 2 ^ 31.
Implicit Type s : State.

(** With one client gone the others are too few. *)
Lemma refused_short s : bench_ok num s -> refused s -> ready_count s < num /\ main s <> Release.
Proof.
  intros [Hl _ _ Hb Hr _ _ _] [Eg Hex]. destruct (Hb Eg) as [_ ->].
  apply Exists_exists in Hex as (c & Hin & Ec). split.
  - destruct (Z.lt_ge_cases (total is_waiting (clients s)) num) as [|Hge]; [done|].
    pose proof (all_waiting (clients s) ltac:(lia)) as Hall. rewrite Forall_forall in Hall. specialize (Hall _ Hin). congruence.
  - intros E. specialize (Hr E). rewrite Forall_forall in Hr. specialize (Hr _ Hin). congruence.
Qed.

Lemma refused_step s l : bench_ok num s -> refused s -> refused (step num msgs s l).
Proof.
  intros Hs Href. destruct (refused_short s Hs Href) as [Hshort Hrel]. destruct Href as [Eg Hex].
  pose proof (b_go _ _ Hs) as Hg. rewrite Eg in Hg. destruct l as [|c connects exchange]; cbn [step].
  - unfold main_step. destruct (main s) as [| | |t|] eqn:Em; try done; [|].
    + destruct (_ <? _); split; cbn; try done. apply Exists_app. by left.
    + by destruct (Z.ltb_spec (ready_count s) num); [|lia].
  - destruct (clients s !! c) as [cl|] eqn:Ec; [|done].
    destruct (client_step msgs connects exchange s cl) as [ready cl'] eqn:Ecl. split; [done|]. cbn.
    apply Exists_exists in Hex as (c0 & [j Hj]%list_elem_of_lookup_1 & Ep). apply Exists_exists.
    destruct (decide (j = c)) as [->|Hne].
    + rewrite Hj in Ec. injection Ec as <-. unfold client_step in Ecl. rewrite Ep in Ecl. injection Ecl as <- <-.
      exists c0. split; [|done]. apply list_elem_of_lookup_2 with c. rewrite list_lookup_insert_eq; [done|by eapply lookup_lt_Some].
    + exists c0. split; [|done]. apply list_elem_of_lookup_2 with j. by rewrite list_lookup_insert_ne.
Qed.

Lemma refused_forever ls : forall s, bench_ok num s -> refused s -> refused (run num msgs ls s).
Proof.
  induction ls as [|l ls IH]; intros s Hs Href; [done|]. apply IH; [by apply step_ok|by apply refused_step].
Qed.

End refusal.

(** ** Clients that connect *)

(** In one of the steps of the schedule thread [j], running and still to
    connect, has connected. *)
Definition connected_by (num msgs : Z) (ls : list Label) (j : nat) : Prop :=
  exists before exchange after cl, ls = before ++ Thread j true exchange :: after
    /\ clients (run num msgs before init) !! j = Some cl /\ phase cl = Connecting.

Section connections.
Context (num msgs : Z).
Hypothesis Hnum : 0 <= num < 2 ^ 31.

(** A phase that follows a connection. *)
Definition past_connect (c : Client) : Prop := phase c <> Connecting /\ phase c <> Returned.

Lemma connected_later ls l j : connected_by num msgs ls j -> connected_by num msgs (ls ++ [l]) j.
Proof.
  intros (before & exchange & after & cl & -> & Hj). exists before, exchange, (after ++ [l]), cl. split; [|exact Hj].
  by rewrite <- (assoc_L (++)).
Qed.

(** A client is past its connection only if it has connected. *)
Lemma past_connected ls j cl :
  go (run num msgs ls init) = false -> clients (run num msgs ls init) !! j = Some cl -> past_connect cl ->
  connected_by num msgs ls j.
Proof.
  revert cl. induction ls as [|l ls IH] using rev_ind; intros cl; [done|]. unfold run. rewrite foldl_app. cbn [foldl].
  change (foldl (step num msgs) init ls) with (run num msgs ls init). set (s := run num msgs ls init) in *.
  pose proof (run_ok num msgs Hnum ls init (init_ok num Hnum)) as Hs. fold s in Hs.
  intros Eg Hj [Hn1 Hn2]. destruct l as [|c connects exchange]; cbn [step] in *.
  - assert (Hold : go s = false /\ clients s !! j = Some cl).
    { pose proof (b_go _ _ Hs) as Hg. unfold main_step in Eg, Hj. destruct (main s) as [| | |t|]; try done.
      - destruct (_ <? _); [|done]. split; [done|]. cbn in Hj.
        by apply lookup_snoc_Some in Hj as [[_ Hj]|[_ <-]].
      - by destruct (_ <? _).
      - destruct (clients s !! t) as [ct|]; [|done]. by destruct (phase ct). }
    destruct Hold as [Eg' Hj']. by eapply connected_later, IH.
  - destruct (clients s !! c) as [c0|] eqn:Ec; [|by eapply connected_later, IH].
    destruct (client_step msgs connects exchange s c0) as [ready c1] eqn:Ecl. cbn in Eg, Hj.
    apply list_lookup_insert_Some in Hj as [(-> & -> & _)|[_ Hj]]; [|by eapply connected_later, IH].
    unfold client_step in Ecl. destruct (phase c0) as [| | |i| |] eqn:Ep.
    + destruct connects; injection Ecl as _ <-; [|done]. exists ls, exchange, [], c0. by split_and!.
    + eapply connected_later, IH; [done|exact Ec|]. split; congruence.
    + eapply connected_later, IH; [done|exact Ec|]. split; congruence.
    + eapply connected_later, IH; [done|exact Ec|]. split; congruence.
    + injection Ecl as _ <-. done.
    + eapply connected_later, IH; [done|exact Ec|]. split; congruence.
Qed.

(** The signal is given when all of them have. *)
Lemma signal_connected ls j :
  go (run num msgs ls init) = true -> Z.of_nat j < num -> connected_by num msgs ls j.
Proof.
  intros Eg Hj. induction ls as [|l ls IH] using rev_ind; [done|]. revert Eg IH. unfold run. rewrite foldl_app. cbn [foldl].
  change (foldl (step num msgs) init ls) with (run num msgs ls init).
  pose proof (run_ok num msgs Hnum ls init (init_ok num Hnum)) as Hs. set (s := run num msgs ls init) in *. intros Eg IH.
  destruct (go s) eqn:Eg'; [by apply connected_later, IH|].
  destruct l as [|c connects exchange]; cbn [step] in Eg.
  - apply connected_later. pose proof (b_go _ _ Hs) as Hg. rewrite Eg' in Hg. unfold main_step in Eg. destruct (main s) eqn:Em; try done.
    + exfalso. by destruct (_ <? _); cbn in Eg; congruence.
    + exfalso. by destruct (_ <? _); cbn in Eg; congruence.
    + pose proof (b_release _ _ Hs Em) as Hw. pose proof (b_full _ _ Hs ltac:(congruence)) as Hf. unfold zlen in Hf.
      destruct (lookup_lt_is_Some_2 (clients s) j ltac:(lia)) as [cl Hcl].
      pose proof (Forall_lookup_1 _ _ _ _ Hw Hcl) as Ep. cbn in Ep.
      apply (past_connected ls j cl Eg' Hcl). split; congruence.
  - exfalso. destruct (clients s !! c); [|congruence]. destruct (client_step _ _ _ _ _). cbn in Eg. congruence.
Qed.
End connections.

(** ** Progress *)

Definition connecting_fails (l : Label) : Prop := match l with Thread _ false _ => True | _ => False end.

(** Everybody's turn: the main thread and each client run in the segment. *)
Definition fair (num : Z) (seg : list Label) : Prop :=
  Main ∈ seg /\ forall c, Z.of_nat c < num -> exists exchange, Thread c true exchange ∈ seg.

Section progress.
Context (num msgs : Z).
Hypothesis Hnum : 0 <= num < 2 ^ 31.
Implicit Type s : State.

Definition budget (c : Client) : Z :=
  let m := Z.max 0 msgs in
  match phase c with
  | Connecting => m + 4
  | Connected => m + 3
  | Waiting => m + 2
  | Sending i => Z.max 0 (msgs - i) + 1
  | Returned | Thrown => 0
  end.

Definition main_budget (s : State) : Z :=
  match main s with
  | Spawning => (num - zlen (clients s)) * (Z.max 0 msgs + 5) + num + 5
  | AwaitReady => num + 4
  | Release => num + 3
  | Joining t => num - Z.of_nat t + 2
  | Joined => 0
  end.

(** What remains to be done. *)
Definition work (s : State) : Z := main_budget s + total budget (clients s).

Lemma budget_nonneg c : 0 <= budget c.
Proof. unfold budget. destruct (phase c); lia. Qed.

Lemma work_nonneg s : bench_ok num s -> 0 <= work s.
Proof.
  intros Hs. pose proof (b_len _ _ Hs) as Hl. pose proof (b_join _ _ Hs) as Ht. unfold work, main_budget.
  assert (0 <= total budget (clients s)).
  { generalize (clients s). intros l. induction l as [|c l IH]; [done|].
    change (total budget (c :: l)) with (budget c + total budget l). pose proof (budget_nonneg c). lia. }
  destruct (main s) as [| | |t|]; try lia; [nia|]. specialize (Ht t eq_refl). unfold zlen in Hl. lia.
Qed.

(** Each step of a client that connects changes nothing or uses budget up. *)
Lemma client_work s c exchange cl :
  clients s !! c = Some cl ->
  let s' := step num msgs s (Thread c true exchange) in
  s' = s \/ work s' < work s.
Proof.
  intros Ec. cbn zeta. unfold step. rewrite Ec.
  destruct (client_step msgs true exchange s cl) as [ready cl'] eqn:Ecl.
  assert (Hcl : (cl' = cl /\ ready = ready_count s) \/ budget cl' < budget cl).
  { unfold client_step, budget in *. destruct (phase cl) as [| | |i| |] eqn:Ep.
    - injection Ecl as <- <-. right. cbn. lia.
    - destruct (msgs <? 0); injection Ecl as <- <-; right; cbn; lia.
    - injection Ecl as <- <-. destruct (go s); [|by left]. right. cbn. lia.
    - injection Ecl as <- <-. right. destruct (Z.ltb_spec i msgs); [|cbn; lia].
      destruct exchange; cbn; lia.
    - injection Ecl as <- <-. by left.
    - injection Ecl as <- <-. by left. }
  destruct Hcl as [[-> ->]|Hlt].
  - left. rewrite list_insert_id by done. by destruct s.
  - right. unfold work. cbn [clients main]. rewrite (total_insert _ _ _ _ _ Ec).
    assert (main_budget (mk_state (main s) ready (go s) (<[c := cl']> (clients s))) = main_budget s) as ->; [|lia].
    unfold main_budget. cbn. destruct (main s); try done. unfold zlen. by rewrite length_insert.
Qed.

Lemma main_work s : bench_ok num s -> let s' := step num msgs s Main in s' = s \/ work s' < work s.
Proof.
  intros Hs. cbn zeta. cbn [step]. unfold main_step. pose proof (b_full _ _ Hs) as Hf.
  unfold work, main_budget. destruct (main s) as [| | |t|] eqn:Em; [| | | |by left].
  - destruct (Z.ltb_spec (zlen (clients s)) num); right; cbn.
    + rewrite zlen_app, total_app. change (zlen [_]) with 1. change (total budget [_]) with (Z.max 0 msgs + 4 + 0). nia.
    + pose proof (b_len _ _ Hs). nia.
  - destruct (_ <? _); [by left|right]. cbn. lia.
  - right. cbn. lia.
  - destruct (clients s !! t) as [c|] eqn:Ec.
    + apply lookup_lt_Some in Ec. destruct (phase c); try (by left). right. cbn. lia.
    + right. cbn. apply lookup_ge_None in Ec. pose proof (b_join _ _ Hs t Em). specialize (Hf ltac:(congruence)).
      unfold zlen in Hf. lia.
Qed.

Lemma step_work s l : bench_ok num s -> ~ connecting_fails l -> let s' := step num msgs s l in s' = s \/ work s' < work s.
Proof.
  intros Hs Hl. destruct l as [|c [] exchange]; [by apply main_work| |by destruct Hl].
  destruct (clients s !! c) as [cl|] eqn:Ec; [by eapply client_work|]. left. cbn. by rewrite Ec.
Qed.

(** Nobody has been refused. *)
Definition unrefused s : Prop := go s = false -> Forall (fun c => phase c <> Returned) (clients s).

Lemma unrefused_step s l : bench_ok num s -> unrefused s -> ~ connecting_fails l -> unrefused (step num msgs s l).
Proof.
  intros Hs Hu Hl. destruct l as [|c [] exchange]; [| |by destruct Hl]; cbn [step].
  - unfold main_step. pose proof (b_go _ _ Hs) as Hg. destruct (main s) as [| | |t|] eqn:Em; try done.
    + destruct (_ <? _); [|done]. intros E. apply Forall_app. split; [by apply Hu|]. by apply Forall_singleton.
    + by destruct (_ <? _).
    + destruct (clients s !! t) as [c|]; [|done]. by destruct (phase c).
  - destruct (clients s !! c) as [cl|] eqn:Ec; [|done].
    destruct (client_step msgs true exchange s cl) as [ready cl'] eqn:Ecl. intros E. cbn in E |- *. specialize (Hu E).
    apply Forall_insert; [done|]. destruct (b_before _ _ Hs E) as [Hfr _].
    pose proof (Forall_lookup_1 _ _ _ _ Hu Ec) as Hn. pose proof (Forall_lookup_1 _ _ _ _ Hfr Ec) as [_ Hns].
    cbn in Hn. unfold client_step in Ecl. rewrite E in Ecl.
    destruct (phase cl) as [| | |i| |] eqn:Ep; [|destruct (msgs <? 0)| | | |]; injection Ecl as <- <-; try done; try congruence.
Qed.

(** Unless everything is over, somebody can do something. *)
Definition productive s : Prop :=
  step num msgs s Main <> s
  \/ exists c, Z.of_nat c < num /\ forall exchange, step num msgs s (Thread c true exchange) <> s.

Lemma thread_productive s c cl :
  bench_ok num s -> clients s !! c = Some cl -> phase cl <> Returned -> phase cl <> Thrown ->
  (go s = false -> phase cl <> Waiting) -> productive s.
Proof.
  intros Hs Ec Hn Ht Hw. right. exists c. pose proof (lookup_lt_Some _ _ _ Ec) as Hlt. pose proof (b_len _ _ Hs).
  split; [unfold zlen in *; lia|]. intros exchange E. cbn [step] in E. rewrite Ec in E.
  destruct (client_step msgs true exchange s cl) as [ready cl'] eqn:Ecl.
  assert (cl' = cl) as ->.
  { apply (f_equal (fun s => clients s !! c)) in E. cbn in E. rewrite list_lookup_insert_eq in E by done. congruence. }
  unfold client_step in Ecl. destruct (phase cl) as [| | |i| |] eqn:Ep; try done.
  - injection Ecl as _ Ecl. by rewrite <- Ecl in Ep.
  - destruct (msgs <? 0); injection Ecl as _ Ecl; by rewrite <- Ecl in Ep.
  - destruct (go s); [|by destruct Hw]. injection Ecl as _ Ecl. by rewrite <- Ecl in Ep.
  - injection Ecl as _ Ecl. destruct (i <? msgs); [destruct exchange|]; rewrite <- Ecl in Ep; try done.
    injection Ep as Ep. lia.
Qed.

Lemma main_productive s : main (main_step num s) <> main s -> productive s.
Proof. intros Hn. left. cbn [step]. intros E. apply Hn. by rewrite E. Qed.

(** An exception has ended the program. *)
Definition thrown s : Prop := Exists (fun c => phase c = Thrown) (clients s).

Lemma has_thrown_spec s : has_thrown s = true <-> thrown s.
Proof.
  unfold has_thrown, thrown. rewrite existsb_exists, Exists_exists. setoid_rewrite bool_decide_eq_true. setoid_rewrite list_elem_of_In. done.
Qed.

Lemma has_thrown_false s : ~ thrown s -> has_thrown s = false.
Proof. rewrite <- has_thrown_spec. by destruct (has_thrown s). Qed.

Lemma busy s : bench_ok num s -> unrefused s -> main s <> Joined -> ~ thrown s -> productive s.
Proof.
  intros Hs Hu Hn Hth. assert (Hnth : forall j c, clients s !! j = Some c -> phase c <> Thrown).
  { intros j c Hj E. apply Hth, Exists_exists. exists c. split; [by eapply list_elem_of_lookup_2|done]. } pose proof (b_go _ _ Hs) as Hg. destruct (main s) as [| | |t|] eqn:Em; try done.
  - destruct (Z.ltb_spec (zlen (clients s)) num) as [Hlt|Hge].
    + left. cbn [step]. unfold main_step. rewrite Em, (proj2 (Z.ltb_lt _ _) Hlt). intros E.
      apply (f_equal (fun s => length (clients s))) in E. cbn in E. rewrite length_app in E. cbn in E. lia.
    + apply main_productive. unfold main_step. by rewrite Em, (proj2 (Z.ltb_ge _ _) Hge).
  - destruct (b_before _ _ Hs Hg) as [Hfr Er]. destruct (Z.ltb_spec (ready_count s) num) as [Hlt|Hge].
    + destruct (decide (Forall (fun c => phase c = Waiting) (clients s))) as [Hall|Hex].
      * exfalso. rewrite Er in Hlt. rewrite <- (b_full _ _ Hs ltac:(congruence)) in Hlt. revert Hlt. clear -Hall.
        induction Hall as [|c l E _ IH]; [done|]. rewrite zlen_cons.
        change (total is_waiting (c :: l)) with (is_waiting c + total is_waiting l). unfold is_waiting at 1. rewrite E. lia.
      * apply not_Forall_Exists, Exists_exists in Hex as (c & [j Hj]%list_elem_of_lookup_1 & Ep); [|apply _].
        pose proof (Forall_lookup_1 _ _ _ _ (Hu Hg) Hj). apply (thread_productive s j c); try done. by eapply Hnth.
    + apply main_productive. unfold main_step. by rewrite Em, (proj2 (Z.ltb_ge _ _) Hge).
  - apply main_productive. unfold main_step. by rewrite Em.
  - destruct (clients s !! t) as [c|] eqn:Ec; [|apply main_productive; unfold main_step; by rewrite Em, Ec].
    destruct (decide (phase c = Returned)) as [Ep|Np].
    + apply main_productive. unfold main_step. rewrite Em, Ec, Ep. cbn. intros [= E]. lia.
    + apply (thread_productive s t c); [done|done|done|by eapply Hnth|]. by rewrite Hg.
Qed.
End progress.

(** ** Fair schedules *)
Section schedules.
Context (num msgs : Z).
Hypothesis Hnum : 0 <= num < 2 ^ 31.
Implicit Type s : State.

Lemma run_cons l ls s : run num msgs (l :: ls) s = run num msgs ls (step num msgs s l).
Proof. done. Qed.

(** A schedule without refusals never adds work, and does some if it
    contains a step that would change the first state. *)
Lemma run_work ls : forall s, bench_ok num s -> unrefused s -> Forall (fun l => ~ connecting_fails l) ls ->
  let s' := run num msgs ls s in
  bench_ok num s' /\ unrefused s' /\ work num msgs s' <= work num msgs s
  /\ ((exists l, l ∈ ls /\ step num msgs s l <> s) -> work num msgs s' < work num msgs s).
Proof.
  induction ls as [|l ls IH]; intros s Hs Hu Hls; cbn zeta.
  { split_and!; [done|done|cbn; lia|]. intros (l & Hl & _). by apply not_elem_of_nil in Hl. }
  apply Forall_cons in Hls as [Hl Hls]. rewrite run_cons.
  destruct (IH (step num msgs s l)) as (Hs' & Hu' & Hle & Hlt); [by apply step_ok|by apply unrefused_step|done|].
  destruct (step_work num msgs s l Hs Hl) as [E|Hdec].
  - rewrite E in *. split_and!; try done. intros (l' & Hl' & Hn). apply Hlt. exists l'. split; [|done].
    apply elem_of_cons in Hl' as [->|]; [congruence|done].
  - split_and!; try done; [lia|]. intros _. lia.
Qed.

Lemma segment_work seg s : bench_ok num s -> unrefused s -> main s <> Joined -> ~ thrown s -> fair num seg ->
  Forall (fun l => ~ connecting_fails l) seg -> work num msgs (run num msgs seg s) < work num msgs s.
Proof.
  intros Hs Hu Hn Hth [Hmain Hthreads] Hseg. destruct (run_work seg s Hs Hu Hseg) as (_ & _ & _ & Hlt). apply Hlt.
  destruct (busy num msgs s Hs Hu Hn Hth) as [Hm|(c & Hc & Hp)]; [by exists Main|].
  destruct (Hthreads c Hc) as [exchange Hin]. exists (Thread c true exchange). split; [done|apply Hp].
Qed.

Lemma joined_stays ls : forall s, main s = Joined -> main (run num msgs ls s) = Joined.
Proof.
  induction ls as [|l ls IH]; intros s E; [done|]. rewrite run_cons. apply IH.
  destruct l as [|c connects exchange]; cbn [step]; [unfold main_step; by rewrite E|].
  destruct (clients s !! c); [|done]. by destruct (client_step _ _ _ _ _).
Qed.

Lemma thrown_step s l : thrown s -> thrown (step num msgs s l).
Proof.
  unfold thrown. rewrite !Exists_exists. intros (c & [j Hj]%list_elem_of_lookup_1 & Ec). destruct l as [|c1 connects exchange]; cbn [step].
  - unfold main_step. destruct (main s) as [| | |t|]; try (exists c; split; [by eapply list_elem_of_lookup_2|done]).
    + destruct (_ <? _); exists c; (split; [|done]); [apply elem_of_app; left|]; by eapply list_elem_of_lookup_2.
    + destruct (_ <? _); exists c; (split; [by eapply list_elem_of_lookup_2|done]).
    + destruct (clients s !! t) as [ct|]; [destruct (phase ct)|]; exists c; (split; [by eapply list_elem_of_lookup_2|done]).
  - destruct (clients s !! c1) as [cl|] eqn:E1; [|exists c; split; [by eapply list_elem_of_lookup_2|done]].
    destruct (client_step msgs connects exchange s cl) as [ready cl'] eqn:Ecl. exists c. split; [|done].
    apply list_elem_of_lookup_2 with j. cbn [clients]. destruct (decide (j = c1)) as [->|Hne]; [|by rewrite list_lookup_insert_ne].
    rewrite list_lookup_insert_eq by (by eapply lookup_lt_Some). rewrite Hj in E1. injection E1 as <-.
    unfold client_step in Ecl. rewrite Ec in Ecl. by injection Ecl as _ ->.
Qed.

Lemma thrown_stays ls : forall s, thrown s -> thrown (run num msgs ls s).
Proof. induction ls as [|l ls IH]; intros s Hs; [done|]. rewrite run_cons. by apply IH, thrown_step. Qed.

#[local] Instance thrown_dec s : Decision (thrown s).
Proof. unfold thrown. apply _. Defined.

Lemma run_app ls ks s : run num msgs (ls ++ ks) s = run num msgs ks (run num msgs ls s).
Proof. apply foldl_app. Qed.

Lemma segments_finish segs : forall s, bench_ok num s -> unrefused s -> Forall (fair num) segs ->
  Forall (Forall (fun l => ~ connecting_fails l)) segs -> work num msgs s <= zlen segs ->
  main (run num msgs (mjoin segs) s) = Joined \/ thrown (run num msgs (mjoin segs) s).
Proof.
  induction segs as [|seg segs IH]; intros s Hs Hu Hfair Hok Hw.
  - destruct (decide (main s = Joined)) as [|Hn]; [by left|]. destruct (decide (thrown s)) as [|Hth]; [by right|].
    pose proof (work_nonneg num msgs Hnum s Hs).
    destruct (busy num msgs s Hs Hu Hn Hth) as [Hm|(c & Hc & Hp)]; rewrite zlen_nil in Hw; exfalso.
    + pose proof (step_ok num msgs Hnum s Main Hs) as Hs'. pose proof (work_nonneg num msgs Hnum _ Hs').
      destruct (step_work num msgs s Main Hs) as [|]; [by intros []|done|lia].
    + pose proof (step_ok num msgs Hnum s (Thread c true None) Hs) as Hs'. pose proof (work_nonneg num msgs Hnum _ Hs').
      destruct (step_work num msgs s (Thread c true None) Hs) as [E|]; [by intros []|by apply Hp in E|lia].
  - apply Forall_cons in Hfair as [Hf Hfair]. apply Forall_cons in Hok as [Ho Hok]. rewrite zlen_cons in Hw.
    change (mjoin (seg :: segs)) with (seg ++ mjoin segs). rewrite run_app.
    destruct (decide (main s = Joined)) as [E|Hn]; [left; by apply joined_stays, joined_stays|].
    destruct (decide (thrown s)) as [Hth|Hth]; [right; by apply thrown_stays, thrown_stays|].
    destruct (run_work seg s Hs Hu Ho) as (Hs' & Hu' & _).
    pose proof (segment_work seg s Hs Hu Hn Hth Hf Ho). apply IH; try done. lia.
Qed.

(** What holds of a new client and is kept by its steps holds of them all. *)
Lemma run_all (P : Client -> Prop) (Q : Label -> Prop) :
  P (mk_client Connecting []) ->
  (forall s c connects exchange cl, Q (Thread c connects exchange) -> P cl -> P (snd (client_step msgs connects exchange s cl))) ->
  forall ls s, Forall Q ls -> Forall P (clients s) -> Forall P (clients (run num msgs ls s)).
Proof.
  intros Hnew Hstep. induction ls as [|l ls IH]; intros s Hq Hs; [done|]. apply Forall_cons in Hq as [Hl Hq].
  rewrite run_cons. apply IH; [done|]. clear IH. destruct l as [|c connects exchange]; cbn [step].
  - unfold main_step. destruct (main s) as [| | |t|]; try done.
    + destruct (_ <? _); [|done]. apply Forall_app. split; [done|]. by apply Forall_singleton.
    + by destruct (_ <? _).
    + destruct (clients s !! t) as [ct|]; [|done]. by destruct (phase ct).
  - destruct (clients s !! c) as [cl|] eqn:Ec; [|done].
    pose proof (Hstep s c connects exchange cl Hl (Forall_lookup_1 _ _ _ _ Hs Ec)) as Hcl.
    destruct (client_step msgs connects exchange s cl) as [ready cl']. by apply Forall_insert.
Qed.

(** Nobody throws when a number of messages is asked for. *)
Lemma unthrown_run ls : 0 <= msgs -> ~ thrown (run num msgs ls init).
Proof.
  intros Hm. unfold thrown. rewrite <- Forall_Exists_neg. apply (run_all _ (fun _ => True)); [done| |by apply Forall_true|apply Forall_nil_2].
  intros s _ connects exchange cl _ Hc. unfold client_step. rewrite (proj2 (Z.ltb_ge msgs 0) Hm).
  destruct (phase cl) as [| | |i| |] eqn:Ep; [destruct connects| |destruct (go s)|destruct (i <? msgs); [destruct exchange|]| |];
    cbn; congruence.
Qed.

(** Nobody waits for the signal when that number is negative. *)
Lemma impatient_run ls : msgs < 0 -> Forall (fun c => phase c <> Waiting) (clients (run num msgs ls init)).
Proof.
  intros Hm. apply (run_all _ (fun _ => True)); [done| |by apply Forall_true|apply Forall_nil_2].
  intros s _ connects exchange cl _ Hc. unfold client_step. rewrite (proj2 (Z.ltb_lt msgs 0) Hm).
  destruct (phase cl) as [| | |i| |] eqn:Ep; [destruct connects| |done|destruct (i <? msgs); [destruct exchange|]| |];
    cbn; congruence.
Qed.

End schedules.

(** ** How many latencies there are, and what they are *)

Section recorded.
Context (num msgs : Z).
Implicit Type s : State.

(** One per exchange of the client's loop. *)
Definition counted (c : Client) : Prop :=
  match phase c with
  | Sending i => zlen (latencies c) = i /\ i <= Z.max 0 msgs
  | Returned => zlen (latencies c) <= Z.max 0 msgs
  | _ => latencies c = []
  end.

Lemma counted_run ls : Forall counted (clients (run num msgs ls init)).
Proof.
  apply (run_all num msgs _ (fun _ => True)); [done| |by apply Forall_true|apply Forall_nil_2].
  intros s _ connects exchange cl _ Hc. unfold client_step, counted in *. destruct (phase cl) as [| | |i| |] eqn:Ep.
  - destruct connects; cbn; [done|]. rewrite Hc. change (zlen []) with 0. lia.
  - by destruct (msgs <? 0).
  - destruct (go s); cbn; [|by rewrite Ep]. rewrite Hc. change (zlen []) with 0. lia.
  - destruct (Z.ltb_spec i msgs); [|cbn; lia].
    destruct exchange as [ns|]; cbn; [|lia]. rewrite zlen_app. change (zlen [_]) with 1. lia.
  - cbn. by rewrite Ep.
  - cbn. by rewrite Ep.
Qed.

Lemma counted_total l : Forall counted l -> zlen (mjoin (latencies <$> l)) <= zlen l * Z.max 0 msgs.
Proof.
  induction 1 as [|c l Hc _ IH]; [done|]. cbn [fmap list_fmap mjoin list_join]. rewrite zlen_app, zlen_cons.
  enough (Hm : zlen (latencies c) <= Z.max 0 msgs).
  { rewrite Z.mul_add_distr_r, Z.add_comm. apply Z.add_le_mono; [exact IH|lia]. }
  unfold counted in Hc.
  destruct (phase c); try rewrite Hc; try (change (zlen []) with 0); lia.
Qed.

(** No more than [num] clients times [msgs] messages. *)
Lemma recorded_total ls : 0 <= num < 2 ^ 31 ->
  zlen (mjoin (latencies <$> clients (run num msgs ls init))) <= num * Z.max 0 msgs.
Proof.
  intros Hnum. pose proof (counted_total _ (counted_run ls)) as Ht.
  pose proof (b_len _ _ (run_ok num msgs Hnum ls init (init_ok num Hnum))) as Hl.
  etrans; [exact Ht|]. apply Z.mul_le_mono_nonneg_r; [lia|exact Hl].
Qed.

(** Every one was the time of an exchange. *)
Definition timed (P : Z -> Prop) (l : Label) : Prop := match l with Thread _ _ (Some ns) => P ns | _ => True end.

Lemma recorded_times (P : Z -> Prop) ls : Forall (timed P) ls ->
  Forall (fun c => Forall (fun x => exists ns, P ns /\ x = microseconds ns) (latencies c)) (clients (run num msgs ls init)).
Proof.
  intros Hls. apply (run_all num msgs _ (timed P)); [apply Forall_nil_2| |done|apply Forall_nil_2].
  intros s c connects exchange cl Hl Hc. unfold client_step. cbn in Hl. destruct (phase cl) as [| | |i| |]; try done.
  - by destruct (msgs <? 0).
  - by destruct (go s).
  - destruct (_ <? _); [|done]. destruct exchange as [ns|]; [|done]. cbn. apply Forall_app. split; [done|].
    apply Forall_singleton. by exists ns.
Qed.

End recorded.

(** ** The figures *)

(** What is read off the sorted latencies. *)
Lemma aggregate_figures elapsed s :
  let l := mjoin (latencies <$> clients s) in
  l <> [] ->
  exists v0 vm v50 v99,
    aggregate elapsed s = Ok (mk_result (div (of_int (zlen l)) (seconds elapsed)) v50 v99
      (div (accumulate (merge_sort le l)) (of_int (zlen l))) v0 vm (zlen l) (seconds elapsed))
    /\ merge_sort le l !! 0%nat = Some v0 /\ merge_sort le l !! Z.to_nat (zlen l - 1) = Some vm
    /\ merge_sort le l !! Z.to_nat (u64 (zlen l * 50) / 100) = Some v50
    /\ merge_sort le l !! Z.to_nat (u64 (zlen l * 99) / 100) = Some v99.
Proof.
  cbv zeta. unfold aggregate. set (l := mjoin (latencies <$> clients s)). intros Hne. rewrite bool_decide_eq_false_2 by done.
  assert (Hz : zlen (merge_sort le l) = zlen l) by (unfold zlen; by rewrite merge_sort_Permutation).
  assert (0 < zlen l) by (destruct l as [|x l']; [done|]; rewrite zlen_cons; pose proof (zlen_nonneg l'); lia).
  destruct (sorted_ends le l Hne) as (v0 & vm & Eh & El & L0 & Lm). rewrite Hz.
  destruct (index_sorted le l (u64 (zlen l * 50) / 100)) as (v50 & E50 & L50); [apply percent_in_range; lia|].
  destruct (index_sorted le l (u64 (zlen l * 99) / 100)) as (v99 & E99 & L99); [apply percent_in_range; lia|].
  rewrite Eh, El, E50, E99. exists v0, vm, v50, v99. by split_and!.
Qed.

Lemma aggregate_returns elapsed s : exists r, aggregate elapsed s = Ok r.
Proof.
  destruct (decide (mjoin (latencies <$> clients s) = [])) as [E|Hne].
  - unfold aggregate. rewrite bool_decide_eq_true_2 by done. by eexists.
  - destruct (aggregate_figures elapsed s Hne) as (v0 & vm & v50 & v99 & -> & _). by eexists.
Qed.

(** Printing the figures. *)
Lemma result_prints elapsed s label :
  4 * zlen (mjoin (latencies <$> clients s)) <= elapsed < 2 ^ 63 ->
  exists r text, aggregate elapsed s = Ok r /\ print_result label r = Ok text.
Proof.
  intros Hel. destruct (decide (mjoin (latencies <$> clients s) = [])) as [E|Hne].
  - unfold aggregate. rewrite bool_decide_eq_true_2 by done. by do 2 eexists.
  - destruct (aggregate_figures elapsed s Hne) as (v0 & vm & v50 & v99 & -> & _). set (l := mjoin _) in *.
    assert (Hpos : 0 < zlen l) by (destruct l as [|x l']; [done|]; rewrite zlen_cons; pose proof (zlen_nonneg l'); lia).
    destruct (rate_fits (zlen l) elapsed Hpos Hel) as (k & Ek & _). eexists _, _. split; [done|].
    unfold print_result, seconds. cbn [throughput_msg_per_sec]. by rewrite Ek.
Qed.

Lemma result_undefined s label :
  mjoin (latencies <$> clients s) <> [] -> zlen (mjoin (latencies <$> clients s)) < 2 ^ 64 ->
  exists r, aggregate 0 s = Ok r /\ print_result label r = Undefined.
Proof.
  intros Hne Hn. destruct (aggregate_figures 0 s Hne) as (v0 & vm & v50 & v99 & -> & _). set (l := mjoin _) in *.
  assert (Hpos : 0 < zlen l) by (destruct l as [|x l']; [done|]; rewrite zlen_cons; pose proof (zlen_nonneg l'); lia).
  eexists. split; [done|]. unfold print_result, seconds. cbn [throughput_msg_per_sec]. by rewrite rate_undefined.
Qed.

Lemma accumulate_nonneg l : Forall nonneg l -> nonneg (accumulate l).
Proof.
  unfold accumulate. assert (H0 : nonneg (of_int 0)) by done. revert H0. generalize (of_int 0).
  induction l as [|x l IH]; intros z Hz Hl; [done|]. apply Forall_cons in Hl as [Hx Hl]. cbn [foldl].
  apply IH; [by apply add_nonneg|done].
Qed.

Lemma microseconds_nonneg ns : 0 <= ns -> nonneg (microseconds ns).
Proof. intros Hns. unfold microseconds. apply (div_nonneg _ false 8796093022208000 (-43)); [by apply of_int_nonneg|done]. Qed.

(** ** Properties *)

(** The signal is never given when nobody can wait for it. *)
Lemma unsignalled num msgs ls : 0 < num < 2 ^ 31 -> msgs < 0 -> go (run num msgs ls init) = false.
Proof.
  intros Hnum Hmsgs. assert (Hnum' : 0 <= num < 2 ^ 31) by lia.
  induction ls as [|l ls IH] using rev_ind; [done|]. rewrite run_app. cbn [run foldl]. unfold run. cbn [foldl].
  change (foldl (step num msgs) init ls) with (run num msgs ls init).
  pose proof (run_ok num msgs Hnum' ls init (init_ok num Hnum')) as Hs.
  pose proof (impatient_run num msgs ls Hmsgs) as Hi. set (s := run num msgs ls init) in *.
  destruct l as [|c connects exchange]; cbn [step].
  - unfold main_step. destruct (main s) as [| | |t|] eqn:Em; try done.
    + by destruct (_ <? _).
    + by destruct (_ <? _).
    + pose proof (b_release _ _ Hs Em) as Hw. pose proof (b_full _ _ Hs ltac:(congruence)) as Hf.
      destruct (clients s) as [|c l]; [rewrite zlen_nil in Hf; lia|]. apply Forall_cons in Hw as [Hw _]. apply Forall_cons in Hi as [Hi _]. done.
    + destruct (clients s !! t) as [ct|]; [|done]. by destruct (phase ct).
  - destruct (clients s !! c); [|done]. by destruct (client_step _ _ _ _ _).
Qed.

(** Enough fair turns without a refusal end the benchmark. *)
Lemma fair_schedules_end num msgs segs :
  0 <= num < 2 ^ 31 -> 0 <= msgs -> Forall (fair num) segs -> Forall (Forall (fun l => ~ connecting_fails l)) segs ->
  (num + 1) * (msgs + 6) <= zlen segs ->
  let s := run num msgs (mjoin segs) init in
  main s = Joined /\ ~ thrown s /\ Forall (fun c => phase c = Returned) (clients s)
  /\ forall elapsed, exists r, aggregate elapsed s = Ok r.
Proof.
  intros Hnum Hmsgs Hfair Hok Hlen. cbn zeta. pose proof (init_ok num Hnum) as H0.
  assert (Hw : work num msgs init <= zlen segs) by (unfold work, main_budget; cbn [main init clients]; rewrite zlen_nil; change (total (budget msgs) []) with 0; nia).
  assert (Hth : ~ thrown (run num msgs (mjoin segs) init)) by (by apply unthrown_run).
  destruct (segments_finish num msgs Hnum segs init H0 (fun _ => Forall_nil_2 _) Hfair Hok Hw) as [E|]; [|done].
  pose proof (run_ok num msgs Hnum (mjoin segs) init H0) as Hs. set (s := run num msgs _ init) in *.
  split; [done|]. split; [done|]. split; [|intros elapsed; apply aggregate_returns]. apply Forall_lookup. intros j c Hj.
  apply (b_joined _ _ Hs j c Hj). by rewrite E.
Qed.

(** With a negative number of messages they end the program. *)
Lemma negative_throws num msgs segs :
  0 < num < 2 ^ 31 -> msgs < 0 -> Forall (fair num) segs -> Forall (Forall (fun l => ~ connecting_fails l)) segs ->
  (num + 1) * 6 <= zlen segs -> thrown (run num msgs (mjoin segs) init).
Proof.
  intros Hnum Hmsgs Hfair Hok Hlen. assert (Hnum' : 0 <= num < 2 ^ 31) by lia. pose proof (init_ok num Hnum') as H0.
  assert (Hw : work num msgs init <= zlen segs) by (unfold work, main_budget; cbn [main init clients]; rewrite zlen_nil; change (total (budget msgs) []) with 0; nia).
  destruct (segments_finish num msgs Hnum' segs init H0 (fun _ => Forall_nil_2 _) Hfair Hok Hw) as [E|]; [|done].
  exfalso. pose proof (run_ok num msgs Hnum' (mjoin segs) init H0) as Hs.
  pose proof (unsignalled num msgs (mjoin segs) ltac:(lia) Hmsgs) as Hg. rewrite (b_go _ _ Hs), E in Hg. done.
Qed.

Lemma refusal_waits num msgs ls ks :
  0 <= num < 2 ^ 31 -> refused (run num msgs ls init) ->
  let s := run num msgs (ls ++ ks) init in
  main s = Spawning \/ main s = AwaitReady.
Proof.
  intros Hnum Href. cbn zeta. rewrite run_app.
  pose proof (run_ok num msgs Hnum ls init (init_ok num Hnum)) as Hs.
  pose proof (refused_forever num msgs Hnum ks _ Hs Href) as Href'.
  pose proof (run_ok num msgs Hnum ks _ Hs) as Hs'. set (s := run num msgs ks _) in *.
  destruct (refused_short num s Hs' Href') as [_ Hrel]. pose proof (b_go _ _ Hs') as Hg. destruct Href' as [Eg _].
  rewrite Eg in Hg. destruct (main s); try done; [by left|by right].
Qed.

(** C31: the start barrier holds: whatever the schedule and whichever calls
    fail, once any client has begun to send, all [num] clients have been
    spawned and counted, and each of them has connected: the schedule has a
    step in which its thread, still to connect, did so. *)
Theorem benchmark_barrier num msgs ls c :
  0 <= num < 2 ^ 31 ->
  let s := run num msgs ls init in
  c ∈ clients s -> latencies c <> [] \/ (exists i, phase c = Sending i) ->
  zlen (clients s) = num /\ ready_count s = num /\ Forall started (clients s)
  /\ forall j, Z.of_nat j < num -> connected_by num msgs ls j.
Proof.
  cbn zeta. intros Hnum Hin Hsent. pose proof (run_ok num msgs Hnum ls init (init_ok num Hnum)) as Hs.
  set (s := run num msgs ls init) in *. destruct (go s) eqn:Eg.
  - destruct (b_after _ _ Hs Eg) as [Hst Er].
    split; [|split_and!; [done|done|intros j; by apply signal_connected]]. apply (b_full _ _ Hs).
    intros E. pose proof (b_go _ _ Hs) as Hg. rewrite E in Hg. cbn in Hg. congruence.
  - destruct (b_before _ _ Hs Eg) as [Hfr _]. rewrite Forall_forall in Hfr. destruct (Hfr _ Hin) as [Hl Hns].
    destruct Hsent as [|[i Ei]]; [done|by destruct (Hns i)].
Qed.

(** The benchmark ends if and only if every client connects.  If none is
    refused, every fair schedule (a list of segments in each of which
    everybody gets a turn) of [(num + 1) * (msgs + 6)] segments brings the
    main thread past the joins, with all clients returned and the figures
    computed without an index out of range, even if exchanges fail; but once
    one client has failed to connect, the main thread waits for ever,
    whatever happens. *)
Theorem benchmark_ends_iff_connected num msgs :
  0 <= num < 2 ^ 31 -> 0 <= msgs ->
  (forall segs, Forall (fair num) segs -> Forall (Forall (fun l => ~ connecting_fails l)) segs ->
     (num + 1) * (msgs + 6) <= zlen segs ->
     let s := run num msgs (mjoin segs) init in
     main s = Joined /\ ~ thrown s /\ Forall (fun c => phase c = Returned) (clients s) /\ forall elapsed, exists r, aggregate elapsed s = Ok r)
  /\ (forall ls ks, refused (run num msgs ls init) ->
        let s := run num msgs (ls ++ ks) init in
        main s = Spawning \/ main s = AwaitReady).
Proof.
  intros Hnum Hmsgs. split; [intros segs; by apply fair_schedules_end|intros ls ks; by apply refusal_waits].
Qed.

(** C34: the benchmark's figures.  After any schedule in which some latency
    was recorded the figures are produced, without an index out of range: the
    minimum, P50, P99 and the maximum are recorded latencies of rank 0,
    n/2, 99n/100 and n-1 in the order of [operator<], the first and the last
    bound them all, and there are at most [num * msgs].  When no exchange
    took negative time, and the run did not, every latency and every figure,
    the throughput among them, is zero, positive or infinite, never negative
    and never a NaN.  Printing them is defined when the run took at least four
    nanoseconds per message, and is undefined when it took none (the rate is
    then infinite, and is converted to [int]). *)
Theorem benchmark_figures num msgs ls elapsed label :
  0 <= num < 2 ^ 31 ->
  let s := run num msgs ls init in
  let l := mjoin (latencies <$> clients s) in
  let n := zlen l in
  l <> [] -> n < 2 ^ 57 ->
  exists r, aggregate elapsed s = Ok r /\ total_messages r = n /\ n <= num * Z.max 0 msgs
    /\ has_rank le l 0 (min_us r) /\ has_rank le l (n * 50 / 100) (p50_us r)
    /\ has_rank le l (n * 99 / 100) (p99_us r) /\ has_rank le l (n - 1) (max_us r)
    /\ Forall (fun x => le (min_us r) x /\ le x (max_us r)) l
    /\ (Forall (timed (fun ns => 0 <= ns)) ls -> 0 <= elapsed ->
        Forall nonneg l /\ Forall nonneg [min_us r; p50_us r; p99_us r; max_us r; avg_us r; elapsed_sec r; throughput_msg_per_sec r])
    /\ (4 * n <= elapsed < 2 ^ 63 -> exists text, print_result label r = Ok text)
    /\ (elapsed = 0 -> print_result label r = Undefined).
Proof.
  intros Hnum s l n Hne Hn. destruct (aggregate_figures elapsed s Hne) as (v0 & vm & v50 & v99 & E & L0 & Lm & L50 & L99).
  fold l in E, L0, Lm, L50, L99. fold n in E, Lm, L50, L99.
  assert (Hpos : 0 < n) by (unfold n; destruct l as [|x l']; [done|]; rewrite zlen_cons; pose proof (zlen_nonneg l'); lia).
  rewrite !u64_small in L50, L99 by lia. eexists. split; [exact E|]. cbn [total_messages min_us p50_us p99_us max_us avg_us elapsed_sec throughput_msg_per_sec].
  split; [done|]. split; [by apply recorded_total|].
  assert (R0 : has_rank le l 0 v0) by (by apply (rank_sorted le)).
  assert (R50 : has_rank le l (n * 50 / 100) v50) by (apply (rank_sorted le); [Z.div_mod_to_equations; lia|done]).
  assert (R99 : has_rank le l (n * 99 / 100) v99) by (apply (rank_sorted le); [Z.div_mod_to_equations; lia|done]).
  assert (Rm : has_rank le l (n - 1) vm) by (apply (rank_sorted le); [lia|done]).
  do 4 (split; [done|]). split; [by apply (sorted_extremes le)|]. split; [|split].
  - intros Ht He. assert (Hl : Forall nonneg l).
    { pose proof (recorded_times num msgs _ ls Ht) as Hr. unfold l. apply Forall_join, Forall_fmap.
      eapply Forall_impl; [exact Hr|]. intros c Hc. eapply Forall_impl; [exact Hc|]. intros x (ns & Hns & ->).
      by apply microseconds_nonneg. }
    split; [done|]. pose proof (proj1 (Forall_forall _ _) Hl) as Hin.
    assert (Hpd : exists m e, of_int n = S754_finite false m e).
    { destruct (of_int_order n) as (o & (m & e & En & _) & _); [lia|]. eauto. }
    assert (Hsec : nonneg (seconds elapsed)) by (apply (div_nonneg _ false 8388608000000000 (-23)); [by apply of_int_nonneg|done]).
    repeat apply Forall_cons_2; [apply Hin, R0|apply Hin, R50|apply Hin, R99|apply Hin, Rm| |exact Hsec| |apply Forall_nil_2].
    + destruct Hpd as (m & e & ->). apply div_nonneg; [|done]. apply accumulate_nonneg.
      by rewrite (merge_sort_Permutation le l).
    + destruct Hpd as (m & e & ->). by apply positive_div_nonneg.
  - intros Hel. destruct (result_prints elapsed s label Hel) as (r & text & E' & Ep). rewrite E in E'. injection E' as <-. eauto.
  - intros ->. destruct (result_undefined s label Hne ltac:(fold l n; lia)) as (r & E' & Ep). rewrite E in E'. by injection E' as <-.
Qed.

(** Two clients that exchange one message each, and a client that is
    refused. *)
Definition turn : list Label := [Main; Thread 0 true (Some 1500); Thread 1 true (Some 2500)].

Lemma benchmark_barrier_witness :
  let s := run 2 1 (mjoin (replicate 9 turn)) init in
  zlen (clients s) = 2 /\ ready_count s = 2 /\ Forall started (clients s)
  /\ forall j, Z.of_nat j < 2 -> connected_by 2 1 (mjoin (replicate 9 turn)) j.
Proof.
  apply (benchmark_barrier 2 1 (mjoin (replicate 9 turn)) (mk_client Returned [microseconds 1500])); [lia| |left; discriminate].
  vm_compute. left.
Defined.

Lemma benchmark_ends_iff_connected_witness :
  main (run 2 1 (mjoin (replicate 21 turn)) init) = Joined
  /\ main (run 2 1 ([Main; Thread 0 false None] ++ mjoin (replicate 21 turn)) init) = AwaitReady.
Proof.
  destruct (benchmark_ends_iff_connected 2 1) as [H1 H2]; [lia|lia|]. split.
  - apply H1; [| |vm_compute; discriminate].
    + apply Forall_replicate. split; [left|]. intros [|[|c]] Hc; [exists (Some 1500)|exists (Some 2500)|lia]; unfold turn; repeat constructor.
    + apply Forall_replicate. repeat constructor; intros [].
  - destruct (H2 [Main; Thread 0 false None] (mjoin (replicate 21 turn))) as [E|E]; [|vm_compute in E; discriminate E|exact E].
    split; [reflexivity|]. constructor. reflexivity.
Defined.

(** The report of two exchanges, of 1.5 and 2.5 microseconds, in a tenth of
    a millisecond; and in no time. *)
Definition demo_report : bytes :=
  [10] ++ str "=== Echo Benchmark ===" ++ [10] ++ str "  Total messages: 2" ++ [10] ++ str "  Elapsed:        0.0001 s" ++ [10] ++
  str "  Throughput:     20000 msg/s" ++ [10] ++ str "  Latency P50:    2.5 us" ++ [10] ++ str "  Latency P99:    2.5 us" ++ [10] ++
  str "  Latency avg:    2 us" ++ [10] ++ str "  Latency min:    1.5 us" ++ [10] ++ str "  Latency max:    2.5 us" ++ [10].

Lemma benchmark_figures_witness :
  let s := run 2 1 (mjoin (replicate 9 turn)) init in
  (exists r, aggregate 100000 s = Ok r /\ total_messages r = 2 /\ print_result (str "Echo Benchmark") r = Ok demo_report)
  /\ exists r, aggregate 0 s = Ok r /\ print_result (str "Echo Benchmark") r = Undefined.
Proof.
  cbv zeta. split.
  - destruct (benchmark_figures 2 1 (mjoin (replicate 9 turn)) 100000 (str "Echo Benchmark")) as (r & E & Hn & _);
      [lia|vm_compute; discriminate|vm_compute; reflexivity|].
    exists r. split; [exact E|]. split; [exact Hn|]. vm_compute in E. injection E as <-. vm_compute. reflexivity.
  - destruct (benchmark_figures 2 1 (mjoin (replicate 9 turn)) 0 (str "Echo Benchmark")) as (r & E & H);
      [lia|vm_compute; discriminate|vm_compute; reflexivity|].
    exists r. split; [exact E|]. apply H. reflexivity.
Defined.
