(* ===== verification/Server.v ===== *)
(** * Server: the poll reactor (ewss.hpp, [ServerStats] and [Server])

    The statistics, the accept path, the per-connection I/O dispatch, the
    swap-and-pop removal of closed connections and the reactor loop.  The
    kernel's answers in one round of the loop are a [Tick]; [run] consumes
    one tick per iteration. *)
From S2P Require Import Prelude Vocabulary RingBuffer Frame FixedVector Connection Sockets.
Open Scope ewss_scope.
Import Conn Handlers Sockets SocketSetup.

Module Stats.

(** The [std::atomic<uint64_t>] counters. *)
Record ServerStats := mk_stats {
  total_messages_in : Z;
  total_messages_out : Z;
  total_bytes_in : Z;
  total_bytes_out : Z;
  total_connections : Z;
  active_connections : Z;
  rejected_connections : Z;
  handshake_errors : Z;
  socket_errors : Z;
  buffer_overflows : Z;
  last_poll_latency_us : Z;
  max_poll_latency_us : Z;
  pool_acquires : Z;
  pool_releases : Z;
  pool_exhausted : Z;
}.

Definition zero_stats : ServerStats := mk_stats 0 0 0 0 0 0 0 0 0 0 0 0 0 0 0.

Definition reset (_ : ServerStats) : ServerStats := mk_stats 0 0 0 0 0 0 0 0 0 0 0 0 0 0 0.

Definition is_overloaded (s : ServerStats) (pool_capacity : Z) : bool :=
  u64 (pool_capacity * 9) / 10 <? active_connections s.

(** The updates of the reactor. *)
Definition add_accepted (s : ServerStats) : ServerStats :=
  mk_stats (total_messages_in s) (total_messages_out s) (total_bytes_in s) (total_bytes_out s)
    (u64 (total_connections s + 1)) (u64 (active_connections s + 1)) (rejected_connections s)
    (handshake_errors s) (socket_errors s) (buffer_overflows s)
    (last_poll_latency_us s) (max_poll_latency_us s) (pool_acquires s) (pool_releases s) (pool_exhausted s).
Definition add_rejected (s : ServerStats) : ServerStats :=
  mk_stats (total_messages_in s) (total_messages_out s) (total_bytes_in s) (total_bytes_out s)
    (total_connections s) (active_connections s) (u64 (rejected_connections s + 1))
    (handshake_errors s) (socket_errors s) (buffer_overflows s)
    (last_poll_latency_us s) (max_poll_latency_us s) (pool_acquires s) (pool_releases s) (pool_exhausted s).
Definition add_socket_error (s : ServerStats) : ServerStats :=
  mk_stats (total_messages_in s) (total_messages_out s) (total_bytes_in s) (total_bytes_out s)
    (total_connections s) (active_connections s) (rejected_connections s)
    (handshake_errors s) (u64 (socket_errors s + 1)) (buffer_overflows s)
    (last_poll_latency_us s) (max_poll_latency_us s) (pool_acquires s) (pool_releases s) (pool_exhausted s).
Definition sub_active (s : ServerStats) (removed : Z) : ServerStats :=
  mk_stats (total_messages_in s) (total_messages_out s) (total_bytes_in s) (total_bytes_out s)
    (total_connections s) (u64 (active_connections s - removed)) (rejected_connections s)
    (handshake_errors s) (socket_errors s) (buffer_overflows s)
    (last_poll_latency_us s) (max_poll_latency_us s) (pool_acquires s) (pool_releases s) (pool_exhausted s).
Definition set_latency (s : ServerStats) (us : Z) : ServerStats :=
  mk_stats (total_messages_in s) (total_messages_out s) (total_bytes_in s) (total_bytes_out s)
    (total_connections s) (active_connections s) (rejected_connections s)
    (handshake_errors s) (socket_errors s) (buffer_overflows s)
    us (if max_poll_latency_us s <? us then us else max_poll_latency_us s)
    (pool_acquires s) (pool_releases s) (pool_exhausted s).

End Stats.

Module Srv.
Import Stats.

Definition POLLIN : Z := 1.
Definition POLLOUT : Z := 4.
Definition POLLERR : Z := 8.
Definition POLLHUP : Z := 16.

Record pollfd := mk_pollfd { pfd_fd : Z; pfd_events : Z; pfd_revents : Z }.

Definition kMaxConnections : Z := 64.

(** A [std::shared_ptr<Connection>] of the server: the object with the
    callbacks copied into it when it was accepted; [None] is the null
    pointer a moved-from pointer becomes. *)
Definition Client (Sock : Type) : Type := Callbacks Sock * Connection Sock.
Abbreviation ConnPtr Sock := (option (Client Sock)).

(** The fields of [Server], for the type [P] of what a connection pointer
    points to and the type [C] of the callback members.  [calls_] is
    history: the system calls by which the reactor accepts, prepares and
    refuses descriptors. *)
Record ServerOf (P C : Type) := mk_server {
  server_sock_ : Z;
  is_running_ : bool;
  use_writev_ : bool;
  connections_ : FixedVector.FixedVector (option P) 64;
  max_connections_ : Z;
  poll_timeout_ms_ : Z;
  poll_fds_ : list pollfd;
  stats_ : ServerStats;
  callbacks_ : C;
  next_conn_id : Z;
  tcp_tuning_ : TcpTuning;
  calls_ : Trace;
}.
Arguments mk_server {P C}. Arguments server_sock_ {P C}. Arguments is_running_ {P C}.
Arguments use_writev_ {P C}. Arguments connections_ {P C}. Arguments max_connections_ {P C}.
Arguments poll_timeout_ms_ {P C}. Arguments poll_fds_ {P C}. Arguments stats_ {P C}.
Arguments callbacks_ {P C}. Arguments next_conn_id {P C}.
Arguments tcp_tuning_ {P C}. Arguments calls_ {P C}.
Abbreviation Server Sock := (ServerOf (Client Sock) (Callbacks Sock)).

(** The system calls one connection makes in an iteration. *)
Record Os (Sock : Type) := mk_os {
  os_now : Z;
  os_readv : Z -> bytes -> list Ring.span -> SysResult * bytes;
  os_writev : Z -> bytes -> SysResult;
  os_write : Sock -> bytes -> Z + Z;
}.
Arguments os_now {Sock}. Arguments os_readv {Sock}. Arguments os_writev {Sock}. Arguments os_write {Sock}.

(** What the kernel does in one iteration: the result of [poll] and the
    returned events, its duration, the result of [accept] with [errno], those
    of the other calls on an accepted descriptor (which nobody looks at), the
    system calls of the connection at each index, the clock when timeouts
    are checked, and whether [stop] is called meanwhile. *)
Record Tick (Sock : Type) := mk_tick {
  tk_poll : list pollfd -> Z * list Z;
  tk_poll_us : Z;
  tk_accept : Z * Z;
  tk_sys : Trace -> Call -> Z;
  tk_os : Z -> Os Sock;
  tk_late : Z -> Os Sock;
  tk_stop : bool;
}.
Arguments tk_poll {Sock}. Arguments tk_poll_us {Sock}. Arguments tk_accept {Sock}. Arguments tk_sys {Sock}.
Arguments tk_os {Sock}. Arguments tk_late {Sock}. Arguments tk_stop {Sock}.

(** ** Members that touch no connection *)
Section members.
Context {P C : Type}.
Implicit Type s : ServerOf P C.

Definition set_connections s (v : FixedVector.FixedVector (option P) 64) : ServerOf P C :=
  mk_server (server_sock_ s) (is_running_ s) (use_writev_ s) v (max_connections_ s) (poll_timeout_ms_ s)
    (poll_fds_ s) (stats_ s) (callbacks_ s) (next_conn_id s) (tcp_tuning_ s) (calls_ s).
Definition set_stats s (st : ServerStats) : ServerOf P C :=
  mk_server (server_sock_ s) (is_running_ s) (use_writev_ s) (connections_ s) (max_connections_ s)
    (poll_timeout_ms_ s) (poll_fds_ s) st (callbacks_ s) (next_conn_id s) (tcp_tuning_ s) (calls_ s).
Definition set_poll_fds s (l : list pollfd) : ServerOf P C :=
  mk_server (server_sock_ s) (is_running_ s) (use_writev_ s) (connections_ s) (max_connections_ s)
    (poll_timeout_ms_ s) l (stats_ s) (callbacks_ s) (next_conn_id s) (tcp_tuning_ s) (calls_ s).
Definition set_running s (b : bool) : ServerOf P C :=
  mk_server (server_sock_ s) b (use_writev_ s) (connections_ s) (max_connections_ s)
    (poll_timeout_ms_ s) (poll_fds_ s) (stats_ s) (callbacks_ s) (next_conn_id s) (tcp_tuning_ s) (calls_ s).
Definition set_next_id s (i : Z) : ServerOf P C :=
  mk_server (server_sock_ s) (is_running_ s) (use_writev_ s) (connections_ s) (max_connections_ s)
    (poll_timeout_ms_ s) (poll_fds_ s) (stats_ s) (callbacks_ s) i (tcp_tuning_ s) (calls_ s).

(** A server whose listening socket is [sock]. *)
Definition make_server (sock : Z) (cbs : C) : ServerOf P C :=
  mk_server sock false true FixedVector.make 50 1000 (replicate 65 (mk_pollfd 0 0 0)) zero_stats cbs 1
    default_tuning [].

Definition stop s : ServerOf P C := set_running s false.
Definition set_max_connections s (max : Z) : ServerOf P C :=
  mk_server (server_sock_ s) (is_running_ s) (use_writev_ s) (connections_ s) max
    (poll_timeout_ms_ s) (poll_fds_ s) (stats_ s) (callbacks_ s) (next_conn_id s) (tcp_tuning_ s) (calls_ s).
Definition set_poll_timeout_ms s (t : Z) : ServerOf P C :=
  mk_server (server_sock_ s) (is_running_ s) (use_writev_ s) (connections_ s) (max_connections_ s)
    t (poll_fds_ s) (stats_ s) (callbacks_ s) (next_conn_id s) (tcp_tuning_ s) (calls_ s).
Definition set_use_writev s (e : bool) : ServerOf P C :=
  mk_server (server_sock_ s) (is_running_ s) e (connections_ s) (max_connections_ s)
    (poll_timeout_ms_ s) (poll_fds_ s) (stats_ s) (callbacks_ s) (next_conn_id s) (tcp_tuning_ s) (calls_ s).
Definition set_tcp_tuning s (t : TcpTuning) : ServerOf P C :=
  mk_server (server_sock_ s) (is_running_ s) (use_writev_ s) (connections_ s) (max_connections_ s)
    (poll_timeout_ms_ s) (poll_fds_ s) (stats_ s) (callbacks_ s) (next_conn_id s) t (calls_ s).
Definition set_calls s (tr : Trace) : ServerOf P C :=
  mk_server (server_sock_ s) (is_running_ s) (use_writev_ s) (connections_ s) (max_connections_ s)
    (poll_timeout_ms_ s) (poll_fds_ s) (stats_ s) (callbacks_ s) (next_conn_id s) (tcp_tuning_ s) tr.
Definition get_connection_count s : Z := FixedVector.size (connections_ s).
Definition reset_stats s : ServerOf P C := set_stats s (Stats.reset (stats_ s)).

(** ** The listening socket *)

(** [accept(server_sock_, ...)]; the result and the server after it. *)
Definition accept {Sock} s (tk : Tick Sock) : Z * ServerOf P C :=
  let fd := fst (tk_accept tk) in (fd, set_calls s (calls_ s ++ [(CAccept (server_sock_ s), fd)])).

(** Calls whose results nobody looks at. *)
Definition calling s (m : T unit) : ServerOf P C := set_calls s (snd (m (calls_ s))).

(** The overloaded branch: accept the connection, and close it. *)
Definition refuse_connection {Sock} s (tk : Tick Sock) : ServerOf P C :=
  let s := set_stats s (add_rejected (stats_ s)) in
  let (reject_sock, s) := accept s tk in
  calling s (only_if (0 <=? reject_sock) (sys (tk_sys tk) (CClose reject_sock))).

(** [fcntl(client_sock, F_SETFL, O_NONBLOCK); apply_tcp_tuning(client_sock);] *)
Definition prepare_accepted {Sock} s (tk : Tick Sock) (client_sock : Z) : ServerOf P C :=
  calling s (prepare_client (tk_sys tk) (tcp_tuning_ s) client_sock).

End members.

Section server.
Context {Sock : Type} `{TcpSocket Sock} {target : Target}.
Abbreviation server := (Server Sock).
Abbreviation vec := (FixedVector.FixedVector (ConnPtr Sock) 64).
Implicit Type s : server.

(** The environment of a connection's handlers. *)
Definition env_of (cbs : Callbacks Sock) (os : Os Sock) : Env Sock :=
  mk_env Sock cbs (os_now os) (os_readv os) (os_writev os) (os_write os).

(** [*p]: a null pointer is undefined. *)
Definition deref (p : ConnPtr Sock) : Res (Client Sock) := of_option p.

(** A member function of the connection behind a pointer. *)
Definition call {A} (os : Os Sock) (m : Env Sock -> M Sock A) (cl : Client Sock) : Res (A * Client Sock) :=
  let! (a, c) := m (env_of (fst cl) os) (snd cl) in Ok (a, (fst cl, c)).

Definition conn_close (os : Os Sock) (cl : Client Sock) : Res (Client Sock) :=
  let! (_, cl) := call os (fun env => close env (run_callback env) 1000) cl in Ok cl.

(** ** Accepting *)

Definition accept_connection s (tk : Tick Sock) : Res (expected * server) :=
  if (max_connections_ s <=? FixedVector.size (connections_ s)) || FixedVector.full (connections_ s)
  then Ok (error kMaxConnectionsExceeded, set_stats s (add_rejected (stats_ s))) else
  let (client_sock, s) := accept s tk in
  let err := snd (tk_accept tk) in
  if client_sock <? 0 then
    if negb (retryable err) then Ok (error kSocketError, set_stats s (add_socket_error (stats_ s)))
    else Ok (success, s)
  else
    let s := prepare_accepted s tk client_sock in
    let conn := make_connection (env_of (callbacks_ s) (tk_os tk (-1))) (next_conn_id s) client_sock in
    let s := set_next_id s (u64 (next_conn_id s + 1)) in
    let! (_, v) := FixedVector.push_back (connections_ s) (Some (callbacks_ s, conn)) in
    Ok (success, set_stats (set_connections s v) (add_accepted (stats_ s))).

(** ** Connection I/O *)

Definition has_event (revents mask : Z) : bool := negb (Z.land revents mask =? 0).

Definition handle_connection_io (use_writev : bool) (os : Os Sock) (pfd : pollfd) (cl : Client Sock)
  : Res (Client Sock) :=
  let! cl :=
    if has_event (pfd_revents pfd) POLLIN then
      let! (r, cl) := call os (fun env => handle_read env (run_callback env)) cl in
      if negb (ExpectedVoid.has_value r) then conn_close os cl else Ok cl
    else Ok cl in
  let! cl :=
    if has_event (pfd_revents pfd) POLLOUT then
      let! (r, cl) := call os (fun env => if use_writev then handle_write_vectored env (run_callback env)
                                          else handle_write env (run_callback env)) cl in
      if negb (ExpectedVoid.has_value r) then conn_close os cl else Ok cl
    else Ok cl in
  if has_event (pfd_revents pfd) (Z.lor POLLERR POLLHUP) then conn_close os cl else Ok cl.

(** ** Removing closed connections *)

(** [while (i < connections_.size())]; the result is the vector and the
    number of removed connections. *)
Fixpoint remove_loop (fuel : nat) (i removed : Z) (v : vec) : Res (vec * Z) :=
  if negb (i <? FixedVector.size v) then Ok (v, removed) else
  match fuel with
  | O => OutOfFuel
  | S fuel' =>
      let! p := FixedVector.at_ v i in
      let! cl := deref p in
      if is_closed (snd cl) then
        let! v :=
          if i <? u32 (FixedVector.size v - 1) then
            let! last := FixedVector.at_ v (u32 (FixedVector.size v - 1)) in
            let! v := FixedVector.assign v (u32 (FixedVector.size v - 1)) None in
            FixedVector.assign v i last
          else Ok v in
        let! (_, v) := FixedVector.pop_back v in
        remove_loop fuel' i (u32 (removed + 1)) v
      else remove_loop fuel' (u32 (i + 1)) removed v
  end.

Definition remove_closed_connections s : Res server :=
  let! (v, removed) := remove_loop (Z.to_nat (FixedVector.size (connections_ s))) 0 0 (connections_ s) in
  let s := set_connections s v in
  Ok (if 0 <? removed then set_stats s (sub_active (stats_ s) removed) else s).

(** ** The reactor loop *)

(** [poll_fds_[nfds++] = pfd] *)
Definition store_pollfd (fds : list pollfd) (nfds : Z) (pfd : pollfd) : Res (list pollfd * Z) :=
  if nfds <? zlen fds then Ok (<[Z.to_nat nfds := pfd]> fds, nfds + 1) else Undefined.

(** [for (i = 0; i < connections_.size(); ++i)] *)
Fixpoint fill_pollfds (n : nat) (i : Z) (v : vec) (fds : list pollfd) (nfds : Z) : Res (list pollfd * Z) :=
  match n with
  | O => Ok (fds, nfds)
  | S n' =>
      let! p := FixedVector.at_ v i in
      let! cl := deref p in
      let events := if has_data_to_send (snd cl) then Z.lor POLLIN POLLOUT else POLLIN in
      let! (fds, nfds) := store_pollfd fds nfds (mk_pollfd (get_fd (snd cl)) events 0) in
      fill_pollfds n' (i + 1) v fds nfds
  end.

Definition prepare_poll s : Res (list pollfd * Z) :=
  let! (fds, nfds) := store_pollfd (poll_fds_ s) 0 (mk_pollfd (server_sock_ s) POLLIN 0) in
  fill_pollfds (Z.to_nat (FixedVector.size (connections_ s))) 0 (connections_ s) fds nfds.

(** [poll] stores the returned events in the first entries. *)
Fixpoint set_revents (fds : list pollfd) (rev : list Z) : list pollfd :=
  match fds, rev with
  | p :: fds', r :: rev' => mk_pollfd (pfd_fd p) (pfd_events p) r :: set_revents fds' rev'
  | _, _ => fds
  end.

(** [for (size_t i = 1; i < nfds; ++i)] with [n = nfds - i] rounds left. *)
Fixpoint io_loop (n : nat) (i : Z) (use_writev : bool) (tk : Tick Sock) (fds : list pollfd) (v : vec) : Res vec :=
  match n with
  | O => Ok v
  | S n' =>
      if FixedVector.size v <=? i - 1 then Ok v else
      let! p := FixedVector.at_ v (i - 1) in
      let! cl := deref p in
      let! pfd := of_option (fds !! Z.to_nat i) in
      let! cl := handle_connection_io use_writev (tk_os tk (i - 1)) pfd cl in
      let! v := FixedVector.assign v (i - 1) (Some cl) in
      io_loop n' (i + 1) use_writev tk fds v
  end.

Definition timed_out (os : Os Sock) (cl : Client Sock) : bool :=
  is_handshake_timed_out (env_of (fst cl) os) (snd cl) || is_close_timed_out (env_of (fst cl) os) (snd cl).

Fixpoint timeout_loop (n : nat) (i : Z) (tk : Tick Sock) (v : vec) : Res vec :=
  match n with
  | O => Ok v
  | S n' =>
      let! p := FixedVector.at_ v i in
      let! cl := deref p in
      let! v :=
        if timed_out (tk_late tk i) cl then
          let! cl := conn_close (tk_late tk i) cl in FixedVector.assign v i (Some cl)
        else Ok v in
      timeout_loop n' (i + 1) tk v
  end.

(** The new-connection part of an iteration. *)
Definition handle_listener s (tk : Tick Sock) : Res server :=
  if is_overloaded (stats_ s) (max_connections_ s) then Ok (refuse_connection s tk)
  else let! (_, s) := accept_connection s tk in Ok s.

(** One iteration; [false] when the loop is left by [break]. *)
Definition run_iter s (tk : Tick Sock) : Res (bool * server) :=
  let! (fds, nfds) := prepare_poll s in
  let (ret, rev) := tk_poll tk (take (Z.to_nat nfds) fds) in
  let s := set_poll_fds s (set_revents fds rev) in
  let s := set_stats s (set_latency (stats_ s) (u64 (tk_poll_us tk))) in
  if ret <? 0 then Ok (false, s) else
  if ret =? 0 then Ok (true, s) else
  let! first := of_option (poll_fds_ s !! 0%nat) in
  let! s := if has_event (pfd_revents first) POLLIN then handle_listener s tk else Ok s in
  let! v := io_loop (Z.to_nat (nfds - 1)) 1 (use_writev_ s) tk (poll_fds_ s) (connections_ s) in
  let! v := timeout_loop (Z.to_nat (FixedVector.size v)) 0 tk v in
  let! s := remove_closed_connections (set_connections s v) in
  Ok (true, s).

(** [while (is_running_)], one tick per iteration. *)
Fixpoint run_loop (ticks : list (Tick Sock)) s : Res server :=
  if negb (is_running_ s) then Ok s else
  match ticks with
  | [] => Ok s
  | tk :: ticks' =>
      let! (go, s) := run_iter s tk in
      let s := if tk_stop tk then stop s else s in
      if go then run_loop ticks' s else Ok s
  end.

Definition run s (ticks : list (Tick Sock)) : Res server :=
  run_loop ticks (set_stats (set_running s true) (Stats.reset (stats_ s))).

End server.

End Srv.
