(* ===== verification/Shared.v ===== *)
(** * Shared: connections as shared objects

    [Connection] describes an operation as a function of the one connection
    it works on.  A callback of an application may also hold references to
    other connections (the broadcast server keeps a list of them) and state
    of its own, so here the same operations work on a [World]: the
    connection objects that are alive, by their id, and the application's
    state.  An operation is written for the object with a given id; where
    it invokes a callback the application's body runs on the whole world,
    in the middle of the operation, and may change any object.

    The parts of the operations in which no callback can run are those of
    [Connection], applied to the object ([at_]). *)
From S2P Require Import Prelude Vocabulary RingBuffer Frame Connection.
From stdpp Require Import gmap.
Open Scope Z_scope.
Open Scope ewss_scope.
Import Conn Handlers Ws.

Module Shared.

Record World (Sock App : Type) := mk_world { alive : gmap Z (Connection Sock); app_state : App }.
Arguments mk_world {Sock App}. Arguments alive {Sock App}. Arguments app_state {Sock App}.

(** Operations on a world. *)
Definition W (Sock App A : Type) : Type := World Sock App -> Res (A * World Sock App).

Section monad.
Context {Sock App : Type}.

Definition wret {A} (a : A) : W Sock App A := fun w => Ok (a, w).
Definition wbind {A B} (m : W Sock App A) (k : A -> W Sock App B) : W Sock App B :=
  fun w => let! (a, w') := m w in k a w'.

(** A member function of the object [o] that calls nothing else. *)
Definition at_ {A} (o : Z) (m : M Sock A) : W Sock App A :=
  fun w =>
    let! c := of_option (alive w !! o) in
    let! (a, c') := m c in
    Ok (a, mk_world (<[o := c']> (alive w)) (app_state w)).

End monad.

End Shared.

Notation "'let+' x ':=' m 'in' k" := (Shared.wbind m (fun x => k))
  (at level 10, x pattern, m at level 100, k at level 200) : ewss_scope.
Notation "m1 ;+ m2" := (Shared.wbind m1 (fun _ => m2))
  (at level 60, right associativity) : ewss_scope.

Module SharedHandlers.
Import Shared.

(** The callbacks of an application, on the object they are invoked for. *)
Record Bodies (Sock App : Type) := mk_bodies {
  body_open : option (Env Sock -> Z -> W Sock App unit);
  body_message : option (Env Sock -> Z -> bytes -> W Sock App unit);
  body_close : option (Env Sock -> Z -> bool -> W Sock App unit);
  body_drain : option (Env Sock -> Z -> W Sock App unit);
}.
Arguments mk_bodies {Sock App}. Arguments body_open {Sock App}. Arguments body_message {Sock App}.
Arguments body_close {Sock App}. Arguments body_drain {Sock App}.

Section handlers.
Context {Sock App : Type} `{TcpSocket Sock} {target : Target}.
Variable bodies : Bodies Sock App.
Variable env : Env Sock.

(** The object the member functions below are called on. *)
Variable this : Z.
Abbreviation on m := (at_ this m).

(** [if (f) f(shared_from_this(), ...)] *)
Definition fire (ev : Event) (f : option (Env Sock -> Z -> W Sock App unit)) : W Sock App unit :=
  match f with
  | None => wret tt
  | Some body => on (modify (fun c => add_log c ev)) ;+ body env this
  end.

Definition fire_close (clean : bool) : W Sock App unit :=
  fire (EvClose clean) ((fun body env o => body env o clean) <$> body_close bodies).

Definition check_low_watermark : W Sock App unit :=
  let+ go := on (gets (fun c => write_paused_ c && (Ring.size (tx_buffer_ c) <? kTxLowWatermark))) in
  if go then on (modify (fun c => set_paused c false)) ;+ fire EvDrain (body_drain bodies) else wret tt.

Definition transition_to_state (state : ConnectionState) : W Sock App unit :=
  match state with
  | kHandshaking => on (modify (fun c => set_ops c kHandshaking))
  | kOpen => on (modify (fun c => set_ops c kOpen)) ;+ fire EvOpen (body_open bodies)
  | kClosing =>
      on (modify (fun c => set_ops c kClosing)) ;+ on (modify (fun c => set_closing_at c (now env)))
  | kClosed => on (modify (fun c => set_ops c kClosed)) ;+ fire_close true
  end.

Definition close (code : Z) : W Sock App unit :=
  let+ state := on (gets get_state) in
  if bool_decide (state = kClosed) then wret tt else
  if bool_decide (state = kOpen) then
    on (write_close_frame code) ;+ transition_to_state kClosing
  else
    transition_to_state kClosed ;+ on socket_close.

(** ** Frames *)

Definition dispatch_frame (opcode : OpCode) (payload : string_view) : W Sock App bool :=
  match opcode with
  | kText | kBinary =>
      match body_message bodies with
      | None => wret true
      | Some body =>
          let+ msg := on (lift (view_bytes payload)) in
          fire (EvMessage msg) (Some (fun env o => body env o msg)) ;+ wret true
      end
  | kClose =>
      fire_close false ;+
      transition_to_state kClosed ;+
      on socket_close ;+
      wret false
  | kPing => on (write_frame payload kPong) ;+ wret true
  | kPong => wret true
  | kContinuation | kReserved _ => wret true
  end.

Definition parse_frames_iter : W Sock App bool :=
  let+ temp := on (rx_peek 4096) in
  let len := zlen temp in
  if len =? 0 then wret false else
  let+ (header_size, header) := on (lift (parse_frame_header temp uninit_header)) in
  if header_size =? 0 then wret false else
  let total_frame_size := u64 (header_size + payload_len header) in
  if len <? total_frame_size then wret false else
  let mem := drop (Z.to_nat header_size) temp in
  let mask_key := take 4 (drop (Z.to_nat (header_size - 4)) temp) in
  let+ mem := on (if masked header then lift (unmask_payload mem (payload_len header) mask_key)
                  else ret mem) in
  let+ continue := dispatch_frame (opcode header) (mk_view mem (payload_len header)) in
  if negb continue then wret false else
  on (rx_advance total_frame_size) ;+ wret true.

Fixpoint parse_frames_loop (fuel : nat) : W Sock App unit :=
  match fuel with
  | O => on (lift OutOfFuel)
  | S fuel' =>
      let+ continue := parse_frames_iter in
      if continue then parse_frames_loop fuel' else wret tt
  end.

Definition parse_frames : W Sock App unit := parse_frames_loop frame_fuel.

(** ** State handlers *)

Definition handshake_on_data : W Sock App expected :=
  let+ result := on parse_handshake in
  if ExpectedVoid.has_value result then transition_to_state kOpen ;+ wret success
  else wret result.
Definition open_on_data : W Sock App expected := parse_frames ;+ wret success.
Definition closing_on_data : W Sock App expected :=
  let+ data := on (rx_peek 1024) in
  (if 0 <? zlen data then
     let+ (header_size, header) := on (lift (parse_frame_header data uninit_header)) in
     if (0 <? header_size) && bool_decide (opcode header = kClose)
     then transition_to_state kClosed ;+ on socket_close
     else wret tt
   else wret tt) ;+
  wret success.
Definition closed_on_data : W Sock App expected := wret (error kConnectionClosed).

(** [on_data] of the table [ops_] points to. *)
Definition on_data (state : ConnectionState) : W Sock App expected :=
  match state with
  | kHandshaking => handshake_on_data
  | kOpen => open_on_data
  | kClosing => closing_on_data
  | kClosed => closed_on_data
  end.

(** ** Reactor I/O *)

Definition handle_read : W Sock App expected :=
  let+ iov := on (gets (fun c => Ring.fill_iovec_write (rx_buffer_ c) 2)) in
  if zlen iov =? 0 then on (set_last_error kBufferFull) ;+ wret (error kBufferFull) else
  let+ res := on (fun c =>
    let rx := rx_buffer_ c in
    let (res, buf) := sys_readv env (sock_handle (socket_ c)) (Ring.buffer_ rx) iov in
    Ok (res, set_rx c (Ring.mk_ring buf (Ring.read_idx_ rx) (Ring.write_idx_ rx) (Ring.count_ rx)))) in
  let n := sys_n res in
  if 0 <? n then
    on (modify (fun c => set_rx c (Ring.commit_write (rx_buffer_ c) n))) ;+
    on (touch_activity env) ;+
    let+ s := on (gets ops_) in
    on_data s ;+
    on (set_last_error kOk) ;+
    wret success
  else if n =? 0 then
    on (set_last_error kConnectionClosed) ;+ wret (error kConnectionClosed)
  else if negb (retryable (sys_errno res)) then
    on (set_last_error kSocketError) ;+ wret (error kSocketError)
  else on (set_last_error kOk) ;+ wret success.

Definition handle_write : W Sock App expected :=
  let+ e := on (gets (fun c => Ring.empty (tx_buffer_ c))) in
  if e then on (set_last_error kOk) ;+ wret success else
  let+ temp := on (fun c => let! l := Ring.peek (tx_buffer_ c) kTempReadSize in Ok (l, c)) in
  let+ res := on (gets (fun c => sock_write env (socket_ c) temp)) in
  match res with
  | inl n =>
      on (modify (fun c => add_wire (set_tx c (Ring.advance (tx_buffer_ c) n)) (take (Z.to_nat n) temp))) ;+
      check_low_watermark ;+
      on (set_last_error kOk) ;+
      wret success
  | inr err =>
      if negb (retryable err) then on (set_last_error kSocketError) ;+ wret (error kSocketError)
      else on (set_last_error kOk) ;+ wret success
  end.

Definition handle_write_vectored : W Sock App expected :=
  let+ e := on (gets (fun c => Ring.empty (tx_buffer_ c))) in
  if e then on (set_last_error kOk) ;+ wret success else
  let+ iov := on (gets (fun c => Ring.fill_iovec (tx_buffer_ c) 2)) in
  if zlen iov =? 0 then on (set_last_error kOk) ;+ wret success else
  let+ data := on (fun c => let! l := Ring.gather (Ring.buffer_ (tx_buffer_ c)) iov in Ok (l, c)) in
  let+ res := on (gets (fun c => sys_writev env (sock_handle (socket_ c)) data)) in
  let n := sys_n res in
  if 0 <? n then
    on (modify (fun c => add_wire (set_tx c (Ring.advance (tx_buffer_ c) n)) (take (Z.to_nat n) data))) ;+
    check_low_watermark ;+
    on (set_last_error kOk) ;+
    wret success
  else if (n <? 0) && negb (retryable (sys_errno res)) then
    on (set_last_error kSocketError) ;+ wret (error kSocketError)
  else on (set_last_error kOk) ;+ wret success.

End handlers.

(** ** Callbacks that use their own connection only *)
Section private.
Context {Sock App : Type} `{TcpSocket Sock} {target : Target}.

(** What a callback does to the application's state; it happens before the
    callback uses the connection. *)
Variable observe : Env Sock -> Z -> Event -> App -> App.

Definition note (env : Env Sock) (o : Z) (ev : Event) : W Sock App unit :=
  fun w => Ok (tt, mk_world (alive w) (observe env o ev (app_state w))).

(** The bodies that update the state and then make the API calls a
    [Callbacks] record returns. *)
Definition private_bodies (cbs : Callbacks Sock) : Bodies Sock App :=
  let run (f : Connection Sock -> list ApiCall) (env : Env Sock) : M Sock unit :=
    let* calls := gets f in run_callback env calls in
  mk_bodies
    ((fun f env o => note env o EvOpen ;+ at_ o (run f env)) <$> Handlers.on_open cbs)
    ((fun f env o msg => note env o (EvMessage msg) ;+ at_ o (run (fun c => f c msg) env)) <$> Handlers.on_message cbs)
    ((fun f env o clean => note env o (EvClose clean) ;+ at_ o (run (fun c => f c clean) env)) <$> Handlers.on_close cbs)
    ((fun f env o => note env o EvDrain ;+ at_ o (run f env)) <$> Handlers.on_drain cbs).

End private.

End SharedHandlers.
