(* ===== verification/SharedOwn.v ===== *)
(** * SharedOwn: shared objects with private callbacks

    When every callback uses its own connection and the application's state
    only, an operation on a shared object changes that object exactly as
    [Connection] says, leaves the other objects alone, and takes the
    application's state through the callbacks it has made: so the theorems
    about single connections hold for shared ones. *)
From S2P Require Import Prelude Vocabulary RingBuffer Frame Connection Fixes Shared.
From stdpp Require Import gmap.
Open Scope Z_scope.
Open Scope ewss_scope.
Import Conn Handlers Shared.

(** ** Agreement *)
Section agreement.
Context {Sock App : Type} `{TcpSocket Sock} {target : Target}.
Variable observe : Env Sock -> Z -> Event -> App -> App.
Variable env : Env Sock.
Variable o : Z.
Implicit Type w : World Sock App.

(** The application's state after some callbacks of one connection. *)
Definition watch (l : list Event) (st : App) : App := foldl (fun st e => observe env o e st) st l.

Lemma watch_app l k st : watch (l ++ k) st = watch k (watch l st).
Proof. apply foldl_app. Qed.

(** [ms] does to the object [o] what [m] does to a connection; the callbacks
    this invokes are observed, and nothing else happens. *)
Definition agrees {A} (ms : W Sock App A) (m : M Sock A) : Prop :=
  forall w c, alive w !! o = Some c ->
    match m c with
    | Ok (a, c') => exists l, log_ c' = log_ c ++ l /\ ms w = Ok (a, mk_world (<[o := c']> (alive w)) (watch l (app_state w)))
    | Undefined => ms w = Undefined
    | OutOfFuel => ms w = OutOfFuel
    end.

Lemma agrees_at {A} (m : M Sock A) : fixes log_ m -> agrees (at_ o m) m.
Proof.
  intros Hm w c Ec. unfold at_. rewrite Ec. cbn [of_option res_bind]. destruct (m c) as [[a c']| |] eqn:E; [|done|done].
  exists []. rewrite app_nil_r. split; [by apply (Hm c a c')|done].
Qed.

Lemma agrees_ret {A} (a : A) : agrees (wret a) (ret a).
Proof. intros [m x] c Ec. exists []. rewrite app_nil_r. split; [done|]. cbn in Ec |- *. by rewrite insert_id. Qed.

Lemma agrees_bind {A B} (ms : W Sock App A) m (ks : A -> W Sock App B) k :
  agrees ms m -> (forall a, agrees (ks a) (k a)) -> agrees (wbind ms ks) (bind m k).
Proof.
  intros Hm Hk w c Ec. unfold wbind, bind. specialize (Hm w c Ec).
  destruct (m c) as [[a c1]| |]; cbn [res_bind]; [|by rewrite Hm..]. destruct Hm as (l1 & E1 & ->). cbn [res_bind].
  specialize (Hk a (mk_world (<[o := c1]> (alive w)) (watch l1 (app_state w))) c1). cbn [alive app_state] in Hk.
  rewrite lookup_insert_eq in Hk. specialize (Hk eq_refl). destruct (k a c1) as [[b c2]| |]; [|done|done].
  destruct Hk as (l2 & E2 & ->). exists (l1 ++ l2). rewrite E2, E1, app_assoc, insert_insert_eq, watch_app. done.
Qed.

Lemma agrees_if {A} (b : bool) (ms1 ms2 : W Sock App A) m1 m2 :
  agrees ms1 m1 -> agrees ms2 m2 -> agrees (if b then ms1 else ms2) (if b then m1 else m2).
Proof. by destruct b. Qed.

Lemma agrees_when (b : bool) (ms : W Sock App unit) m : agrees ms m -> agrees (if b then ms else wret tt) (when b m).
Proof. intros Hm. unfold when. apply agrees_if; [done|apply agrees_ret]. Qed.

(** Calls whose own callbacks the application does not notice. *)
Definition unnoticed (calls : list ApiCall) : Prop :=
  forall c, wlp (run_callback env calls) (fun _ c' => exists l, log_ c' = log_ c ++ l /\ forall st, watch l st = st) c.

Record discreet : Prop := {
  di_open : forall f, on_open (cb env) = Some f -> forall c, unnoticed (f c);
  di_message : forall f, on_message (cb env) = Some f -> forall c msg, unnoticed (f c msg);
  di_close : forall f, on_close (cb env) = Some f -> forall c b, unnoticed (f c b);
  di_drain : forall f, on_drain (cb env) = Some f -> forall c, unnoticed (f c);
}.

Lemma agrees_body ev (f : option (Connection Sock -> list ApiCall)) :
  (forall g, f = Some g -> forall c, unnoticed (g c)) ->
  agrees
    (SharedHandlers.fire env o ev
       ((fun f env o => SharedHandlers.note observe env o ev ;+ at_ o (let* calls := gets f in run_callback env calls)) <$> f))
    (fire (run_callback env) ev f).
Proof.
  intros Hun. destruct f as [g|]; cbn [SharedHandlers.fire fmap option_fmap option_map fire]; [|apply agrees_ret].
  intros w c Ec. unfold fire, wbind, SharedHandlers.note, bind, gets, at_, modify. rewrite Ec. cbn [of_option res_bind alive app_state].
  rewrite lookup_insert_eq. cbn [of_option res_bind]. set (c1 := add_log c ev). specialize (Hun g eq_refl c1 c1).
  destruct (run_callback env (g c1) c1) as [[[] c2]| |] eqn:E; cbn [res_bind]; [|done|done].
  destruct (Hun _ _ E) as (l & El & Hl). exists (ev :: l). rewrite insert_insert_eq. split; [by rewrite El; cbn; rewrite <- app_assoc|].
  do 3 f_equal. change (ev :: l) with ([ev] ++ l). rewrite watch_app, Hl. done.
Qed.

(** ** Callbacks that only send *)

Definition is_send (call : ApiCall) : Prop := match call with ApiClose _ => False | _ => True end.

(** Without [on_backpressure] nothing is called back from a send. *)
Lemma sends_unheard calls :
  on_backpressure (cb env) = None -> Forall is_send calls -> fixes log_ (run_callback env calls).
Proof.
  intros Hb. unfold run_callback. generalize callback_depth. intros depth.
  assert (Hs : forall run_body payload binary, fixes log_ (send_impl env run_body payload binary)).
  { intros. unfold send_impl, check_high_watermark, when, fire. rewrite Hb. fixing. }
  destruct depth as [|d]; cbn [run_calls]; [intros _; destruct calls; fixing|].
  induction 1 as [|call calls Hc _ IH]; cbn [foldr]; [fixing|]. apply fixes_bind; [|intros _; exact IH].
  destruct call; [apply Hs|apply Hs|done].
Qed.

Lemma sends_unnoticed calls : on_backpressure (cb env) = None -> Forall is_send calls -> unnoticed calls.
Proof.
  intros Hb Hc c a c' E. exists []. rewrite app_nil_r. split; [by apply (sends_unheard calls Hb Hc c a c')|done].
Qed.

(** Callbacks that send at most, and no [on_backpressure]. *)
Record only_sends : Prop := {
  os_open : forall f c, on_open (cb env) = Some f -> Forall is_send (f c);
  os_message : forall f c msg, on_message (cb env) = Some f -> Forall is_send (f c msg);
  os_close : forall f c clean, on_close (cb env) = Some f -> Forall is_send (f c clean);
  os_drain : forall f c, on_drain (cb env) = Some f -> Forall is_send (f c);
  os_pressure : on_backpressure (cb env) = None;
}.

Lemma sends_discreet : only_sends -> discreet.
Proof. intros [Ho Hm Hc Hd Hb]. split; intros f Ef; intros; apply sends_unnoticed; eauto. Qed.

End agreement.

(** An application that keeps no state. *)
Lemma watch_nothing {Sock App} (env : Env Sock) o l (st : App) : watch (fun _ _ _ st => st) env o l st = st.
Proof. induction l as [|e l IH]; [done|exact IH]. Qed.

(** Walk through two programs of the same shape. *)
Ltac agree :=
  repeat first
    [ solve [auto]
    | apply agrees_bind; [|intros ?]
    | apply agrees_ret
    | apply agrees_at; fixing
    | apply agrees_if
    | apply agrees_when
    | match goal with |- agrees _ _ _ (let (_, _) := ?p in _) _ => destruct p end
    | match goal with |- agrees _ _ _ (match ?x with _ => _ end) _ => destruct x end
    ].

(** ** The operations *)
Section handlers.
Context {Sock App : Type} `{TcpSocket Sock} {target : Target}.
Variable observe : Env Sock -> Z -> Event -> App -> App.
Variable env : Env Sock.
Variable o : Z.
Hypothesis Hdiscreet : discreet observe env o.

Abbreviation own := (SharedHandlers.private_bodies observe (cb env)).
Abbreviation run := (run_callback env).
Abbreviation agrees := (agrees observe env o).

Lemma agrees_open : agrees (SharedHandlers.fire env o EvOpen (SharedHandlers.body_open own)) (fire run EvOpen (on_open (cb env))).
Proof. apply agrees_body, (di_open _ _ _ Hdiscreet). Qed.

Lemma agrees_drain : agrees (SharedHandlers.fire env o EvDrain (SharedHandlers.body_drain own)) (fire run EvDrain (on_drain (cb env))).
Proof. apply agrees_body, (di_drain _ _ _ Hdiscreet). Qed.

Lemma agrees_message msg f :
  on_message (cb env) = Some f ->
  agrees (SharedHandlers.fire env o (EvMessage msg) (Some (fun env o =>
      SharedHandlers.note observe env o (EvMessage msg) ;+ at_ o (let* calls := gets (fun c => f c msg) in run_callback env calls))))
    (fire run (EvMessage msg) (Some (fun c => f c msg))).
Proof.
  intros Ef. apply (agrees_body observe env o (EvMessage msg) (Some (fun c => f c msg))).
  intros g [= <-] c. by apply (di_message _ _ _ Hdiscreet).
Qed.

Lemma agrees_fire_close clean :
  agrees (SharedHandlers.fire_close own env o clean) (fire run (EvClose clean) ((fun f c => f c clean) <$> on_close (cb env))).
Proof.
  pose proof (agrees_body observe env o (EvClose clean) ((fun f c => f c clean) <$> on_close (cb env))) as Hf.
  unfold SharedHandlers.fire_close. cbn [SharedHandlers.private_bodies SharedHandlers.body_close].
  pose proof (di_close _ _ _ Hdiscreet) as Hd. destruct (on_close (cb env)) as [f|]; apply Hf; [|done].
  intros g [= <-] c. by apply Hd.
Qed.
#[local] Hint Resolve agrees_open agrees_drain agrees_fire_close : core.

Lemma agrees_transition state :
  agrees (SharedHandlers.transition_to_state own env o state) (transition_to_state env run state).
Proof. destruct state; cbn [SharedHandlers.transition_to_state transition_to_state]; agree. Qed.
#[local] Hint Resolve agrees_transition : core.

Lemma agrees_check_low : agrees (SharedHandlers.check_low_watermark own env o) (check_low_watermark env run).
Proof. unfold SharedHandlers.check_low_watermark, check_low_watermark. agree. Qed.
#[local] Hint Resolve agrees_check_low : core.

Lemma agrees_close code : agrees (SharedHandlers.close own env o code) (close env run code).
Proof. unfold SharedHandlers.close, close. agree. Qed.

Lemma agrees_dispatch op v : agrees (SharedHandlers.dispatch_frame own env o op v) (dispatch_frame env run op v).
Proof.
  assert (Hd : agrees (match SharedHandlers.body_message own with
      | None => wret true
      | Some body => let+ msg := at_ o (lift (view_bytes v)) in
          SharedHandlers.fire env o (EvMessage msg) (Some (fun env o => body env o msg)) ;+ wret true end)
    (match on_message (cb env) with
      | None => ret true
      | Some f => let* msg := lift (view_bytes v) in
          fire run (EvMessage msg) (Some (fun c => f c msg)) ;;; ret true end)).
  { cbn [SharedHandlers.private_bodies SharedHandlers.body_message]. destruct (on_message (cb env)) as [f|] eqn:Ef;
      cbn [fmap option_fmap option_map]; [|agree].
    apply agrees_bind; [apply agrees_at; fixing|intros msg]. apply agrees_bind; [by apply agrees_message|intros _; agree]. }
  destruct op; cbn [SharedHandlers.dispatch_frame dispatch_frame]; first [exact Hd|agree].
Qed.
#[local] Hint Resolve agrees_dispatch : core.

Lemma agrees_parse_frames : agrees (SharedHandlers.parse_frames own env o) (parse_frames env run).
Proof.
  unfold SharedHandlers.parse_frames, parse_frames. induction frame_fuel as [|n IH]; [by apply agrees_at; fixing|].
  cbn [SharedHandlers.parse_frames_loop parse_frames_loop]. apply agrees_bind; [|intros []; [exact IH|apply agrees_ret]].
  unfold SharedHandlers.parse_frames_iter, parse_frames_iter. agree.
Qed.
#[local] Hint Resolve agrees_parse_frames : core.

Lemma agrees_on_data s : agrees (SharedHandlers.on_data own env o s) (ops_on_data (state_ops env run s)).
Proof.
  destruct s; cbn [SharedHandlers.on_data state_ops ops_on_data kHandshakeOps kOpenOps kClosingOps kClosedOps].
  - unfold SharedHandlers.handshake_on_data, handshake_on_data. agree.
  - unfold SharedHandlers.open_on_data, open_on_data. agree.
  - unfold SharedHandlers.closing_on_data, closing_on_data. agree.
  - apply agrees_ret.
Qed.
#[local] Hint Resolve agrees_on_data : core.

Lemma agrees_handle_read : agrees (SharedHandlers.handle_read own env o) (handle_read env run).
Proof.
  unfold SharedHandlers.handle_read, handle_read. apply agrees_bind; [apply agrees_at; fixing|intros iov].
  apply agrees_if; [agree|]. apply agrees_bind; [|intros res; unfold touch_activity; agree].
  apply agrees_at, fixes_step. intros c r c' E. cbv zeta in E. destruct (sys_readv env _ _ _). by injection E as <- <-.
Qed.

Lemma agrees_handle_write : agrees (SharedHandlers.handle_write own env o) (handle_write env run).
Proof. unfold SharedHandlers.handle_write, handle_write. agree. Qed.

Lemma agrees_handle_write_vectored : agrees (SharedHandlers.handle_write_vectored own env o) (handle_write_vectored env run).
Proof. unfold SharedHandlers.handle_write_vectored, handle_write_vectored. agree. Qed.

End handlers.
