(* ===== verification/Pointers.v ===== *)
(** * Pointers: the vector of pointers and the poll array of the reactor

    What the two models of the reactor ([Server], whose pointers lead to
    connections, and [SharedServer], whose pointers are ids of shared
    objects) have in common. *)
From S2P Require Import Prelude Vocabulary RingBuffer FixedVector Connection Server.
Open Scope ewss_scope.
Import Conn Handlers Srv.

Lemma zlen_fmap {A B} (f : A -> B) (k : list A) : zlen (f <$> k) = zlen k.
Proof. unfold zlen. by rewrite length_fmap. Qed.

Lemma filter_all {A} (P : A -> Prop) `{forall x, Decision (P x)} (k : list A) : Forall P k -> filter P k = k.
Proof. induction 1 as [|x k Hx Hk IH]; [done|]. by rewrite filter_cons_True, IH. Qed.

(** The rest of the list after the first element has been replaced by the
    last. *)
Definition moved {A} (l : list A) : list A := match last l with None => [] | Some x => x :: removelast l end.

Lemma moved_snoc {A} (l : list A) x : moved (l ++ [x]) = x :: l.
Proof. unfold moved. by rewrite last_snoc, removelast_last. Qed.

Lemma moved_Permutation {A} (l : list A) : moved l ≡ₚ l.
Proof. induction l as [|x l _] using rev_ind; [done|]. by rewrite moved_snoc, Permutation_app_comm. Qed.

Lemma moved_Forall2 {A B} (P : A -> B -> Prop) l k : Forall2 P l k -> Forall2 P (moved l) (moved k).
Proof.
  destruct l as [|x l _] using rev_ind; intros Hf.
  - by apply Forall2_nil_inv_l in Hf as ->.
  - apply Forall2_app_inv_l in Hf as (k1 & k2 & Hk1 & Hk2 & ->). apply Forall2_cons_inv_l in Hk2 as (y & k3 & Hy & Hk3 & ->).
    apply Forall2_nil_inv_l in Hk3 as ->. rewrite !moved_snoc. by constructor.
Qed.

Section pointers.
Context {Ptr : Type}.
Abbreviation vec := (FixedVector.FixedVector (option Ptr) 64).
Implicit Types (v : vec) (l : list Ptr).

(** The vector holds pointers to [l], none of them null. *)
Definition points_to (v : vec) l : Prop := FixedVector.holds v (Some <$> l).

Lemma points_to_size v l : points_to v l -> FixedVector.size v = zlen l /\ zlen l <= 64.
Proof.
  intros Hv. pose proof (FixedVector.h_size _ _ Hv) as Hs. pose proof (FixedVector.h_fits _ _ Hv) as Hf.
  rewrite zlen_fmap in Hs, Hf. done.
Qed.

Lemma points_to_at v l i cl :
  points_to v l -> 0 <= i -> l !! Z.to_nat i = Some cl ->
  FixedVector.at_ v i = Ok (Some cl).
Proof. intros Hv Hi Hl. apply (at_spec v _ i _ Hv Hi). by rewrite list_lookup_fmap, Hl. Qed.

Lemma points_to_assign v l i cl :
  points_to v l -> 0 <= i < zlen l ->
  exists v', FixedVector.assign v i (Some cl) = Ok v' /\ points_to v' (<[Z.to_nat i := cl]> l).
Proof.
  intros Hv Hi. destruct (assign_spec v _ i (Some cl) Hv) as (v' & -> & Hv').
  - by rewrite zlen_fmap.
  - exists v'. split; [done|]. unfold points_to. by rewrite list_fmap_insert.
Qed.

Lemma assign_size v i x v' : FixedVector.assign v i x = Ok v' -> FixedVector.size v' = FixedVector.size v.
Proof. unfold FixedVector.assign. destruct (FixedVector.at_ v i); [|done|done]. by intros [= <-]. Qed.

(** The last element moved over element [i], and popped. *)
Lemma swap_pop_spec v pre cl l x :
  points_to v (pre ++ cl :: l ++ [x]) ->
  exists v1 v2 v3, FixedVector.at_ v (zlen pre + zlen l + 1) = Ok (Some x)
    /\ FixedVector.assign v (zlen pre + zlen l + 1) None = Ok v1
    /\ FixedVector.assign v1 (zlen pre) (Some x) = Ok v2
    /\ FixedVector.at_ v2 (zlen pre + zlen l + 1) = Ok None
    /\ FixedVector.pop_back v2 = Ok (true, v3) /\ points_to v3 (pre ++ x :: l).
Proof.
  intros Hv. pose proof (zlen_nonneg pre). pose proof (zlen_nonneg l).
  assert (El : pre ++ cl :: l ++ [x] = (pre ++ cl :: l) ++ [x]) by (by rewrite <- app_assoc).
  assert (Hn : Z.to_nat (zlen pre + zlen l + 1) = length (pre ++ cl :: l)) by len.
  assert (Hx : (pre ++ cl :: l ++ [x]) !! Z.to_nat (zlen pre + zlen l + 1) = Some x).
  { rewrite El, Hn. by apply list_lookup_middle. }
  assert (Hat : FixedVector.at_ v (zlen pre + zlen l + 1) = Ok (Some x))
    by (apply (points_to_at v _ _ x Hv); [lia|done]).
  destruct (assign_spec v _ (zlen pre + zlen l + 1) None Hv) as (v1 & E1 & Hv1);
    [rewrite zlen_fmap, El, !zlen_app, zlen_cons; change (zlen [x]) with 1; lia|].
  assert (Hl1 : <[Z.to_nat (zlen pre + zlen l + 1) := None]> (Some <$> pre ++ cl :: l ++ [x])
    = (Some <$> pre) ++ Some cl :: (Some <$> l) ++ [None]).
  { rewrite El, fmap_app, Hn, insert_app_r_alt by (by rewrite length_fmap).
    rewrite length_fmap, Nat.sub_diag, fmap_app, <- app_assoc. done. }
  rewrite Hl1 in Hv1.
  destruct (assign_spec v1 _ (zlen pre) (Some x) Hv1) as (v2 & E2 & Hv2);
    [rewrite zlen_app, zlen_fmap, zlen_cons; pose proof (zlen_nonneg ((Some <$> l) ++ [@None Ptr])); lia|].
  assert (Hl2 : <[Z.to_nat (zlen pre) := Some x]> ((Some <$> pre) ++ Some cl :: (Some <$> l) ++ [None])
    = (Some <$> pre ++ x :: l) ++ [None]).
  { rewrite insert_app_r_alt by len. rewrite length_fmap.
    replace (Z.to_nat (zlen pre) - length pre)%nat with 0%nat by len. rewrite fmap_app, <- app_assoc. done. }
  rewrite Hl2 in Hv2. destruct (pop_back_spec v2 _ None Hv2) as (v3 & E3 & Hv3).
  exists v1, v2, v3. split_and!; try done. apply (at_spec v2 _ _ _ Hv2); [lia|]. rewrite Hn.
  replace (length (pre ++ cl :: l)) with (length (Some <$> pre ++ x :: l)) by len. by apply list_lookup_middle.
Qed.

(** The removal of the element at the loop's position. *)
Lemma remove_here_value v pre cl l :
  points_to v (pre ++ cl :: l) ->
  exists v1 v', (if zlen pre <? u32 (FixedVector.size v - 1) then
      let! last := FixedVector.at_ v (u32 (FixedVector.size v - 1)) in
      let! v := FixedVector.assign v (u32 (FixedVector.size v - 1)) None in
      FixedVector.assign v (zlen pre) last
    else Ok v) = Ok v1 /\ FixedVector.pop_back v1 = Ok (true, v') /\ points_to v' (pre ++ moved l).
Proof.
  intros Hv. destruct (points_to_size _ _ Hv) as [Hsz Hle]. rewrite zlen_app, zlen_cons in Hsz, Hle.
  pose proof (zlen_nonneg pre). pose proof (zlen_nonneg l). rewrite Hsz.
  replace (zlen pre + (zlen l + 1) - 1) with (zlen pre + zlen l) by lia. rewrite u32_small by lia.
  destruct l as [|x l _] using rev_ind.
  - rewrite zlen_nil, Z.add_0_r. replace (zlen pre <? zlen pre) with false by zcase.
    unfold points_to in Hv. rewrite fmap_app in Hv. destruct (pop_back_spec v (Some <$> pre) (Some cl) Hv) as (v' & E & Hv').
    exists v, v'. cbn. rewrite app_nil_r. done.
  - rewrite zlen_app in *. change (zlen [x]) with 1 in *. pose proof (zlen_nonneg l).
    replace (zlen pre <? zlen pre + (zlen l + 1)) with true by zcase.
    destruct (swap_pop_spec v pre cl l x Hv) as (v1 & v2 & v3 & E0 & E1 & E2 & _ & E3 & Hv3).
    exists v2, v3. rewrite Z.add_assoc, E0, moved_snoc. cbn [res_bind]. rewrite E1. cbn [res_bind]. done.
Qed.

(** What the pointers of the vector point to. *)
Definition clients {C} (s : ServerOf Ptr C) : list Ptr := omap mjoin (FixedVector.storage_ (connections_ s)).

Lemma clients_eq {C} (s : ServerOf Ptr C) l : points_to (connections_ s) l -> clients s = l.
Proof.
  intros Hv. unfold clients. rewrite (FixedVector.h_storage _ _ Hv), omap_app.
  assert (E1 : forall k : list Ptr, omap mjoin (Some <$> (Some <$> k)) = k).
  { induction k as [|x k IH]; [done|]. cbn. by rewrite IH. }
  assert (E2 : forall n, omap mjoin (replicate n (@None (option Ptr))) = []) by (induction n; done).
  by rewrite E1, E2, app_nil_r.
Qed.

End pointers.

(** ** The poll array *)

Lemma store_pollfd_spec (fds rest : list pollfd) (x p : pollfd) :
  store_pollfd (fds ++ x :: rest) (zlen fds) p = Ok ((fds ++ [p]) ++ rest, zlen (fds ++ [p])).
Proof.
  unfold store_pollfd. rewrite zlen_app, zlen_cons. pose proof (zlen_nonneg rest).
  destruct (Z.ltb_spec (zlen fds) (zlen fds + (zlen rest + 1))); [|lia].
  rewrite insert_app_r_alt by len. replace (Z.to_nat (zlen fds) - length fds)%nat with 0%nat by len.
  rewrite zlen_app, <- app_assoc. done.
Qed.

Lemma set_revents_len fds : forall rev, zlen (set_revents fds rev) = zlen fds.
Proof. induction fds as [|p fds IH]; intros [|r rev]; cbn; try done. by rewrite !zlen_cons, IH. Qed.

Lemma set_revents_lookup fds : forall rev j p, fds !! j = Some p ->
  exists p', set_revents fds rev !! j = Some p' /\ pfd_fd p' = pfd_fd p /\ pfd_events p' = pfd_events p
    /\ (forall r, rev !! j = Some r -> pfd_revents p' = r).
Proof.
  induction fds as [|q fds IH]; intros [|r rev] j p Hj; [done|done|by exists p|].
  destruct j as [|j]; cbn in Hj |- *.
  - injection Hj as ->. eexists. split; [done|]. split_and!; try done. cbn. congruence.
  - destruct (IH rev j p Hj) as (p' & ? & ? & ? & ?). exists p'. by split_and!.
Qed.
