(* ===== verification/SharedServer.v ===== *)
(** * SharedServer: the reactor over shared connections

    [Server] holds its connections by value.  Here the vector holds
    pointers (the ids of the objects of a [World]), as in the code, and the
    callbacks are those of an application that may reach any connection.
    The vector has the only lasting [std::shared_ptr] to a connection, so
    the object dies when its pointer is overwritten or popped. *)
From S2P Require Import Prelude Vocabulary RingBuffer Frame FixedVector Connection Shared Server Pointers.
From stdpp Require Import gmap.
Open Scope Z_scope.
Open Scope ewss_scope.
Import Conn Handlers Srv Stats Shared.

Module SharedSrv.

(** What an application assigns to the callback members of [Server]: which
    are set ([app_callbacks], as the connections see them) and their
    bodies. *)
Record Application (Sock App : Type) := mk_application {
  app_callbacks : Callbacks Sock;
  app_bodies : SharedHandlers.Bodies Sock App;
}.
Arguments mk_application {Sock App}. Arguments app_callbacks {Sock App}. Arguments app_bodies {Sock App}.

Section server.
Context {Sock App : Type} `{TcpSocket Sock} {target : Target}.
Abbreviation reactor := (ServerOf Z (Application Sock App)).
Abbreviation vec := (FixedVector.FixedVector (option Z) 64).
Implicit Types (s : reactor) (o : Z).

Definition wlift {A} (r : Res A) : W Sock App A := fun w => let! a := r in Ok (a, w).

(** [std::make_shared] under the id [o], and the end of the last
    [std::shared_ptr] to it. *)
Definition create o (c : Connection Sock) : W Sock App unit :=
  fun w => Ok (tt, mk_world (<[o := c]> (alive w)) (app_state w)).
Definition release (p : option Z) : W Sock App unit :=
  fun w => Ok (tt, match p with Some o => mk_world (delete o (alive w)) (app_state w) | None => w end).

Definition env_at s (os : Os Sock) : Env Sock := env_of (app_callbacks (callbacks_ s)) os.

Definition conn_close s (os : Os Sock) o : W Sock App unit :=
  SharedHandlers.close (app_bodies (callbacks_ s)) (env_at s os) o 1000.

(** ** Accepting *)

Definition accept_connection s (tk : Tick Sock) : W Sock App (expected * reactor) :=
  if (max_connections_ s <=? FixedVector.size (connections_ s)) || FixedVector.full (connections_ s)
  then wret (error kMaxConnectionsExceeded, set_stats s (add_rejected (stats_ s))) else
  let (client_sock, s) := accept s tk in
  let err := snd (tk_accept tk) in
  if client_sock <? 0 then
    if negb (retryable err) then wret (error kSocketError, set_stats s (add_socket_error (stats_ s)))
    else wret (success, s)
  else
    let s := prepare_accepted s tk client_sock in
    let conn := next_conn_id s in
    create conn (make_connection (env_at s (tk_os tk (-1))) conn client_sock) ;+
    let s := set_next_id s (u64 (next_conn_id s + 1)) in
    let+ (_, v) := wlift (FixedVector.push_back (connections_ s) (Some conn)) in
    wret (success, set_stats (set_connections s v) (add_accepted (stats_ s))).

Definition handle_listener s (tk : Tick Sock) : W Sock App reactor :=
  if is_overloaded (stats_ s) (max_connections_ s) then wret (refuse_connection s tk)
  else let+ (_, s) := accept_connection s tk in wret s.

(** ** Connection I/O *)

Definition handle_connection_io s (os : Os Sock) (pfd : pollfd) o : W Sock App unit :=
  let bodies := app_bodies (callbacks_ s) in
  let env := env_at s os in
  (if has_event (pfd_revents pfd) POLLIN then
     let+ r := SharedHandlers.handle_read bodies env o in
     if negb (ExpectedVoid.has_value r) then conn_close s os o else wret tt
   else wret tt) ;+
  (if has_event (pfd_revents pfd) POLLOUT then
     let+ r := if use_writev_ s then SharedHandlers.handle_write_vectored bodies env o
               else SharedHandlers.handle_write bodies env o in
     if negb (ExpectedVoid.has_value r) then conn_close s os o else wret tt
   else wret tt) ;+
  (if has_event (pfd_revents pfd) (Z.lor POLLERR POLLHUP) then conn_close s os o else wret tt).

(** ** Removing closed connections *)

Definition pop_connection (v : vec) : W Sock App vec :=
  let+ last := wlift (FixedVector.at_ v (u32 (FixedVector.size v - 1))) in
  let+ (_, v) := wlift (FixedVector.pop_back v) in
  release last ;+ wret v.

Fixpoint remove_loop (fuel : nat) (i removed : Z) (v : vec) : W Sock App (vec * Z) :=
  if negb (i <? FixedVector.size v) then wret (v, removed) else
  match fuel with
  | O => wlift OutOfFuel
  | S fuel' =>
      let+ p := wlift (FixedVector.at_ v i) in
      let+ o := wlift (of_option p) in
      let+ closed := at_ o (gets is_closed) in
      if closed then
        let+ v :=
          if i <? u32 (FixedVector.size v - 1) then
            let+ last := wlift (FixedVector.at_ v (u32 (FixedVector.size v - 1))) in
            let+ v := wlift (FixedVector.assign v (u32 (FixedVector.size v - 1)) None) in
            let+ v := wlift (FixedVector.assign v i last) in
            release p ;+ wret v
          else wret v in
        let+ v := pop_connection v in
        remove_loop fuel' i (u32 (removed + 1)) v
      else remove_loop fuel' (u32 (i + 1)) removed v
  end.

Definition remove_closed_connections s : W Sock App reactor :=
  let+ (v, removed) := remove_loop (Z.to_nat (FixedVector.size (connections_ s))) 0 0 (connections_ s) in
  let s := set_connections s v in
  wret (if 0 <? removed then set_stats s (sub_active (stats_ s) removed) else s).

(** ** The reactor loop *)

Fixpoint fill_pollfds (n : nat) (i : Z) (v : vec) (fds : list pollfd) (nfds : Z) : W Sock App (list pollfd * Z) :=
  match n with
  | O => wret (fds, nfds)
  | S n' =>
      let+ p := wlift (FixedVector.at_ v i) in
      let+ o := wlift (of_option p) in
      let+ has_data := at_ o (gets has_data_to_send) in
      let+ fd := at_ o (gets get_fd) in
      let events := if has_data then Z.lor POLLIN POLLOUT else POLLIN in
      let+ (fds, nfds) := wlift (store_pollfd fds nfds (mk_pollfd fd events 0)) in
      fill_pollfds n' (i + 1) v fds nfds
  end.

Definition prepare_poll s : W Sock App (list pollfd * Z) :=
  let+ (fds, nfds) := wlift (store_pollfd (poll_fds_ s) 0 (mk_pollfd (server_sock_ s) POLLIN 0)) in
  fill_pollfds (Z.to_nat (FixedVector.size (connections_ s))) 0 (connections_ s) fds nfds.

(** The vector does not change while the connections are handled. *)
Fixpoint io_loop (n : nat) (i : Z) s (tk : Tick Sock) : W Sock App unit :=
  match n with
  | O => wret tt
  | S n' =>
      if FixedVector.size (connections_ s) <=? i - 1 then wret tt else
      let+ p := wlift (FixedVector.at_ (connections_ s) (i - 1)) in
      let+ o := wlift (of_option p) in
      let+ pfd := wlift (of_option (poll_fds_ s !! Z.to_nat i)) in
      handle_connection_io s (tk_os tk (i - 1)) pfd o ;+
      io_loop n' (i + 1) s tk
  end.

Fixpoint timeout_loop (n : nat) (i : Z) s (tk : Tick Sock) : W Sock App unit :=
  match n with
  | O => wret tt
  | S n' =>
      let+ p := wlift (FixedVector.at_ (connections_ s) i) in
      let+ o := wlift (of_option p) in
      let+ late := at_ o (gets (fun c => timed_out (tk_late tk i) (app_callbacks (callbacks_ s), c))) in
      (if late then conn_close s (tk_late tk i) o else wret tt) ;+
      timeout_loop n' (i + 1) s tk
  end.

Definition run_iter s (tk : Tick Sock) : W Sock App (bool * reactor) :=
  let+ (fds, nfds) := prepare_poll s in
  let (ret, rev) := tk_poll tk (take (Z.to_nat nfds) fds) in
  let s := set_poll_fds s (set_revents fds rev) in
  let s := set_stats s (set_latency (stats_ s) (u64 (tk_poll_us tk))) in
  if ret <? 0 then wret (false, s) else
  if ret =? 0 then wret (true, s) else
  let+ first := wlift (of_option (poll_fds_ s !! 0%nat)) in
  let+ s := if has_event (pfd_revents first) POLLIN then handle_listener s tk else wret s in
  io_loop (Z.to_nat (nfds - 1)) 1 s tk ;+
  timeout_loop (Z.to_nat (FixedVector.size (connections_ s))) 0 s tk ;+
  let+ s := remove_closed_connections s in
  wret (true, s).

Fixpoint run_loop (ticks : list (Tick Sock)) s : W Sock App reactor :=
  if negb (is_running_ s) then wret s else
  match ticks with
  | [] => wret s
  | tk :: ticks' =>
      let+ (go, s) := run_iter s tk in
      let s := if tk_stop tk then stop s else s in
      if go then run_loop ticks' s else wret s
  end.

Definition run s (ticks : list (Tick Sock)) : W Sock App reactor :=
  run_loop ticks (set_stats (set_running s true) (Stats.reset (stats_ s))).

End server.

End SharedSrv.

(** ** Steps of a run *)
Section steps.
Context {Sock App : Type}.
Implicit Type w : World Sock App.

(** What a first operation returns goes to the rest. *)
Lemma wbind_ok {A B} (m : W Sock App A) (k : A -> W Sock App B) w a w' :
  m w = Ok (a, w') -> wbind m k w = k a w'.
Proof. intros E. unfold wbind. by rewrite E. Qed.
Lemma wbind_assoc {A B C} (m : W Sock App A) (k : A -> W Sock App B) (f : B -> W Sock App C) w :
  wbind m (fun a => wbind (k a) f) w = wbind (wbind m k) f w.
Proof. unfold wbind. by destruct (m w) as [[a w']| |]. Qed.
Lemma wlift_ok {A} (r : Res A) (a : A) w : r = Ok a -> SharedSrv.wlift r w = Ok (a, w).
Proof. by intros ->. Qed.
Lemma wsome {A B} (a : A) (k : A -> W Sock App B) w : wbind (SharedSrv.wlift (of_option (Some a))) k w = k a w.
Proof. done. Qed.

(** A step that only reads an object. *)
Lemma at_gets {A} o (f : Connection Sock -> A) w c : alive w !! o = Some c -> at_ o (gets f) w = Ok (f c, w).
Proof. intros Ea. destruct w as [m l]. cbn in Ea. unfold at_, gets. cbn. by rewrite Ea; cbn; rewrite insert_id. Qed.

End steps.

(** One step whose result is known: of an operation, or of a pure one. *)
Tactic Notation "wrun" uconstr(E) := rewrite (wbind_ok _ _ _ _ _ E).
Tactic Notation "wpure" uconstr(E) := rewrite (wbind_ok _ _ _ _ _ (wlift_ok _ _ _ E)).

(** ** Removing one connection *)
Section removal.
Context {Sock App : Type}.
Implicit Type w : World Sock App.

Definition drop_world w o : World Sock App := mk_world (delete o (alive w)) (app_state w).

(** A closed connection at the loop's position: the last pointer takes its
    place, and the object dies. *)
Lemma remove_here (v : FixedVector.FixedVector (option Z) 64) (pre : list Z) o (l : list Z) w :
  points_to v (pre ++ o :: l) ->
  exists v', (let+ v :=
      if zlen pre <? u32 (FixedVector.size v - 1) then
        let+ last := SharedSrv.wlift (FixedVector.at_ v (u32 (FixedVector.size v - 1))) in
        let+ v := SharedSrv.wlift (FixedVector.assign v (u32 (FixedVector.size v - 1)) None) in
        let+ v := SharedSrv.wlift (FixedVector.assign v (zlen pre) last) in
        SharedSrv.release (Some o) ;+ wret v
      else wret v in
    SharedSrv.pop_connection v) w = Ok (v', drop_world w o)
    /\ points_to v' (pre ++ moved l).
Proof.
  intros Hv. destruct (points_to_size _ _ Hv) as [Hsz Hle]. rewrite zlen_app, zlen_cons in Hsz, Hle.
  pose proof (zlen_nonneg pre). pose proof (zlen_nonneg l). rewrite Hsz.
  replace (zlen pre + (zlen l + 1) - 1) with (zlen pre + zlen l) by lia. rewrite u32_small by lia.
  unfold SharedSrv.pop_connection. destruct l as [|x l _] using rev_ind.
  - rewrite zlen_nil, Z.add_0_r in *. replace (zlen pre <? zlen pre) with false by zcase.
    rewrite (wbind_ok _ _ _ v w eq_refl), Hsz. replace (zlen pre + (0 + 1) - 1) with (zlen pre) by lia. rewrite u32_small by lia.
    assert (Hat : FixedVector.at_ v (zlen pre) = Ok (Some o)).
    { apply (points_to_at v _ _ o Hv); [done|]. unfold zlen. rewrite Nat2Z.id. by apply list_lookup_middle. }
    unfold points_to in Hv. rewrite fmap_app in Hv.
    destruct (pop_back_spec v (Some <$> pre) (Some o) Hv) as (v1 & E & Hv1). wpure Hat. wpure E.
    exists v1. cbn. rewrite app_nil_r. done.
  - rewrite zlen_app in *. change (zlen [x]) with 1 in *. pose proof (zlen_nonneg l).
    replace (zlen pre <? zlen pre + (zlen l + 1)) with true by zcase.
    destruct (swap_pop_spec v pre o l x Hv) as (v1 & v2 & v3 & E0 & E1 & E2 & Elast & E3 & Hv3).
    exists v3. rewrite moved_snoc. split; [|done]. rewrite Z.add_assoc.
    erewrite wbind_ok; [|wpure E0; wpure E1; wpure E2; reflexivity]. cbn beta.
    assert (Hsz2 : FixedVector.size v2 = zlen pre + zlen l + 2).
    { rewrite (assign_size _ _ _ _ E2), (assign_size _ _ _ _ E1), Hsz. lia. }
    rewrite Hsz2. replace (zlen pre + zlen l + 2 - 1) with (zlen pre + zlen l + 1) by lia. rewrite u32_small by lia.
    wpure Elast. wpure E3. done.
Qed.

End removal.
