(* ===== verification/Listener.v ===== *)
(** * Listener: the descriptors the reactor accepts

    [Server] and [SharedServer] record the system calls by which the reactor
    accepts, refuses and prepares descriptors ([calls_]).  Whatever a round
    or a run does, each descriptor it accepts is either closed at once or
    prepared and handed to a connection, which is then counted; and as long
    as [accept] does not return the listening socket itself, the calls only
    work on descriptors that are open. *)
From S2P Require Import Prelude Vocabulary RingBuffer Frame FixedVector Connection Sockets Shared Server Pointers SharedServer.
Open Scope Z_scope.
Open Scope ewss_scope.
Import Conn Handlers Srv Shared Sockets SocketSetup.

(** A descriptor that [accept] returns is not the listening socket. *)
Definition accepts_fresh {Sock} (sock : Z) (ticks : list (Tick Sock)) : Prop :=
  Forall (fun tk => fst (tk_accept tk) <> sock) ticks.

Section heard.
Context {P C : Type}.
Implicit Type s : ServerOf P C.

(** The calls between [s] and [s']. *)
Definition heard (fresh : Prop) s s' : Prop :=
  server_sock_ s' = server_sock_ s /\ exists tr, calls_ s' = calls_ s ++ tr
    /\ opened tr ≡ₚ closed tr ++ handed tr
    /\ u64 (Stats.total_connections (stats_ s')) = u64 (Stats.total_connections (stats_ s) + zlen (handed tr))
    /\ (fresh -> orderly (server_sock_ s) tr).

Lemma heard_same fresh s s' :
  server_sock_ s' = server_sock_ s -> calls_ s' = calls_ s ->
  Stats.total_connections (stats_ s') = Stats.total_connections (stats_ s) -> heard fresh s s'.
Proof.
  intros Es Ec Et. split; [done|]. exists []. rewrite app_nil_r. split_and!; [done|done|by rewrite Et, Z.add_0_r|].
  intros _. apply orderly_nil.
Qed.

Lemma heard_trans (f1 f2 f : Prop) s s1 s2 :
  (f -> f1 /\ f2) -> heard f1 s s1 -> heard f2 s1 s2 -> heard f s s2.
Proof.
  intros Hf (Es1 & tr1 & Ec1 & Hp1 & Ht1 & Ho1) (Es2 & tr2 & Ec2 & Hp2 & Ht2 & Ho2).
  split; [by rewrite Es2|]. exists (tr1 ++ tr2). split_and!.
  - by rewrite Ec2, Ec1, app_assoc.
  - unfold opened, closed, handed in *. rewrite !omap_app, Hp1, Hp2. solve_Permutation.
  - rewrite Ht2. unfold u64, handed in *. rewrite omap_app, zlen_app, Zplus_mod, Ht1, <- Zplus_mod. f_equal. lia.
  - intros [H1 H2]%Hf. apply orderly_app; [by apply Ho1|]. rewrite <- Es1. by apply Ho2.
Qed.

Context {Sock : Type}.
Implicit Type tk : Tick Sock.

Lemma refuse_heard s tk : heard (fst (tk_accept tk) <> server_sock_ s) s (refuse_connection s tk).
Proof.
  unfold refuse_connection, accept, calling, only_if, tbind, sys, tret. cbn [calls_ set_calls set_stats server_sock_].
  set (fd := fst (tk_accept tk)). destruct (Z.leb_spec 0 fd); cbn [snd]; (split; [done|]).
  - eexists. rewrite <- app_assoc. split; [done|]. cbn. destruct (Z.leb_spec 0 fd); [|lia].
    split_and!; [done|by rewrite Z.add_0_r|]. intros Hne. by apply refused_orderly.
  - exists [(CAccept (server_sock_ s), fd)]. split; [done|]. cbn. destruct (Z.leb_spec 0 fd); [lia|].
    split_and!; [done|by rewrite Z.add_0_r|]. intros _. by apply failed_orderly.
Qed.

(** Nobody was there. *)
Lemma accept_failed_heard s tk fresh : fst (tk_accept tk) < 0 -> heard fresh s (snd (accept s tk)).
Proof.
  intros Hfd. split; [done|]. exists [(CAccept (server_sock_ s), fst (tk_accept tk))]. cbn.
  destruct (Z.leb_spec 0 (fst (tk_accept tk))); [lia|].
  split_and!; [done|done|by rewrite Z.add_0_r|]. intros _. by apply failed_orderly.
Qed.

(** A new connection, when it has been counted. *)
Lemma accepted_heard s tk fresh s' :
  0 <= fst (tk_accept tk) -> server_sock_ s' = server_sock_ s ->
  calls_ s' = calls_ (prepare_accepted (snd (accept s tk)) tk (fst (tk_accept tk))) ->
  stats_ s' = Stats.add_accepted (stats_ s) -> heard fresh s s'.
Proof.
  intros Hfd Es Ec Et. split; [done|]. unfold prepare_accepted, calling in Ec. cbn [snd accept set_calls calls_ tcp_tuning_] in Ec.
  destruct (prepare_calls (tk_sys tk) (tcp_tuning_ s) (fst (tk_accept tk)) (calls_ s ++ [(CAccept (server_sock_ s), fst (tk_accept tk))]))
    as (k & Ek & Hk & Hh). rewrite Ek, <- app_assoc in Ec. destruct (works_on_none _ _ Hk) as [Ho Hc].
  eexists. split; [exact Ec|]. unfold opened, closed, handed in *. cbn [app omap list_omap opened_by closed_by handed_by].
  destruct (Z.leb_spec 0 (fst (tk_accept tk))); [|lia]. rewrite Ho, Hc, Hh, Et. split_and!; [done| |].
  - cbn. unfold u64. by rewrite Zmod_mod.
  - intros _. by apply handed_orderly.
Qed.

End heard.

(** ** Connections by value *)
Section by_value.
Context {Sock : Type} `{TcpSocket Sock} {target : Target}.
Implicit Types (s : Server Sock) (tk : Tick Sock).

Lemma accept_connection_heard s tk r s' fresh : accept_connection s tk = Ok (r, s') -> heard fresh s s'.
Proof.
  unfold accept_connection. destruct (_ || _); [intros [= _ <-]; by apply heard_same|]. cbn [accept].
  destruct (Z.ltb_spec (fst (tk_accept tk)) 0).
  - pose proof (accept_failed_heard s tk fresh ltac:(done)) as Hh. destruct (negb _); intros [= _ <-]; [|exact Hh].
    eapply (heard_trans fresh fresh); [done|exact Hh|]. by apply heard_same.
  - intros ([b v] & Ev & [= _ <-])%res_bind_Ok. by apply (accepted_heard s tk).
Qed.

Lemma handle_listener_heard s tk s' :
  handle_listener s tk = Ok s' -> heard (fst (tk_accept tk) <> server_sock_ s) s s'.
Proof.
  unfold handle_listener. destruct (Stats.is_overloaded _ _); [intros [= <-]; apply refuse_heard|].
  intros ([r s1] & E & [= <-])%res_bind_Ok. by eapply accept_connection_heard.
Qed.

Lemma remove_closed_heard s s' fresh : remove_closed_connections s = Ok s' -> heard fresh s s'.
Proof. intros ([v n] & _ & [= <-])%res_bind_Ok. apply heard_same; by destruct (_ <? _). Qed.

Lemma run_iter_heard s tk go s' :
  run_iter s tk = Ok (go, s') -> heard (fst (tk_accept tk) <> server_sock_ s) s s'.
Proof.
  intros ([fds nfds] & _ & E)%res_bind_Ok. destruct (tk_poll tk _) as [ret rev]. cbv zeta in E.
  set (s1 := set_stats _ _) in E. assert (H1 : heard True s s1) by (by apply heard_same).
  destruct (ret <? 0); [injection E as _ <-; by apply heard_same|].
  destruct (ret =? 0); [injection E as _ <-; by apply heard_same|].
  apply res_bind_Ok in E as (first & _ & E). apply res_bind_Ok in E as (s2 & El & E).
  apply res_bind_Ok in E as (v1 & _ & E). apply res_bind_Ok in E as (v2 & _ & E). apply res_bind_Ok in E as (s3 & Er & [= _ <-]).
  assert (H2 : heard (fst (tk_accept tk) <> server_sock_ s) s1 s2).
  { destruct (has_event _ _); [by apply (handle_listener_heard s1)|injection El as <-; by apply heard_same]. }
  apply (remove_closed_heard _ _ True) in Er.
  eapply (heard_trans True); [|exact H1|eapply (heard_trans _ True); [|exact H2|]]; [by intros ?; split| |].
  - intros ?. by split.
  - eapply (heard_trans True True); [done| |exact Er]. by apply heard_same.
Qed.

Lemma run_loop_heard ticks : forall s s', run_loop ticks s = Ok s' -> heard (accepts_fresh (server_sock_ s) ticks) s s'.
Proof.
  induction ticks as [|tk ticks IH]; intros s s'; cbn [run_loop]; (destruct (negb _); [intros [= <-]; by apply heard_same|]).
  { intros [= <-]. by apply heard_same. }
  intros ([go s1] & E1 & E)%res_bind_Ok. apply run_iter_heard in E1. set (s2 := if tk_stop tk then stop s1 else s1) in *.
  assert (H2 : heard True s1 s2) by (apply heard_same; unfold s2; by destruct (tk_stop tk)).
  pose proof (heard_trans _ _ _ _ _ _ (fun f => conj f I) E1 H2) as H12.
  assert (Hs' : heard (accepts_fresh (server_sock_ s) ticks) s2 s').
  { destruct go; [|injection E as <-; by apply heard_same]. rewrite <- (proj1 H12). by apply IH. }
  eapply heard_trans; [|exact H12|exact Hs']. by intros [? ?]%Forall_cons.
Qed.

End by_value.

(** ** Shared connections *)
Section shared.
Context {Sock App : Type} `{TcpSocket Sock} {target : Target}.
Abbreviation reactor := (ServerOf Z (SharedSrv.Application Sock App)).
Implicit Types (s : reactor) (tk : Tick Sock) (w : World Sock App).

Lemma wbind_Ok {A B} (m : W Sock App A) (k : A -> W Sock App B) w b w2 :
  wbind m k w = Ok (b, w2) -> exists a w1, m w = Ok (a, w1) /\ k a w1 = Ok (b, w2).
Proof. intros ([a w1] & E & E')%res_bind_Ok. by exists a, w1. Qed.

Lemma accept_connection_shared_heard s tk w r s' w' fresh :
  SharedSrv.accept_connection s tk w = Ok ((r, s'), w') -> heard fresh s s'.
Proof.
  unfold SharedSrv.accept_connection. destruct (_ || _); [intros [= _ <- _]; by apply heard_same|]. cbn [accept].
  destruct (Z.ltb_spec (fst (tk_accept tk)) 0).
  - pose proof (accept_failed_heard s tk fresh ltac:(done)) as Hh. destruct (negb _); intros [= _ <- _]; [|exact Hh].
    eapply (heard_trans fresh fresh); [done|exact Hh|]. by apply heard_same.
  - intros (? & ? & _ & ([b v] & ? & _ & [= _ <- _])%wbind_Ok)%wbind_Ok. by apply (accepted_heard s tk).
Qed.

Lemma handle_listener_shared_heard s tk w s' w' :
  SharedSrv.handle_listener s tk w = Ok (s', w') -> heard (fst (tk_accept tk) <> server_sock_ s) s s'.
Proof.
  unfold SharedSrv.handle_listener. destruct (Stats.is_overloaded _ _); [intros [= <- _]; apply refuse_heard|].
  intros ([r s1] & w1 & E & [= <- _])%wbind_Ok. by eapply accept_connection_shared_heard.
Qed.

Lemma run_iter_shared_heard s tk w go s' w' :
  SharedSrv.run_iter s tk w = Ok ((go, s'), w') -> heard (fst (tk_accept tk) <> server_sock_ s) s s'.
Proof.
  intros ([fds nfds] & w1 & _ & E)%wbind_Ok. destruct (tk_poll tk _) as [ret rev]. cbv zeta in E.
  set (s1 := set_stats _ _) in E. assert (H1 : heard True s s1) by (by apply heard_same).
  destruct (ret <? 0); [injection E as _ <- _; by apply heard_same|].
  destruct (ret =? 0); [injection E as _ <- _; by apply heard_same|].
  apply wbind_Ok in E as (first & w2 & _ & E). apply wbind_Ok in E as (s2 & w3 & El & E).
  apply wbind_Ok in E as (? & w4 & _ & E). apply wbind_Ok in E as (? & w5 & _ & E).
  apply wbind_Ok in E as (s3 & w6 & Er & [= _ <- _]).
  assert (H2 : heard (fst (tk_accept tk) <> server_sock_ s) s1 s2).
  { destruct (has_event _ _); [by apply (handle_listener_shared_heard s1 tk w2 s2 w3)|injection El as <- _; by apply heard_same]. }
  assert (H3 : heard True s2 s3).
  { apply wbind_Ok in Er as ([v n] & ? & _ & [= <- _]). apply heard_same; by destruct (_ <? _). }
  eapply (heard_trans True); [|exact H1|eapply (heard_trans _ True); [|exact H2|exact H3]]; by intros ?.
Qed.

Lemma run_loop_shared_heard ticks : forall s w s' w',
  SharedSrv.run_loop ticks s w = Ok (s', w') -> heard (accepts_fresh (server_sock_ s) ticks) s s'.
Proof.
  induction ticks as [|tk ticks IH]; intros s w s' w'; cbn [SharedSrv.run_loop];
    (destruct (negb _); [intros [= <- _]; by apply heard_same|]).
  { intros [= <- _]. by apply heard_same. }
  intros ([go s1] & w1 & E1 & E)%wbind_Ok. apply run_iter_shared_heard in E1. cbv zeta in E.
  set (s2 := if tk_stop tk then stop s1 else s1) in *.
  assert (H2 : heard True s1 s2) by (apply heard_same; unfold s2; by destruct (tk_stop tk)).
  pose proof (heard_trans _ _ _ _ _ _ (fun f => conj f I) E1 H2) as H12.
  assert (Hs' : heard (accepts_fresh (server_sock_ s) ticks) s2 s').
  { destruct go; [|injection E as <- _; by apply heard_same]. rewrite <- (proj1 H12). by apply (IH s2 w1 s' w'). }
  eapply heard_trans; [|exact H12|exact Hs']. by intros [? ?]%Forall_cons.
Qed.

End shared.
