(* ===== verification/Broadcast.v ===== *)
(** * Broadcast: the broadcast server (broadcast_server.cpp)

    The callbacks of this server share a list of weak pointers and send to
    connections other than the one they are called for, so they work on a
    world: the connection objects that are alive, the list and the console.  A weak
    pointer is the object's key; [lock] succeeds while the object is alive.
    The callbacks hold a mutex that is not recursive: a callback run from
    inside another one would lock it again, which is undefined, so inside
    these handlers running any callback body is [Undefined]. *)
From S2P Require Import Prelude Vocabulary RingBuffer Frame Numbers Connection Shared ConnectionApi ConnectionInv ConnectionFrames ConnectionSend.
From stdpp Require Import gmap.
Open Scope Z_scope.
Open Scope ewss_scope.
Import Conn Handlers Ws Numbers Shared.

Module BroadcastServer.

(** The application's state: the list, and what has been printed. *)
Record State := mk_state { list_ : list Z; console : bytes }.
Abbreviation World Sock := (Shared.World Sock State).
Abbreviation broadcast_list w := (list_ (app_state w)).

(** The lines of [on_connect] and [on_close]; [n] is the list's size. *)
Definition connected_line (conn n : Z) : bytes :=
  str "Client #" ++ to_string conn ++ str " connected. (" ++ to_string n ++ str " total)" ++ [10].
Definition closed_line (conn : Z) (clean : bool) (n : Z) : bytes :=
  str "Client #" ++ to_string conn ++ str " closed (" ++ (if clean then str "clean" else str "unclean") ++ str "). (" ++
  to_string n ++ str " remaining)" ++ [10].

Section broadcast.
Context {Sock : Type} `{TcpSocket Sock} {target : Target}.

Implicit Type w : World Sock.

(** Which callbacks the server installs: [on_backpressure] and [on_drain]
    are left empty.  The bodies of the others are the handlers below. *)
Definition installed : Callbacks Sock :=
  mk_callbacks Sock (Some (fun _ => [])) (Some (fun _ _ => [])) (Some (fun _ _ => [])) (Some (fun _ => [])) None None.
Definition locked : list ApiCall -> M Sock unit := fun _ => lift Undefined.

(** An object's [get_id] is its key, here and below. *)
Definition on_connect (conn : Z) w : World Sock :=
  let l := broadcast_list w ++ [conn] in
  mk_world (alive w) (mk_state l (console (app_state w) ++ connected_line conn (zlen l))).

Definition broadcast_msg (id : Z) (msg : bytes) : bytes := str "Client #" ++ to_string id ++ str ": " ++ msg.

(** [for (auto& weak_conn : broadcast_list) if (auto target = weak_conn.lock()) target->send(text)] *)
Fixpoint send_all (env : Env Sock) (text : bytes) (targets : list Z) (m : gmap Z (Connection Sock))
  : Res (gmap Z (Connection Sock)) :=
  match targets with
  | [] => Ok m
  | weak_conn :: targets' =>
      match m !! weak_conn with
      | None => send_all env text targets' m
      | Some target =>
          let! (_, target) := send env locked text target in
          send_all env text targets' (<[weak_conn := target]> m)
      end
  end.

Definition on_message (env : Env Sock) (conn : Z) (msg : bytes) w : Res (World Sock) :=
  let! c := of_option (alive w !! conn) in
  let! m := send_all env (broadcast_msg (id_ c) msg) (broadcast_list w) (alive w) in
  Ok (mk_world m (app_state w)).

(** The predicate given to [std::remove_if]. *)
Definition expired_or_self w (c : Connection Sock) (weak : Z) : bool :=
  match alive w !! weak with
  | None => true
  | Some ptr => id_ ptr =? id_ c
  end.

Definition on_close (conn : Z) (clean : bool) w : Res (World Sock) :=
  let! c := of_option (alive w !! conn) in
  let l := filter (fun weak => negb (expired_or_self w c weak)) (broadcast_list w) in
  Ok (mk_world (alive w) (mk_state l (console (app_state w) ++ closed_line conn clean (zlen l)))).

End broadcast.
End BroadcastServer.

Import BroadcastServer.

Section broadcast.
Context {Sock : Type} `{TcpSocket Sock} {target : Target}.
Implicit Types (c : Connection Sock) (w : World Sock).
Variable env : Env Sock.
Hypothesis Hcb : cb env = installed.

(** ** One send, with the mutex held *)

(** What [send] does to a connection when no callback is installed for
    backpressure: the frame, or what fits of it, is queued. *)
Definition sent (text : bytes) c c' : Prop :=
  if bool_decide (ops_ c = kOpen) then
    exists tx', Ring.wf tx' /\ Ring.contents tx' = tx_list c ++ frame_appended kText text (8192 - zlen (tx_list c))
      /\ c' = set_paused (set_tx c tx') (write_paused_ c || (kTxHighWatermark <? zlen (Ring.contents tx')))
  else c' = c.

Lemma send_locked text c :
  Ring.wf (tx_buffer_ c) -> exists c', send env locked text c = Ok (tt, c') /\ sent text c c'.
Proof using Hcb.
  intros Hwf. unfold sent, send. case_bool_decide as Eop; [|exists c; by rewrite send_not_open].
  apply wp_unit, (send_impl_open env locked c text false); [done|done|]. intros tx' Hwf' Hc.
  assert (E : Ring.size tx' = zlen (Ring.contents tx')) by (by rewrite contents_length).
  unfold check_high_watermark, when. wp_go. cbn [set_tx write_paused_ tx_buffer_]. rewrite E.
  destruct (negb (write_paused_ c) && _) eqn:Eg; unfold fire; rewrite ?Hcb; cbn [installed on_backpressure]; wp_go; exists tx'; split_and!; try done.
  - apply andb_true_iff in Eg as [_ ->]. by rewrite orb_true_r.
  - destruct (write_paused_ c) eqn:Ep; cbn in Eg |- *; [|rewrite Eg]; rewrite <- Ep; done.
Qed.

(** ** Sending to every target *)

Definition all_wf (m : gmap Z (Connection Sock)) : Prop := map_Forall (fun _ c => Ring.wf (tx_buffer_ c)) m.

Lemma sent_wf text c c' : Ring.wf (tx_buffer_ c) -> sent text c c' -> Ring.wf (tx_buffer_ c') /\ id_ c' = id_ c.
Proof. unfold sent. intros Hwf. case_bool_decide; [|by intros ->]. by intros (tx' & Hwf' & _ & ->). Qed.

(** Each distinct target that is alive gets the text once; nobody else is
    touched. *)
Definition sent_to (text : bytes) (targets : list Z) (m m' : gmap Z (Connection Sock)) : Prop :=
  forall o, match m !! o with
            | None => m' !! o = None
            | Some c => exists c', m' !! o = Some c' /\ if bool_decide (o ∈ targets) then sent text c c' else c' = c
            end.

Lemma send_all_locked text targets : forall m,
  all_wf m -> NoDup targets -> exists m', send_all env text targets m = Ok m' /\ sent_to text targets m m' /\ all_wf m'.
Proof using Hcb.
  induction targets as [|o targets IH]; intros m Hwf Hnd; cbn [send_all].
  { exists m. split; [done|]. split; [|done]. intros o. destruct (m !! o) as [c|]; [|done]. by exists c. }
  apply NoDup_cons in Hnd as [Hni Hnd]. destruct (m !! o) as [c|] eqn:Eo.
  - destruct (send_locked text c (Hwf _ _ Eo)) as (c' & E & Hs). rewrite E. cbn [res_bind].
    destruct (sent_wf _ _ _ (Hwf _ _ Eo) Hs) as [Hwf' _].
    destruct (IH (<[o := c']> m)) as (m' & E' & Hto & Hm'); [by apply map_Forall_insert_2|done|].
    exists m'. split; [done|]. split; [|done]. intros o1. specialize (Hto o1).
    destruct (decide (o1 = o)) as [->|Hne].
    + rewrite lookup_insert_eq in Hto. rewrite Eo. destruct Hto as (c2 & -> & Hc2). exists c2. split; [done|].
      rewrite bool_decide_eq_false_2 in Hc2 by done. subst c2. rewrite bool_decide_eq_true_2; [done|by left].
    + rewrite lookup_insert_ne in Hto by done. destruct (m !! o1) as [c1|]; [|done].
      destruct Hto as (c2 & -> & Hc2). exists c2. split; [done|].
      rewrite (bool_decide_ext (o1 ∈ o :: targets) (o1 ∈ targets)); [done|rewrite elem_of_cons; naive_solver].
  - destruct (IH m Hwf Hnd) as (m' & E & Hto & Hm'). exists m'. split; [done|]. split; [|done].
    intros o1. specialize (Hto o1). destruct (m !! o1) as [c1|] eqn:E1; [|done].
    destruct Hto as (c2 & -> & Hc2). exists c2. split; [done|].
    rewrite (bool_decide_ext (o1 ∈ o :: targets) (o1 ∈ targets)); [done|].
    rewrite elem_of_cons. split; [intros [->|]; congruence|by right].
Qed.

End broadcast.

(** ** Histories *)

(** The callbacks invoked, oldest first. *)
Inductive Step := Connected (o : Z) | Posted (o : Z) (msg : bytes) | Closed (o : Z) (clean : bool).
#[export] Instance Step_eq_dec : EqDecision Step.
Proof. solve_decision. Defined.

(** Who takes part after a history: connected and not closed since. *)
Definition member_step (ms : list Z) (s : Step) : list Z :=
  match s with
  | Connected o => ms ++ [o]
  | Posted _ _ => ms
  | Closed o _ => filter (fun o' => o' <> o) ms
  end.
Definition members (h : list Step) : list Z := foldl member_step [] h.

(** What a history leaves on the console after [out]: a line for each client
    that connects and for each that closes, with the number of members from
    then on. *)
Definition print_step (st : list Z * bytes) (s : Step) : list Z * bytes :=
  let ms := member_step (fst st) s in
  (ms, snd st ++ match s with
                 | Connected o => connected_line o (zlen ms)
                 | Posted _ _ => []
                 | Closed o clean => closed_line o clean (zlen ms)
                 end).
Definition transcript (out : bytes) (h : list Step) : bytes := snd (foldl print_step ([], out) h).

Lemma print_members h : forall st, fst (foldl print_step st h) = foldl member_step (fst st) h.
Proof. induction h as [|s h IH]; intros st; cbn [foldl]; [reflexivity|]. rewrite IH. reflexivity. Qed.

Lemma transcript_snoc out h s : transcript out (h ++ [s]) = snd (print_step (members h, transcript out h) s).
Proof.
  unfold transcript, members. rewrite foldl_app. cbn [foldl]. pose proof (print_members h ([], out)) as E. cbn [fst] in E.
  rewrite <- E. by destruct (foldl print_step ([], out) h).
Qed.

(** What is on the console when the server starts. *)
Class Already := already : bytes.

(** The worlds the server can be in: connections are accepted under fresh
    ids, change (keeping their id), are dropped when they are not members,
    and the callbacks run; [on_connect] at most once per connection. *)
Inductive reach {Sock} `{TcpSocket Sock} {target : Target} {printed : Already} (env : Env Sock) : list Step -> gset Z -> World Sock -> Prop :=
| reach_start : reach env [] ∅ (mk_world ∅ (mk_state [] already))
| reach_accept h used m l o c : reach env h used (mk_world m l) ->
    o ∉ used -> id_ c = o -> Ring.wf (tx_buffer_ c) -> reach env h ({[o]} ∪ used) (mk_world (<[o := c]> m) l)
| reach_local h used m l o c c' : reach env h used (mk_world m l) ->
    m !! o = Some c -> id_ c' = id_ c -> Ring.wf (tx_buffer_ c') -> reach env h used (mk_world (<[o := c']> m) l)
| reach_drop h used m l o : reach env h used (mk_world m l) -> o ∉ members h -> reach env h used (mk_world (delete o m) l)
| reach_connect h used w o : reach env h used w ->
    is_Some (alive w !! o) -> Connected o ∉ h -> reach env (h ++ [Connected o]) used (on_connect o w)
| reach_post h used w o msg w' : reach env h used w ->
    on_message env o msg w = Ok w' -> reach env (h ++ [Posted o msg]) used w'
| reach_close h used w o clean w' : reach env h used w ->
    on_close o clean w = Ok w' -> reach env (h ++ [Closed o clean]) used w'.

Section registry.
Context {Sock : Type} `{TcpSocket Sock} {target : Target} {printed : Already}.
Implicit Types (c : Connection Sock) (w : World Sock).
Variable env : Env Sock.
Hypothesis Hcb : cb env = installed.

Record registry_ok (h : list Step) (used : gset Z) (w : World Sock) : Prop := {
  reg_wf : all_wf (alive w);
  reg_ids : map_Forall (fun o c => id_ c = o) (alive w);
  reg_used : forall o, is_Some (alive w !! o) -> o ∈ used;
  reg_nodup : NoDup (broadcast_list w);
  reg_past : forall o, o ∈ broadcast_list w -> Connected o ∈ h;
  reg_list : broadcast_list w = members h;
  reg_present : forall o, o ∈ members h -> is_Some (alive w !! o);
  reg_console : console (app_state w) = transcript already h;
}.

(** A change of the objects that leaves the application and the history
    alone. *)
Lemma registry_objects h used used' m m' l :
  registry_ok h used (mk_world m l) -> all_wf m' -> map_Forall (fun o c => id_ c = o) m' ->
  (forall o, is_Some (m' !! o) -> o ∈ used') ->
  (forall o, o ∈ members h -> is_Some (m !! o) -> is_Some (m' !! o)) -> registry_ok h used' (mk_world m' l).
Proof. intros [] Hwf Hids Hused Hal. cbn in *. split; cbn; auto. Qed.

Lemma members_snoc h s : members (h ++ [s]) = member_step (members h) s.
Proof. unfold members. by rewrite foldl_app. Qed.

Lemma on_message_spec o msg w c :
  all_wf (alive w) -> NoDup (broadcast_list w) -> alive w !! o = Some c ->
  exists m', on_message env o msg w = Ok (mk_world m' (app_state w))
    /\ sent_to (broadcast_msg (id_ c) msg) (broadcast_list w) (alive w) m' /\ all_wf m'.
Proof using Hcb.
  intros Hwf Hnd Eo. unfold on_message. rewrite Eo. cbn [of_option res_bind].
  destruct (send_all_locked env Hcb (broadcast_msg (id_ c) msg) (broadcast_list w) (alive w) Hwf Hnd) as (m' & E & Hto & Hm').
  rewrite E. cbn [res_bind]. by exists m'.
Qed.

Lemma sent_to_lookup text l m m' o c' : sent_to text l m m' -> m' !! o = Some c' ->
  exists c, m !! o = Some c /\ if bool_decide (o ∈ l) then sent text c c' else c' = c.
Proof.
  intros Hto E. specialize (Hto o). rewrite E in Hto. destruct (m !! o) as [c|]; [|done].
  destruct Hto as (c2 & [= <-] & Hc). by exists c.
Qed.

Lemma sent_id text c c' : sent text c c' -> id_ c' = id_ c.
Proof. unfold sent. case_bool_decide; [|by intros ->]. by intros (tx' & _ & _ & ->). Qed.

Lemma sent_to_is_Some text l (m m' : gmap Z (Connection Sock)) o : sent_to text l m m' -> is_Some (m' !! o) <-> is_Some (m !! o).
Proof.
  intros Hto. specialize (Hto o). destruct (m !! o) as [c|]; [|by rewrite Hto].
  destruct Hto as (c' & -> & _). by split.
Qed.

Lemma sent_to_ids text l (m m' : gmap Z (Connection Sock)) :
  sent_to text l m m' -> map_Forall (fun o c => id_ c = o) m -> map_Forall (fun o c => id_ c = o) m'.
Proof.
  intros Hto Hids o c' Hc'. destruct (sent_to_lookup _ _ _ _ _ _ Hto Hc') as (c & Ec & Hc).
  rewrite <- (Hids _ _ Ec). case_bool_decide; [by eapply sent_id|by subst].
Qed.

(** Each way a world can change preserves the invariant. *)

Lemma registry_insert h used used' m l o c :
  registry_ok h used (mk_world m l) -> id_ c = o -> Ring.wf (tx_buffer_ c) -> used' = {[o]} ∪ used ->
  registry_ok h used' (mk_world (<[o := c]> m) l).
Proof.
  intros IH Hid Hwf ->. pose proof IH as []. cbn in *.
  eapply registry_objects; [exact IH|by apply map_Forall_insert_2|by apply map_Forall_insert_2| |];
    intros o'; rewrite lookup_insert_is_Some; [set_solver|]. intros _ ?. destruct (decide (o = o')); auto.
Qed.

Lemma registry_delete h used m l o :
  registry_ok h used (mk_world m l) -> o ∉ members h -> registry_ok h used (mk_world (delete o m) l).
Proof.
  intros IH Hn. pose proof IH as []. cbn in *.
  eapply registry_objects; [exact IH|by apply map_Forall_delete|by apply map_Forall_delete| |];
    intros o'; rewrite lookup_delete_is_Some; [intros [_ ?]; auto|]. intros Ho' ?. split; [by intros ->|done].
Qed.

Lemma registry_connect h used w o :
  registry_ok h used w -> is_Some (alive w !! o) -> Connected o ∉ h ->
  registry_ok (h ++ [Connected o]) used (on_connect o w).
Proof.
  intros [] Hal Hnew. destruct w as [m l]. cbn in *. split; cbn; try done.
  - apply NoDup_app. split_and!; [done| |apply NoDup_singleton]. intros o' Ho' ->%list_elem_of_singleton. by apply Hnew, reg_past0.
  - intros o'. rewrite !elem_of_app, !list_elem_of_singleton. intros [Ho'| ->]; [left; auto|by right].
  - by rewrite members_snoc, reg_list0.
  - intros o'. rewrite members_snoc. cbn. rewrite elem_of_app, list_elem_of_singleton. intros [Ho'| ->]; auto.
  - rewrite transcript_snoc, reg_console0, reg_list0. done.
Qed.

Lemma registry_post h used w o msg w' :
  registry_ok h used w -> on_message env o msg w = Ok w' -> registry_ok (h ++ [Posted o msg]) used w'.
Proof using Hcb.
  intros [] Hm. destruct (alive w !! o) as [c|] eqn:Eo; [|unfold on_message in Hm; by rewrite Eo in Hm].
  destruct (on_message_spec o msg w c) as (m' & E & Hto & Hm'); [done..|].
  rewrite E in Hm. injection Hm as <-. split; cbn; try done.
  - by eapply sent_to_ids.
  - intros o' Ho'. by apply reg_used0, (sent_to_is_Some _ _ _ _ _ Hto).
  - intros o' Ho'. rewrite elem_of_app. left. auto.
  - by rewrite members_snoc.
  - intros o'. rewrite members_snoc, (sent_to_is_Some _ _ _ _ _ Hto). cbn. auto.
  - rewrite transcript_snoc. cbn. by rewrite app_nil_r.
Qed.

(** What [remove_if] leaves of a list whose objects are alive. *)
Lemma erased w c (l : list Z) : map_Forall (fun o c => id_ c = o) (alive w) -> (forall o, o ∈ l -> is_Some (alive w !! o)) ->
  filter (fun weak => negb (expired_or_self w c weak)) l = filter (fun o => o <> id_ c) l.
Proof.
  intros Hids Hl. induction l as [|o l IH]; [done|]. rewrite !filter_cons, IH by (intros; apply Hl; by right).
  destruct (Hl o ltac:(by left)) as [c1 E1]. unfold expired_or_self. rewrite E1, (Hids _ _ E1).
  destruct (Z.eqb_spec o (id_ c)); cbn [negb]; by repeat case_decide.
Qed.

Lemma registry_close h used w o clean w' :
  registry_ok h used w -> on_close o clean w = Ok w' -> registry_ok (h ++ [Closed o clean]) used w'.
Proof.
  intros [] Hm. unfold on_close in Hm. destruct (alive w !! o) as [c|] eqn:Eo; [|done].
  cbn [of_option res_bind] in Hm. cbv zeta in Hm.
  rewrite erased in Hm by (done || (intros ?; rewrite reg_list0; auto)). rewrite (reg_ids0 _ _ Eo), reg_list0 in Hm. injection Hm as <-. rewrite reg_list0 in *. split; cbn; try done.
  - by apply NoDup_filter.
  - intros o' [_ Ho']%list_elem_of_filter. rewrite elem_of_app. auto.
  - by rewrite members_snoc.
  - intros o'. rewrite members_snoc. cbn. rewrite list_elem_of_filter. intros []. auto.
  - by rewrite transcript_snoc, reg_console0.
Qed.

Lemma reach_registry h used w : reach env h used w -> registry_ok h used w.
Proof using Hcb.
  induction 1 as [|h used m l o c _ IH Hfresh Hid Hwf|h used m l o c c' _ IH Ec Hid Hwf|h used m l o _ IH Hn
    |h used w o _ IH Hal Hnew|h used w o msg w' _ IH Hm|h used w o clean w' _ IH Hm].
  - split; cbn; try done; try apply NoDup_nil_2; try apply map_Forall_empty.
    + intros o. by rewrite lookup_empty; intros [].
    + by intros o ?%not_elem_of_nil.
    + by intros o ?%not_elem_of_nil.
  - eapply registry_insert; done.
  - pose proof (reg_used _ _ _ IH o ltac:(by exists c)).
    apply (registry_insert h used _ m l o c'); [done| |done|set_solver].
    rewrite Hid. by apply (reg_ids _ _ _ IH).
  - by apply registry_delete.
  - by apply registry_connect.
  - by eapply registry_post.
  - by eapply registry_close.
Qed.

(** The list is the members, so an object is on it when it is a member. *)
Lemma member_listed_bool h used w o :
  registry_ok h used w -> bool_decide (o ∈ members h) = bool_decide (o ∈ broadcast_list w).
Proof. intros Hreg. by rewrite (reg_list _ _ _ Hreg). Qed.

End registry.

(** ** Properties *)

(** A run of messages, none of them interrupted by other callbacks. *)
Fixpoint post_all {Sock} `{TcpSocket Sock} {target : Target} (env : Env Sock) (posts : list (Z * bytes)) (w : World Sock)
  : Res (World Sock) :=
  match posts with
  | [] => Ok w
  | (o, msg) :: posts => let! w := on_message env o msg w in post_all env posts w
  end.

(** The frames those messages become. *)
Definition announced (posts : list (Z * bytes)) : bytes :=
  mjoin ((fun p => encode_frame kText (broadcast_msg p.1 p.2) false) <$> posts).

(** What an undisturbed member has after [text] was queued for it. *)
Definition queued {Sock} (member : bool) (text : bytes) (c c' : Connection Sock) : Prop :=
  if member && bool_decide (ops_ c = kOpen)
  then exists tx', Ring.wf tx' /\ c' = set_tx c tx' /\ Ring.contents tx' = tx_list c ++ text
  else c' = c.

Section delivery.
Context {Sock : Type} `{TcpSocket Sock} {target : Target} {printed : Already}.
Implicit Types (c : Connection Sock) (w : World Sock).
Variable env : Env Sock.
Hypothesis Hcb : cb env = installed.

Lemma announced_cons o msg posts :
  announced ((o, msg) :: posts) = encode_frame kText (broadcast_msg o msg) false ++ announced posts.
Proof. done. Qed.

(** A message that fits below the watermark is queued whole. *)
Lemma sent_fits text c c' :
  sent text c c' -> (ops_ c = kOpen -> zlen (tx_list c) + zlen (encode_frame kText text false) <= kTxHighWatermark) ->
  queued true (encode_frame kText text false) c c'.
Proof.
  unfold sent, queued. case_bool_decide as Eop; cbn [andb]; [|done]. intros (tx' & Hwf & Hc & ->) Hfit. specialize (Hfit Eop).
  rewrite frame_appended_cases in Hc. pose proof Hfit as Hfit'. rewrite encode_frame_split, zlen_app in Hfit'.
  unfold kTxHighWatermark, kTxBufferSize in Hfit'. change (8192 * 3 / 4) with 6144 in Hfit'.
  rewrite (proj2 (Z.leb_le _ _)) in Hc by lia. exists tx'. split_and!; try done.
  rewrite Hc, zlen_app. destruct (Z.ltb_spec kTxHighWatermark (zlen (tx_list c) + zlen (encode_frame kText text false))); [lia|].
  by rewrite orb_false_r.
Qed.

Lemma queued_trans b t1 t2 c c1 c2 : queued b t1 c c1 -> queued b t2 c1 c2 -> queued b (t1 ++ t2) c c2.
Proof.
  unfold queued. destruct b; cbn [andb]; [|congruence]. case_bool_decide as Eop.
  - intros (tx1 & _ & -> & E1). cbn [set_tx ops_]. rewrite bool_decide_eq_true_2 by done. intros (tx2 & ? & -> & E2).
    exists tx2. split_and!; try done. rewrite E2. cbn [set_tx tx_buffer_]. by rewrite E1, app_assoc.
  - intros ->. by rewrite bool_decide_eq_false_2.
Qed.

Lemma queued_nil b c : Ring.wf (tx_buffer_ c) -> queued b [] c c.
Proof.
  intros Hwf. unfold queued. destruct (b && _); [|done]. exists (tx_buffer_ c). rewrite app_nil_r. split_and!; try done.
  by destruct c.
Qed.

(** Everyone's share of a run of messages; [l] is the list it reaches. *)
Lemma post_all_spec l posts : NoDup (list_ l) -> forall m,
  all_wf m -> map_Forall (fun o c => id_ c = o) m ->
  Forall (fun p => is_Some (m !! p.1)) posts ->
  map_Forall (fun o c => o ∈ list_ l -> ops_ c = kOpen -> zlen (tx_list c) + zlen (announced posts) <= kTxHighWatermark) m ->
  exists m', post_all env posts (mk_world m l) = Ok (mk_world m' l)
    /\ forall o c, m !! o = Some c -> exists c', m' !! o = Some c' /\ queued (bool_decide (o ∈ list_ l)) (announced posts) c c'.
Proof using Hcb.
  intros Hnd. induction posts as [|[p msg] posts IH]; intros m Hwf Hids Hal Hfit; cbn [post_all].
  { exists m. split; [done|]. intros o c Eo. exists c. split; [done|]. apply queued_nil, (Hwf _ _ Eo). }
  apply Forall_cons in Hal as [[cp Ep] Hal].
  destruct (on_message_spec env Hcb p msg (mk_world m l) cp) as (m1 & E & Hto & Hwf1); [done..|].
  rewrite E, (Hids _ _ Ep) in *. cbn [res_bind alive app_state] in *.
  rewrite announced_cons, zlen_app in Hfit. set (text := broadcast_msg p msg) in *.
  assert (Hq : forall o c, m !! o = Some c -> exists c1, m1 !! o = Some c1
    /\ queued (bool_decide (o ∈ list_ l)) (encode_frame kText text false) c c1).
  { intros o c Eo. pose proof (Hto o) as Ho. rewrite Eo in Ho. destruct Ho as (c1 & E1 & Hs). exists c1. split; [done|].
    case_bool_decide; [|done]. apply sent_fits; [done|]. intros Eop. specialize (Hfit _ _ Eo ltac:(done) Eop).
    pose proof (zlen_nonneg (announced posts)). lia. }
  destruct (IH m1) as (m' & E' & Hm'); [done|by eapply sent_to_ids| | |].
  - eapply Forall_impl; [exact Hal|]. intros p' Hp'. by apply (sent_to_is_Some _ _ _ _ _ Hto).
  - intros o c1 Ec1. destruct (sent_to_lookup _ _ _ _ _ _ Hto Ec1) as (c & Ec & _).
    destruct (Hq _ _ Ec) as (c1' & E1' & Hqc). assert (c1' = c1) as -> by congruence.
    intros Hin Eop. unfold queued in Hqc. rewrite bool_decide_eq_true_2 in Hqc by done. cbn [andb] in Hqc.
    case_bool_decide as Eoc; [|by subst c1]. specialize (Hfit _ _ Ec Hin Eoc).
    destruct Hqc as (tx' & _ & -> & Et). cbn [set_tx tx_buffer_]. rewrite Et, zlen_app. lia.
  - exists m'. split; [done|]. intros o c Eo. destruct (Hq _ _ Eo) as (c1 & E1 & H1).
    destruct (Hm' _ _ E1) as (c' & Ec' & H2). exists c'. split; [done|]. rewrite announced_cons. by eapply queued_trans.
Qed.

End delivery.

Section properties.
Context {Sock : Type} `{TcpSocket Sock} {target : Target} {printed : Already}.
Implicit Types (c : Connection Sock) (w : World Sock).

(** After any history of the broadcast server, a message is sent once to
    every connection that has connected, is not closed since and is still
    alive, the sender included, and to no other: the handler returns (the
    mutex is never taken twice), each open one of them gets the text frame
    (or what fits of it) behind what it had queued, and every other
    connection is untouched. *)
Theorem broadcast_reaches_members (env : Env Sock) h used w o c msg :
  cb env = installed -> reach env h used w -> alive w !! o = Some c ->
  exists m', on_message env o msg w = Ok (mk_world m' (app_state w))
    /\ sent_to (broadcast_msg o msg) (members h) (alive w) m'.
Proof.
  intros Hcb Hr Eo. pose proof (reach_registry env Hcb _ _ _ Hr) as Hreg. pose proof Hreg as [].
  destruct (on_message_spec env Hcb o msg w c) as (m' & E & Hto & _); [done..|].
  rewrite (reg_ids0 _ _ Eo) in Hto. exists m'. split; [done|]. intros o'. specialize (Hto o').
  destruct (alive w !! o') as [c1|] eqn:E1; [|done]. destruct Hto as (c2 & -> & Hc2). exists c2. split; [done|].
  by rewrite (member_listed_bool _ _ _ _ Hreg).
Qed.

(** Everybody receives the messages in the same order: when a run of
    messages fits below the high watermark of the members, each open member
    has exactly their frames appended, one per message and in the order they
    were posted, whoever posted them; nothing else of any connection
    changes. *)
Theorem broadcast_in_order (env : Env Sock) h used w posts :
  cb env = installed -> reach env h used w ->
  Forall (fun p => is_Some (alive w !! p.1)) posts ->
  map_Forall (fun o c => o ∈ members h -> ops_ c = kOpen ->
    zlen (tx_list c) + zlen (announced posts) <= kTxHighWatermark) (alive w) ->
  exists m', post_all env posts w = Ok (mk_world m' (app_state w))
    /\ forall o c, alive w !! o = Some c ->
         exists c', m' !! o = Some c' /\ queued (bool_decide (o ∈ members h)) (announced posts) c c'.
Proof.
  intros Hcb Hr Hal Hfit. pose proof (reach_registry env Hcb _ _ _ Hr) as Hreg. pose proof Hreg as [].
  destruct w as [m l]. cbn in *.
  destruct (post_all_spec env Hcb l posts reg_nodup0 m reg_wf0 reg_ids0 Hal) as (m' & E & Hm').
  { intros o c Eo Ho. apply (Hfit _ _ Eo). by rewrite <- reg_list0. }
  exists m'. split; [done|]. intros o c Eo. destruct (Hm' _ _ Eo) as (c' & Ec' & Hq). exists c'. split; [done|].
  by rewrite (member_listed_bool _ _ _ _ Hreg).
Qed.

End properties.

(** ** Evaluated examples *)
#[local] Existing Instances Demo.socket_tcp.
#[local] Instance demo_target : Target := true.
#[local] Instance demo_already : Already := [].

Definition demo_env : Env Demo.Socket := Demo.env_with installed 0 [] 0.
Definition demo_conn (id : Z) : Connection Demo.Socket :=
  mk_conn id (Demo.mk_socket 7 true true) Ring.empty_ring Ring.empty_ring kOpen true [] kOk false 0 0 0 [EvOpen] [].

(** Two clients have connected, and a third has come and gone. *)
Definition demo_history : list Step := [Connected 1; Connected 3; Closed 3 false; Connected 2].
Definition demo_objects : gmap Z (Connection Demo.Socket) := {[1 := demo_conn 1; 2 := demo_conn 2]}.
Definition demo_console : bytes :=
  connected_line 1 1 ++ connected_line 3 2 ++ closed_line 3 false 1 ++ connected_line 2 2.
Definition demo_world : World Demo.Socket := mk_world demo_objects (mk_state [1; 2] demo_console).

Lemma empty_wf : Ring.wf (Ring.empty_ring : Ring.RingBuffer Z 8192).
Proof. by apply empty_ring_ok. Qed.

(** For any three connections the shared run goes through, so nothing has to
    be computed with their buffers. *)
Lemma three_clients_reach (c1 c2 c3 : Connection Demo.Socket) :
  id_ c1 = 1 -> id_ c2 = 2 -> id_ c3 = 3 ->
  Ring.wf (tx_buffer_ c1) -> Ring.wf (tx_buffer_ c2) -> Ring.wf (tx_buffer_ c3) ->
  reach demo_env demo_history ({[3]} ∪ ({[2]} ∪ ({[1]} ∪ ∅)))
    (mk_world {[1 := c1; 2 := c2]} (mk_state [1; 2] demo_console)).
Proof.
  intros I1 I2 I3 W1 W2 W3. set (m := <[3 := c3]> (<[2 := c2]> (<[1 := c1]> ∅)) : gmap Z (Connection Demo.Socket)).
  assert (E : delete 3 m = {[1 := c1; 2 := c2]}).
  { unfold m. rewrite delete_insert_id by (by simplify_map_eq). by rewrite insert_insert_ne by done. }
  rewrite <- E. apply reach_drop; [|by_decide].
  change demo_history with ((([] ++ [Connected 1]) ++ [Connected 3]) ++ [Closed 3 false] ++ [Connected 2]).
  rewrite (app_assoc _ [Closed 3 false]).
  assert (Hd : reach demo_env ([] : list Step) ({[3]} ∪ ({[2]} ∪ ({[1]} ∪ ∅))) (mk_world m (mk_state [] []))).
  { repeat (apply reach_accept; [|set_solver|done|done]). exact (reach_start _). }
  assert (H1 : m !! 1 = Some c1) by (unfold m; by simplify_map_eq).
  assert (H2 : m !! 2 = Some c2) by (unfold m; by simplify_map_eq).
  assert (H3 : m !! 3 = Some c3) by (unfold m; by simplify_map_eq).
  set (out := connected_line 1 1 ++ connected_line 3 2). set (st := mk_state [1; 3] out).
  assert (Hc : on_close 3 false (mk_world m st) = Ok (mk_world m (mk_state [1] (out ++ closed_line 3 false 1)))).
  { unfold on_close. cbn [alive app_state]. rewrite H3. cbn [of_option res_bind].
    assert (E1 : expired_or_self (mk_world m st) c3 1 = false)
      by (unfold expired_or_self; cbn [alive]; by rewrite H1, I1, I3).
    assert (E3 : expired_or_self (mk_world m st) c3 3 = true)
      by (unfold expired_or_self; cbn [alive]; by rewrite H3, I3).
    cbn [st list_]. rewrite !filter_cons, filter_nil, E1, E3. done. }
  assert (Eout : demo_console = (out ++ closed_line 3 false 1) ++ connected_line 2 2) by (unfold demo_console, out; by rewrite <- !app_assoc).
  rewrite Eout. apply (reach_connect _ _ _ (mk_world m (mk_state [1] (out ++ closed_line 3 false 1))) 2); [|by eexists|set_solver].
  apply (reach_close _ _ _ (mk_world m st) 3 false); [|exact Hc].
  apply (reach_connect _ _ _ (mk_world m (mk_state [1] (connected_line 1 1))) 3); [|by eexists|set_solver].
  apply (reach_connect _ _ _ (mk_world m (mk_state [] [])) 1); [|by eexists|set_solver]. exact Hd.
Qed.

Lemma demo_reach : reach demo_env demo_history ({[3]} ∪ ({[2]} ∪ ({[1]} ∪ ∅))) demo_world.
Proof. apply (three_clients_reach (demo_conn 1) (demo_conn 2) (demo_conn 3)); [done..| | |]; apply empty_wf. Qed.

Lemma broadcast_reaches_members_witness :
  exists m', on_message demo_env 1 (str "hi") demo_world = Ok (mk_world m' (mk_state [1; 2] demo_console))
    /\ sent_to (str "Client #1: hi") [1; 2] demo_objects m'.
Proof.
  apply (broadcast_reaches_members demo_env demo_history _ demo_world 1 (demo_conn 1) (str "hi") eq_refl demo_reach).
  vm_compute. reflexivity.
Defined.

Lemma broadcast_in_order_witness :
  exists m', post_all demo_env [(1, str "hi"); (2, str "hello")] demo_world = Ok (mk_world m' (mk_state [1; 2] demo_console))
    /\ exists c', m' !! 2 = Some c'
      /\ tx_list c' = encode_frame kText (str "Client #1: hi") false ++ encode_frame kText (str "Client #2: hello") false.
Proof.
  destruct (broadcast_in_order demo_env demo_history _ demo_world [(1, str "hi"); (2, str "hello")] eq_refl demo_reach)
    as (m' & E & Hm').
  - by_decide.
  - intros o c. intros Eo _ _. assert (tx_list c = []) as ->; [|vm_compute; discriminate].
    unfold demo_world, demo_objects in Eo. cbn in Eo. apply lookup_insert_Some in Eo as [[<- <-]|[_ Eo]]; [done|].
    apply lookup_singleton_Some in Eo as [<- <-]. done.
  - exists m'. split; [exact E|]. destruct (Hm' 2 (demo_conn 2)) as (c' & Ec' & Hq); [vm_compute; reflexivity|].
    exists c'. split; [done|]. destruct Hq as (tx' & _ & -> & Et). exact Et.
Defined.
