(* ===== verification/ServerProofs.v ===== *)
(** * ServerProofs: the reactor keeps its invariant

    [srv_ok s l] says that the server holds the connections [l]: no null
    pointer is in the vector, every connection satisfies its invariant, and
    the active counter is their number.  Each part of an iteration is
    described as a function on [l]; an iteration returns and keeps
    [srv_ok], whatever the peers and the callbacks do. *)
From stdpp Require Import relations.
From S2P Require Import Prelude Vocabulary RingBuffer Frame FixedVector Connection ConnectionApi ConnectionInv ConnectionFrames Handshake ConnectionIo Server Pointers.
Open Scope ewss_scope.
Import Conn Handlers Srv.

Section server.
Context {Sock : Type} `{TcpSocketLaws Sock} {target : Target}.
Implicit Types (s : Server Sock) (l : list (Client Sock)) (cl : Client Sock).

Abbreviation vec := (FixedVector.FixedVector (ConnPtr Sock) 64).

Record srv_ok s l : Prop := mk_srv_ok {
  so_vec : points_to (connections_ s) l;
  so_conns : Forall (fun cl => conn_ok (snd cl)) l;
  so_fds : zlen (poll_fds_ s) = 65;
  so_active : Stats.active_connections (stats_ s) = zlen l;
}.

(** ** Removing closed connections *)

Definition client_closed cl : bool := is_closed (snd cl).

(** What the loop does to the list: a closed element is replaced by the
    last one, which is then examined itself. *)
Lemma remove_loop_spec fuel : forall i removed v pre l,
  points_to v (pre ++ l) -> i = zlen pre -> (length l <= fuel)%nat -> 0 <= removed -> removed + zlen l < 2 ^ 32 ->
  exists v' l', remove_loop fuel i removed v = Ok (v', removed + (zlen l - zlen l'))
    /\ points_to v' (pre ++ l') /\ l' ≡ₚ filter (fun cl => client_closed cl = false) l.
Proof.
  induction fuel as [|fuel IH]; intros i removed v pre l Hv -> Hfuel Hr0 Hr;
    destruct (points_to_size _ _ Hv) as [Hsz Hle]; rewrite zlen_app in Hsz, Hle;
    pose proof (zlen_nonneg pre); pose proof (zlen_nonneg l).
  { destruct l; [|cbn in Hfuel; lia]. exists v, []. cbn [remove_loop]. rewrite zlen_nil in *.
    replace (zlen pre <? FixedVector.size v) with false by (zcase).
    split; [cbn [negb]; do 2 f_equal; lia|done]. }
  destruct l as [|cl l].
  { exists v, []. cbn [remove_loop]. rewrite zlen_nil in *.
    replace (zlen pre <? FixedVector.size v) with false by (zcase).
    split; [cbn [negb]; do 2 f_equal; lia|done]. }
  cbn [remove_loop]. rewrite zlen_cons in *. pose proof (zlen_nonneg l).
  destruct (Z.ltb_spec (zlen pre) (FixedVector.size v)) as [_|?]; [|lia]. cbn [negb].
  assert (Hat : (pre ++ cl :: l) !! Z.to_nat (zlen pre) = Some cl).
  { unfold zlen. rewrite Nat2Z.id. by apply list_lookup_middle. }
  rewrite (points_to_at v _ _ cl Hv) by done. cbn [res_bind deref of_option].
  destruct (is_closed (snd cl)) eqn:Ecl.
  - assert (Hfil : filter (fun cl => client_closed cl = false) (cl :: l) = filter (fun cl => client_closed cl = false) l)
      by (apply filter_cons_False; unfold client_closed; by rewrite Ecl).
    rewrite Hfil, Hsz. replace (zlen pre + (zlen l + 1) - 1) with (zlen pre + zlen l) by lia.
    rewrite u32_small by lia. destruct l as [|x l _] using rev_ind.
    + rewrite zlen_nil in *. replace (zlen pre <? zlen pre + 0) with false by zcase. cbn [res_bind].
      unfold points_to in Hv. rewrite fmap_app in Hv.
      destruct (pop_back_spec v (Some <$> pre) (Some cl) Hv) as (v1 & -> & Hv1). cbn [res_bind].
      rewrite u32_small by lia.
      destruct (IH (zlen pre) (removed + 1) v1 pre []) as (v' & l' & -> & Hv' & Hp);
        [by rewrite app_nil_r|done|cbn; lia|lia|rewrite zlen_nil; lia|].
      exists v', l'. split; [do 2 f_equal; rewrite zlen_nil; lia|done].
    + rewrite zlen_app in *. change (zlen [x]) with 1 in *. pose proof (zlen_nonneg l).
      replace (zlen pre <? zlen pre + (zlen l + 1)) with true by zcase.
      destruct (swap_pop_spec v pre cl l x Hv) as (v1 & v2 & v3 & E0 & E1 & E2 & _ & E3 & Hv3).
      rewrite Z.add_assoc, E0. cbn [res_bind]. rewrite E1. cbn [res_bind]. rewrite E2. cbn [res_bind]. rewrite E3.
      cbn [res_bind]. rewrite u32_small by lia.
      destruct (IH (zlen pre) (removed + 1) v3 pre (x :: l)) as (v' & l' & -> & Hv' & Hp);
        [done|done|revert Hfuel; len|lia|rewrite zlen_cons; lia|].
      exists v', l'. rewrite zlen_cons. split; [do 2 f_equal; lia|]. split; [done|].
      rewrite Hp. apply filter_Permutation. by rewrite Permutation_app_comm.
  - rewrite u32_small by lia.
    destruct (IH (zlen pre + 1) removed v (pre ++ [cl]) l) as (v' & l' & -> & Hv' & Hp).
    + by rewrite <- app_assoc.
    + by rewrite zlen_app.
    + cbn in Hfuel. lia.
    + done.
    + lia.
    + exists v', (cl :: l'). rewrite zlen_cons. split; [do 2 f_equal; lia|].
      rewrite <- app_assoc in Hv'. split; [done|]. rewrite filter_cons_True by done. by rewrite Hp.
Qed.

(** ** One connection's events *)

(** [close] moves an open connection to Closing and any other to Closed. *)
Lemma close_state (env : Env Sock) code c :
  conn_ok c ->
  wp (close env (run_callback env) code) (fun _ c' => conn_ok c' /\ evolves c c'
    /\ ops_ c' = if bool_decide (ops_ c = kOpen) then kClosing else kClosed) c.
Proof.
  intros Hok. unfold close, get_state. wp_go. case_bool_decide as Ec.
  { wp_go. rewrite Ec, bool_decide_eq_false_2 by done. split_and!; done || reflexivity. }
  case_bool_decide as Eo.
  - wp_step. apply write_close_frame_spec; [apply Hok|]. intros tx' Hwf' Hc'. cbn [transition_to_state]. wp_go.
    destruct Hok as [? ? ? ? He ? Ho]. split_and!; [|split; cbn; try done|done].
    + split; cbn; try done; intros _; [apply He; by left|apply Ho; by rewrite Eo].
    + rewrite Eo. cbn. lia.
    + eexists. unfold stream. cbn. by rewrite Hc', app_assoc.
    + apply kept_app.
  - apply shut_spec; [done|]. intros c' Hok' Hev Ecl _ _ _. done.
Qed.

(** The environment's promises to all connections: bounded writes. *)
Definition os_bounded (os : Os Sock) : Prop :=
  forall cbs c, write_bounded (env_of cbs os) c /\ writev_bounded (env_of cbs os) c.

Definition client_step cl cl' : Prop :=
  fst cl' = fst cl /\ conn_ok (snd cl') /\ evolves (snd cl) (snd cl').

Lemma client_step_trans cl1 cl2 cl3 : client_step cl1 cl2 -> client_step cl2 cl3 -> client_step cl1 cl3.
Proof. intros (E1 & _ & V1) (E2 & O2 & V2). split_and!; [congruence|done|by etrans]. Qed.

Lemma client_step_refl cl : conn_ok (snd cl) -> client_step cl cl.
Proof. intros Hok. split_and!; done || reflexivity. Qed.

Lemma call_spec {A} os (m : Env Sock -> M Sock A) cl (Q : A -> Connection Sock -> Prop) :
  wp (m (env_of (fst cl) os)) Q (snd cl) ->
  exists a cl', call os m cl = Ok (a, cl') /\ fst cl' = fst cl /\ Q a (snd cl').
Proof.
  intros Hwp. apply wp_run in Hwp as (a & c' & E & HQ). unfold call. rewrite E. cbn.
  exists a, (fst cl, c'). done.
Qed.

Lemma conn_close_spec os cl :
  conn_ok (snd cl) ->
  exists cl', conn_close os cl = Ok cl' /\ client_step cl cl'
    /\ ops_ (snd cl') = if bool_decide (ops_ (snd cl) = kOpen) then kClosing else kClosed.
Proof.
  intros Hok. unfold conn_close.
  destruct (call_spec os (fun env => close env (run_callback env) 1000) cl _ (close_state _ 1000 _ Hok))
    as ([] & cl' & -> & E & Hok' & Hev & Hs). exists cl'. by split_and!.
Qed.

(** A phase of [handle_connection_io]: a handler, and [close] if it fails. *)
Lemma io_phase (b : bool) os (m : Env Sock -> M Sock expected) cl :
  conn_ok (snd cl) ->
  (b = true -> wp (m (env_of (fst cl) os)) (fun _ c' => conn_ok c' /\ evolves (snd cl) c') (snd cl)) ->
  exists cl', (if b then let! (r, cl) := call os m cl in
                 if negb (ExpectedVoid.has_value r) then conn_close os cl else Ok cl
               else Ok cl) = Ok cl' /\ client_step cl cl'.
Proof.
  intros Hok Hm. destruct b; [|exists cl; split; [done|by apply client_step_refl]].
  destruct (call_spec os m cl _ (Hm eq_refl)) as (r & cl1 & -> & E1 & Hok1 & Hev1). cbn [res_bind].
  assert (client_step cl cl1) by (by split_and!). destruct (negb _); [|by exists cl1].
  destruct (conn_close_spec os cl1 Hok1) as (cl2 & -> & Hs & _). exists cl2. split; [done|].
  by eapply client_step_trans.
Qed.

Lemma handle_connection_io_spec w os pfd cl data :
  conn_ok (snd cl) -> read_fine (env_of (fst cl) os) (snd cl) data -> os_bounded os ->
  exists cl', handle_connection_io w os pfd cl = Ok cl' /\ client_step cl cl'.
Proof.
  intros Hok [Hr Hnw] Hb. unfold handle_connection_io.
  destruct (io_phase (has_event (pfd_revents pfd) POLLIN) os (fun env => handle_read env (run_callback env)) cl Hok)
    as (cl1 & -> & Hs1).
  { intros _. eapply wp_mono; [by apply (handle_read_spec _ _ data)|]. by intros r c' (? & ? & _). }
  cbn [res_bind]. destruct Hs1 as (E1 & Hok1 & Hev1).
  destruct (io_phase (has_event (pfd_revents pfd) POLLOUT) os
    (fun env => if w then handle_write_vectored env (run_callback env) else handle_write env (run_callback env)) cl1 Hok1)
    as (cl2 & -> & Hs2).
  { intros _. destruct (Hb (fst cl1) (snd cl1)). destruct w;
      (eapply wp_mono; [by apply handle_write_spec || by apply handle_write_vectored_spec|]; by intros r c' (? & ? & _)). }
  cbn [res_bind]. assert (Hs02 : client_step cl cl2) by (eapply client_step_trans; [|exact Hs2]; by split_and!).
  destruct (has_event _ _); [|by exists cl2].
  destruct (conn_close_spec os cl2) as (cl3 & -> & Hs3 & _); [apply Hs2|]. exists cl3. split; [done|].
  by eapply client_step_trans.
Qed.

(** ** Filling the poll array *)

(** The entry of a connection. *)
Definition pollfd_of cl : pollfd :=
  mk_pollfd (get_fd (snd cl)) (if has_data_to_send (snd cl) then Z.lor POLLIN POLLOUT else POLLIN) 0.

Lemma fill_pollfds_spec v l1 : forall l0 fds rest,
  points_to v (l0 ++ l1) -> (length l1 <= length rest)%nat ->
  fill_pollfds (length l1) (zlen l0) v (fds ++ rest) (zlen fds)
  = Ok ((fds ++ (pollfd_of <$> l1)) ++ drop (length l1) rest, zlen (fds ++ (pollfd_of <$> l1))).
Proof.
  induction l1 as [|cl l1 IH]; intros l0 fds rest Hv Hl; [by rewrite app_nil_r|].
  destruct rest as [|x rest]; [cbn in Hl; lia|]. cbn [fill_pollfds length].
  rewrite (points_to_at v _ _ cl Hv) by (auto with ewss; unfold zlen; rewrite Nat2Z.id; by apply list_lookup_middle).
  cbn [res_bind deref of_option]. fold (pollfd_of cl). rewrite store_pollfd_spec. cbn [res_bind].
  replace (zlen l0 + 1) with (zlen (l0 ++ [cl])) by (by rewrite zlen_app).
  rewrite (IH (l0 ++ [cl]) (fds ++ [pollfd_of cl]) rest); [by rewrite <- !app_assoc|by rewrite <- app_assoc|].
  cbn in Hl. lia.
Qed.

Definition poll_set s l : list pollfd := mk_pollfd (server_sock_ s) POLLIN 0 :: (pollfd_of <$> l).

Lemma prepare_poll_spec s l :
  srv_ok s l ->
  prepare_poll s = Ok (poll_set s l ++ drop (S (length l)) (poll_fds_ s), 1 + zlen l).
Proof.
  intros [Hv _ Hf _]. destruct (points_to_size _ _ Hv) as [Hsz Hle]. unfold prepare_poll.
  destruct (poll_fds_ s) as [|x rest] eqn:Efds; [done|].
  pose proof (store_pollfd_spec [] rest x (mk_pollfd (server_sock_ s) POLLIN 0)) as E.
  cbn [app] in E. change (zlen []) with 0 in E. rewrite E. cbn [res_bind]. rewrite Hsz. unfold zlen at 1. rewrite Nat2Z.id.
  pose proof (fill_pollfds_spec (connections_ s) l [] [mk_pollfd (server_sock_ s) POLLIN 0] rest Hv) as E2.
  cbn [app] in E2 |- *. change (zlen []) with 0 in E2. rewrite E2 by (rewrite zlen_cons in Hf; len).
  unfold poll_set. cbn [drop app]. do 2 f_equal. rewrite zlen_cons, zlen_fmap. lia.
Qed.

(** ** The I/O and timeout loops *)

(** Each connection [i] is handled with entry [i + 1] of the poll array. *)
Definition io_done (w : bool) (tk : Tick Sock) (fds : list pollfd) (k : Z) l l' : Prop :=
  length l' = length l /\ forall j cl, l !! j = Some cl ->
    exists pfd cl', fds !! Z.to_nat (k + Z.of_nat j + 1) = Some pfd
      /\ handle_connection_io w (tk_os tk (k + Z.of_nat j)) pfd cl = Ok cl'
      /\ l' !! j = Some cl' /\ client_step cl cl'.

(** The promises of the environment to the connections [l] at index [k] on. *)
Definition reads_fine (tk : Tick Sock) (k : Z) l : Prop :=
  forall j cl, l !! j = Some cl -> exists data, read_fine (env_of (fst cl) (tk_os tk (k + Z.of_nat j))) (snd cl) data.

Lemma io_loop_spec w tk fds l1 : forall l0 v extra,
  points_to v (l0 ++ l1 ++ extra) -> Forall (fun cl => conn_ok (snd cl)) l1 ->
  zlen l0 + zlen l1 + 1 <= zlen fds ->
  reads_fine tk (zlen l0) l1 -> (forall i, os_bounded (tk_os tk i)) ->
  exists v' l1', io_loop (length l1) (zlen l0 + 1) w tk fds v = Ok v'
    /\ points_to v' (l0 ++ l1' ++ extra) /\ io_done w tk fds (zlen l0) l1 l1'.
Proof.
  induction l1 as [|cl l1 IH]; intros l0 v extra Hv Hok Hlen Hrd Hb.
  { exists v, []. split_and!; try done. }
  cbn [io_loop length]. destruct (points_to_size _ _ Hv) as [Hsz _]. rewrite zlen_cons in Hlen.
  rewrite !zlen_app, zlen_cons in Hsz.
  pose proof (zlen_nonneg l0). pose proof (zlen_nonneg l1). pose proof (zlen_nonneg extra).
  apply Forall_cons in Hok as [Hcl Hok].
  destruct (Z.leb_spec (FixedVector.size v) (zlen l0 + 1 - 1)); [lia|].
  replace (zlen l0 + 1 - 1) with (zlen l0) by lia.
  rewrite (points_to_at v _ _ cl Hv) by (auto with ewss; unfold zlen; rewrite Nat2Z.id; by apply list_lookup_middle).
  cbn [res_bind deref of_option].
  destruct (lookup_lt_is_Some_2 fds (Z.to_nat (zlen l0 + 1))) as [pfd Hpfd]; [len|]. rewrite Hpfd.
  cbn [res_bind of_option]. destruct (Hrd 0%nat cl eq_refl) as [data Hrf]. rewrite Z.add_0_r in Hrf.
  destruct (handle_connection_io_spec w (tk_os tk (zlen l0)) pfd cl data Hcl Hrf (Hb _)) as (cl' & Ecl & Hstep).
  rewrite Ecl. cbn [res_bind].
  destruct (points_to_assign v _ (zlen l0) cl' Hv) as (v1 & -> & Hv1);
    [rewrite !zlen_app, zlen_cons; lia|]. cbn [res_bind].
  assert (El : <[Z.to_nat (zlen l0) := cl']> (l0 ++ (cl :: l1) ++ extra) = (l0 ++ [cl']) ++ l1 ++ extra).
  { rewrite insert_app_r_alt by len. replace (Z.to_nat (zlen l0) - length l0)%nat with 0%nat by len.
    by rewrite <- app_assoc. }
  rewrite El in Hv1. replace (zlen l0 + 1) with (zlen (l0 ++ [cl'])) by (by rewrite zlen_app).
  destruct (IH (l0 ++ [cl']) v1 extra) as (v' & l1' & -> & Hv' & Hlen' & Hdone);
    [done|done|rewrite zlen_app; change (zlen [cl']) with 1; lia| |done|].
  { intros j cj Hj. rewrite zlen_app. change (zlen [cl']) with 1.
    destruct (Hrd (S j) cj Hj) as [d Hd]. exists d. replace (zlen l0 + 1 + Z.of_nat j) with (zlen l0 + Z.of_nat (S j)) by lia. done. }
  exists v', (cl' :: l1'). split; [done|]. split; [by rewrite <- app_assoc in Hv'|]. split; [cbn; by rewrite Hlen'|].
  intros [|j] cj Hj; cbn in Hj.
  - injection Hj as <-. exists pfd, cl'. rewrite !Z.add_0_r. by split_and!.
  - destruct (Hdone j cj Hj) as (p & c & H1' & H2' & H3' & H4'). rewrite zlen_app in H1', H2'. change (zlen [cl']) with 1 in *.
    exists p, c. replace (zlen l0 + Z.of_nat (S j)) with (zlen l0 + 1 + Z.of_nat j) by lia. by split_and!.
Qed.

(** Exactly the connections whose deadline has passed are closed. *)
Definition timeouts_done (tk : Tick Sock) (k : Z) l l' : Prop :=
  length l' = length l /\ forall j cl, l !! j = Some cl ->
    exists cl', l' !! j = Some cl' /\ client_step cl cl'
      /\ if timed_out (tk_late tk (k + Z.of_nat j)) cl
         then conn_close (tk_late tk (k + Z.of_nat j)) cl = Ok cl' else cl' = cl.

Lemma timeout_loop_spec tk l1 : forall l0 v,
  points_to v (l0 ++ l1) -> Forall (fun cl => conn_ok (snd cl)) l1 ->
  exists v' l1', timeout_loop (length l1) (zlen l0) tk v = Ok v'
    /\ points_to v' (l0 ++ l1') /\ timeouts_done tk (zlen l0) l1 l1'.
Proof.
  induction l1 as [|cl l1 IH]; intros l0 v Hv Hok; [by exists v, []|].
  cbn [timeout_loop length]. apply Forall_cons in Hok as [Hcl Hok]. pose proof (zlen_nonneg l0).
  rewrite (points_to_at v _ _ cl Hv) by (auto with ewss; unfold zlen; rewrite Nat2Z.id; by apply list_lookup_middle).
  cbn [res_bind deref of_option].
  assert (Hstep : exists v1 cl', (if timed_out (tk_late tk (zlen l0)) cl then
      let! cl := conn_close (tk_late tk (zlen l0)) cl in FixedVector.assign v (zlen l0) (Some cl) else Ok v) = Ok v1
    /\ points_to v1 ((l0 ++ [cl']) ++ l1) /\ client_step cl cl'
    /\ if timed_out (tk_late tk (zlen l0)) cl then conn_close (tk_late tk (zlen l0)) cl = Ok cl' else cl' = cl).
  { destruct (timed_out (tk_late tk (zlen l0)) cl).
    - destruct (conn_close_spec (tk_late tk (zlen l0)) cl Hcl) as (cl' & Ec & Hs & _). rewrite Ec. cbn [res_bind].
      destruct (points_to_assign v _ (zlen l0) cl' Hv) as (v1 & -> & Hv1);
        [rewrite zlen_app, zlen_cons; pose proof (zlen_nonneg l1); lia|].
      exists v1, cl'. split_and!; try done.
      rewrite insert_app_r_alt in Hv1 by len. replace (Z.to_nat (zlen l0) - length l0)%nat with 0%nat in Hv1 by len.
      by rewrite <- app_assoc.
    - exists v, cl. split_and!; try done; first [by apply client_step_refl|by rewrite <- app_assoc]. }
  destruct Hstep as (v1 & cl' & -> & Hv1 & Hcs & Hto). cbn [res_bind].
  replace (zlen l0 + 1) with (zlen (l0 ++ [cl'])) by (by rewrite zlen_app).
  destruct (IH (l0 ++ [cl']) v1 Hv1 Hok) as (v' & l1' & -> & Hv' & Hlen' & Hdone).
  exists v', (cl' :: l1'). split; [done|]. split; [by rewrite <- app_assoc in Hv'|]. split; [cbn; by rewrite Hlen'|].
  intros [|j] cj Hj; cbn in Hj.
  - injection Hj as <-. exists cl'. rewrite Z.add_0_r. by split_and!.
  - destruct (Hdone j cj Hj) as (c & H1' & H2' & H3'). rewrite zlen_app in H3'. change (zlen [cl']) with 1 in *.
    exists c. replace (zlen l0 + Z.of_nat (S j)) with (zlen l0 + 1 + Z.of_nat j) by lia. by split_and!.
Qed.

(** ** Accepting *)

(** The most connections the two admission checks let in. *)
Definition limit s : Z := Z.min 64 (Z.min (max_connections_ s) (max_connections_ s * 9 / 10 + 1)).

(** The fields an iteration does not change. *)
Definition same_config s s' : Prop :=
  server_sock_ s' = server_sock_ s /\ max_connections_ s' = max_connections_ s /\ callbacks_ s' = callbacks_ s
  /\ use_writev_ s' = use_writev_ s /\ is_running_ s' = is_running_ s.

(** Nothing was accepted, or one fresh connection was appended, which has
    the descriptor that [accept] returned. *)
Definition accepted s (tk : Tick Sock) l l' : Prop :=
  l' = l \/ exists c, l' = l ++ [(callbacks_ s, c)] /\ ops_ c = kHandshaking /\ conn_ok c
    /\ zlen l < max_connections_ s /\ zlen l < 64 /\ 0 <= fst (tk_accept tk)
    /\ c = make_connection (env_of (callbacks_ s) (tk_os tk (-1))) (next_conn_id s) (fst (tk_accept tk)).

Lemma accept_connection_spec s tk l :
  srv_ok s l ->
  exists r s' l', accept_connection s tk = Ok (r, s') /\ srv_ok s' l' /\ same_config s s' /\ accepted s tk l l'
    /\ poll_fds_ s' = poll_fds_ s
    /\ ((64 <= zlen l \/ max_connections_ s <= zlen l) -> r = error kMaxConnectionsExceeded).
Proof.
  intros Hs. pose proof Hs as [Hv Hok Hf Ha]. destruct (points_to_size _ _ Hv) as [Hsz Hle].
  unfold accept_connection, FixedVector.full. unfold FixedVector.size in *. rewrite Hsz.
  destruct (Z.leb_spec (max_connections_ s) (zlen l)) as [Hm|Hm]; cbn [orb];
    [|destruct (Z.leb_spec 64 (zlen l)) as [H64|H64]].
  1,2: eexists _, _, l; split; [done|]; split_and!; try done; by left.
  cbn [accept]. set (fd := fst (tk_accept tk)). destruct (Z.ltb_spec fd 0).
  { destruct (negb (retryable _)); eexists _, _, l; (split; [done|]); split_and!; try done; try (by left); lia. }
  unfold FixedVector.push_back. cbn [connections_ set_next_id prepare_accepted calling set_calls callbacks_ next_conn_id].
  set (c := make_connection _ _ _).
  destruct (emplace_back_spec (connections_ s) _ (Some (callbacks_ s, c)) Hv) as (v' & -> & Hv').
  rewrite zlen_fmap in *. destruct (Z.ltb_spec (zlen l) 64); [|lia]. cbn [res_bind].
  assert (Hc : conn_ok c) by by apply make_connection_ok.
  eexists _, _, (l ++ [(callbacks_ s, c)]). split; [done|]. split_and!; try done; [| |lia].
  - pose proof (zlen_nonneg l). split; cbn.
    + unfold points_to. by rewrite fmap_app.
    + apply Forall_app. split; [done|]. by constructor.
    + done.
    + rewrite Ha, zlen_app, u64_small by lia. done.
  - right. by exists c.
Qed.

Lemma handle_listener_spec s tk l :
  srv_ok s l -> 0 <= max_connections_ s < 2 ^ 60 ->
  exists s' l', handle_listener s tk = Ok s' /\ srv_ok s' l' /\ same_config s s' /\ accepted s tk l l'
    /\ poll_fds_ s' = poll_fds_ s /\ (zlen l <= limit s -> zlen l' <= limit s).
Proof.
  intros Hs Hmax. pose proof Hs as [Hv Hok Hf Ha]. unfold handle_listener, Stats.is_overloaded.
  rewrite Ha, u64_small by lia. destruct (Z.ltb_spec (max_connections_ s * 9 / 10) (zlen l)).
  { eexists _, l. split; [done|]. unfold refuse_connection, calling. cbn [accept]. split_and!; try done; by left. }
  destruct (accept_connection_spec s tk l Hs) as (r & s' & l' & -> & Hs' & Hcfg & Hacc & Hp & _).
  exists s', l'. split; [done|]. split_and!; try done.
  destruct Hacc as [-> | (c & -> & _ & _ & H1' & H2' & _)]; [done|].
  rewrite zlen_app. change (zlen [(callbacks_ s, c)]) with 1. unfold limit. lia.
Qed.

(** ** One iteration *)

Definition tick_fine (tk : Tick Sock) l : Prop :=
  reads_fine tk 0 l /\ forall i, os_bounded (tk_os tk i).

Lemma steps_conns_ok l l' :
  length l' = length l -> (forall j cl, l !! j = Some cl -> exists cl', l' !! j = Some cl' /\ conn_ok (snd cl')) ->
  Forall (fun cl => conn_ok (snd cl)) l'.
Proof.
  intros Hlen Hj. apply Forall_lookup. intros j cl' Hl'.
  destruct (lookup_lt_is_Some_2 l j) as [cl Hl]; [rewrite <- Hlen; by eapply lookup_lt_Some|].
  destruct (Hj j cl Hl) as (cl2 & E & Hok). congruence.
Qed.

Lemma remove_closed_spec s l :
  srv_ok s l ->
  exists s' l', remove_closed_connections s = Ok s' /\ srv_ok s' l' /\ same_config s s'
    /\ l' ≡ₚ filter (fun cl => client_closed cl = false) l.
Proof.
  intros [Hv Hok Hf Ha]. destruct (points_to_size _ _ Hv) as [Hsz Hle]. unfold remove_closed_connections.
  rewrite Hsz. pose proof (zlen_nonneg l).
  destruct (remove_loop_spec (Z.to_nat (zlen l)) 0 0 (connections_ s) [] l) as (v' & l' & -> & Hv' & Hp);
    [done|done|unfold zlen; lia|lia|lia|]. cbn [res_bind].
  assert (Hl' : zlen l' <= zlen l).
  { unfold zlen. rewrite Hp. pose proof (length_filter (fun cl => client_closed cl = false) l). lia. }
  assert (Hok' : Forall (fun cl => conn_ok (snd cl)) l').
  { rewrite Hp. apply Forall_forall. intros cl [_ Hin]%list_elem_of_filter. rewrite Forall_forall in Hok. auto. }
  pose proof (zlen_nonneg l'). eexists _, l'. split; [done|]. split_and!; [| |done].
  - destruct (Z.ltb_spec 0 (0 + (zlen l - zlen l'))); split; cbn; try done; rewrite Ha.
    + rewrite u64_small by lia. lia.
    + lia.
  - by destruct (0 <? 0 + (zlen l - zlen l')).
Qed.

(** A round of the loop after [poll] found something: possibly one new
    connection at the end; then every connection that was polled is handled
    with the entry that carries its own descriptor and its own events; then
    the overdue ones are closed; then the closed ones are removed. *)
Definition round s (tk : Tick Sock) l l' : Prop :=
  exists fds new l2 l3,
    accepted s tk l (l ++ new)
    /\ (forall j cl, l !! j = Some cl -> exists pfd, fds !! S j = Some pfd
          /\ pfd_fd pfd = get_fd (snd cl) /\ pfd_events pfd = pfd_events (pollfd_of cl)
          /\ forall r, snd (tk_poll tk (poll_set s l)) !! S j = Some r -> pfd_revents pfd = r)
    /\ io_done (use_writev_ s) tk fds 0 l l2
    /\ timeouts_done tk 0 (l2 ++ new) l3
    /\ l' ≡ₚ filter (fun cl => client_closed cl = false) l3.

Lemma polled_entries s l rev :
  srv_ok s l -> forall fds, fds = set_revents (poll_set s l ++ drop (S (length l)) (poll_fds_ s)) rev ->
  zlen fds = 65 /\ forall j cl, l !! j = Some cl -> exists pfd, fds !! S j = Some pfd
    /\ pfd_fd pfd = get_fd (snd cl) /\ pfd_events pfd = pfd_events (pollfd_of cl)
    /\ forall r, rev !! S j = Some r -> pfd_revents pfd = r.
Proof.
  intros [Hv _ Hf _] fds ->. destruct (points_to_size _ _ Hv) as [_ Hle]. split.
  - rewrite set_revents_len. unfold poll_set. cbn [app]. rewrite zlen_cons, zlen_app, zlen_fmap. revert Hf Hle. len.
  - intros j cl Hj.
    destruct (set_revents_lookup (poll_set s l ++ drop (S (length l)) (poll_fds_ s)) rev (S j) (pollfd_of cl))
      as (p & Hp & Hfd & Hev & Hrev).
    + change (((pollfd_of <$> l) ++ drop (S (length l)) (poll_fds_ s)) !! j = Some (pollfd_of cl)).
      rewrite lookup_app_l by (rewrite length_fmap; by eapply lookup_lt_Some).
      by rewrite list_lookup_fmap, Hj.
    + exists p. by split_and!.
Qed.

(** The work part of an iteration, after the listener. *)
Lemma run_tail_spec s tk l new :
  srv_ok s (l ++ new) -> tick_fine tk l -> Forall (fun cl => conn_ok (snd cl)) new ->
  exists s' l2 l3 l', 
    (let! v := io_loop (length l) 1 (use_writev_ s) tk (poll_fds_ s) (connections_ s) in
     let! v := timeout_loop (Z.to_nat (FixedVector.size v)) 0 tk v in
     let! s := remove_closed_connections (set_connections s v) in Ok (true, s)) = Ok (true, s')
    /\ srv_ok s' l' /\ same_config s s'
    /\ io_done (use_writev_ s) tk (poll_fds_ s) 0 l l2 /\ timeouts_done tk 0 (l2 ++ new) l3
    /\ l' ≡ₚ filter (fun cl => client_closed cl = false) l3.
Proof.
  intros [Hv Hok Hf Ha] [Hrd Hb] Hnew. apply Forall_app in Hok as Hok'. destruct Hok' as [Hokl _].
  destruct (points_to_size _ _ Hv) as [Hsz Hle]. rewrite zlen_app in Hle. pose proof (zlen_nonneg new).
  destruct (io_loop_spec (use_writev_ s) tk (poll_fds_ s) l [] (connections_ s) new)
    as (v1 & l2 & E1 & Hv1 & Hio); [done|done|rewrite zlen_nil; lia|done|done|].
  change (zlen [] + 1) with 1 in E1. rewrite E1. cbn [res_bind app] in *.
  destruct Hio as [Hlen2 Hio].
  assert (Hok2 : Forall (fun cl => conn_ok (snd cl)) (l2 ++ new)).
  { apply Forall_app. split; [|done]. apply (steps_conns_ok l l2 Hlen2). intros j cl Hj.
    destruct (Hio j cl Hj) as (_ & cl' & _ & _ & E & (_ & Hc & _)). eauto. }
  destruct (points_to_size _ _ Hv1) as [Hsz1 _].
  replace (Z.to_nat (FixedVector.size v1)) with (length (l2 ++ new)) by (rewrite Hsz1; unfold zlen; lia).
  destruct (timeout_loop_spec tk (l2 ++ new) [] v1) as (v2 & l3 & E2 & Hv2 & Hto); [done|done|].
  change (zlen []) with 0 in E2. rewrite E2. cbn [res_bind app] in *. destruct Hto as [Hlen3 Hto].
  assert (Hok3 : Forall (fun cl => conn_ok (snd cl)) l3).
  { apply (steps_conns_ok (l2 ++ new) l3 Hlen3). intros j cl Hj.
    destruct (Hto j cl Hj) as (cl' & E & (_ & Hc & _) & _). eauto. }
  assert (Hs3 : srv_ok (set_connections s v2) l3).
  { split; cbn; try done. rewrite Ha. unfold zlen. rewrite Hlen3, !length_app, Hlen2. done. }
  destruct (remove_closed_spec _ _ Hs3) as (s' & l' & -> & Hs' & Hcfg & Hp). cbn [res_bind].
  exists s', l2, l3, l'. split_and!; done.
Qed.

Lemma run_iter_spec s tk l :
  srv_ok s l -> tick_fine tk l -> 0 <= max_connections_ s < 2 ^ 60 ->
  exists go s' l', run_iter s tk = Ok (go, s') /\ srv_ok s' l' /\ same_config s s'
    /\ (zlen l <= limit s -> zlen l' <= limit s)
    /\ (let ret := fst (tk_poll tk (poll_set s l)) in
        go = negb (ret <? 0) /\ (ret <= 0 -> l' = l) /\ (0 < ret -> round s tk l l')).
Proof.
  intros Hs Htk Hmax. unfold run_iter. rewrite (prepare_poll_spec s l Hs). cbn [res_bind].
  assert (Et : take (Z.to_nat (1 + zlen l)) (poll_set s l ++ drop (S (length l)) (poll_fds_ s)) = poll_set s l).
  { apply take_app_length'. unfold poll_set. cbn. rewrite length_fmap. unfold zlen. lia. }
  rewrite Et. destruct (tk_poll tk (poll_set s l)) as [ret rev] eqn:Epoll. cbn [fst].
  set (fds := set_revents _ rev). destruct (polled_entries s l rev Hs fds eq_refl) as [Hfds Hent].
  set (s1 := set_stats (set_poll_fds s fds) _).
  assert (Hs1 : srv_ok s1 l) by (destruct Hs; by split).
  assert (Hcfg1 : same_config s s1) by done.
  destruct (Z.ltb_spec ret 0) as [Hneg|Hnn]; [|destruct (Z.eqb_spec ret 0) as [->|Hpos]].
  { exists false, s1, l. split_and!; try done. lia. }
  { exists true, s1, l. split_and!; try done. }
  assert (Hl : exists first, poll_fds_ s1 !! 0%nat = Some first).
  { destruct (lookup_lt_is_Some_2 fds 0) as [x Hx]; [len|]. by exists x. }
  destruct Hl as [first ->]. cbn [res_bind of_option].
  assert (Hlis : exists s2 new, (if has_event (pfd_revents first) POLLIN then handle_listener s1 tk else Ok s1) = Ok s2
    /\ srv_ok s2 (l ++ new) /\ same_config s s2 /\ accepted s tk l (l ++ new) /\ poll_fds_ s2 = fds
    /\ Forall (fun cl => conn_ok (snd cl)) new /\ (zlen l <= limit s -> zlen (l ++ new) <= limit s)).
  { destruct (has_event _ _).
    - destruct (handle_listener_spec s1 tk l Hs1 Hmax) as (s2 & l' & -> & Hs2 & Hcfg & Hacc & Hp & Hlim).
      destruct Hacc as [-> | (c & -> & Hc)].
      + exists s2, []. rewrite app_nil_r. split_and!; try done. by left.
      + exists s2, [(callbacks_ s, c)]. split_and!; try done.
        * right. by exists c.
        * apply Hs2 || (constructor; [apply Hc|done]).
    - exists s1, []. rewrite app_nil_r. split_and!; try done. by left. }
  destruct Hlis as (s2 & new & -> & Hs2 & Hcfg2 & Hacc & Hp2 & Hnew & Hlim). cbn [res_bind].
  replace (Z.to_nat (1 + zlen l - 1)) with (length l) by (unfold zlen; lia).
  destruct (run_tail_spec s2 tk l new Hs2 Htk Hnew) as (s' & l2 & l3 & l' & -> & Hs' & Hcfg' & Hio & Hto & Hperm).
  exists true, s', l'. destruct Hcfg2 as (C1 & C2 & C3 & C4 & C5), Hcfg' as (D1 & D2 & D3 & D4 & D5).
  split_and!; try done.
  - split_and!; congruence.
  - intros Hb. apply Hlim in Hb. transitivity (zlen (l ++ new)); [|done].
    destruct Hio as [Hlen2 _], Hto as [Hlen3 _]. unfold zlen. rewrite Hperm.
    pose proof (length_filter (fun cl => client_closed cl = false) l3). rewrite Hlen3, length_app, Hlen2 in *. lia.
  - lia.
  - intros _. exists fds, new, l2, l3. rewrite Epoll. cbn [snd]. rewrite Hp2, C4 in Hio. by split_and!.
Qed.

(** ** Reachable servers *)

(** Servers that can occur while [run] runs: from the start of [run] on a
    new server, one iteration at a time. *)
Inductive srv_reach : Server Sock -> Prop :=
| reach_start sock cbs max tuning :
    0 <= max < 2 ^ 60 ->
    srv_reach (set_stats (set_running (set_tcp_tuning (set_max_connections (make_server sock cbs) max) tuning) true)
                 (Stats.reset Stats.zero_stats))
| reach_iter s tk go s' :
    srv_reach s -> tick_fine tk (clients s) -> run_iter s tk = Ok (go, s') -> srv_reach s'.

Lemma limit_config s s' : same_config s s' -> limit s' = limit s.
Proof. intros (_ & E & _). unfold limit. by rewrite E. Qed.

(** What holds between two iterations. *)
Definition serving s : Prop :=
  srv_ok s (clients s) /\ zlen (clients s) <= limit s /\ 0 <= max_connections_ s < 2 ^ 60.

Lemma start_serving sock cbs max tuning :
  0 <= max < 2 ^ 60 ->
  serving (set_stats (set_running (set_tcp_tuning (set_max_connections (make_server sock cbs) max) tuning) true)
             (Stats.reset Stats.zero_stats)).
Proof.
  intros Hmax. assert (Hv : points_to (Ptr := Client Sock) FixedVector.make []) by (apply make_holds; lia).
  set (s0 := set_stats _ _). unfold serving. rewrite (clients_eq s0 [] Hv). split_and!; [split; done| |apply Hmax|apply Hmax].
  unfold limit. rewrite zlen_nil. cbn [s0 max_connections_ set_stats set_running set_tcp_tuning set_max_connections].
  assert (0 <= max * 9 / 10) by (apply Z.div_pos; lia). lia.
Qed.

Lemma timeout_serving s t : serving s -> serving (set_poll_timeout_ms s t).
Proof. intros ([] & ? & ?). by split; [split|]. Qed.

Lemma iter_serving s tk :
  serving s -> tick_fine tk (clients s) -> exists go s', run_iter s tk = Ok (go, s') /\ serving s' /\ same_config s s'.
Proof.
  intros (Hok & Hlim & Hmax) Htk.
  destruct (run_iter_spec s tk (clients s) Hok Htk Hmax) as (go & s' & l' & E & Hok' & Hcfg & Hb & _).
  exists go, s'. split; [done|]. split; [|done]. unfold serving. rewrite (clients_eq s' l') by apply Hok'.
  rewrite (limit_config _ _ Hcfg). pose proof Hcfg as (_ & -> & _). split_and!; try done; [by apply Hb|lia|lia].
Qed.

Lemma reach_ok s : srv_reach s -> serving s.
Proof.
  induction 1 as [sock cbs max tuning Hmax|s tk go s' _ IH Htk E]; [by apply start_serving|].
  destruct (iter_serving s tk IH Htk) as (go' & s2 & E2 & Hs & _). congruence.
Qed.

(** ** The loop *)

(** Every round that happens finds what it was promised. *)
Fixpoint rounds_fine (ticks : list (Tick Sock)) s : Prop :=
  match ticks with
  | [] => True
  | tk :: ticks' =>
      tick_fine tk (clients s)
      /\ forall s', run_iter s tk = Ok (true, s') -> tk_stop tk = false -> rounds_fine ticks' s'
  end.

Lemma stopped_returns ticks s : is_running_ s = false -> run_loop ticks s = Ok s.
Proof. intros E. destruct ticks; cbn [run_loop]; by rewrite E. Qed.

Lemma run_loop_spec ticks : forall s, serving s -> is_running_ s = true -> rounds_fine ticks s ->
  exists s', run_loop ticks s = Ok s' /\ serving s' /\ server_sock_ s' = server_sock_ s
    /\ (Exists (fun tk => tk_stop tk = true) ticks -> forall more, run_loop (ticks ++ more) s = Ok s').
Proof.
  induction ticks as [|tk ticks IH]; intros s Hs Hrun Hf; cbn [run_loop app].
  { rewrite Hrun. exists s. split_and!; [done..|]. by intros ?%Exists_nil. }
  destruct Hf as [Htk Hf]. destruct (iter_serving s tk Hs Htk) as (go & s1 & E & Hs1 & Hcfg). rewrite Hrun. cbn [negb].
  pose proof Hcfg as (Esock & _ & _ & _ & Erun). rewrite E. cbn [res_bind]. destruct (tk_stop tk) eqn:Estop.
  { exists (stop s1). assert (Hstop : serving (stop s1)) by (destruct Hs1 as ([] & ? & ?); by split; [split|]).
    split_and!; [|done|done|]; [|intros _ more]; (destruct go; [by apply stopped_returns|done]). }
  destruct go.
  - destruct (IH s1) as (s' & E' & Hs' & Es' & Hmore); [done|congruence|by apply Hf|].
    exists s'. split_and!; [done|done|congruence|]. intros [Hst|Hst]%Exists_cons; [congruence|by apply Hmore].
  - exists s1. by split_and!.
Qed.

(** ** Properties *)

(** C4: the reactor keeps its invariant and never gets stuck: in every
    server that can occur while [run] runs, no connection pointer is null,
    every connection satisfies its own invariant, the active counter is the
    number of connections, at most [limit] (at most 64) connections are
    held.  The next iteration returns without undefined behaviour, whatever
    [poll] and [accept] answer and the peers send, on two conditions
    ([tick_fine]): the reads and writes keep the POSIX contracts, and no
    unfinished frame in the buffer of an open connection announces so many
    bytes that [header_size + payload_len] overflows ([no_wrap]). *)
Theorem server_invariant s tk :
  srv_reach s -> tick_fine tk (clients s) ->
  points_to (connections_ s) (clients s)
  /\ Forall (fun cl => conn_ok (snd cl)) (clients s)
  /\ Stats.active_connections (stats_ s) = get_connection_count s
  /\ get_connection_count s <= Z.min 64 (Z.min (max_connections_ s) (max_connections_ s * 9 / 10 + 1))
  /\ exists go s', run_iter s tk = Ok (go, s').
Proof.
  intros Hr Htk. destruct (reach_ok s Hr) as (Hok & Hlim & Hmax).
  destruct (points_to_size _ _ (so_vec _ _ Hok)) as [Hsz _]. unfold get_connection_count. rewrite Hsz.
  split_and!; [apply Hok|apply Hok|apply Hok|done|].
  destruct (run_iter_spec s tk (clients s) Hok Htk Hmax) as (go & s' & l' & E & _). eauto.
Qed.

(** C8: a round of the reactor, as a function of its connections: when
    [poll] reports events, each polled connection is handled with the poll
    entry that carries its own descriptor and events (a connection accepted
    in the round is not handled in it), then exactly the overdue ones are
    closed, then the closed ones are dropped and all others are kept. *)
Theorem server_round s tk :
  srv_reach s -> tick_fine tk (clients s) -> 0 < fst (tk_poll tk (poll_set s (clients s))) ->
  exists s', run_iter s tk = Ok (true, s') /\ round s tk (clients s) (clients s')
    /\ Forall (fun cl => client_closed cl = false) (clients s').
Proof.
  intros Hr Htk Hret. destruct (reach_ok s Hr) as (Hok & _ & Hmax).
  destruct (run_iter_spec s tk (clients s) Hok Htk Hmax) as (go & s' & l' & E & Hok' & _ & _ & Hgo & _ & Hround).
  rewrite (proj2 (Z.ltb_ge _ _)) in Hgo by lia. subst go. exists s'.
  rewrite (clients_eq s' l') by apply Hok'. specialize (Hround Hret). split_and!; try done.
  destruct Hround as (? & ? & ? & ? & _ & _ & _ & _ & ->). apply Forall_forall. by intros cl [? _]%list_elem_of_filter.
Qed.

(** The swap-and-pop removal keeps exactly the connections that are
    not closed (in some order), each once, and the active counter follows. *)
Theorem remove_closed_keeps_open s l :
  srv_ok s l ->
  exists s' l', remove_closed_connections s = Ok s' /\ srv_ok s' l'
    /\ l' ≡ₚ filter (fun cl => client_closed cl = false) l
    /\ Stats.active_connections (stats_ s') = zlen (filter (fun cl => client_closed cl = false) l).
Proof.
  intros Hs. destruct (remove_closed_spec s l Hs) as (s' & l' & E & Hs' & _ & Hp). exists s', l'.
  split_and!; try done. rewrite (so_active _ _ Hs'). unfold zlen. by rewrite Hp.
Qed.

(** C23: [run] serves and can be stopped: on a new server with any bound on
    its connections and any socket options, whatever the rounds bring, [run]
    returns without undefined behaviour and leaves a server that satisfies
    the reactor's invariant, on the conditions of [tick_fine] in each round:
    reads and writes keep the POSIX contracts, and no open connection is sent
    a frame whose announced length overflows ([no_wrap]).  Once [stop] has been
    called it returns at the end of that round, so later rounds do not
    happen. *)
Theorem run_returns sock cbs max tuning ticks :
  let s0 := set_tcp_tuning (set_max_connections (make_server sock cbs) max) tuning in
  0 <= max < 2 ^ 60 -> rounds_fine ticks (set_stats (set_running s0 true) (Stats.reset (stats_ s0))) ->
  exists s', run s0 ticks = Ok s' /\ srv_ok s' (clients s') /\ zlen (clients s') <= limit s'
    /\ (Exists (fun tk => tk_stop tk = true) ticks -> forall more, run s0 (ticks ++ more) = Ok s').
Proof.
  cbn zeta. intros Hmax Hf.
  destruct (run_loop_spec ticks _ (start_serving sock cbs max tuning Hmax) eq_refl Hf) as (s' & E & (Hok & Hlim & _) & _ & Hmore).
  exists s'. by split_and!.
Qed.

(** An iteration in which [poll] times out checks no deadline: the
    connections stay as they are, however long ago their handshake or close
    deadline has passed. *)
Theorem idle_poll_skips_timeouts s tk :
  srv_reach s -> tick_fine tk (clients s) -> fst (tk_poll tk (poll_set s (clients s))) = 0 ->
  exists s', run_iter s tk = Ok (true, s') /\ clients s' = clients s.
Proof.
  intros Hr Htk Hret. destruct (reach_ok s Hr) as (Hok & _ & Hmax).
  destruct (run_iter_spec s tk (clients s) Hok Htk Hmax) as (go & s' & l' & E & Hok' & _ & _ & Hgo & Hidle & _).
  rewrite Hret in *. subst go. exists s'. split; [done|]. rewrite (clients_eq s' l') by apply Hok'. by apply Hidle.
Qed.

(** A read that meets the end of the stream. *)
Definition reads_eof (os : Os Sock) : Prop := forall fd buf iov, os_readv os fd buf iov = (mk_sys 0 0, buf).

Lemma eof_read os cl :
  conn_ok (snd cl) -> reads_eof os ->
  exists e cl1, call os (fun env => handle_read env (run_callback env)) cl = Ok (error e, cl1)
    /\ client_step cl cl1 /\ ops_ (snd cl1) = ops_ (snd cl).
Proof.
  intros Hok Heof. unfold call, handle_read. set (env := env_of (fst cl) os).
  assert (Hset : forall e, client_step cl (fst cl, set_error (snd cl) e)).
  { intros e. split_and!; [done|by apply set_error_ok|apply set_error_evolves]. }
  unfold bind at 1, gets. cbn [res_bind].
  destruct (zlen _ =? 0); [exists kBufferFull; eexists; split; [done|split; [apply Hset|done]]|].
  unfold bind at 1. cbn [env env_of sys_readv]. rewrite Heof. cbn [res_bind fst snd sys_n].
  assert (set_rx (snd cl) (Ring.mk_ring (Ring.buffer_ (rx_buffer_ (snd cl))) (Ring.read_idx_ (rx_buffer_ (snd cl)))
    (Ring.write_idx_ (rx_buffer_ (snd cl))) (Ring.count_ (rx_buffer_ (snd cl)))) = snd cl) as ->
    by (by destruct (snd cl) as [? ? []]).
  exists kConnectionClosed. eexists. split; [done|split; [apply Hset|done]].
Qed.

Lemma eof_io w os pfd cl :
  conn_ok (snd cl) -> reads_eof os -> os_bounded os -> has_event (pfd_revents pfd) POLLIN = true ->
  exists cl', handle_connection_io w os pfd cl = Ok cl' /\ client_step cl cl'
    /\ rank (if bool_decide (ops_ (snd cl) = kOpen) then kClosing else kClosed) <= rank (ops_ (snd cl')).
Proof.
  intros Hok Heof Hb Hin. unfold handle_connection_io. rewrite Hin.
  destruct (eof_read os cl Hok Heof) as (e & cl1 & -> & Hs1 & Eop1). cbn [res_bind].
  change (ExpectedVoid.has_value (error e)) with false. cbn [negb].
  destruct (conn_close_spec os cl1) as (cl2 & -> & Hs2 & Eop2); [apply Hs1|]. rewrite Eop1 in Eop2. cbn [res_bind].
  pose proof (client_step_trans _ _ _ Hs1 Hs2) as Hs02.
  destruct (io_phase (has_event (pfd_revents pfd) POLLOUT) os
    (fun env => if w then handle_write_vectored env (run_callback env) else handle_write env (run_callback env)) cl2)
    as (cl3 & -> & Hs3); [apply Hs2| |].
  { intros _. destruct (Hb (fst cl2) (snd cl2)). assert (conn_ok (snd cl2)) by apply Hs2. destruct w;
      (eapply wp_mono; [by apply handle_write_spec || by apply handle_write_vectored_spec|]; by intros r c' (? & ? & _)). }
  cbn [res_bind]. pose proof (client_step_trans _ _ _ Hs02 Hs3) as Hs03.
  pose proof (ev_rank _ _ (proj2 (proj2 Hs3))) as R3. rewrite Eop2 in R3.
  destruct (has_event _ (Z.lor _ _)); [|by exists cl3].
  destruct (conn_close_spec os cl3) as (cl4 & -> & Hs4 & _); [apply Hs3|]. exists cl4. split; [done|].
  split; [by eapply client_step_trans|]. pose proof (ev_rank _ _ (proj2 (proj2 Hs4))). lia.
Qed.

(** A connection whose peer has gone is closed after at most two
    rounds that report it readable: the first end-of-stream moves it to
    Closing or Closed, the second to Closed, with its socket closed. *)
Theorem eof_closes_in_two_rounds w1 w2 os1 os2 pfd1 pfd2 cl :
  conn_ok (snd cl) -> reads_eof os1 -> reads_eof os2 -> os_bounded os1 -> os_bounded os2 ->
  has_event (pfd_revents pfd1) POLLIN = true -> has_event (pfd_revents pfd2) POLLIN = true ->
  exists cl1 cl2, handle_connection_io w1 os1 pfd1 cl = Ok cl1 /\ handle_connection_io w2 os2 pfd2 cl1 = Ok cl2
    /\ ops_ (snd cl1) <> kOpen /\ ops_ (snd cl1) <> kHandshaking
    /\ ops_ (snd cl2) = kClosed /\ client_closed cl2 = true.
Proof.
  intros Hok He1 He2 Hb1 Hb2 Hi1 Hi2.
  destruct (eof_io w1 os1 pfd1 cl Hok He1 Hb1 Hi1) as (cl1 & E1 & Hs1 & R1).
  destruct (eof_io w2 os2 pfd2 cl1) as (cl2 & E2 & Hs2 & R2); [apply Hs1|done|done|done|].
  assert (R1' : 2 <= rank (ops_ (snd cl1))) by (destruct (bool_decide _); cbn [rank] in R1; lia).
  assert (N1 : ops_ (snd cl1) <> kOpen) by (intros E; rewrite E in R1'; cbn in R1'; lia).
  rewrite bool_decide_eq_false_2 in R2 by done.
  assert (E : ops_ (snd cl2) = kClosed) by (destruct (ops_ (snd cl2)); cbn in R2; lia || done).
  exists cl1, cl2. split_and!; try done.
  - intros E'. rewrite E' in R1'. cbn in R1'. lia.
  - unfold client_closed, is_closed, get_state. rewrite E. apply orb_true_r.
Qed.

(** [reset_stats] (and a second [run]) zeroes the active counter
    although connections are held; when one of them is then removed the
    counter wraps to 2^64 - 1 and the server refuses every new connection
    for good. *)
Theorem reset_stats_locks_out s cl l max :
  srv_ok s (cl :: l) -> client_closed cl = true -> Forall (fun cl => client_closed cl = false) l ->
  0 <= max < 2 ^ 60 ->
  exists s', remove_closed_connections (reset_stats s) = Ok s'
    /\ Stats.active_connections (stats_ s') = 2 ^ 64 - 1
    /\ Stats.is_overloaded (stats_ s') max = true.
Proof.
  intros [Hv Hok Hf Ha] Hcl Hl Hmax. destruct (points_to_size _ _ Hv) as [Hsz Hle].
  unfold remove_closed_connections, reset_stats. cbn [connections_ set_stats stats_]. rewrite Hsz.
  destruct (remove_loop_spec (Z.to_nat (zlen (cl :: l))) 0 0 (connections_ s) [] (cl :: l))
    as (v' & l' & -> & Hv' & Hp); [done|done|unfold zlen; lia|lia|rewrite zlen_cons in *; lia|]. cbn [res_bind].
  assert (El : zlen l' = zlen l).
  { unfold zlen. rewrite Hp, filter_cons_False by (by rewrite Hcl).
    by rewrite filter_all. }
  rewrite El, zlen_cons. replace (0 + (zlen l + 1 - zlen l)) with 1 by lia. eexists. split; [done|].
  assert (E : Stats.active_connections (Stats.sub_active (Stats.reset (stats_ s)) 1) = 2 ^ 64 - 1) by reflexivity.
  split; [exact E|]. unfold Stats.is_overloaded. rewrite u64_small by lia. apply Z.ltb_lt.
  eapply Z.lt_le_trans; [|apply Z.eq_le_incl; symmetry; exact E]. apply Z.div_lt_upper_bound; lia.
Qed.

End server.

(** ** Evaluated examples *)
#[local] Existing Instances Demo.socket_tcp Demo.socket_laws.
#[local] Instance demo_target : Target := true.

(** The example environment as the system calls of one connection. *)
Definition demo_os (t : Z) (input : bytes) (room : Z) : Os Demo.Socket :=
  let e := Demo.env_with Demo.echo_callbacks t input room in
  mk_os _ (now e) (sys_readv e) (sys_writev e) (sock_write e).

Lemma demo_os_bounded t input room : 0 <= room -> os_bounded (demo_os t input room).
Proof. intros Hr cbs c. by apply (demo_write_bounded cbs t input room c). Qed.

(** Polls that report [rev], with [input] arriving on every connection. *)
Definition demo_tick (ret : Z) (rev : list Z) (t : Z) (input : bytes) : Tick Demo.Socket :=
  mk_tick _ (fun _ => (ret, rev)) 10 (7, 0) (fun _ _ => 0) (fun _ => demo_os t input 100) (fun _ => demo_os t input 100) false.

Definition demo_result {A} (r : Res (bool * A)) (d : A) : A := match r with Ok (_, a) => a | _ => d end.

Definition s_start : Server Demo.Socket :=
  set_stats (set_running (set_max_connections (make_server 3 Demo.echo_callbacks) 50) true) (Stats.reset Stats.zero_stats).
Definition tick_accept : Tick Demo.Socket := demo_tick 1 [1] 1000000 [].
Definition s_one : Server Demo.Socket := demo_result (run_iter s_start tick_accept) s_start.
Definition tick_request : Tick Demo.Socket := demo_tick 1 [0; 1] 2000000 demo_request.
Definition tick_idle : Tick Demo.Socket := demo_tick 0 [] 99000000000 [].

Lemma tick_accept_fine : tick_fine tick_accept (clients s_start).
Proof. split; [|intros i; by apply demo_os_bounded]. intros j cl Hj. vm_compute in Hj. destruct j; discriminate. Qed.

Lemma s_one_reach : srv_reach s_one.
Proof.
  apply (reach_iter s_start tick_accept true).
  - apply (reach_start 3 Demo.echo_callbacks 50 Sockets.SocketSetup.default_tuning). lia.
  - exact tick_accept_fine.
  - vm_compute. reflexivity.
Qed.

(** One client, still in the handshake. *)
Lemma s_one_clients : clients s_one = [(Demo.echo_callbacks, make_connection (env_of Demo.echo_callbacks (tk_os tick_accept (-1))) 1 7)].
Proof. vm_compute. reflexivity. Qed.

Lemma s_one_fine tk t input :
  (forall i, tk_os tk i = demo_os t input 100) -> bytes_ok input -> zlen input <= 4096 -> tick_fine tk (clients s_one).
Proof.
  intros Htk Hb Hl. split; [|intros i; rewrite Htk; by apply demo_os_bounded].
  rewrite s_one_clients. intros [|j] cl Hj; [|done]. injection Hj as <-. rewrite Htk. exists input.
  apply (demo_read_fine _ Demo.echo_callbacks t input 100); [reflexivity|done|exact Hl|discriminate].
Qed.

Lemma server_invariant_witness :
  get_connection_count s_one = 1 /\ get_connection_count s_one <= Z.min 64 (Z.min 50 (50 * 9 / 10 + 1))
  /\ exists go s', run_iter s_one tick_request = Ok (go, s').
Proof.
  split; [vm_compute; reflexivity|].
  destruct (server_invariant s_one tick_request s_one_reach) as (_ & _ & _ & H1 & H2).
  - apply (s_one_fine _ 2000000 demo_request); [reflexivity|by_decide|vm_compute; discriminate].
  - split; [exact H1|exact H2].
Defined.

Lemma server_round_witness :
  exists s', run_iter s_one tick_request = Ok (true, s')
    /\ (fun cl : Client Demo.Socket => ops_ (snd cl)) <$> clients s' = [kOpen].
Proof.
  destruct (server_round s_one tick_request s_one_reach) as (s' & E & _).
  - apply (s_one_fine _ 2000000 demo_request); [reflexivity|by_decide|vm_compute; discriminate].
  - reflexivity.
  - exists s'. split; [exact E|]. vm_compute in E. injection E as <-. vm_compute. reflexivity.
Defined.

(** A round in which [stop] is called while the request is read. *)
Definition tick_last : Tick Demo.Socket :=
  mk_tick Demo.Socket (tk_poll tick_request) (tk_poll_us tick_request) (tk_accept tick_request) (tk_sys tick_request) (tk_os tick_request)
    (tk_late tick_request) true.

Lemma run_returns_witness :
  exists s', run (set_max_connections (make_server 3 Demo.echo_callbacks) 50) [tick_accept; tick_last] = Ok s'
    /\ zlen (clients s') = 1
    /\ run (set_max_connections (make_server 3 Demo.echo_callbacks) 50) [tick_accept; tick_last; tick_idle] = Ok s'.
Proof.
  destruct (run_returns 3 Demo.echo_callbacks 50 Sockets.SocketSetup.default_tuning [tick_accept; tick_last]) as (s' & E & _ & _ & Hmore).
  - lia.
  - split; [exact tick_accept_fine|]. intros s1 E1 _. assert (s1 = s_one) as -> by (vm_compute in E1 |- *; by injection E1 as <-).
    split; [|by intros s2 _].
    apply (s_one_fine tick_last 2000000 demo_request); [reflexivity|by_decide|vm_compute; discriminate].
  - exists s'. split; [exact E|]. split; [|apply (Hmore ltac:(right; left; reflexivity) [tick_idle])].
    vm_compute in E. injection E as <-. vm_compute. reflexivity.
Defined.

Lemma idle_poll_skips_timeouts_witness :
  forallb (timed_out (tk_late tick_idle 0)) (clients s_one) = true
  /\ exists s', run_iter s_one tick_idle = Ok (true, s') /\ clients s' = clients s_one.
Proof.
  split; [vm_compute; reflexivity|].
  apply (idle_poll_skips_timeouts s_one tick_idle s_one_reach).
  - apply (s_one_fine _ 99000000000 []); [reflexivity|constructor|vm_compute; discriminate].
  - reflexivity.
Defined.

(** A server that holds a closed and an open connection. *)
Definition demo_clients (states : list ConnectionState) : list (Client Demo.Socket) :=
  (fun st => (Demo.echo_callbacks, Demo.conn_with st [])) <$> states.
Definition s_with (states : list ConnectionState) : Server Demo.Socket :=
  mk_server 3 true true (FixedVector.mk_vec ((Some <$> (Some <$> demo_clients states)) ++ replicate (64 - length states) None) (zlen states))
    50 1000 (replicate 65 (mk_pollfd 0 0 0))
    (Stats.mk_stats 0 0 0 0 (zlen states) (zlen states) 0 0 0 0 0 0 0 0 0) Demo.echo_callbacks 9
    Sockets.SocketSetup.default_tuning [].

Lemma s_with_ok states : zlen states <= 64 -> srv_ok (s_with states) (demo_clients states).
Proof.
  intros Hl. unfold demo_clients. split.
  - split; cbn [s_with connections_ FixedVector.size_ FixedVector.storage_]; rewrite ?zlen_fmap; try lia.
    unfold demo_clients. f_equal. f_equal. len.
  - apply Forall_fmap, Forall_true. intros st. cbn. apply Demo.conn_with_ok; [cbn; lia|constructor].
  - done.
  - by rewrite zlen_fmap.
Qed.

Lemma remove_closed_keeps_open_witness :
  exists s' l', remove_closed_connections (s_with [kClosed; kOpen; kClosed; kClosing]) = Ok s' /\ srv_ok s' l'
    /\ Stats.active_connections (stats_ s') = 2.
Proof.
  destruct (remove_closed_keeps_open (s_with [kClosed; kOpen; kClosed; kClosing]) (demo_clients [kClosed; kOpen; kClosed; kClosing]))
    as (s' & l' & E & Hs' & _ & Ha).
  - apply s_with_ok. vm_compute. discriminate.
  - exists s', l'. split; [exact E|]. split; [exact Hs'|]. rewrite Ha. vm_compute. reflexivity.
Defined.

Lemma reset_stats_locks_out_witness :
  exists s', remove_closed_connections (reset_stats (s_with [kClosed; kOpen])) = Ok s'
    /\ Stats.is_overloaded (stats_ s') 50 = true.
Proof.
  destruct (reset_stats_locks_out (s_with [kClosed; kOpen]) (Demo.echo_callbacks, Demo.conn_with kClosed [])
    (demo_clients [kOpen]) 50) as (s' & E & _ & Ho).
  - apply (s_with_ok [kClosed; kOpen]). vm_compute. discriminate.
  - vm_compute. reflexivity.
  - repeat constructor.
  - lia.
  - exists s'. split; [exact E|exact Ho].
Defined.

Definition eof_os : Os Demo.Socket :=
  mk_os _ 5 (fun _ buf _ => (mk_sys 0 0, buf)) (fun _ data => mk_sys (zlen data) 0) (fun _ data => inl (zlen data)).

Lemma eof_os_bounded : os_bounded eof_os.
Proof. intros cbs c. split; cbv [write_bounded writev_bounded]; cbn [env_of eof_os sock_write sys_writev os_write os_writev sys_n]; pose proof (zlen_nonneg (take (Z.to_nat kTempReadSize) (tx_list c))); lia. Qed.

Lemma eof_closes_in_two_rounds_witness :
  exists cl1 cl2 : Client Demo.Socket,
    handle_connection_io true eof_os (mk_pollfd 7 1 1) (Demo.echo_callbacks, Demo.conn_with kOpen []) = Ok cl1
    /\ handle_connection_io true eof_os (mk_pollfd 7 1 1) cl1 = Ok cl2 /\ ops_ (snd cl2) = kClosed.
Proof.
  destruct (eof_closes_in_two_rounds true true eof_os eof_os (mk_pollfd 7 1 1) (mk_pollfd 7 1 1)
    (Demo.echo_callbacks, Demo.conn_with kOpen [])) as (cl1 & cl2 & E1 & E2 & _ & _ & E3 & _).
  - apply Demo.conn_with_ok; [vm_compute; lia|constructor].
  - intros fd buf iov. reflexivity.
  - intros fd buf iov. reflexivity.
  - exact eof_os_bounded.
  - exact eof_os_bounded.
  - reflexivity.
  - reflexivity.
  - exists cl1, cl2. split; [exact E1|]. split; [exact E2|exact E3].
Defined.
