(* ===== verification/SharedRefines.v ===== *)
(** * SharedRefines: the reactor with pointers and the reactor with values

    [Server] keeps the connections themselves in its vector, [SharedServer]
    pointers to shared objects, as the code does.  When every callback uses
    its own connection and the application's state only, both do the same:
    whatever [Srv.run] returns, [SharedSrv.run] returns it too, with the
    objects its pointers lead to in place of the values, and with the
    application's state taken through all callbacks in the order they were
    made.  So the theorems of [ServerProofs] hold for the server with
    pointers. *)
From S2P Require Import Prelude Vocabulary RingBuffer Frame FixedVector Connection Fixes ConnectionApi ConnectionInv ConnectionFrames Handshake ConnectionIo ConnectionProtocol Responder Shared SharedOwn Server Pointers SharedServer ServerProofs.
From stdpp Require Import gmap.
Open Scope Z_scope.
Open Scope ewss_scope.
Import Conn Handlers Srv Shared.

(** ** Histories of the whole application *)
Section history.
Context {Sock App : Type}.

(** A callback: with what environment, for which connection, what. *)
Definition Entry : Type := Env Sock * Z * Event.

Definition events_of (o : Z) (tr : list Entry) : list Event :=
  omap (fun x : Entry => if decide (x.1.2 = o) then Some x.2 else None) tr.

Definition observe_all (observe : Env Sock -> Z -> Event -> App -> App) (tr : list Entry) (st : App) : App :=
  foldl (fun st (x : Entry) => observe x.1.1 x.1.2 x.2 st) st tr.

Definition made (env : Env Sock) (o : Z) (l : list Event) : list Entry := (fun e => (env, o, e)) <$> l.

Lemma events_of_app o tr k : events_of o (tr ++ k) = events_of o tr ++ events_of o k.
Proof. apply omap_app. Qed.

Lemma events_of_made env o o1 l : events_of o1 (made env o l) = if decide (o = o1) then l else [].
Proof.
  unfold events_of, made. induction l as [|e l IH]; cbn; [by case_decide|]. rewrite IH. by case_decide.
Qed.

Lemma observe_made observe env o l st : observe_all observe (made env o l) st = watch observe env o l st.
Proof. revert st. induction l as [|e l IH]; intros st; [done|]. apply IH. Qed.

Lemma observe_app observe tr k st : observe_all observe (tr ++ k) st = observe_all observe k (observe_all observe tr st).
Proof. apply foldl_app. Qed.

End history.
Arguments Entry : clear implicits.

Section refine.
Context {Sock App : Type} `{TcpSocket Sock} {target : Target}.
Variable observe : Env Sock -> Z -> Event -> App -> App.
Variable cbs : Callbacks Sock.
Hypothesis Hdiscreet : forall env o, cb env = cbs -> discreet observe env o.
Variable st0 : App.

Abbreviation reactor := (ServerOf Z (SharedSrv.Application Sock App)).
Abbreviation pvec := (FixedVector.FixedVector (option Z) 64).
Abbreviation cvec := (FixedVector.FixedVector (option (Client Sock)) 64).
Implicit Types (t : reactor) (s : Server Sock) (w : World Sock App) (ids : list Z) (l : list (Client Sock)) (tr : list (Entry Sock)).

Definition private_application : SharedSrv.Application Sock App :=
  SharedSrv.mk_application cbs (SharedHandlers.private_bodies observe cbs).

(** ** Worlds and lists of connections *)

Abbreviation hears := (listens cbs).

(** What is known of a connection's history, for ever. *)
Definition told (log : list Event) : Prop := exists st, story hears st log.

(** What every operation keeps of a connection. *)
Record kept o (log : list Event) (c : Connection Sock) : Prop := {
  kp_id : id_ c = o;
  kp_log : log_ c = log;
  kp_orderly : orderly hears c;
}.

Record proper {A} (m : M Sock A) : Prop := {
  pr_id : fixes id_ m;
  pr_orderly : forall c, orderly hears c -> wlp m (fun _ c' => orderly hears c') c;
}.

Lemma orderly_told (c : Connection Sock) : orderly hears c -> told (log_ c).
Proof using Type. intros Hc. destruct (orderly_story _ _ Hc) as (full & ph & Hp & Hl & _). exists (ph, is_write_paused c), full. done. Qed.

(** The objects are the connections [l], under the keys [ids]; the history
    [tr] is that of the application, and of each of them. *)
Record mirrors tr w ids l : Prop := {
  mi_nodup : NoDup ids;
  mi_len : length ids = length l;
  mi_at : forall j o cl, ids !! j = Some o -> l !! j = Some cl ->
    fst cl = cbs /\ alive w !! o = Some (snd cl) /\ kept o (events_of o tr) (snd cl);
  mi_story : forall o, told (events_of o tr);
  mi_only : forall o, is_Some (alive w !! o) -> o ∈ ids;
  mi_state : app_state w = observe_all observe tr st0;
}.

(** The callbacks of one operation belong to its connection. *)
Definition extends o tr tr' : Prop := exists k, tr' = tr ++ k /\ Forall (fun x : Entry Sock => x.1.2 = o) k.

Lemma mirrors_lookup tr w ids l j o : mirrors tr w ids l -> ids !! j = Some o ->
  exists cl, l !! j = Some cl /\ fst cl = cbs /\ alive w !! o = Some (snd cl).
Proof.
  intros Hm Hj. destruct (lookup_lt_is_Some_2 l j) as [cl Hcl]; [rewrite <- (mi_len _ _ _ _ Hm); by eapply lookup_lt_Some|].
  exists cl. by destruct (mi_at _ _ _ _ Hm j o cl Hj Hcl) as (? & ? & _).
Qed.

(** An operation on one connection. *)
Lemma agrees_step {A} env o (ms : W Sock App A) (m : M Sock A) tr w ids l j cl a c' :
  agrees observe env o ms m -> proper m -> mirrors tr w ids l -> ids !! j = Some o -> l !! j = Some cl -> m (snd cl) = Ok (a, c') ->
  exists tr' w', ms w = Ok (a, w') /\ mirrors tr' w' ids (<[j := (fst cl, c')]> l) /\ extends o tr tr'.
Proof using Type.
  intros Ha [Hid Hor] [Hnd Hlen Hat Htold Honly Hst] Hj Hcl E. destruct (Hat j o cl Hj Hcl) as (Hf & Eo & [Ei El Hord]).
  pose proof (Hor _ Hord _ _ E) as Hord'.
  specialize (Ha w (snd cl) Eo). rewrite E in Ha. destruct Ha as (k & Ek & Ew).
  exists (tr ++ made env o k), (mk_world (<[o := c']> (alive w)) (watch observe env o k (app_state w))).
  split; [done|]. split; [|exists (made env o k); split; [done|by apply Forall_fmap, Forall_true]].
  assert (El' : log_ c' = events_of o (tr ++ made env o k)) by (by rewrite events_of_app, events_of_made, decide_True, Ek, El).
  split; [done|by rewrite length_insert| | | |].
  - intros i o1 cl1 Hi Hcl1. cbn [alive].
    apply list_lookup_insert_Some in Hcl1 as [(-> & <- & _)|(Hne & Hcl1)].
    + assert (o1 = o) as -> by congruence. cbn. rewrite lookup_insert_eq. split_and!; try done. split; [by rewrite (Hid _ _ _ E)|done|done].
    + assert (Hno : o <> o1) by (intros <-; apply Hne; by eapply NoDup_lookup). destruct (Hat i o1 cl1 Hi Hcl1) as (? & ? & ?).
      rewrite lookup_insert_ne, events_of_app, events_of_made, decide_False, app_nil_r by done. done.
  - intros o1. destruct (decide (o1 = o)) as [->|Hne]; [rewrite <- El'; by apply orderly_told|].
    rewrite events_of_app, events_of_made, decide_False, app_nil_r by done. apply Htold.
  - intros o1. cbn. rewrite lookup_insert_is_Some'. intros [<-|Ho]; [by eapply list_elem_of_lookup_2|by apply Honly].
  - cbn. by rewrite observe_app, observe_made, Hst.
Qed.

Lemma extends_refl o tr : extends o tr tr.
Proof. exists []. by rewrite app_nil_r. Qed.

(** ** One connection's events, as a program on the connection *)

Definition io_prog (use_writev : bool) (env : Env Sock) (pfd : pollfd) : M Sock unit :=
  let failed r := when (negb (ExpectedVoid.has_value r)) (close env (run_callback env) 1000) in
  (if has_event (pfd_revents pfd) POLLIN then let* r := handle_read env (run_callback env) in failed r else ret tt) ;;;
  (if has_event (pfd_revents pfd) POLLOUT then
     let* r := if use_writev then handle_write_vectored env (run_callback env) else handle_write env (run_callback env) in
     failed r
   else ret tt) ;;;
  when (has_event (pfd_revents pfd) (Z.lor POLLERR POLLHUP)) (close env (run_callback env) 1000).

Lemma proper_bind {A B} (m : M Sock A) (k : A -> M Sock B) : proper m -> (forall a, proper (k a)) -> proper (bind m k).
Proof using Type.
  intros [I1 O1] Hk. split; [apply fixes_bind; [done|]; intros a; apply Hk|].
  intros c Hc. apply wlp_bind. eapply wlp_mono; [by apply O1|]. intros a c1 Hc1. by apply Hk.
Qed.
Lemma proper_ret {A} (a : A) : proper (ret a).
Proof using Type. split; [fixing|]. intros c Hc. by apply wlp_ret. Qed.
Lemma proper_close env : cb env = cbs -> proper (close env (run_callback env) 1000).
Proof using Type.
  intros E. split; [apply id_close, id_run_callback|]. intros c Hc. apply (call_orderly hears env) with (call := ApiClose 1000); [|done].
  intros ev. by rewrite E.
Qed.

Lemma io_proper use_writev env pfd : cb env = cbs -> proper (io_prog use_writev env pfd).
Proof using Type.
  intros E. assert (Henv : forall ev, listens (cb env) ev = hears ev) by (intros ev; by rewrite E).
  pose proof (proper_close env E) as Hclose.
  assert (Hread : proper (handle_read env (run_callback env))).
  { split; [apply id_handle_read, id_run_callback|]. by apply handle_read_orderly. }
  assert (Hwrite : proper (if use_writev then handle_write_vectored env (run_callback env) else handle_write env (run_callback env))).
  { destruct use_writev; (split; [apply id_handle_write_vectored || apply id_handle_write; apply id_run_callback|]);
      [by apply handle_write_vectored_orderly|by apply handle_write_orderly]. }
  unfold io_prog, when. repeat first [assumption|apply proper_ret
    |match goal with |- proper (if ?b then _ else _) => destruct b end|apply proper_bind; [|intros ?]].
Qed.

Definition on_client (m : M Sock unit) (cl : Client Sock) : Res (Client Sock) :=
  let! (_, c) := m (snd cl) in Ok (fst cl, c).

Lemma conn_close_prog os cl :
  conn_close os cl = on_client (close (env_of (fst cl) os) (run_callback (env_of (fst cl) os)) 1000) cl.
Proof. unfold conn_close, call, on_client. by destruct (close _ _ _ _) as [[[] c]| |]. Qed.

Lemma on_client_bind (m : M Sock unit) (k : M Sock unit) cl :
  on_client (m ;;; k) cl = (let! cl := on_client m cl in on_client k cl).
Proof. unfold on_client, bind. by destruct (m (snd cl)) as [[[] c]| |]. Qed.

Lemma on_client_fst m cl cl' : on_client m cl = Ok cl' -> fst cl' = fst cl.
Proof. unfold on_client. destruct (m (snd cl)) as [[a c]| |]; [|done|done]. by intros [= <-]. Qed.

Lemma io_prog_eq (v : bool) os pfd cl :
  handle_connection_io v os pfd cl = on_client (io_prog v (env_of (fst cl) os) pfd) cl.
Proof.
  unfold handle_connection_io, io_prog. rewrite on_client_bind.
  assert (Hphase : forall (b : bool) (m : Env Sock -> M Sock expected) cl1, fst cl1 = fst cl ->
    (if b then let! (r, cl) := call os m cl1 in if negb (ExpectedVoid.has_value r) then conn_close os cl else Ok cl else Ok cl1)
    = on_client (if b then let* r := m (env_of (fst cl) os) in
        when (negb (ExpectedVoid.has_value r)) (close (env_of (fst cl) os) (run_callback (env_of (fst cl) os)) 1000) else ret tt) cl1).
  { intros b m cl1 E1. destruct b; [|by destruct cl1]. unfold call, on_client, bind. rewrite E1.
    destruct (m _ (snd cl1)) as [[r c]| |]; [|done|done]. cbn [res_bind]. unfold when. destruct (negb _); [|done].
    rewrite conn_close_prog. cbn [fst snd]. unfold on_client. cbn. done. }
  rewrite Hphase by done. destruct (on_client _ cl) as [cl1| |] eqn:E1; [|done|done]. cbn [res_bind].
  rewrite on_client_bind. assert (F1 : fst cl1 = fst cl) by (by eapply on_client_fst).
  rewrite (Hphase _ (fun env => if v then handle_write_vectored env (run_callback env) else handle_write env (run_callback env))) by done.
  destruct (on_client _ cl1) as [cl2| |] eqn:E2; [|done|done]. cbn [res_bind].
  assert (F2 : fst cl2 = fst cl) by (rewrite <- F1; by eapply on_client_fst).
  unfold when. destruct (has_event _ (Z.lor _ _)); [by rewrite conn_close_prog, F2|by destruct cl2].
Qed.

(** ** Agreement of the reactor's operations *)

Lemma close_agrees t os o code :
  callbacks_ t = private_application ->
  agrees observe (env_of cbs os) o (SharedHandlers.close (SharedSrv.app_bodies (callbacks_ t)) (SharedSrv.env_at t os) o code)
    (close (env_of cbs os) (run_callback (env_of cbs os)) code).
Proof using Hdiscreet.
  intros Happ. unfold SharedSrv.env_at. rewrite Happ. apply agrees_close. by apply Hdiscreet.
Qed.

Lemma io_agrees t os pfd o :
  callbacks_ t = private_application ->
  agrees observe (env_of cbs os) o (SharedSrv.handle_connection_io t os pfd o) (io_prog (use_writev_ t) (env_of cbs os) pfd).
Proof using Hdiscreet.
  intros Happ. pose proof (fun code => close_agrees t os o code Happ) as Hclose.
  pose proof (Hdiscreet (env_of cbs os) o eq_refl) as Hd. revert Hclose.
  unfold SharedSrv.handle_connection_io, SharedSrv.conn_close, io_prog, SharedSrv.env_at. rewrite Happ.
  cbn [private_application SharedSrv.app_bodies SharedSrv.app_callbacks]. intros Hclose.
  pose proof (agrees_handle_read observe (env_of cbs os) o Hd) as Hread.
  pose proof (agrees_handle_write observe (env_of cbs os) o Hd) as Hwrite.
  pose proof (agrees_handle_write_vectored observe (env_of cbs os) o Hd) as Hwritev.
  agree.
Qed.

(** ** The loops *)

(** The pointer at the front of the rest of a vector. *)
Lemma front_at {P} (v : FixedVector.FixedVector (option P) 64) pre x rest :
  points_to v (pre ++ x :: rest) -> FixedVector.at_ v (zlen pre) = Ok (Some x).
Proof.
  intros Hv. apply (points_to_at v _ _ x Hv); [auto with ewss|]. unfold zlen. rewrite Nat2Z.id. by apply list_lookup_middle.
Qed.

Lemma front_assign {P} (v v' : FixedVector.FixedVector (option P) 64) pre x y rest :
  points_to v (pre ++ x :: rest) -> FixedVector.assign v (zlen pre) (Some y) = Ok v' -> points_to v' (pre ++ y :: rest).
Proof.
  intros Hv E. destruct (points_to_assign v _ (zlen pre) y Hv) as (v1 & E1 & Hv1);
    [rewrite zlen_app, zlen_cons; pose proof (zlen_nonneg pre); pose proof (zlen_nonneg rest); lia|].
  assert (v1 = v') as -> by congruence. rewrite insert_app_r_alt in Hv1 by len.
  replace (Z.to_nat (zlen pre) - length pre)%nat with 0%nat in Hv1 by len. done.
Qed.

(** Some callbacks more, all of connections in [ids]. *)
Definition grows ids tr tr' : Prop := exists k, tr' = tr ++ k /\ Forall (fun x : Entry Sock => x.1.2 ∈ ids) k.

Lemma grows_refl ids tr : grows ids tr tr.
Proof. exists []. by rewrite app_nil_r. Qed.
Lemma grows_trans ids tr1 tr2 tr3 : grows ids tr1 tr2 -> grows ids tr2 tr3 -> grows ids tr1 tr3.
Proof. intros (k1 & -> & F1) (k2 & -> & F2). exists (k1 ++ k2). rewrite app_assoc. split; [done|by apply Forall_app]. Qed.
Lemma extends_grows o ids tr tr' : extends o tr tr' -> o ∈ ids -> grows ids tr tr'.
Proof. intros (k & -> & Hk) Ho. exists k. split; [done|]. eapply Forall_impl; [exact Hk|]. by intros x ->. Qed.

(** The connection a pointer of the front leads to. *)
Lemma front_mirrored tr w i0 o ix l0 cl lx :
  length i0 = length l0 -> mirrors tr w (i0 ++ o :: ix) (l0 ++ cl :: lx) -> fst cl = cbs /\ alive w !! o = Some (snd cl).
Proof.
  intros Hl Hm. destruct (mi_at _ _ _ _ Hm (length i0) o cl) as (? & ? & _); [by apply list_lookup_middle|by apply list_lookup_middle|].
  done.
Qed.

(** An operation on the connection in front of the rest. *)
Lemma front_step {A} env (ms : W Sock App A) (m : M Sock A) tr w i0 o ix l0 cl lx a c' :
  agrees observe env o ms m -> proper m -> length i0 = length l0 -> mirrors tr w (i0 ++ o :: ix) (l0 ++ cl :: lx) -> m (snd cl) = Ok (a, c') ->
  exists tr' w', ms w = Ok (a, w') /\ mirrors tr' w' (i0 ++ o :: ix) (l0 ++ (fst cl, c') :: lx) /\ grows (i0 ++ o :: ix) tr tr'.
Proof.
  intros Ha Hid Hl Hm E. destruct (agrees_step env o ms m tr w _ _ (length l0) cl a c' Ha Hid Hm) as (tr' & w' & Ew & Hm' & Hx);
    [by apply list_lookup_middle|by apply list_lookup_middle|done|].
  exists tr', w'. split; [done|]. split; [|eapply extends_grows; [done|]; apply elem_of_app; right; by left].
  by rewrite insert_app_r_alt, Nat.sub_diag in Hm' by done.
Qed.

Lemma fill_refines (cv : cvec) (pv : pvec) tr w l1 : forall l0 i0 ids fds nfds r,
  points_to cv (l0 ++ l1) -> points_to pv (i0 ++ ids) -> length i0 = length l0 -> mirrors tr w (i0 ++ ids) (l0 ++ l1) ->
  fill_pollfds (length l1) (zlen l0) cv fds nfds = Ok r -> SharedSrv.fill_pollfds (length l1) (zlen l0) pv fds nfds w = Ok (r, w) /\ snd r = nfds + zlen l1.
Proof using Type.
  induction l1 as [|cl l1 IH]; intros l0 i0 ids fds nfds r Hc Hp Hl Hm E; cbn [length fill_pollfds SharedSrv.fill_pollfds] in *.
  { injection E as <-. cbn. rewrite zlen_nil, Z.add_0_r. done. }
  pose proof (mi_len _ _ _ _ Hm) as Hlen. rewrite !length_app in Hlen. destruct ids as [|o ids]; [cbn in Hlen; lia|].
  rewrite (front_at cv l0 cl l1 Hc) in E. cbn [res_bind deref of_option] in E.
  destruct (front_mirrored _ _ _ _ _ _ _ _ Hl Hm) as [_ Ea].
  assert (Hz : zlen i0 = zlen l0) by (unfold zlen; by rewrite Hl). assert (Hat : FixedVector.at_ pv (zlen l0) = Ok (Some o)) by (rewrite <- Hz; by eapply front_at).
  wpure Hat. rewrite wsome.
  wrun (at_gets o _ w _ Ea). wrun (at_gets o _ w _ Ea). apply res_bind_Ok in E as ([fds' nfds'] & Est & E). wpure Est.
  replace (zlen l0 + 1) with (zlen (l0 ++ [cl])) in * by (by rewrite zlen_app).
  destruct (IH (l0 ++ [cl]) (i0 ++ [o]) ids fds' nfds' r) as [-> ->];
    [by rewrite <- app_assoc|by rewrite <- app_assoc|by rewrite !length_app, Hl|by rewrite <- !app_assoc|done|].
  split; [done|]. unfold store_pollfd in Est. destruct (_ <? _); [|done]. injection Est as _ <-. rewrite zlen_cons. lia.
Qed.

Lemma io_refines t tk l1 : forall l0 i0 ids lx ix tr w (cv cv' : cvec),
  callbacks_ t = private_application -> points_to (connections_ t) (i0 ++ ids ++ ix) -> points_to cv (l0 ++ l1 ++ lx) ->
  length i0 = length l0 -> length ids = length l1 -> mirrors tr w (i0 ++ ids ++ ix) (l0 ++ l1 ++ lx) ->
  io_loop (length l1) (zlen l0 + 1) (use_writev_ t) tk (poll_fds_ t) cv = Ok cv' ->
  exists tr' w' l1', SharedSrv.io_loop (length l1) (zlen l0 + 1) t tk w = Ok (tt, w') /\ points_to cv' (l0 ++ l1' ++ lx)
    /\ length l1' = length l1 /\ mirrors tr' w' (i0 ++ ids ++ ix) (l0 ++ l1' ++ lx) /\ grows (i0 ++ ids ++ ix) tr tr'.
Proof using Hdiscreet.
  induction l1 as [|cl l1 IH]; intros l0 i0 ids lx ix tr w cv cv' Happ Hp Hc Hl Hl1 Hm E; cbn [length io_loop SharedSrv.io_loop] in *.
  { injection E as <-. exists tr, w, []. split_and!; try done. apply grows_refl. }
  destruct ids as [|o ids]; [done|]. cbn [app] in *. assert (Hz : zlen i0 = zlen l0) by (unfold zlen; by rewrite Hl).
  destruct (points_to_size _ _ Hp) as [Sp _], (points_to_size _ _ Hc) as [Sc _].
  assert (Hsz : FixedVector.size (connections_ t) = FixedVector.size cv).
  { rewrite Sp, Sc. pose proof (mi_len _ _ _ _ Hm) as Hlen. unfold zlen. by rewrite Hlen. }
  rewrite Hsz. replace (zlen l0 + 1 - 1) with (zlen l0) in * by lia. destruct (Z.leb_spec (FixedVector.size cv) (zlen l0)).
  { rewrite Sc, zlen_app, zlen_cons in *. pose proof (zlen_nonneg (l1 ++ lx)). lia. }
  rewrite (front_at cv l0 cl (l1 ++ lx) Hc) in E. cbn [res_bind deref of_option] in E.
  apply res_bind_Ok in E as (pfd & Epfd & E). apply res_bind_Ok in E as (cl' & Eio & E). apply res_bind_Ok in E as (cv1 & Eas & E).
  destruct (front_mirrored _ _ _ _ _ _ _ _ Hl Hm) as [Hf _].
  rewrite io_prog_eq, Hf in Eio. apply res_bind_Ok in Eio as ([[] c'] & Ec & [= Ecl]).
  destruct (front_step _ _ _ tr w i0 o (ids ++ ix) l0 cl (l1 ++ lx) tt c' (io_agrees t (tk_os tk (zlen l0)) pfd o Happ)
    (io_proper (use_writev_ t) (env_of cbs (tk_os tk (zlen l0))) pfd eq_refl) Hl Hm Ec)
    as (tr1 & w1 & Ew & Hm1 & Hg1).
  assert (Hat : FixedVector.at_ (connections_ t) (zlen l0) = Ok (Some o)) by (rewrite <- Hz; by eapply front_at).
  wpure Hat. rewrite wsome.
  rewrite (wbind_ok _ _ _ _ _ (wlift_ok _ _ w Epfd)). wrun Ew.
  pose proof (front_assign cv cv1 l0 cl cl' (l1 ++ lx) Hc Eas) as Hc1. rewrite Ecl in Hm1.
  replace (zlen l0 + 1) with (zlen (l0 ++ [cl'])) in * by (by rewrite zlen_app).
  destruct (IH (l0 ++ [cl']) (i0 ++ [o]) ids lx ix tr1 w1 cv1 cv') as (tr' & w' & l1' & E' & Hc' & Hl' & Hm' & Hg');
    [done|by rewrite <- app_assoc|by rewrite <- app_assoc|by rewrite !length_app, Hl|by injection Hl1|by rewrite <- !app_assoc|done|].
  exists tr', w', (cl' :: l1'). rewrite <- !(app_assoc i0), <- !(app_assoc l0) in Hm'. rewrite <- !app_assoc in Hc', Hg'.
  split_and!; [done|done|cbn; by rewrite Hl'|done|by eapply grows_trans].
Qed.

Lemma timeout_refines t tk l1 : forall l0 i0 ids tr w (cv cv' : cvec),
  callbacks_ t = private_application -> points_to (connections_ t) (i0 ++ ids) -> points_to cv (l0 ++ l1) ->
  length i0 = length l0 -> mirrors tr w (i0 ++ ids) (l0 ++ l1) ->
  timeout_loop (length l1) (zlen l0) tk cv = Ok cv' ->
  exists tr' w' l1', SharedSrv.timeout_loop (length l1) (zlen l0) t tk w = Ok (tt, w') /\ points_to cv' (l0 ++ l1')
    /\ length l1' = length l1 /\ mirrors tr' w' (i0 ++ ids) (l0 ++ l1') /\ grows (i0 ++ ids) tr tr'.
Proof using Hdiscreet.
  induction l1 as [|cl l1 IH]; intros l0 i0 ids tr w cv cv' Happ Hp Hc Hl Hm E; cbn [length timeout_loop SharedSrv.timeout_loop] in *.
  { injection E as <-. exists tr, w, []. split_and!; try done. apply grows_refl. }
  pose proof (mi_len _ _ _ _ Hm) as Hlen. rewrite !length_app in Hlen. destruct ids as [|o ids]; [cbn in Hlen; lia|].
  assert (Hz : zlen i0 = zlen l0) by (unfold zlen; by rewrite Hl).
  rewrite (front_at cv l0 cl l1 Hc) in E. cbn [res_bind deref of_option] in E. apply res_bind_Ok in E as (cv1 & Estep & E).
  destruct (front_mirrored _ _ _ _ _ _ _ _ Hl Hm) as [Hf Ea].
  assert (Hat : FixedVector.at_ (connections_ t) (zlen l0) = Ok (Some o)) by (rewrite <- Hz; by eapply front_at).
  wpure Hat. rewrite wsome. wrun (at_gets o _ w _ Ea).
  assert (Hto : timed_out (tk_late tk (zlen l0)) (SharedSrv.app_callbacks (callbacks_ t), snd cl) = timed_out (tk_late tk (zlen l0)) cl).
  { rewrite Happ. cbn [private_application SharedSrv.app_callbacks]. by rewrite <- Hf; destruct cl. }
  rewrite Hto.
  assert (Hstep : exists tr1 w1 cl', (if timed_out (tk_late tk (zlen l0)) cl then SharedSrv.conn_close t (tk_late tk (zlen l0)) o else wret tt) w = Ok (tt, w1)
    /\ points_to cv1 (l0 ++ cl' :: l1) /\ mirrors tr1 w1 (i0 ++ o :: ids) (l0 ++ cl' :: l1) /\ grows (i0 ++ o :: ids) tr tr1).
  { destruct (timed_out _ cl).
    - apply res_bind_Ok in Estep as (cl' & Ecl & Eas). rewrite conn_close_prog, Hf in Ecl. apply res_bind_Ok in Ecl as ([[] c'] & Ec & [= Ecl]).
      destruct (front_step _ _ _ tr w i0 o ids l0 cl l1 tt c' (close_agrees t (tk_late tk (zlen l0)) o 1000 Happ)
          (proper_close (env_of cbs (tk_late tk (zlen l0))) eq_refl) Hl Hm Ec)
        as (tr1 & w1 & Ew & Hm1 & Hg1). exists tr1, w1, cl'. rewrite Ecl in Hm1. split_and!; try done. by eapply front_assign.
    - injection Estep as <-. exists tr, w, cl. split_and!; try done. apply grows_refl. }
  destruct Hstep as (tr1 & w1 & cl' & Ew & Hc1 & Hm1 & Hg1). wrun Ew.
  replace (zlen l0 + 1) with (zlen (l0 ++ [cl'])) in * by (by rewrite zlen_app).
  destruct (IH (l0 ++ [cl']) (i0 ++ [o]) ids tr1 w1 cv1 cv') as (tr' & w' & l1' & E' & Hc' & Hl' & Hm' & Hg');
    [done|by rewrite <- app_assoc|by rewrite <- app_assoc|by rewrite !length_app, Hl|by rewrite <- !app_assoc|done|].
  exists tr', w', (cl' :: l1'). rewrite <- !(app_assoc i0), <- !(app_assoc l0) in Hm'. rewrite <- !app_assoc in Hc', Hg'.
  split_and!; [done|done|cbn; by rewrite Hl'|done|by eapply grows_trans].
Qed.

(** ** Removal *)

Lemma drop_mirrors tr w i0 o ids l0 cl l :
  length i0 = length l0 -> mirrors tr w (i0 ++ o :: ids) (l0 ++ cl :: l) ->
  mirrors tr (drop_world w o) (i0 ++ moved ids) (l0 ++ moved l).
Proof using Type.
  intros Hl [Hnd Hlen Hat Htold Honly Hst].
  assert (Hf : Forall2 (fun o cl => fst cl = cbs /\ alive w !! o = Some (snd cl) /\ kept o (events_of o tr) (snd cl)) (i0 ++ o :: ids) (l0 ++ cl :: l))
    by (by apply Forall2_same_length_lookup).
  apply Forall2_app_inv in Hf as [Hf0 Hf1]; [|done]. apply Forall2_cons in Hf1 as [_ Hf1].
  pose proof (Forall2_app Hf0 (moved_Forall2 _ _ _ Hf1)) as Hf. apply Forall2_same_length_lookup in Hf as [Hlen' Hat'].
  assert (Hp : i0 ++ o :: ids ≡ₚ o :: i0 ++ moved ids) by (by rewrite moved_Permutation, Permutation_middle).
  rewrite Hp in Hnd. apply NoDup_cons in Hnd as [Hni Hnd].
  split; [done|done| |done| |done].
  - intros j o1 cl1 Ho Hcl. destruct (Hat' j o1 cl1 Ho Hcl) as (? & ? & ?). cbn. rewrite lookup_delete_ne; [done|].
    intros ->. by apply Hni; eapply list_elem_of_lookup_2.
  - intros o1. cbn. rewrite lookup_delete_is_Some. intros [Hne Ho]. specialize (Honly o1 Ho). rewrite Hp in Honly.
    by apply elem_of_cons in Honly as [->|].
Qed.

Lemma remove_refines fuel : forall removed tr w (cv : cvec) (pv : pvec) l0 i0 l ids r,
  points_to cv (l0 ++ l) -> points_to pv (i0 ++ ids) -> length i0 = length l0 -> mirrors tr w (i0 ++ ids) (l0 ++ l) ->
  remove_loop fuel (zlen l0) removed cv = Ok r ->
  exists pv' w' l' ids', SharedSrv.remove_loop fuel (zlen l0) removed pv w = Ok ((pv', snd r), w')
    /\ points_to (fst r) l' /\ points_to pv' ids' /\ mirrors tr w' ids' l' /\ (forall o, o ∈ ids' -> o ∈ i0 ++ ids).
Proof using Type.
  induction fuel as [|fuel IH]; intros removed tr w cv pv l0 i0 l ids r Hc Hp Hl Hm E;
    destruct (points_to_size _ _ Hp) as [Sp _], (points_to_size _ _ Hc) as [Sc Hle];
    (assert (Hsz : FixedVector.size pv = FixedVector.size cv)
      by (rewrite Sp, Sc; pose proof (mi_len _ _ _ _ Hm) as Hlen; unfold zlen; by rewrite Hlen));
    cbn [remove_loop SharedSrv.remove_loop] in *; rewrite Hsz;
    (destruct (Z.ltb_spec (zlen l0) (FixedVector.size cv)) as [Hlt|Hge]; cbn [negb] in *;
      [|injection E as <-; by exists pv, w, (l0 ++ l), (i0 ++ ids)]); [done|].
  rewrite Sc, zlen_app in Hlt. rewrite zlen_app in Hle. destruct l as [|cl l]; [rewrite zlen_nil in Hlt; lia|].
  rewrite zlen_cons in *. pose proof (zlen_nonneg l). pose proof (zlen_nonneg l0).
  pose proof (mi_len _ _ _ _ Hm) as Hlen. rewrite !length_app in Hlen. destruct ids as [|o ids]; [cbn in Hlen; lia|].
  assert (Hz : zlen i0 = zlen l0) by (unfold zlen; by rewrite Hl).
  rewrite (front_at cv l0 cl l Hc) in E. cbn [res_bind deref of_option] in E.
  destruct (front_mirrored _ _ _ _ _ _ _ _ Hl Hm) as [_ Ea].
  assert (Hat : FixedVector.at_ pv (zlen l0) = Ok (Some o)) by (rewrite <- Hz; by eapply front_at).
  wpure Hat. rewrite wsome. wrun (at_gets o _ w _ Ea). destruct (is_closed (snd cl)).
  - destruct (remove_here_value cv l0 cl l Hc) as (cv1 & cv2 & E1 & E2 & Hc2). rewrite E1 in E. cbn [res_bind] in E. rewrite E2 in E.
    cbn [res_bind] in E. destruct (remove_here pv i0 o ids w Hp) as (pv2 & Ew & Hp2). rewrite Hz, Hsz in Ew. rewrite wbind_assoc. wrun Ew.
    destruct (IH (u32 (removed + 1)) tr (drop_world w o) cv2 pv2 l0 i0 (moved l) (moved ids) r Hc2 Hp2 Hl) as (pv' & w' & l' & ids' & Hrest);
      [by eapply drop_mirrors|exact E|]. exists pv', w', l', ids'. split_and!; try apply Hrest.
    destruct Hrest as (_ & _ & _ & _ & Hsub). intros o1 Ho1. specialize (Hsub o1 Ho1). revert Hsub.
    rewrite moved_Permutation, !elem_of_app, elem_of_cons. tauto.
  - rewrite u32_small in * by lia. replace (zlen l0 + 1) with (zlen (l0 ++ [cl])) in * by (by rewrite zlen_app).
    destruct (IH removed tr w cv pv (l0 ++ [cl]) (i0 ++ [o]) l ids r) as (pv' & w' & l' & ids' & Hrest);
      [by rewrite <- app_assoc|by rewrite <- app_assoc|by rewrite !length_app, Hl|by rewrite <- !app_assoc|done|].
    exists pv', w', l', ids'. by rewrite <- app_assoc in Hrest.
Qed.

(** ** Servers *)

(** The server [s] with a vector of pointers. *)
Definition with_ptrs s (v : pvec) : reactor :=
  mk_server (server_sock_ s) (is_running_ s) (use_writev_ s) v (max_connections_ s) (poll_timeout_ms_ s)
    (poll_fds_ s) (stats_ s) private_application (next_conn_id s) (tcp_tuning_ s) (calls_ s).

Record refines (v : pvec) w s ids l tr : Prop := {
  rf_ids : points_to v ids;
  rf_clients : points_to (connections_ s) l;
  rf_mirrors : mirrors tr w ids l;
  rf_cbs : callbacks_ s = cbs;
  rf_past : Forall (fun x : Entry Sock => x.1.2 < next_conn_id s) tr;
  rf_below : Forall (fun o => o < next_conn_id s) ids;
}.

Lemma refines_size v w s ids l tr : refines v w s ids l tr -> FixedVector.size v = zlen l /\ FixedVector.size (connections_ s) = zlen l.
Proof using Type.
  intros [Hv Hc Hm _ _ _]. destruct (points_to_size _ _ Hv) as [-> _], (points_to_size _ _ Hc) as [-> _].
  split; [|done]. unfold zlen. by rewrite (mi_len _ _ _ _ Hm).
Qed.

(** Fields that do not matter to the relation. *)
Lemma refines_fields v w s s' ids l tr :
  connections_ s' = connections_ s -> callbacks_ s' = callbacks_ s -> next_conn_id s' = next_conn_id s ->
  refines v w s ids l tr -> refines v w s' ids l tr.
Proof using Type. intros Ec Eb En [Hv Hc Hm Hcb Hp Hb]. split; rewrite ?Ec, ?Eb, ?En; done. Qed.

Lemma past_events n tr : Forall (fun x : Entry Sock => x.1.2 < n) tr -> events_of n tr = [].
Proof using Type. induction 1 as [|x tr Hx _ IH]; [done|]. cbn. rewrite decide_False by lia. exact IH. Qed.

(** A connection is added under a fresh key. *)
Lemma fresh_mirrors tr w ids l n c :
  mirrors tr w ids l -> Forall (fun x : Entry Sock => x.1.2 < n) tr -> Forall (fun o => o < n) ids -> kept n [] c ->
  mirrors tr (mk_world (<[n := c]> (alive w)) (app_state w)) (ids ++ [n]) (l ++ [(cbs, c)]).
Proof using Type.
  intros [Hnd Hlen Hat Htold Honly Hst] Hp Hb Hk. rewrite Forall_forall in Hb.
  assert (Hni : n ∉ ids) by (intros Hin; specialize (Hb n Hin); lia).
  split; [|by rewrite !length_app, Hlen| |done| |done].
  - apply NoDup_app. split_and!; [done| |apply NoDup_singleton]. by intros o Ho ->%list_elem_of_singleton.
  - intros j o cl Ho Hcl. cbn [alive]. apply lookup_app_Some in Ho as [Ho|[Hj Ho]].
    + assert (Hol : (j < length l)%nat) by (rewrite <- Hlen; by eapply lookup_lt_Some). rewrite lookup_app_l in Hcl by done.
      destruct (Hat j o cl Ho Hcl) as (? & ? & ?). rewrite lookup_insert_ne; [done|]. intros ->. by apply Hni; eapply list_elem_of_lookup_2.
    + rewrite Hlen in Ho, Hj. rewrite lookup_app_r in Hcl by done. remember (j - length l)%nat as k eqn:Ek. destruct k; [|done].
      injection Ho as <-. change (@length (Callbacks Sock * Connection Sock) l) with (@length (Client Sock) l) in Hcl. rewrite <- Ek in Hcl.
      injection Hcl as <-. cbn. rewrite lookup_insert_eq, past_events by done. done.
  - intros o. cbn. rewrite lookup_insert_is_Some', elem_of_app, list_elem_of_singleton.
    intros [<-|Ho]; [by right|left; by apply Honly].
Qed.

Lemma accept_refines v w s ids l tr tk r s' :
  refines v w s ids l tr -> next_conn_id s + 1 < 2 ^ 64 -> 0 <= next_conn_id s -> accept_connection s tk = Ok (r, s') ->
  exists v' w' xi xl, SharedSrv.accept_connection (with_ptrs s v) tk w = Ok ((r, with_ptrs s' v'), w')
    /\ refines v' w' s' (ids ++ xi) (l ++ xl) tr /\ length xi = length xl
    /\ use_writev_ s' = use_writev_ s /\ poll_fds_ s' = poll_fds_ s /\ next_conn_id s <= next_conn_id s' <= next_conn_id s + 1
    /\ is_running_ s' = is_running_ s.
Proof using Type.
  intros Hr Hid H0id E. destruct (refines_size _ _ _ _ _ _ Hr) as [Sv Sc]. pose proof Hr as [Hv Hc Hm Hcb Hp Hb].
  unfold accept_connection, SharedSrv.accept_connection, FixedVector.full in *. unfold FixedVector.size in *.
  cbn [with_ptrs connections_ max_connections_]. rewrite Sv. rewrite Sc in E.
  destruct ((_ <=? zlen l) || _) eqn:Eadm.
  { injection E as <- <-. exists v, w, [], []. rewrite !app_nil_r. split; [done|]. split_and!; try done. cbn. lia. }
  cbn [accept] in *. set (fd := fst (tk_accept tk)) in *. destruct (Z.ltb_spec fd 0).
  { destruct (negb (retryable _)); injection E as <- <-; exists v, w, [], []; rewrite !app_nil_r; (split; [done|]);
      split_and!; try done; cbn; lia. }
  apply orb_false_iff in Eadm as [_ H64]. apply Z.leb_gt in H64. cbn zeta in *. unfold FixedVector.push_back in *.
  assert (Hzi : zlen ids = zlen l) by (unfold zlen; by rewrite (mi_len _ _ _ _ Hm)).
  cbn [callbacks_ next_conn_id connections_ set_next_id prepare_accepted calling set_calls] in *.
  set (n := next_conn_id s) in *. rewrite Hcb in E. set (c := make_connection (env_of cbs _) n fd) in *.
  destruct (emplace_back_spec (connections_ s) _ (Some (cbs, c)) Hc) as (cv' & Ecv & Hcv).
  destruct (emplace_back_spec v _ (Some n) Hv) as (v' & Ev & Hv'). rewrite (zlen_fmap Some l) in Ecv, Hcv. rewrite (zlen_fmap Some ids), Hzi in Ev, Hv'.
  destruct (Z.ltb_spec (zlen l) 64); [|lia]. cbn [connections_ set_next_id callbacks_ prepare_accepted calling set_calls] in *. rewrite Ecv in E. injection E as <- <-.
  exists v', (mk_world (<[n := c]> (alive w)) (app_state w)), [n], [(cbs, c)].
  assert (Hc' : make_connection (SharedSrv.env_at (with_ptrs s v) (tk_os tk (-1))) n fd = c) by done.
  rewrite (wbind_ok _ _ w tt (mk_world (<[n := c]> (alive w)) (app_state w))) by done.
  cbn [set_next_id with_ptrs connections_ prepare_accepted calling set_calls]. wpure Ev. split; [done|]. pose proof (zlen_nonneg l).
  split; [|cbn; rewrite u64_small by lia; split_and!; lia || reflexivity].
  split; cbn; rewrite ?u64_small by lia.
  - unfold points_to. rewrite fmap_app. exact Hv'.
  - unfold points_to. rewrite fmap_app. exact Hcv.
  - apply fresh_mirrors; try done. split; [done|done|by left].
  - exact Hcb.
  - eapply Forall_impl; [exact Hp|]. cbn. lia.
  - apply Forall_app. split; [eapply Forall_impl; [exact Hb|]; cbn; lia|constructor; [lia|constructor]].
Qed.

Lemma listener_refines v w s ids l tr tk (b : bool) s' :
  refines v w s ids l tr -> next_conn_id s + 1 < 2 ^ 64 -> 0 <= next_conn_id s ->
  (if b then handle_listener s tk else Ok s) = Ok s' ->
  exists v' w' xi xl, (if b then SharedSrv.handle_listener (with_ptrs s v) tk else wret (with_ptrs s v)) w = Ok (with_ptrs s' v', w')
    /\ refines v' w' s' (ids ++ xi) (l ++ xl) tr /\ length xi = length xl
    /\ use_writev_ s' = use_writev_ s /\ poll_fds_ s' = poll_fds_ s /\ next_conn_id s <= next_conn_id s' <= next_conn_id s + 1
    /\ is_running_ s' = is_running_ s.
Proof using Type.
  intros Hr Hid H0id E.
  assert (Hnone : forall s1, connections_ s1 = connections_ s -> callbacks_ s1 = callbacks_ s -> next_conn_id s1 = next_conn_id s ->
    refines v w s1 (ids ++ []) (l ++ []) tr) by (intros s1 ? ? ?; rewrite !app_nil_r; by apply (refines_fields v w s)).
  destruct b; [|injection E as <-; exists v, w, [], []; split; [done|]; split; [by apply Hnone|split_and!; done || lia]].
  unfold handle_listener, SharedSrv.handle_listener in *. cbn [with_ptrs stats_ max_connections_].
  destruct (Stats.is_overloaded _ _).
  { injection E as <-. exists v, w, [], []. split; [done|]. split; [by apply Hnone|split_and!; done || (cbn; lia)]. }
  apply res_bind_Ok in E as ([r s1] & E & [= ->]).
  destruct (accept_refines _ _ _ _ _ _ _ _ _ Hr Hid H0id E) as (v' & w' & xi & xl & E' & Hrest). exists v', w', xi, xl.
  wrun E'. split; [done|exact Hrest].
Qed.

(** The removal, on a server whose connections have been handled. *)
Lemma remove_closed_refines v w s ids l tr s' :
  refines v w s ids l tr -> remove_closed_connections s = Ok s' ->
  exists v' w' ids' l', SharedSrv.remove_closed_connections (with_ptrs s v) w = Ok (with_ptrs s' v', w')
    /\ refines v' w' s' ids' l' tr /\ next_conn_id s' = next_conn_id s /\ is_running_ s' = is_running_ s.
Proof using Type.
  intros Hr E. destruct (refines_size _ _ _ _ _ _ Hr) as [Sv Sc]. pose proof Hr as [Hv Hc Hm Hcb Hp Hb].
  unfold remove_closed_connections, SharedSrv.remove_closed_connections in *. cbn [with_ptrs connections_].
  rewrite Sv. rewrite Sc in E. apply res_bind_Ok in E as ([cv removed] & E & Es).
  destruct (remove_refines (Z.to_nat (zlen l)) 0 tr w (connections_ s) v [] [] l ids (cv, removed)) as (v' & w' & l' & ids' & E' & Hc' & Hv' & Hm' & Hsub);
    [done|done|done|done|exact E|]. change (zlen []) with 0 in E'. wrun E'. cbn [fst snd] in *. injection Es as <-.
  assert (Hb' : Forall (fun o => o < next_conn_id s) ids').
  { apply Forall_forall. intros o Ho. rewrite Forall_forall in Hb. by apply Hb, Hsub. }
  exists v', w', ids', l'. destruct (0 <? removed); (split; [done|]); split; done.
Qed.

(** ** One iteration *)

Lemma prepare_refines v w s ids l tr r :
  refines v w s ids l tr -> prepare_poll s = Ok r ->
  SharedSrv.prepare_poll (with_ptrs s v) w = Ok (r, w) /\ Z.to_nat (snd r - 1) = length l.
Proof using Type.
  intros Hr E. destruct (refines_size _ _ _ _ _ _ Hr) as [Sv Sc]. pose proof Hr as [Hv Hc Hm _ _ _].
  unfold prepare_poll, SharedSrv.prepare_poll in *. cbn [with_ptrs poll_fds_ server_sock_ connections_] in *.
  apply res_bind_Ok in E as ([fds nfds] & Est & E). rewrite Sc in E. rewrite Sv. unfold zlen in *. rewrite Nat2Z.id in *.
  assert (nfds = 1) as -> by (unfold store_pollfd in Est; destruct (_ <? _); [by injection Est|done]).
  destruct (fill_refines (connections_ s) v tr w l [] [] ids fds 1 r Hc Hv eq_refl Hm E) as [Efill En].
  wpure Est. split; [exact Efill|]. rewrite En. unfold zlen. lia.
Qed.

(** The end of an iteration: the connections that [poll] reported, the
    timeouts, the removal; those accepted in this iteration ([xl]) wait. *)
Lemma tail_refines v w s ids xi l xl tr tk cv1 cv2 s' :
  refines v w s (ids ++ xi) (l ++ xl) tr -> length ids = length l ->
  io_loop (length l) 1 (use_writev_ s) tk (poll_fds_ s) (connections_ s) = Ok cv1 ->
  timeout_loop (Z.to_nat (FixedVector.size cv1)) 0 tk cv1 = Ok cv2 ->
  remove_closed_connections (set_connections s cv2) = Ok s' ->
  exists v' w' ids' l' tr',
    (SharedSrv.io_loop (length l) 1 (with_ptrs s v) tk ;+
     SharedSrv.timeout_loop (Z.to_nat (FixedVector.size (connections_ (with_ptrs s v)))) 0 (with_ptrs s v) tk ;+
     let+ t := SharedSrv.remove_closed_connections (with_ptrs s v) in wret (true, t)) w = Ok ((true, with_ptrs s' v'), w')
    /\ refines v' w' s' ids' l' tr' /\ next_conn_id s' = next_conn_id s /\ is_running_ s' = is_running_ s
    /\ (exists k, tr' = tr ++ k).
Proof using Hdiscreet.
  intros Hr Hlen Eio Eto Erm. pose proof Hr as [Hv Hc Hm Hcb Hp Hb]. rewrite Forall_forall in Hb.
  destruct (io_refines (with_ptrs s v) tk l [] [] ids xl xi tr w (connections_ s) cv1) as (tr1 & w1 & l1 & E1 & Hc1 & Hl1 & Hm1 & Hg1);
    [done|done|done|done|done|done|exact Eio|]. wrun E1. cbn [app] in *.
  destruct (points_to_size _ _ Hc1) as [S1 _]. destruct (points_to_size _ _ Hv) as [Sv _].
  cbn [with_ptrs connections_]. pose proof (mi_len _ _ _ _ Hm1) as Hlen1.
  replace (Z.to_nat (FixedVector.size cv1)) with (length (l1 ++ xl)) in Eto by (rewrite S1; unfold zlen; lia).
  replace (Z.to_nat (FixedVector.size v)) with (length (l1 ++ xl)) by (rewrite Sv; unfold zlen; rewrite Hlen1; lia).
  destruct (timeout_refines (with_ptrs s v) tk (l1 ++ xl) [] [] (ids ++ xi) tr1 w1 cv1 cv2) as (tr2 & w2 & l2 & E2 & Hc2 & Hl2 & Hm2 & Hg2);
    [done|done|done|done|done|exact Eto|]. wrun E2. cbn [app] in *.
  pose proof (grows_trans _ _ _ _ Hg1 Hg2) as (k & Ek & Hk).
  assert (Hr2 : refines v w2 (set_connections s cv2) (ids ++ xi) l2 tr2).
  { split; [done|done|done|done| |by apply Forall_forall]. rewrite Ek. apply Forall_app. split; [done|].
    eapply Forall_impl; [exact Hk|]. cbn. intros x. apply Hb. }
  destruct (remove_closed_refines _ _ _ _ _ _ _ Hr2 Erm) as (v' & w' & ids' & l' & E3 & Hr' & Hn & Hrun).
  exists v', w', ids', l', tr2. split; [|split_and!; [done|done|done|by exists k]]. erewrite wbind_ok; [|exact E3]. done.
Qed.

Lemma run_iter_refines v w s ids l tr tk go s' :
  refines v w s ids l tr -> 0 <= next_conn_id s -> next_conn_id s + 1 < 2 ^ 64 -> run_iter s tk = Ok (go, s') ->
  exists v' w' ids' l' tr', SharedSrv.run_iter (with_ptrs s v) tk w = Ok ((go, with_ptrs s' v'), w')
    /\ refines v' w' s' ids' l' tr' /\ next_conn_id s <= next_conn_id s' <= next_conn_id s + 1.
Proof using Hdiscreet.
  intros Hr H0 Hid E. unfold run_iter in E. apply res_bind_Ok in E as ([fds nfds] & Ep & E).
  destruct (prepare_refines _ _ _ _ _ _ _ Hr Ep) as [Ep' Hn]. unfold SharedSrv.run_iter. wrun Ep'.
  destruct (tk_poll tk _) as [ret rev]. cbv zeta in E. cbn [snd] in Hn.
  set (s1 := set_poll_fds s (set_revents fds rev)) in *. set (s2 := set_stats s1 _) in *.
  assert (Hr2 : refines v w s2 ids l tr) by (by apply (refines_fields v w s)).
  change (set_stats (set_poll_fds (with_ptrs s v) (set_revents fds rev)) _) with (with_ptrs s2 v).
  destruct (ret <? 0); [injection E as <- <-; exists v, w, ids, l, tr; split; [done|]; split; [done|cbn; lia]|].
  destruct (ret =? 0); [injection E as <- <-; exists v, w, ids, l, tr; split; [done|]; split; [done|cbn; lia]|].
  apply res_bind_Ok in E as (first & Ef & E). change (poll_fds_ (with_ptrs s2 v)) with (poll_fds_ s2).
  rewrite (wbind_ok _ _ _ _ _ (wlift_ok _ _ w Ef)). apply res_bind_Ok in E as (s3 & El & E).
  destruct (listener_refines _ _ _ _ _ _ _ _ _ Hr2 Hid H0 El) as (v3 & w3 & xi & xl & E3 & Hr3 & Hx & Hwv & Hfds & Hnext & _).
  wrun E3. apply res_bind_Ok in E as (cv1 & Eio & E). apply res_bind_Ok in E as (cv2 & Eto & E). apply res_bind_Ok in E as (s4 & Erm & [= <- <-]).
  rewrite Hn in *. destruct (tail_refines v3 w3 s3 ids xi l xl tr tk cv1 cv2 s4 Hr3) as (v' & w' & ids' & l' & tr' & Et & Hr' & Hn' & _);
    [by apply (mi_len tr w ids l), (rf_mirrors _ _ _ _ _ _ Hr)|done|done|done|].
  exists v', w', ids', l', tr'. split; [exact Et|]. split; [done|]. rewrite Hn'. exact Hnext.
Qed.

(** ** Whole runs *)

Lemma run_loop_refines ticks : forall v w s ids l tr s',
  refines v w s ids l tr -> 0 <= next_conn_id s -> next_conn_id s + zlen ticks < 2 ^ 64 -> run_loop ticks s = Ok s' ->
  exists v' w' ids' l' tr', SharedSrv.run_loop ticks (with_ptrs s v) w = Ok (with_ptrs s' v', w') /\ refines v' w' s' ids' l' tr'.
Proof using Hdiscreet.
  induction ticks as [|tk ticks IH]; intros v w s ids l tr s' Hr H0 Hid E; cbn [run_loop SharedSrv.run_loop] in *;
    change (is_running_ (with_ptrs s v)) with (is_running_ s); (destruct (is_running_ s); cbn [negb] in *;
      [|injection E as <-; by exists v, w, ids, l, tr]).
  { injection E as <-. by exists v, w, ids, l, tr. }
  rewrite zlen_cons in Hid. pose proof (zlen_nonneg ticks). apply res_bind_Ok in E as ([go s1] & E1 & E).
  destruct (run_iter_refines v w s ids l tr tk go s1) as (v1 & w1 & ids1 & l1 & tr1 & E1' & Hr1 & Hn); [done|done|lia|done|].
  wrun E1'. set (s2 := if tk_stop tk then stop s1 else s1) in *.
  assert (Hs2 : (if tk_stop tk then stop (with_ptrs s1 v1) else with_ptrs s1 v1) = with_ptrs s2 v1) by (unfold s2; by destruct (tk_stop tk)).
  cbv zeta. rewrite Hs2. assert (Hn2 : next_conn_id s2 = next_conn_id s1) by (unfold s2; by destruct (tk_stop tk)).
  assert (Hr2 : refines v1 w1 s2 ids1 l1 tr1) by (apply (refines_fields v1 w1 s1); try done; unfold s2; by destruct (tk_stop tk)).
  destruct go; [|injection E as <-; by exists v1, w1, ids1, l1, tr1].
  apply (IH _ _ _ _ _ _ _ Hr2); [lia|lia|exact E].
Qed.

(** The object behind each pointer of [ids] is the connection of [l], whose
    [id_] is its key; nothing else is alive. *)
Definition stands_for w ids l tr : Prop :=
  Forall2 (fun o (cl : Client Sock) => alive w !! o = Some (snd cl) /\ id_ (snd cl) = o /\ log_ (snd cl) = events_of o tr) ids l
  /\ (forall o, is_Some (alive w !! o) -> o ∈ ids).

Lemma mirrors_stands_for tr w ids l : mirrors tr w ids l -> stands_for w ids l tr.
Proof using Type.
  intros [_ Hlen Hat _ Honly _]. split; [|done]. apply Forall2_same_length_lookup. split; [done|]. intros i o cl Ho Hcl.
  by destruct (Hat i o cl Ho Hcl) as (_ & ? & [? ? _]).
Qed.

Lemma private_run sock max tuning ticks s' :
  zlen ticks < 2 ^ 63 -> run (set_tcp_tuning (set_max_connections (make_server sock cbs) max) tuning) ticks = Ok s' ->
  exists v' w' ids' tr',
    SharedSrv.run (set_tcp_tuning (set_max_connections (make_server sock private_application) max) tuning) ticks (mk_world ∅ st0) = Ok (with_ptrs s' v', w')
    /\ points_to v' ids' /\ stands_for w' ids' (clients s') tr' /\ app_state w' = observe_all observe tr' st0
    /\ forall o, told (events_of o tr').
Proof using Hdiscreet.
  intros Hn E. set (s0 := set_tcp_tuning (set_max_connections (make_server sock cbs) max) tuning) in *.
  assert (Hr0 : refines FixedVector.make (mk_world ∅ st0) (set_stats (set_running s0 true) (Stats.reset (stats_ s0))) [] [] []).
  { split; cbn; try done; try (apply make_holds; lia). split; cbn; try done; [constructor| |].
    - intros o. by exists (ConnectionProtocol.Fresh, false), [].
    - intros o [? Ho]. by rewrite lookup_empty in Ho. }
  destruct (run_loop_refines ticks _ _ _ _ _ _ s' Hr0) as (v' & w' & ids' & l' & tr' & E' & [Hv Hc Hm _ _ _]); [done| |exact E|].
  { cbn. lia. }
  exists v', w', ids', tr'. split; [exact E'|]. rewrite (clients_eq s' l' Hc).
  split_and!; [done|by apply mirrors_stands_for|apply Hm|apply Hm].
Qed.

End refine.

(** C11: the server with pointers refines the server with values: when the
    callbacks use their own connection and the application's state only,
    whatever a whole run of the latter returns, the former returns with the
    same fields (poll array, statistics, bound, next identifier and the
    calls on accepted descriptors included); the object behind each pointer is the connection at that
    place, nothing else is still alive, and the application's state is its
    first one taken through one history [tr] of callbacks, of which every
    connection's own history is the part that belongs to it; and the part of
    every connection there has ever been, alive or not, follows the callback
    protocol. *)
Theorem private_server_refines {Sock App} `{TcpSocket Sock} {target : Target} observe (cbs : Callbacks Sock) (st0 : App) sock max tuning ticks s' :
  (forall env o, cb env = cbs -> discreet observe env o) -> zlen ticks < 2 ^ 63 ->
  run (set_tcp_tuning (set_max_connections (make_server sock cbs) max) tuning) ticks = Ok s' ->
  exists v w ids tr,
    SharedSrv.run (set_tcp_tuning (set_max_connections (make_server sock (private_application observe cbs)) max) tuning) ticks (mk_world ∅ st0)
      = Ok (with_ptrs observe cbs s' v, w)
    /\ points_to v ids /\ stands_for w ids (clients s') tr /\ app_state w = observe_all observe tr st0
    /\ forall o, told cbs (events_of o tr).
Proof. intros Hd Hn E. by apply private_run. Qed.

(** ** Evaluated example *)
#[local] Existing Instances Demo.socket_tcp Demo.socket_laws.
#[local] Instance demo_target : Target := true.

(** An application that counts its callbacks: a client connects and sends
    its request. *)
Definition count_events (_ : Env Demo.Socket) (_ : Z) (_ : Event) (n : Z) : Z := n + 1.
Definition two_rounds : list (Tick Demo.Socket) := [tick_accept; tick_request].
Definition echo_server : Server Demo.Socket := set_max_connections (make_server 3 EchoServer.callbacks) 50.
Definition counting_server : ServerOf Z (SharedSrv.Application Demo.Socket Z) :=
  set_tcp_tuning (set_max_connections (make_server 3 (private_application count_events EchoServer.callbacks)) 50)
    Sockets.SocketSetup.default_tuning.

Lemma counting_discreet (env : Env Demo.Socket) o : cb env = EchoServer.callbacks -> discreet count_events env o.
Proof. intros Ecb. apply sends_discreet. split; rewrite Ecb; intros; simplify_eq/=; by repeat constructor. Qed.

Lemma counted :
  match SharedSrv.run counting_server two_rounds (mk_world ∅ 0) with Ok (_, w) => app_state w | _ => 0 end = 1.
Proof. vm_compute. reflexivity. Qed.
Lemma echo_server_runs : match run echo_server two_rounds with Ok _ => true | _ => false end = true.
Proof. vm_compute. reflexivity. Qed.

Lemma private_server_refines_witness :
  exists s v w ids tr, run echo_server two_rounds = Ok s
    /\ SharedSrv.run counting_server two_rounds (mk_world ∅ 0) = Ok (with_ptrs count_events EchoServer.callbacks s v, w)
    /\ stands_for w ids (clients s) tr /\ app_state w = 1.
Proof.
  pose proof echo_server_runs as Hok. destruct (run echo_server two_rounds) as [s| |] eqn:E; [|discriminate Hok|discriminate Hok].
  destruct (private_server_refines count_events EchoServer.callbacks 0 3 50 Sockets.SocketSetup.default_tuning two_rounds s) as (v & w & ids & tr & Er & _ & Hst & _ & _).
  - exact counting_discreet.
  - vm_compute. reflexivity.
  - exact E.
  - exists s, v, w, ids, tr. split; [done|]. split; [exact Er|]. split; [exact Hst|].
    pose proof counted as Hc. unfold counting_server in Hc. rewrite Er in Hc. exact Hc.
Defined.
