(* ===== verification/ConnectionFlush.v ===== *)
(** * ConnectionFlush: queued bytes reach the wire

    Only the two write handlers hand bytes to the socket ([dry] is
    everything else), and each time the reactor finds the socket writable
    they hand over at least one, if the kernel takes any.  So what is
    queued leaves within as many rounds as there are bytes, unless the
    connection is closed before: the reactor then drops it with what is
    left. *)
From S2P Require Import Prelude Vocabulary RingBuffer Frame Connection ConnectionApi ConnectionInv ConnectionFrames Handshake ConnectionIo Fixes ConnectionProtocol Server Pointers ServerProofs.
Open Scope ewss_scope.
Import Conn Handlers Ws Srv.

(** ** What hands nothing to the socket *)

Abbreviation dry := (fixes wire_).

Section steps.
Context {Sock : Type} `{TcpSocket Sock} {target : Target}.
Variable env : Env Sock.

Section body.
Variable run_body : list ApiCall -> M Sock unit.
Hypothesis Hbody : forall calls, dry (run_body calls).
#[local] Hint Resolve Hbody : fixes.

Lemma dry_fire ev f : dry (fire run_body ev f).
Proof. unfold fire. fixing. Qed.
#[local] Hint Resolve dry_fire : fixes.
Lemma dry_transition st : dry (transition_to_state env run_body st).
Proof. unfold transition_to_state. fixing. Qed.
#[local] Hint Resolve dry_transition : fixes.
Lemma dry_close code : dry (close env run_body code).
Proof. unfold close. fixing. Qed.
Lemma dry_send payload binary : dry (send_impl env run_body payload binary).
Proof. unfold send_impl, check_high_watermark, when. fixing. Qed.
#[local] Hint Resolve dry_close dry_send : fixes.
Lemma dry_exec_call call : dry (exec_call env run_body call).
Proof. unfold exec_call, send, send_binary. fixing. Qed.
Lemma dry_iter : dry (parse_frames_iter env run_body).
Proof. unfold parse_frames_iter, dispatch_frame. fixing. Qed.
#[local] Hint Resolve dry_iter : fixes.
Lemma dry_on_data s : dry (ops_on_data (state_ops env run_body s)).
Proof.
  assert (Hl : forall fuel, dry (parse_frames_loop env run_body fuel)).
  { induction fuel as [|n IH]; cbn [parse_frames_loop]; [apply fixes_lift|].
    apply fixes_bind; [apply dry_iter|intros []; [exact IH|apply fixes_ret]]. }
  destruct s; cbn [state_ops ops_on_data kHandshakeOps kOpenOps kClosingOps kClosedOps].
  - unfold handshake_on_data. fixing.
  - unfold open_on_data. apply fixes_bind; [apply Hl|fixing].
  - unfold closing_on_data, when. fixing.
  - unfold closed_on_data. fixing.
Qed.

End body.

Lemma dry_run_callback calls : dry (run_callback env calls).
Proof.
  assert (Hd : forall depth calls, dry (run_calls env depth calls)); [|apply Hd].
  induction depth as [|d IHd]; intros l; cbn [run_calls]; [destruct l; fixing|].
  induction l as [|call l IHl]; cbn [foldr]; [fixing|]. apply fixes_bind; [by apply dry_exec_call|intros ?; exact IHl].
Qed.

Lemma dry_handle_read : dry (handle_read env (run_callback env)).
Proof.
  unfold handle_read, touch_activity. apply fixes_bind; [fixing|intros iov]. destruct (_ =? 0); [fixing|].
  apply fixes_bind; [|intros res; fixing; apply dry_on_data, dry_run_callback].
  apply fixes_step. intros c r c' E. cbv zeta in E. destruct (sys_readv env _ _ _). by injection E as <- <-.
Qed.

Lemma dry_conn_close code : dry (close env (run_callback env) code).
Proof. apply dry_close, dry_run_callback. Qed.

End steps.

(** ** Writing takes something *)

(** The kernel takes at least one byte of whatever an open socket is given. *)
Definition takes_some {Sock} `{TcpSocket Sock} (os : Os Sock) : Prop :=
  forall sock data, sock_is_open sock = true -> data <> [] ->
    0 < sys_n (os_writev os (sock_handle sock) data) /\ exists n, os_write os sock data = inl n /\ 0 < n.

Section writes.
Context {Sock : Type} `{TcpSocketLaws Sock} {target : Target}.
Implicit Types (c : Connection Sock) (cl : Client Sock).

(** Bytes went to the wire; at least one, if [some] and there was any. *)
Definition handed_over (some : bool) c c' : Prop :=
  exists more, wire_ c' = wire_ c ++ more /\ (some = true -> tx_list c <> [] -> more <> []).

Lemma taken_over (some : bool) c c' n :
  (some = true -> 0 < n) -> wire_ c' = wire_ c ++ take (Z.to_nat n) (tx_list c) -> handed_over some c c'.
Proof.
  intros Hn E. exists (take (Z.to_nat n) (tx_list c)). split; [done|]. intros Hs%Hn Hne Et. apply Hne.
  destruct (tx_list c); [done|]. destruct (Z.to_nat n) eqn:En; [lia|done].
Qed.

Lemma dry_over c c' : wire_ c' = wire_ c -> handed_over false c c'.
Proof. intros E. exists []. by rewrite app_nil_r. Qed.

(** What a write has done, if the socket takes something when it is open. *)
Lemma wrote_over (some : bool) c answer r c' :
  wrote c answer r c' -> (some = true -> tx_list c <> [] -> exists n, answer = Took n /\ 0 < n) ->
  conn_ok c' /\ evolves c c' /\ handed_over some c c'.
Proof.
  intros (Hok & Hev & Hr) Ha. split_and!; [done|done|]. unfold write_result in Hr. case_bool_decide as Et.
  { destruct Hr as [_ ->]. exists []. by rewrite app_nil_r. }
  assert (Hno : (forall n, answer <> Took n) -> wire_ c' = wire_ c -> handed_over some c c').
  { intros Hnot E. exists []. rewrite app_nil_r. split; [done|]. intros Hs Hne. destruct (Ha Hs Hne) as (n & -> & _). by destruct (Hnot n). }
  destruct answer as [n| |].
  - destruct Hr as (_ & _ & _ & Ew & _). apply (taken_over some c c' n); [|done]. intros Hs.
    by destruct (Ha Hs Et) as (? & [= <-] & ?).
  - apply Hno; [done|]. by destruct Hr as [_ ->].
  - apply Hno; [done|]. by destruct Hr as [_ ->].
Qed.

(** Both write handlers, when the kernel takes something. *)
Lemma write_takes (v : bool) cbs os c :
  conn_ok c -> os_bounded os -> takes_some os ->
  let env := env_of cbs os in
  wp (if v then handle_write_vectored env (run_callback env) else handle_write env (run_callback env))
    (fun r c' => conn_ok c' /\ evolves c c' /\ handed_over (sock_is_open (socket_ c)) c c') c.
Proof.
  intros Hok Hb Ht env. destruct (Hb cbs c) as [Hb1 Hb2]. fold env in Hb1, Hb2. destruct v.
  - eapply wp_mono; [by apply handle_write_vectored_spec|]. intros r c' Hw. apply (wrote_over _ c _ r c' Hw).
    intros Ho Hne. destruct (Ht _ (tx_list c) Ho Hne) as [Hpos _]. unfold writev_answer. cbn [env env_of sys_writev]. cbv zeta.
    destruct (Z.ltb_spec 0 (sys_n (os_writev os (sock_handle (socket_ c)) (tx_list c)))); [|lia]. by eexists.
  - eapply wp_mono; [by apply handle_write_spec|]. intros r c' Hw. apply (wrote_over _ c _ r c' Hw).
    intros Ho Hne. set (temp := take (Z.to_nat kTempReadSize) (tx_list c)). assert (Hnt : temp <> []).
    { unfold temp. intros Et. apply Hne. destruct (tx_list c); [done|]. unfold kTempReadSize in Et. discriminate Et. }
    destruct (Ht _ temp Ho Hnt) as [_ (n & En & Hn)]. unfold write_answer. cbn [env env_of sock_write]. fold temp. rewrite En. by eexists.
Qed.

(** ** Rounds *)

Lemma over_trans b1 b2 c c1 c2 :
  evolves c c1 -> handed_over b1 c c1 -> handed_over b2 c1 c2 -> handed_over (b1 || b2) c c2.
Proof.
  intros Hev (m1 & E1 & H1) (m2 & E2 & H2). exists (m1 ++ m2). split; [by rewrite E2, E1, app_assoc|].
  intros Hb Hne [-> ->]%app_eq_nil. apply orb_true_iff in Hb as [Hb|Hb]; [by apply H1|]. apply H2; [done| |done].
  rewrite app_nil_r in E1. destruct (ev_stream _ _ Hev) as [t Et]. unfold stream in Et. rewrite E1, <- app_assoc in Et.
  apply app_inv_head in Et. rewrite Et. by destruct (tx_list c).
Qed.

Lemma close_over os cl :
  conn_ok (snd cl) -> exists cl', conn_close os cl = Ok cl' /\ client_step cl cl' /\ handed_over false (snd cl) (snd cl').
Proof.
  intros Hok. destruct (conn_close_spec os cl Hok) as (cl' & E & Hs & _). exists cl'. split_and!; [done|done|].
  apply dry_over. unfold conn_close, call in E.
  destruct (close (env_of (fst cl) os) (run_callback (env_of (fst cl) os)) 1000 (snd cl)) as [[[] c']| |] eqn:Ec; [|done|done].
  injection E as <-. exact (dry_conn_close _ _ _ _ _ Ec).
Qed.

(** A phase of [handle_connection_io], or nothing. *)
Lemma phase_over (b some : bool) os (m : Env Sock -> M Sock expected) cl :
  conn_ok (snd cl) ->
  (b = true -> wp (m (env_of (fst cl) os)) (fun _ c' => conn_ok c' /\ evolves (snd cl) c' /\ handed_over some (snd cl) c') (snd cl)) ->
  exists cl', (if b then let! (r, cl) := call os m cl in
                 if negb (ExpectedVoid.has_value r) then conn_close os cl else Ok cl
               else Ok cl) = Ok cl' /\ client_step cl cl' /\ handed_over (b && some) (snd cl) (snd cl').
Proof.
  intros Hok Hm. destruct b; [|exists cl; split_and!; [done|by apply client_step_refl|by apply dry_over]].
  destruct (call_spec os m cl _ (Hm eq_refl)) as (r & cl1 & -> & E1 & Hok1 & Hev1 & Ho1). cbn [res_bind andb].
  assert (client_step cl cl1) by (by split_and!). destruct (negb _); [|by exists cl1].
  destruct (close_over os cl1 Hok1) as (cl2 & -> & Hs & Ho). exists cl2. split_and!; [done|by eapply client_step_trans|].
  rewrite <- (orb_false_r some). by eapply over_trans.
Qed.

(** A round in which the connection can be written if it has anything to
    write: [prepare_poll] asks for [POLLOUT] exactly then. *)
Record writable_round (os : Os Sock) (pfd : pollfd) cl : Prop := {
  wr_bounded : os_bounded os;
  wr_takes : takes_some os;
  wr_read : has_event (pfd_revents pfd) POLLIN = true -> exists data, read_fine (env_of (fst cl) os) (snd cl) data;
  wr_out : has_data_to_send (snd cl) = true -> has_event (pfd_revents pfd) POLLOUT = true;
}.

(** A closed connection stays closed, and an open one has an open socket. *)
Lemma closed_stays cl cl' : conn_ok (snd cl) -> client_step cl cl' -> client_closed cl = true -> client_closed cl' = true.
Proof.
  intros Hok (_ & Hok' & Hev). unfold client_closed. rewrite !is_closed_ok by done. intros E.
  pose proof (ev_rank _ _ Hev) as R. rewrite E in R. destruct (ops_ (snd cl')); cbn in R; lia || done.
Qed.
Lemma unclosed_open cl : client_closed cl = false -> sock_is_open (socket_ (snd cl)) = true.
Proof. unfold client_closed, is_closed. intros [Ho _]%orb_false_iff. by apply negb_false_iff. Qed.

Lemma no_data c : conn_ok c -> has_data_to_send c = false -> tx_list c = [].
Proof.
  intros Hok He. unfold has_data_to_send, Ring.empty, Ring.size in He. apply negb_false_iff, Z.eqb_eq in He.
  pose proof (contents_length _ (ok_tx _ Hok)) as Hl. rewrite He in Hl. unfold zlen in Hl.
  apply length_zero_iff_nil. lia.
Qed.

Lemma io_over w os pfd cl :
  conn_ok (snd cl) -> writable_round os pfd cl ->
  exists cl', handle_connection_io w os pfd cl = Ok cl' /\ client_step cl cl'
    /\ handed_over (negb (client_closed cl')) (snd cl) (snd cl').
Proof.
  intros Hok [Hb Ht Hrd Hout]. unfold handle_connection_io.
  destruct (phase_over (has_event (pfd_revents pfd) POLLIN) false os (fun env => handle_read env (run_callback env)) cl Hok)
    as (cl1 & -> & Hs1 & Ho1).
  { intros Hin. destruct (Hrd Hin) as (data & Hr & Hnw). pose proof (handle_read_spec (env_of (fst cl) os) (snd cl) data Hok Hr Hnw) as Hwp.
    apply wp_run in Hwp as (r & c' & E & Hok' & Hev & _). apply wp_run. exists r, c'. split_and!; try done.
    apply dry_over. exact (dry_handle_read _ _ _ _ E). }
  rewrite andb_false_r in Ho1. cbn [res_bind].
  destruct (phase_over (has_event (pfd_revents pfd) POLLOUT) (sock_is_open (socket_ (snd cl1))) os
    (fun env => if w then handle_write_vectored env (run_callback env) else handle_write env (run_callback env)) cl1)
    as (cl2 & -> & Hs2 & Ho2); [apply Hs1|intros _; apply write_takes; [apply Hs1|done|done]|].
  cbn [res_bind]. pose proof (over_trans _ _ _ _ _ (proj2 (proj2 Hs1)) Ho1 Ho2) as Ho02.
  pose proof (client_step_trans _ _ _ Hs1 Hs2) as Hs02. cbn [orb] in Ho02.
  assert (Hend : exists cl3, (if has_event (pfd_revents pfd) (Z.lor POLLERR POLLHUP) then conn_close os cl2 else Ok cl2) = Ok cl3
    /\ client_step cl2 cl3 /\ handed_over false (snd cl2) (snd cl3)).
  { destruct (has_event _ (Z.lor _ _)); [by apply close_over; apply Hs02|]. exists cl2.
    split_and!; [done|apply client_step_refl, Hs02|by apply dry_over]. }
  destruct Hend as (cl3 & E & Hs3 & Ho3). exists cl3. split; [done|].
  pose proof (client_step_trans _ _ _ Hs02 Hs3) as Hs03. split; [done|].
  pose proof (over_trans _ _ _ _ _ (proj2 (proj2 Hs02)) Ho02 Ho3) as (more & Em & Hm). rewrite orb_false_r in Hm.
  exists more. split; [done|]. intros Hn%negb_true_iff Hne. apply Hm; [|done]. apply andb_true_iff. split.
  - apply Hout. destruct (has_data_to_send (snd cl)) eqn:Ed; [done|]. by destruct Hne; apply no_data.
  - apply unclosed_open, not_true_is_false. intros Hc. apply (closed_stays cl1 cl3) in Hc; [congruence|apply Hs1|].
    by apply (client_step_trans _ cl2).
Qed.

(** What the reactor does to a connection in [n] such rounds, and in the
    timeout passes between them; one that is closed at the end of a round is
    dropped, so it sees no other. *)
Inductive rounds : nat -> Client Sock -> Client Sock -> Prop :=
| rounds_start cl : rounds 0 cl cl
| rounds_io n cl cl1 cl2 w os pfd : rounds n cl cl1 -> client_closed cl1 = false -> writable_round os pfd cl1 ->
    handle_connection_io w os pfd cl1 = Ok cl2 -> rounds (S n) cl cl2
| rounds_late n cl cl1 cl2 os : rounds n cl cl1 -> conn_close os cl1 = Ok cl2 -> rounds n cl cl2.

Lemma rounds_step n cl cl' : conn_ok (snd cl) -> rounds n cl cl' -> client_step cl cl'.
Proof.
  intros Hok Hr. induction Hr as [cl|n cl cl1 cl2 w os pfd _ IH _ Hw E|n cl cl1 cl2 os _ IH E]; [by apply client_step_refl|..];
    specialize (IH Hok); (eapply client_step_trans; [exact IH|]).
  - destruct (io_over w os pfd cl1) as (cl3 & E3 & Hs & _); [apply IH|done|]. congruence.
  - destruct (close_over os cl1) as (cl3 & E3 & Hs & _); [apply IH|]. congruence.
Qed.

(** Of a connection that is not closed. *)
Lemma rounds_over n cl cl' :
  conn_ok (snd cl) -> rounds n cl cl' -> client_closed cl' = false ->
  zlen (stream (snd cl)) <= zlen (wire_ (snd cl')) \/ zlen (wire_ (snd cl)) + Z.of_nat n <= zlen (wire_ (snd cl')).
Proof.
  intros Hok Hr. induction Hr as [cl|n cl cl1 cl2 w os pfd Hr IH Hc1 Hw E|n cl cl1 cl2 os Hr IH E]; intros Hc.
  - right. cbn [Z.of_nat]. lia.
  - pose proof (rounds_step n cl cl1 Hok Hr) as Hs.
    destruct (io_over w os pfd cl1) as (cl3 & E3 & _ & more & Em & Hm); [apply Hs|done|].
    assert (cl3 = cl2) as -> by congruence. rewrite Hc in Hm. cbn [negb] in Hm. rewrite Em, zlen_app.
    pose proof (zlen_nonneg more). destruct (IH Hok Hc1) as [Hl|Hl]; [left; lia|].
    destruct (tx_list (snd cl1)) as [|b t] eqn:Et.
    + left. destruct (ev_stream _ _ (proj2 (proj2 Hs))) as [t Es]. assert (Ew : stream (snd cl1) = wire_ (snd cl1))
        by (unfold stream; by rewrite Et, app_nil_r). rewrite <- Ew, Es, zlen_app. pose proof (zlen_nonneg t). lia.
    + right. destruct more; [by destruct Hm|]. rewrite zlen_cons. pose proof (zlen_nonneg more). lia.
  - pose proof (rounds_step n cl cl1 Hok Hr) as Hs.
    destruct (close_over os cl1) as (cl3 & E3 & Hs3 & more & Em & _); [apply Hs|].
    assert (cl3 = cl2) as -> by congruence. assert (Hc1 : client_closed cl1 = false).
    { apply not_true_is_false. intros Hc1. apply (closed_stays cl1 cl2) in Hc1; [congruence|apply Hs|done]. }
    rewrite Em, zlen_app. pose proof (zlen_nonneg more). destruct (IH Hok Hc1); [left|right]; lia.
Qed.

(** C14: what is queued is sent, unless the connection is closed first: when
    the kernel takes at least one byte of what an open socket is given
    whenever it reports it writable, then after as many rounds as there were
    bytes in the queue the connection has been closed (by the peer, a
    callback, an error or its deadline; the reactor drops it, and what was
    left of the queue with it), or all of them are on the wire, in order,
    behind what was there before, whatever was read, queued or answered in
    the meantime.  A connection that is closing but not yet closed is still
    flushed. *)
Theorem queued_bytes_flushed n cl cl' :
  conn_ok (snd cl) -> rounds n cl cl' -> zlen (tx_list (snd cl)) <= Z.of_nat n ->
  client_closed cl' = true \/ exists more, wire_ (snd cl') = wire_ (snd cl) ++ tx_list (snd cl) ++ more.
Proof.
  intros Hok Hr Hn. destruct (client_closed cl') eqn:Hc; [by left|right].
  pose proof (rounds_step n cl cl' Hok Hr) as Hs. pose proof (rounds_over n cl cl' Hok Hr Hc) as Hlen.
  destruct (ev_stream _ _ (proj2 (proj2 Hs))) as [t Et].
  assert (Hle : zlen (stream (snd cl)) <= zlen (wire_ (snd cl'))) by (unfold stream in *; rewrite zlen_app in *; lia).
  exists (take (length (wire_ (snd cl')) - length (stream (snd cl))) t). rewrite app_assoc. fold (stream (snd cl)).
  assert (Ht : take (length (wire_ (snd cl'))) (stream (snd cl')) = wire_ (snd cl')) by (unfold stream; by rewrite take_app_length).
  rewrite Et, take_app, take_ge in Ht by (unfold zlen in Hle; lia). by rewrite <- Ht at 1.
Qed.

End writes.

(** ** Evaluated examples *)
#[local] Existing Instances Demo.socket_tcp Demo.socket_laws.
#[local] Instance demo_target : Target := true.

(** A kernel that takes one byte at a time, and three queued bytes. *)
Definition slow_os : Os Demo.Socket :=
  mk_os _ 5 (fun _ buf _ => (mk_sys 0 0, buf)) (fun _ data => mk_sys (Z.min 1 (zlen data)) 0) (fun _ data => inl (Z.min 1 (zlen data))).
Definition queued_conn : Connection Demo.Socket :=
  set_tx (Demo.conn_with kOpen []) (Ring.mk_ring ([1; 2; 3] ++ replicate (Z.to_nat 8189) 0) 0 3 3).

Lemma queued_conn_ok : conn_ok queued_conn.
Proof.
  destruct (Demo.conn_with_ok kOpen []) as [Hrx _ Hb _ _ _ _]; [cbn; lia|constructor|].
  split; [exact Hrx| |exact Hb|done|done|done|done]. by split.
Qed.

Lemma slow_bounded : os_bounded slow_os /\ takes_some slow_os.
Proof.
  assert (Hpos : forall data : bytes, data <> [] -> 0 < zlen data) by (intros [|b l] ?; [done|rewrite zlen_cons; pose proof (zlen_nonneg l); lia]).
  split; [intros cbs c; split; cbv [write_bounded writev_bounded]; cbn [env_of slow_os sock_write sys_writev os_write os_writev sys_n];
    [pose proof (zlen_nonneg (take (Z.to_nat kTempReadSize) (tx_list c)))|pose proof (zlen_nonneg (tx_list c))]; lia|].
  intros sock data _ Hd. specialize (Hpos data Hd). cbn. split; [lia|]. exists (Z.min 1 (zlen data)). split; [done|lia].
Qed.

(** A round in which one byte leaves. *)
Definition flush_step (cl : Client Demo.Socket) : Client Demo.Socket :=
  match handle_connection_io true slow_os (mk_pollfd 7 5 4) cl with Ok cl' => cl' | _ => cl end.

Lemma flush_rounds n cl cl1 :
  rounds n cl cl1 -> conn_ok (snd cl1) -> client_closed cl1 = false ->
  rounds (S n) cl (flush_step cl1) /\ conn_ok (snd (flush_step cl1)).
Proof.
  intros Hr Hok Hc. assert (Hw : writable_round slow_os (mk_pollfd 7 5 4) cl1)
    by (split; [exact (proj1 slow_bounded)|exact (proj2 slow_bounded)|discriminate|reflexivity]).
  destruct (io_over true slow_os (mk_pollfd 7 5 4) cl1 Hok Hw) as (cl' & E & Hs & _).
  unfold flush_step. rewrite E. split; [|apply Hs]. by eapply rounds_io.
Qed.

Lemma queued_bytes_flushed_witness :
  let cl := (Demo.echo_callbacks, queued_conn) in
  let cl' := flush_step (flush_step (flush_step cl)) in
  client_closed cl' = false /\ exists more, wire_ (snd cl') = [1; 2; 3] ++ more.
Proof.
  cbv zeta. destruct (flush_rounds 0 _ _ (rounds_start (Demo.echo_callbacks, queued_conn)) queued_conn_ok) as [Hr1 Hok1]; [vm_compute; reflexivity|].
  destruct (flush_rounds 1 _ _ Hr1 Hok1) as [Hr2 Hok2]; [vm_compute; reflexivity|].
  destruct (flush_rounds 2 _ _ Hr2 Hok2) as [Hr3 _]; [vm_compute; reflexivity|].
  assert (Hc : client_closed (flush_step (flush_step (flush_step (Demo.echo_callbacks, queued_conn)))) = false) by (vm_compute; reflexivity).
  split; [exact Hc|].
  destruct (queued_bytes_flushed 3 (Demo.echo_callbacks, queued_conn) _ queued_conn_ok Hr3) as [E|(more & E)].
  - vm_compute. discriminate.
  - rewrite Hc in E. discriminate E.
  - exists more. exact E.
Defined.
