(* ===== verification/BroadcastRun.v ===== *)
(** * BroadcastRun: the broadcast server's callbacks inside the reactor

    [Broadcast] shows what a broadcast does, given that callbacks run one
    after the other on some world.  Here they run where the code runs them:
    inside the frame loop and the other operations of the connection that
    triggered them.  An operation on one connection is [follow]ed step by
    step by the single-connection model, for an application that answers
    its messages with the broadcast text ([own_callbacks]); meanwhile the
    other connections receive exactly the texts, and the history of the
    callbacks is one that [Broadcast] allows. *)
From S2P Require Import Prelude Vocabulary RingBuffer Frame Numbers Connection Shared SharedOwn ConnectionApi ConnectionInv ConnectionFrames Handshake ConnectionIo Fixes ConnectionProtocol ConnectionSend Broadcast FixedVector Server SharedServer.
From stdpp Require Import gmap.
Open Scope Z_scope.
Open Scope ewss_scope.
Import Conn Handlers Ws Numbers Shared BroadcastServer.

(** ** What the server installs *)
Module BroadcastApp.
Section app.
Context {Sock : Type} `{TcpSocket Sock} {target : Target}.

Definition run_on (f : World Sock -> Res (World Sock)) : W Sock State unit :=
  fun w => let! w := f w in Ok (tt, w).

Definition bodies : SharedHandlers.Bodies Sock State :=
  SharedHandlers.mk_bodies
    (Some (fun _ o => run_on (fun w => Ok (on_connect o w))))
    (Some (fun env o msg => run_on (on_message env o msg)))
    (Some (fun _ o clean => run_on (on_close o clean)))
    None.

Definition application : SharedSrv.Application Sock State := SharedSrv.mk_application installed bodies.

End app.
End BroadcastApp.
Import BroadcastApp.

(** ** Texts *)

(** Several texts, one after the other. *)
Fixpoint sents {Sock} (texts : list bytes) (c c' : Connection Sock) : Prop :=
  match texts with
  | [] => c' = c
  | text :: texts => exists c1, sent text c c1 /\ sents texts c1 c'
  end.

Lemma sents_snoc {Sock} texts text (c c1 c2 : Connection Sock) :
  sents texts c c1 -> sent text c1 c2 -> sents (texts ++ [text]) c c2.
Proof.
  revert c. induction texts as [|t texts IH]; intros c; cbn.
  - intros ->. by exists c2.
  - intros (c' & Ht & Hts) H2. exists c'. split; [done|]. by apply IH.
Qed.

Section send.
Context {Sock : Type} `{TcpSocket Sock} {target : Target}.
Implicit Type c : Connection Sock.

(** Without [on_backpressure], [send] does not depend on how callbacks
    run. *)
Lemma send_quiet env1 env2 run1 run2 text :
  on_backpressure (cb env1) = None -> on_backpressure (cb env2) = None ->
  send (Sock := Sock) env1 run1 text = send env2 run2 text.
Proof. intros E1 E2. unfold send, send_impl, check_high_watermark. by rewrite E1, E2. Qed.

Lemma on_message_quiet env1 env2 o msg (w : World Sock) :
  on_backpressure (cb env1) = None -> on_backpressure (cb env2) = None ->
  on_message env1 o msg w = on_message env2 o msg w.
Proof.
  intros E1 E2. unfold on_message. destruct (alive w !! o) as [c|]; [|done]. cbn [of_option res_bind].
  assert (Hall : forall text l m, send_all env1 text l m = send_all env2 text l m).
  { intros text l. induction l as [|t l IH]; intros m; [done|]. cbn [send_all]. destruct (m !! t) as [ct|]; [|done].
    rewrite (send_quiet env1 env2 locked locked) by done. by destruct (send _ _ _ _) as [[? ?]| |]; [apply IH| |]. }
  by rewrite Hall.
Qed.

(** What [send_all] does to one connection. *)
Lemma send_all_exact env text targets : forall (m m' : gmap Z (Connection Sock)) o c,
  NoDup targets -> send_all env text targets m = Ok m' -> m !! o = Some c ->
  exists c', m' !! o = Some c' /\ if bool_decide (o ∈ targets) then send env locked text c = Ok (tt, c') else c' = c.
Proof.
  induction targets as [|t targets IH]; intros m m' o c Hnd E Eo; cbn [send_all] in E.
  { injection E as <-. exists c. done. }
  apply NoDup_cons in Hnd as [Hni Hnd]. destruct (m !! t) as [ct|] eqn:Et.
  - destruct (send env locked text ct) as [[[] ct']| |] eqn:Es; [|done|done]. cbn [res_bind] in E.
    destruct (decide (o = t)) as [->|Hne].
    + rewrite Et in Eo. injection Eo as ->.
      destruct (IH _ _ t ct' Hnd E) as (c' & Ec' & Hc'); [apply lookup_insert_eq|]. exists c'. split; [done|].
      rewrite bool_decide_eq_false_2 in Hc' by done. subst c'. rewrite bool_decide_eq_true_2; [done|by left].
    + destruct (IH _ _ o c Hnd E) as (c' & Ec' & Hc'); [by rewrite lookup_insert_ne|]. exists c'. split; [done|].
      rewrite (bool_decide_ext (o ∈ t :: targets) (o ∈ targets)); [done|rewrite elem_of_cons; naive_solver].
  - destruct (IH _ _ o c Hnd E Eo) as (c' & Ec' & Hc'). exists c'. split; [done|].
    rewrite (bool_decide_ext (o ∈ t :: targets) (o ∈ targets)); [done|].
    rewrite elem_of_cons. split; [intros [->|]; congruence|by right].
Qed.

End send.

(** ** Steps that the application does not notice *)

Definition tame {Sock A} (m : M Sock A) : Prop :=
  forall c, wlp m (fun _ c' => id_ c' = id_ c /\ log_ c' = log_ c
    /\ (Ring.wf (tx_buffer_ c) -> Ring.wf (tx_buffer_ c'))) c.

Create HintDb tame.

Section tame.
Context {Sock : Type} `{TcpSocket Sock} {target : Target}.
Implicit Type c : Connection Sock.

Lemma tame_bind {A B} (m : M Sock A) (k : A -> M Sock B) : tame m -> (forall a, tame (k a)) -> tame (bind m k).
Proof.
  intros Hm Hk c. apply wlp_bind. eapply wlp_mono; [apply Hm|]. intros a c1 (I1 & L1 & W1).
  eapply wlp_mono; [apply Hk|]. intros b c2 (I2 & L2 & W2). split_and!; [congruence|congruence|auto].
Qed.
Lemma tame_ret {A} (a : A) : tame (Sock := Sock) (ret a).
Proof. intros c. by apply wlp_ret. Qed.
Lemma tame_gets {A} (f : Connection Sock -> A) : tame (gets f).
Proof. intros c. by apply wlp_gets. Qed.
Lemma tame_lift {A} (r : Res A) : tame (Sock := Sock) (lift r).
Proof. intros c. by apply wlp_lift. Qed.
Lemma tame_modify f : (forall c, id_ (f c) = id_ c /\ log_ (f c) = log_ c /\ tx_buffer_ (f c) = tx_buffer_ c) ->
  tame (Sock := Sock) (modify f).
Proof. intros Hf c. apply wlp_modify. destruct (Hf c) as (? & ? & ->). done. Qed.
Lemma tame_reads {A} (f : Connection Sock -> Res A) : tame (fun c => let! a := f c in Ok (a, c)).
Proof. intros c a c' E. destruct (f c); [|done|done]. by injection E as <- <-. Qed.
Lemma tame_tx_push data : tame (Sock := Sock) (tx_push data).
Proof.
  intros c b c' E. unfold tx_push in E.
  destruct (Ring.push (tx_buffer_ c) data) as [[b' tx']| |] eqn:Ep; [|done|done]. injection E as <- <-.
  split_and!; [done|done|]. intros Hwf. destruct (ring_push_spec _ data Hwf) as (tx2 & E2 & Hwf2 & _).
  rewrite Ep in E2. injection E2 as _ ->. exact Hwf2.
Qed.
Lemma tame_drained f : (forall c, id_ (f c) = id_ c /\ log_ (f c) = log_ c
    /\ exists n, 0 <= n /\ tx_buffer_ (f c) = Ring.advance (tx_buffer_ c) n) -> tame (Sock := Sock) (modify f).
Proof.
  intros Hf c. apply wlp_modify. destruct (Hf c) as (? & ? & n & Hn & ->). split_and!; [done|done|].
  intros Hwf. by apply (advance_spec (tx_buffer_ c) n).
Qed.

End tame.

#[export] Hint Resolve tame_ret tame_gets tame_lift tame_reads tame_tx_push : tame.

Ltac tamely :=
  repeat match goal with
  | |- forall _, _ => intro
  | |- tame (bind _ _) => apply tame_bind
  | |- tame (let '(_, _) := ?p in _) => destruct p
  | |- tame (if ?b then _ else _) => destruct b
  | |- tame (match ?x with _ => _ end) => destruct x
  | |- tame (modify _) => apply tame_modify; intros; split_and!; reflexivity
  | |- tame _ => solve [auto with tame nocore]
  end.

Section tame_handlers.
Context {Sock : Type} `{TcpSocket Sock} {target : Target}.

Lemma tame_rx_peek n : tame (Sock := Sock) (rx_peek n).
Proof. unfold rx_peek. auto with tame. Qed.
Lemma tame_rx_advance n : tame (Sock := Sock) (rx_advance n).
Proof. unfold rx_advance. tamely. Qed.
Lemma tame_set_last_error e : tame (Sock := Sock) (set_last_error e).
Proof. unfold set_last_error. tamely. Qed.
Lemma tame_socket_close : tame (Sock := Sock) socket_close.
Proof. unfold socket_close. tamely. Qed.
Lemma tame_write_frame v op : tame (Sock := Sock) (write_frame v op).
Proof. unfold write_frame, tx_push_view. tamely. Qed.
Lemma tame_write_close_frame code : tame (Sock := Sock) (write_close_frame code).
Proof. unfold write_close_frame. tamely. Qed.
Lemma tame_touch env : tame (Sock := Sock) (touch_activity env).
Proof. unfold touch_activity. tamely. Qed.
#[local] Hint Resolve tame_rx_peek tame_rx_advance tame_set_last_error : tame.
Lemma tame_parse_handshake : tame (Sock := Sock) parse_handshake.
Proof. unfold parse_handshake, handshake_failed. tamely. Qed.

End tame_handlers.

#[export] Hint Resolve tame_rx_peek tame_rx_advance tame_set_last_error tame_socket_close tame_write_frame
  tame_write_close_frame tame_touch tame_parse_handshake : tame.

(** ** Following one operation *)

(** The history entry of a callback invocation. *)
Definition step_of (o : Z) (e : Event) : option Step :=
  match e with
  | EvOpen => Some (Connected o)
  | EvMessage msg => Some (Posted o msg)
  | EvClose clean => Some (Closed o clean)
  | EvBackpressure | EvDrain => None
  end.
Definition steps_of (o : Z) (l : list Event) : list Step := omap (step_of o) l.

(** The application as the connection [o] sees it: it answers its own
    messages if it is on the list. *)
Definition own_callbacks {Sock} (o : Z) (listed : bool) : Callbacks Sock :=
  mk_callbacks Sock (Some (fun _ => []))
    (Some (fun _ msg => if listed then [ApiSend (broadcast_msg o msg)] else []))
    (Some (fun _ _ => [])) (Some (fun _ => [])) None None.

Definition own_env {Sock} (o : Z) (listed : bool) (env : Env Sock) : Env Sock :=
  mk_env Sock (own_callbacks o listed) (now env) (sys_readv env) (sys_writev env) (sock_write env).

Section follow.
Context {Sock : Type} `{TcpSocketLaws Sock} {target : Target} {printed : Already}.
Implicit Types (c : Connection Sock) (w : World Sock).

(** The callbacks' environment (for [reach]), that of the operation, the
    connection, and where the operation starts. *)
Variable env0 env : Env Sock.
Hypothesis Hcb0 : cb env0 = installed.
Hypothesis Hcb : cb env = installed.
Variable o : Z.
Variable listed : bool.
Variable h0 : list Step.
Variable used : gset Z.
Variable w0 : World Sock.
Variable log0 : list Event.
Hypothesis Hlog0 : EvOpen ∉ log0 -> Connected o ∉ h0.

Abbreviation env1 := (own_env o listed env).
Abbreviation run1 := (run_callback env1).

(** What the other connections have received, and that their places on the
    list are as they were. *)
Definition others (texts : list bytes) w : Prop :=
  forall o1, o1 <> o ->
    match alive w0 !! o1 with
    | None => alive w !! o1 = None
    | Some c1 => (exists c2, alive w !! o1 = Some c2
        /\ if bool_decide (o1 ∈ broadcast_list w0) then sents texts c1 c2 else c2 = c1)
        /\ (o1 ∈ broadcast_list w <-> o1 ∈ broadcast_list w0)
    end.

(** What is known of the connection's own place: nothing has been called
    yet if the handshake is still going on; no [on_open]; on the list or
    not. *)
Inductive Knows := Start | Fresh | Listed | Nothing.

Definition knows (k : Knows) w c : Prop :=
  match k with
  | Start => (ops_ c = kHandshaking -> EvOpen ∉ log_ c)
      /\ (ops_ c <> kHandshaking -> bool_decide (o ∈ broadcast_list w) = listed)
  | Fresh => EvOpen ∉ log_ c
  | Listed => bool_decide (o ∈ broadcast_list w) = listed
  | Nothing => True
  end.

Record tracked (k : Knows) w c : Prop := {
  tr_alive : alive w !! o = Some c;
  tr_id : id_ c = o;
  tr_log : exists l, log_ c = log0 ++ l /\ reach env0 (h0 ++ steps_of o l) used w
    /\ others (broadcast_msg o <$> messages l) w;
  tr_knows : knows k w c;
}.

Definition follows {A} (k : Knows) (ms : W Sock State A) (m : M Sock A) (k' : A -> Knows) : Prop :=
  forall w c a c', tracked k w c -> m c = Ok (a, c') -> exists w', ms w = Ok (a, w') /\ tracked (k' a) w' c'.

Lemma tracked_wf k w c : tracked k w c -> Ring.wf (tx_buffer_ c).
Proof using Type*.
  intros [Ha _ (l & _ & Hr & _) _]. destruct (reach_registry env0 Hcb0 _ _ _ Hr) as [Hwf _ _ _ _ _ _ _]. exact (Hwf _ _ Ha).
Qed.

Lemma tracked_nothing k w c : tracked k w c -> tracked Nothing w c.
Proof using. by intros []. Qed.

(** *** Structure *)

Lemma follows_ret {A} k (a : A) : follows (k a) (wret a) (ret a) k.
Proof using. intros w c a' c' Ht E. injection E as <- <-. by exists w. Qed.

Lemma follows_bind {A B} k k1 k2 (ms : W Sock State A) m (ks : A -> W Sock State B) (km : A -> M Sock B) :
  follows k ms m k1 -> (forall a, follows (k1 a) (ks a) (km a) k2) -> follows k (wbind ms ks) (bind m km) k2.
Proof using.
  intros Hm Hk w c b c2 Ht E. unfold bind in E. destruct (m c) as [[a c1]| |] eqn:Em; [|done|done]. cbn in E.
  destruct (Hm w c a c1 Ht Em) as (w1 & E1 & Ht1). destruct (Hk a w1 c1 b c2 Ht1 E) as (w2 & E2 & Ht2).
  exists w2. unfold wbind. rewrite E1. done.
Qed.

Lemma follows_if {A} (b : bool) k k' (ms1 ms2 : W Sock State A) m1 m2 :
  follows k ms1 m1 k' -> follows k ms2 m2 k' -> follows k (if b then ms1 else ms2) (if b then m1 else m2) k'.
Proof using. by destruct b. Qed.

Lemma follows_weaken {A} k (ms : W Sock State A) m k' :
  follows Nothing ms m k' -> follows k ms m k'.
Proof using. intros Hf w c a c' Ht. apply Hf. by eapply tracked_nothing. Qed.

Lemma follows_forget {A} k (ms : W Sock State A) m k' :
  follows k ms m k' -> follows k ms m (fun _ => Nothing).
Proof using.
  intros Hf w c a c' Ht E. destruct (Hf w c a c' Ht E) as (w' & E' & Ht'). exists w'. split; [done|]. by eapply tracked_nothing.
Qed.

(** A change of the object alone. *)
Lemma tracked_update k k' w c c' :
  tracked k w c -> id_ c' = id_ c -> log_ c' = log_ c -> Ring.wf (tx_buffer_ c') ->
  knows k' (mk_world (<[o := c']> (alive w)) (app_state w)) c' ->
  tracked k' (mk_world (<[o := c']> (alive w)) (app_state w)) c'.
Proof using Type*.
  intros [Ha Hid (l & Hl & Hr & Ho) _] Ei El Hwf Hk. split.
  - cbn. by rewrite lookup_insert_eq.
  - congruence.
  - exists l. split; [congruence|]. split; [destruct w; by apply (reach_local _ _ _ _ _ _ c)|].
    intros o1 Ho1. specialize (Ho o1 Ho1). cbn. by rewrite lookup_insert_ne by done.
  - done.
Qed.

Lemma follows_at {A} k (m : M Sock A) :
  tame m -> (k = Start -> silent m) -> follows k (at_ o m) m (fun _ => k).
Proof using Type*.
  intros Hm Hs w c a c' Ht E. destruct (Hm c a c' E) as (Ei & El & Hwf). unfold at_.
  rewrite (tr_alive _ _ _ Ht). cbn [of_option res_bind]. rewrite E. cbn [res_bind]. eexists. split; [done|].
  eapply tracked_update; [exact Ht|done|done|by apply Hwf; eapply tracked_wf|].
  pose proof (tr_knows _ _ _ Ht) as Hk. destruct k; cbn in Hk |- *; rewrite ?El; try done.
  pose proof (Hs eq_refl c a c' E) as Ev. unfold visible in Ev. injection Ev as _ Eop _. by rewrite Eop.
Qed.

(** *** Callbacks *)

(** The entry of the log, then the body on the world. *)
Lemma fire_world ev body w c :
  alive w !! o = Some c ->
  SharedHandlers.fire env o ev (Some body) w = body env o (mk_world (<[o := add_log c ev]> (alive w)) (app_state w)).
Proof using Type*. intros Ha. unfold SharedHandlers.fire, wbind, at_, modify. by rewrite Ha. Qed.

Lemma follows_open :
  follows Fresh (SharedHandlers.fire env o EvOpen (SharedHandlers.body_open bodies))
    (fire run1 EvOpen (Handlers.on_open (cb env1))) (fun _ => Nothing).
Proof using Type*.
  intros w c [] c' Ht E. injection E as <-. cbn [SharedHandlers.body_open bodies].
  rewrite (fire_world _ _ w c) by apply Ht. cbn [run_on res_bind]. eexists. split; [done|].
  pose proof (tr_knows _ _ _ Ht) as Hfresh. pose proof (tracked_wf _ _ _ Ht) as Hwf.
  destruct Ht as [Ha Hid (l & Hl & Hr & Ho) _]. cbn in Hfresh.
  assert (Hne : (EvOpen ∉ l) /\ (EvOpen ∉ log0)) by (rewrite Hl in Hfresh; set_solver).
  split.
  - cbn. by rewrite lookup_insert_eq.
  - done.
  - exists (l ++ [EvOpen]). split; [cbn; by rewrite Hl, app_assoc|]. split.
    + unfold steps_of. rewrite omap_app, app_assoc. cbn. apply reach_connect.
      * destruct w. by apply (reach_local _ _ _ _ _ _ c).
      * cbn. rewrite lookup_insert_eq. by eexists.
      * rewrite elem_of_app. intros [Hin|Hin]; [exact (Hlog0 (proj2 Hne) Hin)|].
        apply list_elem_of_omap in Hin as (e & He & Es). destruct Hne as [Hne _]. destruct e; cbn in Es; done.
    + rewrite messages_app, app_nil_r. intros o1 Ho1. specialize (Ho o1 Ho1). cbn.
      rewrite lookup_insert_ne by done. destruct (alive w0 !! o1); [|done]. destruct Ho as [Hex Hiff]. split; [done|].
      rewrite elem_of_app, list_elem_of_singleton, <- Hiff. naive_solver.
  - done.
Qed.

Lemma messages_snoc_msg l msg : messages (l ++ [EvMessage msg]) = messages l ++ [msg].
Proof using Type*. by rewrite messages_app. Qed.

Lemma others_post texts w c ev m' msg :
  alive w !! o = Some c -> NoDup (broadcast_list w) -> others texts w ->
  sent_to (broadcast_msg o msg) (broadcast_list w) (<[o := add_log c ev]> (alive w)) m' ->
  others (texts ++ [broadcast_msg o msg]) (mk_world m' (app_state w)).
Proof using Type*.
  intros Ha Hnd Ho Hto o1 Ho1. specialize (Ho o1 Ho1). specialize (Hto o1).
  rewrite lookup_insert_ne in Hto by done. cbn. destruct (alive w0 !! o1) as [c1|].
  - destruct Ho as [(c2 & E2 & Hc2) Hiff]. split; [|done]. rewrite E2 in Hto. destruct Hto as (c3 & E3 & Hc3).
    exists c3. split; [done|]. rewrite (bool_decide_ext (o1 ∈ broadcast_list w) (o1 ∈ broadcast_list w0)) in Hc3 by done.
    case_bool_decide; [by eapply sents_snoc|congruence].
  - by rewrite Ho in Hto.
Qed.

(** A text that is sent leaves the identity and the history alone. *)
Lemma sent_kept text c c' : sent text c c' -> id_ c' = id_ c /\ log_ c' = log_ c.
Proof using Type*.
  unfold sent. case_bool_decide; [|by intros ->]. by intros (tx' & _ & _ & ->).
Qed.

(** The connection's own copy of its broadcast is what the application
    that answers sends it. *)
Lemma own_copy w c msg c' m' :
  NoDup (broadcast_list w) -> knows Listed w c -> id_ c = o ->
  fire run1 (EvMessage msg) (Some (fun _ => if listed then [ApiSend (broadcast_msg o msg)] else [])) c = Ok (tt, c') ->
  on_message env o msg (mk_world (<[o := add_log c (EvMessage msg)]> (alive w)) (app_state w))
    = Ok (mk_world m' (app_state w)) ->
  m' !! o = Some c'.
Proof using Type*.
  intros Hnd Hk Hid E Em. unfold on_message in Em. cbn [alive] in Em. rewrite lookup_insert_eq in Em.
  cbn [of_option res_bind app_state] in Em. change (id_ (add_log c (EvMessage msg))) with (id_ c) in Em. rewrite Hid in Em.
  destruct (send_all _ _ _ _) as [m2| |] eqn:Es; [|done|done]. injection Em as ->.
  destruct (send_all_exact _ _ _ _ _ o _ Hnd Es (lookup_insert_eq _ _ _)) as (c2 & E2 & Hc2).
  rewrite E2. f_equal. cbn in Hk. rewrite Hk in Hc2. unfold fire, bind, modify, gets in E. cbn [res_bind] in E.
  destruct listed; [|by injection E as <-].
  unfold run_callback, callback_depth in E. cbn [run_calls foldr exec_call] in E. unfold bind in E.
  rewrite (send_quiet (own_env o true env) env _ locked) in E by (cbn; by rewrite ?Hcb).
  rewrite Hc2 in E. by injection E as <-.
Qed.

Lemma follows_message msg :
  follows Listed (SharedHandlers.fire env o (EvMessage msg) (Some (fun env o => run_on (on_message env o msg))))
    (fire run1 (EvMessage msg) (Some (fun _ => if listed then [ApiSend (broadcast_msg o msg)] else [])))
    (fun _ => Listed).
Proof using Type*.
  intros w c [] c' Ht E. rewrite (fire_world _ _ w c) by apply Ht. pose proof (tracked_wf _ _ _ Ht) as Hwf.
  destruct Ht as [Ha Hid (l & Hl & Hr & Ho) Hk]. set (c1 := add_log c (EvMessage msg)).
  assert (Hr1 : reach env0 (h0 ++ steps_of o l) used (mk_world (<[o := c1]> (alive w)) (app_state w)))
    by (destruct w; by apply (reach_local _ _ _ _ _ _ c)).
  pose proof (reach_registry env0 Hcb0 _ _ _ Hr1) as Hreg. pose proof (reg_nodup _ _ _ Hreg) as Hnd.
  destruct (on_message_spec env Hcb o msg (mk_world (<[o := c1]> (alive w)) (app_state w)) c1) as (m' & E' & Hto & Hwf');
    [apply Hreg|done|cbn; by rewrite lookup_insert_eq|].
  cbn [alive app_state] in *. change (id_ c1) with (id_ c) in Hto. rewrite Hid in Hto.
  pose proof (own_copy w c msg c' m' Hnd Hk Hid E E') as Hown.
  unfold run_on. rewrite E'. cbn [res_bind]. eexists. split; [done|].
  assert (Hkept : id_ c' = o /\ log_ c' = log_ c1).
  { destruct (sent_to_lookup _ _ _ _ _ _ Hto Hown) as (c2 & E2 & Hs). rewrite lookup_insert_eq in E2. injection E2 as <-.
    case_bool_decide; [|by subst]. by destruct (sent_kept _ _ _ Hs) as [-> ->]. }
  destruct Hkept as [Hid' Hl']. split; [done|done| |done]. exists (l ++ [EvMessage msg]). split; [|split].
  - rewrite Hl', app_assoc, <- Hl. done.
  - unfold steps_of. rewrite omap_app, app_assoc. cbn. eapply reach_post; [exact Hr1|].
    rewrite (on_message_quiet env0 env) by (by rewrite ?Hcb0, ?Hcb). exact E'.
  - rewrite messages_snoc_msg, fmap_app. cbn [fmap list_fmap]. by eapply others_post.
Qed.

Lemma follows_close clean :
  follows Nothing (SharedHandlers.fire_close bodies env o clean)
    (fire run1 (EvClose clean) ((fun f c => f c clean) <$> Handlers.on_close (cb env1))) (fun _ => Nothing).
Proof using Type*.
  intros w c [] c' Ht E. injection E as <-. pose proof (tracked_wf _ _ _ Ht) as Hwf.
  unfold SharedHandlers.fire_close. cbn [SharedHandlers.body_close bodies fmap option_fmap option_map].
  rewrite (fire_world _ _ w c) by apply Ht. destruct Ht as [Ha Hid (l & Hl & Hr & Ho) _].
  set (c1 := add_log c (EvClose clean)). set (w1 := mk_world (<[o := c1]> (alive w)) (app_state w)).
  assert (Hr1 : reach env0 (h0 ++ steps_of o l) used w1) by (destruct w; by apply (reach_local _ _ _ _ _ _ c)).
  destruct (on_close o clean w1) as [w2| |] eqn:E2; [|by unfold on_close in E2; cbn in E2; rewrite lookup_insert_eq in E2..].
  pose proof (reach_close _ _ _ _ _ _ _ Hr1 E2) as Hr2. unfold run_on. rewrite E2. cbn [res_bind]. eexists. split; [done|].
  unfold on_close in E2. cbn [w1 alive] in E2. rewrite lookup_insert_eq in E2. cbn [of_option res_bind] in E2. injection E2 as <-.
  split; [cbn; by rewrite lookup_insert_eq|done| |done]. exists (l ++ [EvClose clean]). split; [cbn; by rewrite Hl, app_assoc|].
  split; [unfold steps_of; by rewrite omap_app, app_assoc|]. rewrite messages_app, app_nil_r.
  intros o1 Ho1. specialize (Ho o1 Ho1). cbn. rewrite lookup_insert_ne by done. destruct (alive w0 !! o1) as [c2|]; [|done].
  destruct Ho as [(c3 & E3 & Hc3) Hiff]. split; [by exists c3|]. rewrite list_elem_of_filter, Hiff.
  pose proof (reg_ids _ _ _ (reach_registry env0 Hcb0 _ _ _ Hr)) as Hids. unfold expired_or_self. cbn [alive w1].
  rewrite lookup_insert_ne by done. rewrite E3. change (id_ c1) with (id_ c). rewrite (Hids _ _ E3), Hid.
  destruct (Z.eqb_spec o1 o); [done|]. naive_solver.
Qed.

(** *** Handlers *)

(** One administrative step, the rest by the same tactic. *)
Ltac following :=
  repeat (cbn beta iota; match goal with
  | |- follows _ (wret _) (ret _) _ => apply (follows_ret (fun _ => _))
  | |- follows _ (wbind (at_ _ _) _) _ _ => eapply follows_bind; [apply follows_at; [tamely|intros ?; first [done|silently]]|intros ?]
  | |- follows _ (at_ _ _) _ _ => apply follows_at; [tamely|intros ?; first [done|silently]]
  | |- follows _ (if _ then _ else _) _ _ => apply follows_if
  | |- follows _ (let '(_, _) := ?p in _) _ _ => destruct p
  | |- follows _ _ _ _ => solve [auto]
  end).

Lemma follows_transition_closed :
  follows Nothing (SharedHandlers.transition_to_state bodies env o kClosed) (transition_to_state env1 run1 kClosed)
    (fun _ => Nothing).
Proof using Type*.
  cbn [SharedHandlers.transition_to_state transition_to_state]. following. apply follows_close.
Qed.

Lemma follows_transition_closing :
  follows Nothing (SharedHandlers.transition_to_state bodies env o kClosing) (transition_to_state env1 run1 kClosing)
    (fun _ => Nothing).
Proof using Type*. cbn [SharedHandlers.transition_to_state transition_to_state]. following. Qed.
#[local] Hint Resolve follows_transition_closed follows_transition_closing : core.

Lemma follows_shut :
  follows Nothing (SharedHandlers.transition_to_state bodies env o kClosed ;+ at_ o socket_close)
    (transition_to_state env1 run1 kClosed ;;; socket_close) (fun _ => Nothing).
Proof using Type*. eapply follows_bind; [auto|intros ?]. following. Qed.
#[local] Hint Resolve follows_shut : core.

Lemma follows_conn_close code :
  follows Nothing (SharedHandlers.close bodies env o code) (close env1 run1 code) (fun _ => Nothing).
Proof using Type*. unfold SharedHandlers.close, close. following. Qed.

(** The frame loop keeps its place on the list until a Close frame. *)
Abbreviation going := (fun a : bool => if a then Listed else Nothing).

Lemma follows_true : follows Listed (wret true) (ret true) going.
Proof using Type*. exact (follows_ret going true). Qed.
Lemma follows_false k : follows k (wret false) (ret false) going.
Proof using Type*. exact (follows_weaken k _ _ _ (follows_ret going false)). Qed.
#[local] Hint Resolve follows_true follows_false : core.

Lemma follows_data v :
  follows Listed
    (let+ msg := at_ o (lift (view_bytes v)) in
     SharedHandlers.fire env o (EvMessage msg) (Some (fun env o => run_on (on_message env o msg))) ;+ wret true)
    (let* msg := lift (view_bytes v) in
     fire run1 (EvMessage msg) (Some (fun _ => if listed then [ApiSend (broadcast_msg o msg)] else [])) ;;; ret true)
    going.
Proof using Type*.
  following. eapply follows_bind; [apply follows_message|intros ?]. following.
Qed.

Lemma follows_dispatch op v :
  follows Listed (SharedHandlers.dispatch_frame bodies env o op v) (dispatch_frame env1 run1 op v) going.
Proof using Type*.
  destruct op; cbn [SharedHandlers.dispatch_frame dispatch_frame]; first [apply follows_data|idtac]; following.
  eapply follows_bind; [apply follows_weaken, follows_close|intros ?].
  eapply follows_bind; [apply follows_transition_closed|intros ?]. following.
Qed.

Lemma follows_iter :
  follows Listed (SharedHandlers.parse_frames_iter bodies env o) (parse_frames_iter env1 run1) going.
Proof using Type*.
  unfold SharedHandlers.parse_frames_iter, parse_frames_iter. following.
  eapply follows_bind; [apply follows_dispatch|intros []]; cbn [negb]; following.
Qed.

Lemma follows_parse_frames :
  follows Listed (SharedHandlers.parse_frames bodies env o) (parse_frames env1 run1) (fun _ => Nothing).
Proof using Type*.
  unfold SharedHandlers.parse_frames, parse_frames. induction frame_fuel as [|n IH].
  - apply follows_weaken. cbn [SharedHandlers.parse_frames_loop parse_frames_loop]. following.
  - cbn [SharedHandlers.parse_frames_loop parse_frames_loop]. eapply follows_bind; [apply follows_iter|intros []]; [exact IH|].
    following.
Qed.

(** What the table of each state needs to know. *)
Definition needs (s : ConnectionState) : Knows :=
  match s with kHandshaking => Fresh | kOpen => Listed | kClosing | kClosed => Nothing end.

Lemma follows_on_data s :
  follows (needs s) (SharedHandlers.on_data bodies env o s) (ops_on_data (state_ops env1 run1 s)) (fun _ => Nothing).
Proof using Type*.
  destruct s; cbn [SharedHandlers.on_data state_ops ops_on_data kHandshakeOps kOpenOps kClosingOps kClosedOps needs].
  - unfold SharedHandlers.handshake_on_data, handshake_on_data. following.
    + cbn [SharedHandlers.transition_to_state transition_to_state]. eapply follows_bind; [|intros ?; following].
      following. apply follows_open.
    + apply follows_weaken. following.
  - unfold SharedHandlers.open_on_data, open_on_data. eapply follows_bind; [apply follows_parse_frames|intros ?]. following.
  - unfold SharedHandlers.closing_on_data, closing_on_data, when. following.
    eapply follows_bind; [|intros ?; following]. following.
  - unfold SharedHandlers.closed_on_data, closed_on_data. following.
Qed.

Lemma follows_read_state {A} (ks : ConnectionState -> W Sock State A) km k' :
  (forall s, follows (needs s) (ks s) (km s) k') ->
  follows Start (let+ s := at_ o (gets ops_) in ks s) (let* s := gets ops_ in km s) k'.
Proof using Type*.
  intros Hk w c a c' Ht E. unfold bind, gets in E. cbn [res_bind] in E.
  assert (Ht' : tracked (needs (ops_ c)) (mk_world (<[o := c]> (alive w)) (app_state w)) c).
  { eapply tracked_update; [exact Ht|done|done|by eapply tracked_wf|].
    destruct (tr_knows _ _ _ Ht) as [H1 H2]. destruct (ops_ c); cbn; auto. }
  destruct (Hk (ops_ c) _ c a c' Ht' E) as (w' & E' & Ht2). exists w'. split; [|done].
  unfold wbind, at_. rewrite (tr_alive _ _ _ Ht). exact E'.
Qed.

Lemma follows_handle_read :
  follows Start (SharedHandlers.handle_read bodies env o) (handle_read env1 run1) (fun _ => Nothing).
Proof using Type*.
  unfold SharedHandlers.handle_read, handle_read.
  assert (Hstep : forall iov, let m := fun c : Connection Sock =>
    let rx := rx_buffer_ c in
    let (res, buf) := sys_readv env (sock_handle (socket_ c)) (Ring.buffer_ rx) iov in
    Ok (res, set_rx c (Ring.mk_ring buf (Ring.read_idx_ rx) (Ring.write_idx_ rx) (Ring.count_ rx))) in
    tame m /\ silent m).
  { intros iov. split; intros c a c' E; cbn zeta in E; destruct (sys_readv env _ _ _) as [r b]; by injection E as <- <-. }
  eapply follows_bind; [apply follows_at; [tamely|intros _; silently]|intros iov]. cbn beta. apply follows_if.
  { apply follows_weaken. following. }
  eapply follows_bind; [apply (follows_at Start); [apply Hstep|intros _; apply Hstep]|intros res]. cbn beta. apply follows_if.
  - do 2 (eapply follows_bind; [apply follows_at; [tamely|intros _; unfold touch_activity; silently]|intros ?]; cbn beta).
    apply follows_read_state. intros s. eapply follows_bind; [apply follows_on_data|intros ?]. following.
  - apply follows_weaken. following.
Qed.

(** Writing invokes no callback of this application. *)
Lemma follows_quiet {A} (ms : W Sock State A) m :
  agrees (fun _ _ _ st => st) env1 o ms m ->
  (forall c, Ring.wf (tx_buffer_ c) ->
    wlp m (fun _ c' => id_ c' = id_ c /\ log_ c' = log_ c /\ Ring.wf (tx_buffer_ c')) c) ->
  follows Nothing ms m (fun _ => Nothing).
Proof using Type*.
  intros Ha Hm w c a c' Ht E. destruct (Hm c (tracked_wf _ _ _ Ht) a c' E) as (Ei & El & Hwf').
  specialize (Ha w c (tr_alive _ _ _ Ht)). rewrite E in Ha. destruct Ha as (l & _ & ->). rewrite watch_nothing.
  eexists. split; [done|]. by eapply tracked_update.
Qed.

Hypothesis Hwrite : forall c, write_bounded env c.

Lemma tame_check_low : tame (check_low_watermark env1 run1).
Proof using. unfold check_low_watermark, when, fire. cbn [own_env own_callbacks cb on_drain]. tamely. Qed.

Lemma drained_wlp c n temp :
  Ring.wf (tx_buffer_ c) -> 0 <= n ->
  wlp (modify (fun c => add_wire (set_tx c (Ring.advance (tx_buffer_ c) n)) (take (Z.to_nat n) temp)) ;;;
       check_low_watermark env1 run1 ;;; set_last_error kOk ;;; ret success)
    (fun _ c' => id_ c' = id_ c /\ log_ c' = log_ c /\ Ring.wf (tx_buffer_ c')) c.
Proof using.
  intros Hwf Hn. pose proof tame_check_low as Hlow. apply wlp_bind, wlp_modify.
  assert (Hwf1 : Ring.wf (Ring.advance (tx_buffer_ c) n)) by (by apply (advance_spec (tx_buffer_ c) n)).
  assert (Ht : tame (check_low_watermark env1 run1 ;;; set_last_error kOk ;;; ret success)) by tamely.
  eapply wlp_mono; [apply Ht|]. intros a c' (-> & -> & Hwf'). split_and!; [done|done|by apply Hwf'].
Qed.

Lemma tame_wlp {A} (m : M Sock A) c :
  tame m -> Ring.wf (tx_buffer_ c) -> wlp m (fun _ c' => id_ c' = id_ c /\ log_ c' = log_ c /\ Ring.wf (tx_buffer_ c')) c.
Proof using. intros Hm Hwf. eapply wlp_mono; [apply Hm|]. intros a c' (? & ? & ?). auto. Qed.

Lemma handle_write_tame c :
  Ring.wf (tx_buffer_ c) ->
  wlp (handle_write env1 run1) (fun _ c' => id_ c' = id_ c /\ log_ c' = log_ c /\ Ring.wf (tx_buffer_ c')) c.
Proof using Hwrite.
  intros Hwf. unfold handle_write.
  apply wlp_bind, wlp_gets. destruct (Ring.empty _); [apply tame_wlp; [tamely|done]|].
  apply wlp_bind. intros temp c1 E. rewrite peek_spec in E by (done || (unfold kTempReadSize; lia)). injection E as <- <-.
  pose proof (Hwrite c) as Hw. unfold write_bounded in Hw. set (temp := take _ _) in *. apply wlp_bind, wlp_gets.
  cbn [own_env sock_write]. destruct (sock_write env (socket_ c) temp) as [n|err].
  - apply drained_wlp; [done|lia].
  - apply tame_wlp; [tamely|done].
Qed.

Lemma handle_write_vectored_tame c :
  Ring.wf (tx_buffer_ c) ->
  wlp (handle_write_vectored env1 run1) (fun _ c' => id_ c' = id_ c /\ log_ c' = log_ c /\ Ring.wf (tx_buffer_ c')) c.
Proof using.
  intros Hwf. unfold handle_write_vectored.
  apply wlp_bind, wlp_gets. destruct (Ring.empty _); [apply tame_wlp; [tamely|done]|].
  apply wlp_bind, wlp_gets. destruct (zlen _ =? 0); [apply tame_wlp; [tamely|done]|].
  apply wlp_bind. intros data c1 E. rewrite gather_fill_iovec in E by done. injection E as <- <-. apply wlp_bind, wlp_gets.
  destruct (Z.ltb_spec 0 (sys_n (sys_writev env1 (sock_handle (socket_ c)) (tx_list c)))).
  - apply drained_wlp; [done|lia].
  - apply tame_wlp; [tamely|done].
Qed.

Lemma own_discreet : discreet (fun _ _ _ (st : State) => st) env1 o.
Proof using.
  apply sends_discreet. split; intros; simplify_eq/=; try done; destruct listed; by repeat constructor.
Qed.

Lemma follows_handle_write :
  follows Nothing (SharedHandlers.handle_write bodies env o) (handle_write env1 run1) (fun _ => Nothing).
Proof using Type*.
  apply follows_quiet; [exact (agrees_handle_write _ env1 o own_discreet)|exact handle_write_tame].
Qed.

Lemma follows_handle_write_vectored :
  follows Nothing (SharedHandlers.handle_write_vectored bodies env o) (handle_write_vectored env1 run1) (fun _ => Nothing).
Proof using Type*.
  apply follows_quiet; [exact (agrees_handle_write_vectored _ env1 o own_discreet)|exact handle_write_vectored_tame].
Qed.

End follow.
