(* ===== verification/BroadcastOps.v ===== *)
(** * BroadcastOps: the reactor's operations on one of the broadcast
    server's connections

    [BroadcastRun] follows an operation step by step; here the operations
    are summed up: each returns, preserves what holds of the world between
    two operations ([world_ok]), keeps all objects alive, and leaves the
    other connections as they were but for what is sent to them
    ([op_done]). *)
From S2P Require Import Prelude Vocabulary RingBuffer Frame Numbers FixedVector Connection Shared SharedOwn ConnectionApi ConnectionInv ConnectionFrames Handshake ConnectionIo Fixes ConnectionProtocol ConnectionSend Broadcast Server Pointers ServerProofs SharedServer BroadcastRun.
From stdpp Require Import gmap.
Open Scope Z_scope.
Open Scope ewss_scope.
Import Conn Handlers Ws Numbers Srv Shared BroadcastServer BroadcastApp.

(** ** Worlds between two operations *)

Definition subject (s : Step) : Z := match s with Connected o | Posted o _ | Closed o _ => o end.

(** The part of a history that concerns [o]. *)
Definition history_of (o : Z) (h : list Step) : list Step := filter (fun s => subject s = o) h.

(** The events for which the server installs a callback. *)
Definition hears (ev : Event) : bool :=
  match ev with EvOpen | EvMessage _ | EvClose _ => true | EvBackpressure | EvDrain => false end.

Lemma history_of_app o h k : history_of o (h ++ k) = history_of o h ++ history_of o k.
Proof. apply filter_app. Qed.

Lemma history_of_steps o o1 l : history_of o1 (steps_of o l) = if bool_decide (o1 = o) then steps_of o l else [].
Proof.
  assert (Hs : Forall (fun s => subject s = o) (steps_of o l)).
  { apply Forall_forall. intros s (e & _ & Es)%list_elem_of_omap. destruct e; cbn in Es; by injection Es as <- || done. }
  unfold history_of. case_bool_decide as E; [subst; by apply filter_all|].
  induction Hs as [|s k Hs _ IH]; [done|]. rewrite filter_cons_False; [done|congruence].
Qed.

Lemma opened_connected o l : Connected o ∈ steps_of o l -> EvOpen ∈ l.
Proof.
  intros (e & He & Es)%list_elem_of_omap. destruct e; cbn in Es; done.
Qed.

(** Who is a member depends on that part only. *)
Lemma members_history o h : o ∈ members h <-> o ∈ members (history_of o h).
Proof.
  unfold members. enough (forall ms ms', (o ∈ ms <-> o ∈ ms') ->
    o ∈ foldl member_step ms h <-> o ∈ foldl member_step ms' (history_of o h)) as E by by apply E.
  induction h as [|st h IH]; intros ms ms' Hms; [done|]. unfold history_of. rewrite filter_cons. cbn [foldl].
  case_decide as Hs; cbn [foldl]; apply IH; destruct st as [o1|o1 msg|o1 b]; cbn in Hs |- *; rewrite ?Hms; try done.
  - subst o1. rewrite !elem_of_app. by rewrite Hms.
  - subst o1. rewrite !list_elem_of_filter. naive_solver.
  - rewrite elem_of_app, list_elem_of_singleton, Hms. naive_solver.
  - rewrite list_elem_of_filter, Hms. naive_solver.
Qed.

Lemma steps_heard o full : steps_of o (heard_of hears full) = steps_of o full.
Proof.
  unfold heard_of, steps_of. induction full as [|e full IH]; [done|]. rewrite filter_cons.
  destruct e; cbn [hears omap list_omap step_of]; case_decide; cbn [omap list_omap step_of]; by rewrite ?IH.
Qed.

(** A connection that was closed has left: it never connects again. *)
Lemma left_for_good o full st b : protocol full = Some st -> EvClose b ∈ full ->
  fst st <> ConnectionProtocol.Fresh /\ o ∉ members (steps_of o full).
Proof.
  revert st b. induction full as [|e full IH] using rev_ind; intros st b Hp Hin; [by apply not_elem_of_nil in Hin|].
  rewrite protocol_snoc in Hp. destruct (protocol full) as [st0|] eqn:E0; [|done]. cbn [mbind option_bind] in Hp.
  unfold steps_of. rewrite omap_app. fold (steps_of o full).
  assert (Hpast : (exists b, EvClose b ∈ full) -> fst st0 <> ConnectionProtocol.Fresh /\ o ∉ members (steps_of o full)) by (intros [b1 H1]; by eapply IH).
  apply elem_of_app in Hin. rewrite list_elem_of_singleton in Hin.
  destruct e; cbn [omap list_omap step_of]; rewrite ?app_nil_r, ?members_snoc; cbn [member_step].
  1,2,4,5: destruct Hin as [Hin|]; [|done]; destruct (Hpast ltac:(by eexists)) as [H1 H2];
    (split; [|rewrite ?elem_of_app; try done]); destruct st0 as [[] []]; cbn in *; by simplify_eq.
  split; [destruct st0 as [[] []], clean; cbn in Hp; by simplify_eq|]. rewrite list_elem_of_filter. naive_solver.
Qed.

(** A connection to which texts were sent is otherwise as it was. *)
Definition untouched {Sock} (c c' : Connection Sock) : Prop :=
  id_ c' = id_ c /\ rx_buffer_ c' = rx_buffer_ c /\ socket_ c' = socket_ c /\ ops_ c' = ops_ c /\ log_ c' = log_ c.

#[export] Instance untouched_preorder {Sock} : PreOrder (@untouched Sock).
Proof.
  split; [done|]. intros c1 c2 c3 (?&?&?&?&?) (?&?&?&?&?). unfold untouched. split_and!; congruence.
Qed.

Section texts.
Context {Sock : Type} `{TcpSocketLaws Sock}.
Implicit Type c : Connection Sock.

Lemma sent_untouched text c c' : conn_ok c -> sent text c c' -> conn_ok c' /\ untouched c c'.
Proof.
  unfold sent. intros Hok. case_bool_decide as Eop; [|intros ->; by split].
  intros (tx' & Hwf & Hc & ->). split; [|done]. destruct Hok. split; cbn; try done. congruence.
Qed.

Lemma sents_untouched texts : forall c c', conn_ok c -> sents texts c c' -> conn_ok c' /\ untouched c c'.
Proof.
  induction texts as [|t texts IH]; intros c c' Hok; cbn; [by intros ->|].
  intros (c1 & H1 & H2). destruct (sent_untouched _ _ _ Hok H1) as [Hok1 Hu1].
  destruct (IH _ _ Hok1 H2) as [Hok2 Hu2]. split; [done|by etrans].
Qed.

Lemma sent_orderly text c c' : orderly hears c -> sent text c c' -> orderly hears c'.
Proof.
  unfold sent. case_bool_decide as Eop; [|by intros ? ->]. intros Hc (tx' & _ & _ & ->).
  destruct Hc as [(E & _)|[(E & _)|[(Hst & Hn & Hr)|[_ E]]]]; [congruence|congruence| |congruence]. right; right; left.
  split_and!; [|done|done]. cbn [set_paused set_tx write_paused_ log_]. destruct (write_paused_ c); [done|]. cbn [orb].
  destruct (_ <? _); [|done]. pose proof (story_step _ _ (Live, true) _ EvBackpressure Hst eq_refl) as Hst'.
  cbn [hears] in Hst'. by rewrite app_nil_r in Hst'.
Qed.

Lemma sents_orderly texts : forall c c', orderly hears c -> sents texts c c' -> orderly hears c'.
Proof.
  induction texts as [|t texts IH]; intros c c' Hc; cbn; [by intros ->|].
  intros (c1 & H1 & H2). eapply IH; [|done]. by eapply sent_orderly.
Qed.

Lemma orderly_quiet c : orderly hears c -> ops_ c = kHandshaking -> EvOpen ∉ log_ c.
Proof.
  intros [(_ & -> & _)|[(E & _)|[(_ & E & _)|[(_ & E & _) _]]]] Eop; [apply not_elem_of_nil|congruence..].
Qed.

Lemma closed_left o h c : orderly hears c -> history_of o h = steps_of o (log_ c) -> ops_ c = kClosed -> o ∉ members h.
Proof.
  intros Hc Hh Eop. destruct (orderly_story _ _ Hc) as (full & ph & Hp & El & _ & _ & _ & Hr).
  specialize (Hr Eop eq_refl). rewrite El in Hr. apply list_elem_of_filter in Hr as [_ Hr].
  rewrite members_history, Hh, El, steps_heard. by apply (left_for_good o full _ true Hp Hr).
Qed.

(** Texts that fit below the watermark are queued whole. *)
Lemma sents_fit o msgs : forall c c', conn_ok c ->
  zlen (tx_list c) + zlen (announced (pair o <$> msgs)) <= kTxHighWatermark ->
  sents (broadcast_msg o <$> msgs) c c' -> queued true (announced (pair o <$> msgs)) c c'.
Proof.
  induction msgs as [|m msgs IH]; intros c c' Hok Hfit; cbn [fmap list_fmap sents].
  { intros ->. apply queued_nil, Hok. }
  intros (c1 & Hs & Hss). cbn [fmap list_fmap] in Hfit. rewrite announced_cons in *. rewrite zlen_app in Hfit.
  set (text := broadcast_msg o m) in *. pose proof (zlen_nonneg (announced (pair o <$> msgs))).
  destruct (sent_untouched text _ _ Hok Hs) as [Hok1 _].
  assert (Hq : queued true (encode_frame kText text false) c c1) by (apply sent_fits; [done|intros _; lia]).
  eapply queued_trans; [exact Hq|]. apply IH; [done| |done]. unfold queued in Hq. cbn [andb] in Hq.
  case_bool_decide; [|subst c1; pose proof (zlen_nonneg (encode_frame kText text false)); lia].
  destruct Hq as (tx' & _ & -> & Et). cbn [set_tx tx_buffer_]. rewrite Et, zlen_app. lia.
Qed.

End texts.

Section world.
Context {Sock : Type} `{TcpSocketLaws Sock} {target : Target} {printed : Already}.
Implicit Types (c : Connection Sock) (w : World Sock).
Variable env0 : Env Sock.
Hypothesis Hcb0 : cb env0 = installed.

(** What holds of the world between two operations. *)
Record world_ok (h : list Step) (used : gset Z) w : Prop := {
  wk_reach : reach env0 h used w;
  wk_conns : map_Forall (fun _ c => conn_ok c /\ orderly hears c) (alive w);
  wk_log : map_Forall (fun o c => history_of o h = steps_of o (log_ c)) (alive w);
}.

(** An operation on [o]: the history goes on, the same objects live, and
    the others are untouched but for what is sent to them. *)
Record op_done (o : Z) h (used : gset Z) w h' w' : Prop := {
  od_ok : world_ok h' used w';
  od_dom : forall o1, is_Some (alive w' !! o1) <-> is_Some (alive w !! o1);
  od_others : forall o1 c1, o1 <> o -> alive w !! o1 = Some c1 -> exists c2, alive w' !! o1 = Some c2 /\ untouched c1 c2;
  od_history : exists t, h' = h ++ t;
}.

Lemma op_done_refl o h used w : world_ok h used w -> op_done o h used w h w.
Proof. intros Hw. split; [done|done| |exists []; by rewrite app_nil_r].
  intros o1 c1 _ E. exists c1. split; [done|reflexivity]. Qed.

Lemma op_done_trans o h used w h1 w1 h2 w2 :
  op_done o h used w h1 w1 -> op_done o h1 used w1 h2 w2 -> op_done o h used w h2 w2.
Proof.
  intros [_ D1 O1 (t1 & ->)] [W2 D2 O2 (t2 & ->)]. split; [done| | |exists (t1 ++ t2); by rewrite app_assoc].
  - intros o1. by rewrite D2, D1.
  - intros o1 c1 Hne E. destruct (O1 o1 c1 Hne E) as (c2 & E2 & U2). destruct (O2 o1 c2 Hne E2) as (c3 & E3 & U3).
    exists c3. split; [done|by etrans].
Qed.

Lemma others_untouched o w0 texts w o1 c1 :
  map_Forall (fun _ c => conn_ok c /\ orderly hears c) (alive w0) -> others o w0 texts w -> o1 <> o -> alive w0 !! o1 = Some c1 ->
  exists c2, alive w !! o1 = Some c2 /\ (conn_ok c2 /\ orderly hears c2) /\ untouched c1 c2.
Proof.
  intros Hok Ho Hne E. specialize (Ho o1 Hne). rewrite E in Ho. destruct Ho as [(c2 & E2 & Hc2) _].
  destruct (Hok _ _ E) as [Hok1 Hor1]. exists c2. split; [done|]. case_bool_decide; [|by subst].
  destruct (sents_untouched _ _ _ Hok1 Hc2). split; [split; [done|by eapply sents_orderly]|done].
Qed.

(** An operation that is followed by one on a single connection. *)
Lemma follow_op {A} (ms : W Sock State A) (m : Env Sock -> M Sock A) (env : Env Sock) o h used w c (Q : A -> Connection Sock -> Prop) :
  world_ok h used w -> alive w !! o = Some c ->
  (knows o (bool_decide (o ∈ broadcast_list w)) Start w c ->
   follows env0 o (bool_decide (o ∈ broadcast_list w)) h used w (log_ c) Start ms (m (own_env o (bool_decide (o ∈ broadcast_list w)) env)) (fun _ => Nothing)) ->
  wp (m (own_env o (bool_decide (o ∈ broadcast_list w)) env)) (fun a c' => conn_ok c' /\ evolves c c' /\ orderly hears c' /\ Q a c') c ->
  exists a w' c' l, ms w = Ok (a, w') /\ alive w' !! o = Some c' /\ Q a c' /\ log_ c' = log_ c ++ l
    /\ op_done o h used w (h ++ steps_of o l) w' /\ others o w (broadcast_msg o <$> messages l) w'
    /\ conn_ok c' /\ m (own_env o (bool_decide (o ∈ broadcast_list w)) env) c = Ok (a, c').
Proof.
  intros [Hr Hok Hlog] Ea Hf Hm. destruct (Hok _ _ Ea) as [Hokc Hq].
  assert (Hk : knows o (bool_decide (o ∈ broadcast_list w)) Start w c) by (split; [by apply orderly_quiet|done]).
  specialize (Hf Hk). apply wp_run in Hm as (a & c' & E & Hok' & Hev & Hq' & HQ).
  pose proof (reg_ids _ _ _ (reach_registry env0 Hcb0 _ _ _ Hr)) as Hids.
  destruct (Hf w c a c') as (w' & E' & [Ha' Hid' (l & Hl & Hr' & Ho') _]); [|done|].
  { split; [done|by apply Hids| |done]. exists []. rewrite !app_nil_r. split_and!; [done|done|].
    intros o1 Hne. destruct (alive w !! o1) as [c1|]; [|done]. split; [|done]. exists c1. split; [done|].
    destruct (bool_decide (o1 ∈ _)); exact eq_refl. }
  exists a, w', c', l. split_and!; try done.
  assert (Hoth : forall o1 c2, o1 <> o -> alive w' !! o1 = Some c2 ->
    exists c1, alive w !! o1 = Some c1 /\ (conn_ok c2 /\ orderly hears c2) /\ untouched c1 c2).
  { intros o1 c2 Hne E2. destruct (alive w !! o1) as [c1|] eqn:E1.
    - destruct (others_untouched _ _ _ _ _ _ Hok Ho' Hne E1) as (c2' & E2' & Hu). exists c1. split; [done|].
      assert (c2' = c2) as -> by congruence. done.
    - specialize (Ho' o1 Hne). rewrite E1 in Ho'. congruence. }
  split; [split; [done| |]| | |by eexists].
  - intros o1 c2 E2. destruct (decide (o1 = o)) as [->|Hne]; [assert (c2 = c') as -> by congruence; by split|].
    by destruct (Hoth _ _ Hne E2) as (c1 & _ & Hok2 & _).
  - intros o1 c2 E2. rewrite history_of_app, history_of_steps. destruct (decide (o1 = o)) as [->|Hne].
    + rewrite bool_decide_eq_true_2 by done. rewrite (Hlog _ _ Ea). assert (c2 = c') as -> by congruence.
      unfold steps_of. by rewrite Hl, omap_app.
    + rewrite bool_decide_eq_false_2, app_nil_r by done.
      destruct (Hoth _ _ Hne E2) as (c1 & E1 & _ & (_ & _ & _ & _ & ->)). by apply (Hlog _ _ E1).
  - intros o1. destruct (decide (o1 = o)) as [->|Hne]; [split; intros _; by eexists|].
    specialize (Ho' o1 Hne). destruct (alive w !! o1); [|by rewrite Ho'].
    destruct Ho' as [(c2 & -> & _) _]. split; intros _; by eexists.
  - intros o1 c1 Hne E1. destruct (others_untouched _ _ _ _ _ _ Hok Ho' Hne E1) as (c2 & E2 & _ & Hu). by exists c2.
Qed.

(** ** The operations of one connection keep the callback protocol *)

Lemma own_listens o b (env : Env Sock) ev : listens (cb (own_env o b env)) ev = hears ev.
Proof. by destruct ev. Qed.

Lemma keep_orderly {A} (m : M Sock A) c (Q : A -> Connection Sock -> Prop) :
  wlp m (fun _ c' => orderly hears c') c -> wp m (fun a c' => conn_ok c' /\ evolves c c' /\ Q a c') c ->
  wp m (fun a c' => conn_ok c' /\ evolves c c' /\ orderly hears c' /\ Q a c') c.
Proof.
  intros Hl Hwp. apply wp_run in Hwp as (a & c' & E & Hok' & Hev & HQ). apply wp_run. exists a, c'.
  split_and!; try done. by apply (Hl a).
Qed.

End world.

(** ** The operations of the reactor on one connection *)
Section operations.
Context {Sock : Type} `{TcpSocketLaws Sock} {target : Target} {printed : Already}.
Implicit Types (c : Connection Sock) (w : World Sock).
Variable env0 : Env Sock.
Hypothesis Hcb0 : cb env0 = installed.

Abbreviation reactor := (ServerOf Z (SharedSrv.Application Sock State)).
Implicit Type s : reactor.

Lemma connected_logged o h used w c :
  world_ok env0 h used w -> alive w !! o = Some c -> EvOpen ∉ log_ c -> Connected o ∉ h.
Proof.
  intros [_ _ Hlog] Ea Hn Hin. apply Hn, (opened_connected o). rewrite <- (Hlog _ _ Ea).
  unfold history_of. by apply list_elem_of_filter.
Qed.

Lemma conn_close_done s os o h used w c :
  callbacks_ s = application -> world_ok env0 h used w -> alive w !! o = Some c ->
  exists w' h', SharedSrv.conn_close s os o w = Ok (tt, w') /\ op_done env0 o h used w h' w'.
Proof.
  intros Happ Hw Ea. unfold SharedSrv.conn_close, SharedSrv.env_at. rewrite Happ. set (env := env_of installed os).
  destruct (follow_op env0 Hcb0 (SharedHandlers.close bodies env o 1000) (fun e => close e (run_callback e) 1000)
    env o h used w c (fun _ _ => True) Hw Ea) as ([] & w' & c' & l & E & _ & _ & _ & Hd & _).
  - intros _. cbn beta. apply follows_weaken, follows_conn_close; try done. by eapply connected_logged.
  - destruct (wk_conns _ _ _ _ Hw _ _ Ea) as [Hok Hq]. cbn beta.
    apply keep_orderly; [by apply (call_orderly hears _ (own_listens _ _ _) (ApiClose 1000))|].
    eapply wp_mono; [by apply (close_state _ 1000)|]. intros [] c' (Hok' & Hev & _). by split_and!.
  - by eexists _, _.
Qed.

Lemma read_done s os o h used w c data :
  callbacks_ s = application -> world_ok env0 h used w -> alive w !! o = Some c ->
  read_fine (env_of installed os) c data ->
  exists r w' c' l, SharedHandlers.handle_read bodies (env_of installed os) o w = Ok (r, w') /\ alive w' !! o = Some c'
    /\ read_result (own_env o (bool_decide (o ∈ broadcast_list w)) (env_of installed os)) c data
         (fst (os_readv os (sock_handle (socket_ c)) (Ring.buffer_ (rx_buffer_ c)) (Ring.fill_iovec_write (rx_buffer_ c) 2))) r c'
    /\ log_ c' = log_ c ++ l
    /\ op_done env0 o h used w (h ++ steps_of o l) w' /\ others o w (broadcast_msg o <$> messages l) w' /\ conn_ok c'
    /\ (let env := own_env o (bool_decide (o ∈ broadcast_list w)) (env_of installed os) in
        handle_read env (run_callback env) c = Ok (r, c')).
Proof.
  intros Happ Hw Ea Hrf. set (env := env_of installed os).
  destruct (wk_conns _ _ _ _ Hw _ _ Ea) as [Hok Hq].
  apply (follow_op env0 Hcb0 (SharedHandlers.handle_read bodies env o) (fun e => handle_read e (run_callback e))
    env o h used w c _ Hw Ea).
  - intros _. cbn beta. apply follows_handle_read; try done. by eapply connected_logged.
  - cbn beta. destruct Hrf as [Hr Hnw]. apply keep_orderly; [by apply handle_read_orderly; [apply own_listens|]|].
    by apply (handle_read_spec (own_env o _ env) c data).
Qed.

Lemma write_done s os o h used w c :
  callbacks_ s = application -> world_ok env0 h used w -> alive w !! o = Some c -> os_bounded os ->
  exists r w' h', (if use_writev_ s then SharedHandlers.handle_write_vectored bodies (env_of installed os) o
                   else SharedHandlers.handle_write bodies (env_of installed os) o) w = Ok (r, w')
    /\ op_done env0 o h used w h' w'.
Proof.
  intros Happ Hw Ea Hb. set (env := env_of installed os). destruct (wk_conns _ _ _ _ Hw _ _ Ea) as [Hok Hq].
  assert (Hlog : EvOpen ∉ log_ c -> Connected o ∉ h) by (by eapply connected_logged).
  set (b := bool_decide (o ∈ broadcast_list w)).
  assert (Hw1 : forall c, write_bounded (own_env o b env) c) by (intros c1; apply (Hb (own_callbacks o b) c1)).
  assert (Hw2 : writev_bounded (own_env o b env) c) by apply (Hb (own_callbacks o b) c).
  destruct (use_writev_ s).
  - destruct (follow_op env0 Hcb0 (SharedHandlers.handle_write_vectored bodies env o)
      (fun e => handle_write_vectored e (run_callback e)) env o h used w c (write_result c (writev_answer (own_env o b env) c)) Hw Ea)
      as (r & w' & c' & l & E & _ & _ & _ & Hd & _); [| |by eexists _, _, _].
    + intros _. cbn beta. apply follows_weaken. by apply follows_handle_write_vectored.
    + cbn beta. apply keep_orderly; [by apply handle_write_vectored_orderly; [apply own_listens|]|by apply handle_write_vectored_spec].
  - destruct (follow_op env0 Hcb0 (SharedHandlers.handle_write bodies env o)
      (fun e => handle_write e (run_callback e)) env o h used w c (write_result c (write_answer (own_env o b env) c)) Hw Ea)
      as (r & w' & c' & l & E & _ & _ & _ & Hd & _); [| |by eexists _, _, _].
    + intros _. cbn beta. apply follows_weaken. by apply follows_handle_write.
    + cbn beta. apply keep_orderly; [by apply handle_write_orderly; [apply own_listens|]|by apply handle_write_spec].
Qed.

Lemma op_done_alive o h used w h' w' c : op_done env0 o h used w h' w' -> alive w !! o = Some c ->
  exists c', alive w' !! o = Some c'.
Proof. intros Hd Ea. apply (od_dom _ _ _ _ _ _ _ Hd). by eexists. Qed.

(** A phase of [handle_connection_io]: an operation, and [close] if it
    fails. *)
Lemma phase_done (b : bool) s os o h used w c (ms : W Sock State expected) :
  callbacks_ s = application -> world_ok env0 h used w -> alive w !! o = Some c ->
  (b = true -> exists r w' h', ms w = Ok (r, w') /\ op_done env0 o h used w h' w') ->
  exists w' h' c', (if b then let+ r := ms in
                    if negb (ExpectedVoid.has_value r) then SharedSrv.conn_close s os o else wret tt
                  else wret tt) w = Ok (tt, w') /\ op_done env0 o h used w h' w' /\ alive w' !! o = Some c'.
Proof.
  intros Happ Hw Ea Hm. destruct b; [|exists w, h, c; split_and!; [done|by apply op_done_refl|done]].
  destruct (Hm eq_refl) as (r & w1 & h1 & E & Hd). destruct (op_done_alive _ _ _ _ _ _ _ Hd Ea) as [c1 E1].
  unfold wbind. rewrite E. cbn [res_bind].
  destruct (negb _); [|exists w1, h1, c1; split_and!; done].
  destruct (conn_close_done s os o h1 used w1 c1 Happ (od_ok _ _ _ _ _ _ _ Hd) E1) as (w2 & h2 & E2 & Hd2).
  pose proof (op_done_trans _ _ _ _ _ _ _ _ _ Hd Hd2) as Hd02. destruct (op_done_alive _ _ _ _ _ _ _ Hd02 Ea) as [c2 Ec2].
  by exists w2, h2, c2.
Qed.

Lemma io_done_shared s os pfd o h used w c data :
  callbacks_ s = application -> world_ok env0 h used w -> alive w !! o = Some c ->
  read_fine (env_of installed os) c data -> os_bounded os ->
  exists w' h', SharedSrv.handle_connection_io s os pfd o w = Ok (tt, w') /\ op_done env0 o h used w h' w'.
Proof.
  intros Happ Hw Ea Hrf Hb. unfold SharedSrv.handle_connection_io.
  assert (Eb : SharedSrv.app_bodies (callbacks_ s) = bodies) by (by rewrite Happ).
  assert (Ee : SharedSrv.env_at s os = env_of installed os) by (unfold SharedSrv.env_at; by rewrite Happ).
  cbn zeta. rewrite Eb, Ee.
  destruct (phase_done (has_event (pfd_revents pfd) POLLIN) s os o h used w c
    (SharedHandlers.handle_read bodies (env_of installed os) o) Happ Hw Ea) as (w1 & h1 & c1 & E1 & Hd1 & Ea1).
  { intros _. destruct (read_done s os o h used w c data Happ Hw Ea Hrf) as (r & w' & c' & l & E & _ & _ & _ & Hd & _).
    by eexists _, _, _. }
  unfold wbind at 1. rewrite E1. cbn [res_bind].
  destruct (phase_done (has_event (pfd_revents pfd) POLLOUT) s os o h1 used w1 c1
    (if use_writev_ s then SharedHandlers.handle_write_vectored bodies (env_of installed os) o
     else SharedHandlers.handle_write bodies (env_of installed os) o) Happ (od_ok _ _ _ _ _ _ _ Hd1) Ea1)
    as (w2 & h2 & c2 & E2 & Hd2 & Ea2).
  { intros _. by eapply write_done; [|apply Hd1| |]. }
  unfold wbind at 1. rewrite E2. cbn [res_bind]. pose proof (op_done_trans _ _ _ _ _ _ _ _ _ Hd1 Hd2) as Hd02.
  destruct (has_event _ (Z.lor _ _)); [|by exists w2, h2].
  destruct (conn_close_done s os o h2 used w2 c2 Happ (od_ok _ _ _ _ _ _ _ Hd2) Ea2) as (w3 & h3 & E3 & Hd3).
  exists w3, h3. split; [done|]. by eapply op_done_trans.
Qed.

End operations.

