(* ===== verification/BroadcastServes.v ===== *)
(** * BroadcastServes: the broadcast server as a whole

    The reactor runs the broadcast server's callbacks ([BroadcastRun]) on
    the connections it accepts, handles, times out and removes.  Whatever
    happens it keeps its invariant, never locks the mutex twice, and the
    callbacks it has made are a history of [Broadcast]; the messages of one
    read go out to every member in order. *)
From S2P Require Import Prelude Vocabulary RingBuffer Frame Numbers FixedVector Connection Shared SharedOwn ConnectionApi ConnectionInv ConnectionFrames Handshake ConnectionIo Fixes ConnectionProtocol ConnectionSend Broadcast Server Pointers ServerProofs SharedServer BroadcastRun BroadcastOps.
From stdpp Require Import gmap.
Open Scope Z_scope.
Open Scope ewss_scope.
Import Conn Handlers Ws Numbers Srv Shared BroadcastServer BroadcastApp.

(** ** The reactor's loops *)
Section reactor.
Context {Sock : Type} `{TcpSocketLaws Sock} {target : Target} {printed : Already}.
Implicit Types (c : Connection Sock) (w : World Sock).
Variable env0 : Env Sock.
Hypothesis Hcb0 : cb env0 = installed.
Variable listener : Z.

Abbreviation reactor := (ServerOf Z (SharedSrv.Application Sock State)).
Abbreviation vec := (FixedVector.FixedVector (option Z) 64).
Implicit Types (s : reactor) (ids : list Z).

(** The vector points to the objects that are alive, once each. *)
Definition holds_world (v : vec) ids w : Prop :=
  points_to v ids /\ NoDup ids /\ forall o, is_Some (alive w !! o) <-> o ∈ ids.

Record serves s w ids (h : list Step) (used : gset Z) : Prop := {
  sv_vec : holds_world (connections_ s) ids w;
  sv_app : callbacks_ s = application;
  sv_fds : zlen (poll_fds_ s) = 65;
  sv_active : Stats.active_connections (stats_ s) = zlen ids;
  sv_world : world_ok env0 h used w;
  sv_fresh : forall o, o ∈ used -> o < next_conn_id s;
  sv_listener : server_sock_ s = listener;
}.

(** The settings an iteration does not change. *)
Definition same_settings s s' : Prop :=
  max_connections_ s' = max_connections_ s /\ is_running_ s' = is_running_ s /\ next_conn_id s' = next_conn_id s.

(** The kernel's promises to the connections, at the indices from [k] on. *)
Definition reads_promised (tk : Tick Sock) (k : Z) ids w : Prop :=
  forall j o c, ids !! j = Some o -> alive w !! o = Some c ->
    exists data, read_fine (env_of installed (tk_os tk (k + Z.of_nat j))) c data.

Definition tick_promised (tk : Tick Sock) ids w : Prop :=
  reads_promised tk 0 ids w /\ forall i, os_bounded (tk_os tk i).

(** The pointer at the front of the rest of the vector. *)
Lemma deref_at v pre o l w :
  holds_world v (pre ++ o :: l) w -> FixedVector.at_ v (zlen pre) = Ok (Some o) /\ exists c, alive w !! o = Some c.
Proof.
  intros (Hv & _ & Hal). split.
  - apply (points_to_at v _ _ o Hv); [auto with ewss|]. unfold zlen. rewrite Nat2Z.id. by apply list_lookup_middle.
  - apply Hal. rewrite elem_of_app. right. by left.
Qed.

Lemma fill_pollfds_shared v w l1 : forall l0 fds nfds,
  holds_world v (l0 ++ l1) w -> 0 <= nfds -> nfds + zlen l1 <= zlen fds ->
  exists fds', SharedSrv.fill_pollfds (length l1) (zlen l0) v fds nfds w = Ok ((fds', nfds + zlen l1), w)
    /\ zlen fds' = zlen fds.
Proof.
  induction l1 as [|o l1 IH]; intros l0 fds nfds Hv Hn Hle; cbn [SharedSrv.fill_pollfds length].
  { exists fds. rewrite zlen_nil, Z.add_0_r. done. }
  rewrite zlen_cons in Hle. pose proof (zlen_nonneg l1). destruct (deref_at _ _ _ _ _ Hv) as [Hat [c Ec]].
  wpure Hat. rewrite wsome. wrun (at_gets o _ w c Ec). wrun (at_gets o _ w c Ec). cbn zeta.
  set (p := mk_pollfd _ _ _). assert (Est : store_pollfd fds nfds p = Ok (<[Z.to_nat nfds := p]> fds, nfds + 1)).
  { unfold store_pollfd. by destruct (Z.ltb_spec nfds (zlen fds)); [|lia]. }
  wpure Est. cbn beta iota. replace (zlen l0 + 1) with (zlen (l0 ++ [o])) by (by rewrite zlen_app).
  destruct (IH (l0 ++ [o]) (<[Z.to_nat nfds := p]> fds) (nfds + 1)) as (fds' & -> & Hl);
    [by rewrite <- app_assoc|lia|len|].
  exists fds'. rewrite zlen_cons. split; [do 3 f_equal; lia|]. rewrite Hl. len.
Qed.

Lemma prepare_poll_shared s w ids h used :
  serves s w ids h used ->
  exists fds, SharedSrv.prepare_poll s w = Ok ((fds, 1 + zlen ids), w) /\ zlen fds = 65.
Proof.
  intros [Hv _ Hf _ _ _]. destruct Hv as (Hp & Hnd & Hal). destruct (points_to_size _ _ Hp) as [Hsz Hle].
  unfold SharedSrv.prepare_poll. set (p := mk_pollfd _ _ _).
  assert (Est : store_pollfd (poll_fds_ s) 0 p = Ok (<[Z.to_nat 0 := p]> (poll_fds_ s), 0 + 1))
    by (unfold store_pollfd; by rewrite Hf).
  wpure Est. cbn beta iota. rewrite Hsz. unfold zlen at 1. rewrite Nat2Z.id.
  destruct (fill_pollfds_shared (connections_ s) w ids [] (<[Z.to_nat 0 := p]> (poll_fds_ s)) (0 + 1))
    as (fds & E & Hl); [done|lia|revert Hf; len|]. change (zlen []) with 0 in E. rewrite E. exists fds. split; [done|]. rewrite Hl. revert Hf. len.
Qed.

(** What a loop over the connections does to the world. *)
Record loop_done h (used : gset Z) w h' w' : Prop := {
  ld_ok : world_ok env0 h' used w';
  ld_dom : forall o, is_Some (alive w' !! o) <-> is_Some (alive w !! o);
  ld_history : exists t, h' = h ++ t;
}.

Lemma loop_done_refl h used w : world_ok env0 h used w -> loop_done h used w h w.
Proof. intros Hw. split; [done|done|]. exists []. by rewrite app_nil_r. Qed.

Lemma loop_done_step o h used w h1 w1 h2 w2 :
  op_done env0 o h used w h1 w1 -> loop_done h1 used w1 h2 w2 -> loop_done h used w h2 w2.
Proof.
  intros [_ D1 _ (t1 & ->)] [W2 D2 (t2 & ->)]. split; [done| |exists (t1 ++ t2); by rewrite app_assoc].
  intros o1. by rewrite D2.
Qed.

Lemma holds_world_done v ids h used w h' w' o :
  op_done env0 o h used w h' w' -> holds_world v ids w -> holds_world v ids w'.
Proof. intros [_ D _ _] (Hp & Hnd & Hal). split_and!; [done|done|]. intros o1. by rewrite D. Qed.

Lemma read_fine_untouched env c c' data : untouched c c' -> read_fine env c data -> read_fine env c' data.
Proof. intros (_ & Erx & Es & Eop & _). unfold read_fine, readv_delivers. by rewrite Erx, Es, Eop. Qed.

Lemma io_loop_shared s tk l1 : forall l0 extra w h used,
  callbacks_ s = application -> holds_world (connections_ s) (l0 ++ l1 ++ extra) w ->
  zlen l0 + zlen l1 + 1 <= zlen (poll_fds_ s) -> world_ok env0 h used w ->
  reads_promised tk (zlen l0) l1 w -> (forall i, os_bounded (tk_os tk i)) ->
  exists w' h', SharedSrv.io_loop (length l1) (zlen l0 + 1) s tk w = Ok (tt, w') /\ loop_done h used w h' w'.
Proof.
  induction l1 as [|o l1 IH]; intros l0 extra w h used Happ Hv Hlen Hw Hrd Hb; cbn [SharedSrv.io_loop length].
  { exists w, h. split; [done|by apply loop_done_refl]. }
  rewrite zlen_cons in Hlen. pose proof (zlen_nonneg l0). pose proof (zlen_nonneg l1). pose proof (zlen_nonneg extra).
  pose proof Hv as (Hp & Hnd & Hal). destruct (points_to_size _ _ Hp) as [Hsz _]. rewrite !zlen_app, zlen_cons in Hsz.
  destruct (Z.leb_spec (FixedVector.size (connections_ s)) (zlen l0 + 1 - 1)); [lia|].
  replace (zlen l0 + 1 - 1) with (zlen l0) by lia. destruct (deref_at _ _ _ _ _ Hv) as [Hat [c Ec]].
  destruct (lookup_lt_is_Some_2 (poll_fds_ s) (Z.to_nat (zlen l0 + 1))) as [pfd Hpfd]; [len|].
  destruct (Hrd 0%nat o c eq_refl Ec) as [data Hrf]. rewrite Z.add_0_r in Hrf.
  destruct (io_done_shared env0 Hcb0 s (tk_os tk (zlen l0)) pfd o h used w c data Happ Hw Ec Hrf (Hb _)) as (w1 & h1 & E1 & Hd).
  wpure Hat. rewrite wsome. rewrite Hpfd, wsome. wrun E1.
  replace (zlen l0 + 1) with (zlen (l0 ++ [o])) by (by rewrite zlen_app).
  destruct (IH (l0 ++ [o]) extra w1 h1 used) as (w' & h' & E & Hld).
  - done.
  - rewrite <- app_assoc. by eapply holds_world_done.
  - rewrite zlen_app. change (zlen [o]) with 1. lia.
  - apply Hd.
  - intros j o1 c1 Hj E1'. rewrite zlen_app. change (zlen [o]) with 1.
    assert (Hne : o1 <> o).
    { intros ->. apply NoDup_app in Hnd as (_ & _ & [Hni _]%NoDup_cons). apply Hni, elem_of_app. left. by eapply list_elem_of_lookup_2. }
    destruct (alive w !! o1) as [c0|] eqn:E0.
    2: { apply eq_None_not_Some in E0. destruct E0. apply (od_dom _ _ _ _ _ _ _ Hd). by eexists. }
    destruct (od_others _ _ _ _ _ _ _ Hd o1 c0 Hne E0) as (c2 & E2 & Hu). assert (c2 = c1) as -> by congruence.
    destruct (Hrd (S j) o1 c0 Hj E0) as [d Hd1]. exists d.
    replace (zlen l0 + 1 + Z.of_nat j) with (zlen l0 + Z.of_nat (S j)) by lia. by eapply read_fine_untouched.
  - done.
  - exists w', h'. split; [exact E|by eapply loop_done_step].
Qed.

Lemma timeout_loop_shared s tk l1 : forall l0 w h used,
  callbacks_ s = application -> holds_world (connections_ s) (l0 ++ l1) w -> world_ok env0 h used w ->
  exists w' h', SharedSrv.timeout_loop (length l1) (zlen l0) s tk w = Ok (tt, w') /\ loop_done h used w h' w'.
Proof.
  induction l1 as [|o l1 IH]; intros l0 w h used Happ Hv Hw; cbn [SharedSrv.timeout_loop length].
  { exists w, h. split; [done|by apply loop_done_refl]. }
  destruct (deref_at _ _ _ _ _ Hv) as [Hat [c Ec]].
  wpure Hat. rewrite wsome. wrun (at_gets o _ w c Ec).
  assert (Hstep : exists w1 h1, (if timed_out (tk_late tk (zlen l0)) (SharedSrv.app_callbacks (callbacks_ s), c)
      then SharedSrv.conn_close s (tk_late tk (zlen l0)) o else wret tt) w = Ok (tt, w1) /\ op_done env0 o h used w h1 w1).
  { destruct (timed_out _ _); [by eapply conn_close_done|]. exists w, h. split; [done|by apply op_done_refl]. }
  destruct Hstep as (w1 & h1 & E1 & Hd). wrun E1.
  replace (zlen l0 + 1) with (zlen (l0 ++ [o])) by (by rewrite zlen_app).
  destruct (IH (l0 ++ [o]) w1 h1 used) as (w' & h' & E & Hld);
    [done|rewrite <- app_assoc; by eapply holds_world_done|apply Hd|].
  exists w', h'. split; [exact E|by eapply loop_done_step].
Qed.

(** ** Removing closed connections *)

Lemma drop_ok h used w o c : world_ok env0 h used w -> alive w !! o = Some c -> is_closed c = true ->
  world_ok env0 h used (drop_world w o).
Proof.
  intros [Hr Hok Hlog] Ec Hc. destruct w as [m l]. split; [|by apply map_Forall_delete..]. apply reach_drop; [done|].
  destruct (Hok _ _ Ec) as [Hokc Hor]. by apply (closed_left o h c Hor (Hlog _ _ Ec)), is_closed_ok.
Qed.

Lemma drop_holds v v' pre o l l' w :
  holds_world v (pre ++ o :: l) w -> points_to v' (pre ++ l') -> l' ≡ₚ l -> holds_world v' (pre ++ l') (drop_world w o).
Proof.
  intros (_ & Hnd & Hal) Hp Hl. assert (Hpl : pre ++ o :: l ≡ₚ o :: pre ++ l') by (by rewrite Hl, Permutation_middle).
  rewrite Hpl in Hnd. apply NoDup_cons in Hnd as [Hni Hnd]. split_and!; [done|done|].
  intros o1. cbn. rewrite lookup_delete_is_Some, Hal, Hpl, elem_of_cons.
  split; [by intros [Hne [->|?]]|]. intros Hin. split; [by intros ->|by right].
Qed.

(** Exactly the closed ones among [l] are gone. *)
Definition closed_in w o : bool := from_option is_closed false (alive w !! o).

Definition dropped (l : list Z) w w' : Prop :=
  app_state w' = app_state w
  /\ forall o, alive w' !! o = if bool_decide (o ∈ l) && closed_in w o then None else alive w !! o.

Lemma dropped_closed o l l' w w' :
  closed_in w o = true -> l' ≡ₚ l -> dropped l' (drop_world w o) w' -> dropped (o :: l) w w'.
Proof.
  intros Hc Hl [Ha Hd]. split; [done|]. intros o1. rewrite Hd. unfold closed_in, drop_world in *. cbn [alive].
  destruct (decide (o1 = o)) as [->|Hne].
  - assert (Hin : o ∈ o :: l) by (by left). rewrite lookup_delete_eq, (bool_decide_eq_true_2 _ Hin), Hc. by destruct (bool_decide _).
  - rewrite lookup_delete_ne by done. rewrite (bool_decide_ext (o1 ∈ l') (o1 ∈ o :: l)); [done|].
    rewrite Hl, elem_of_cons. split; [by right|by intros [->|]].
Qed.

Lemma dropped_open o l w w' : closed_in w o = false -> dropped l w w' -> dropped (o :: l) w w'.
Proof.
  intros Hc [Ha Hd]. split; [done|]. intros o1. rewrite Hd. destruct (decide (o1 = o)) as [->|Hne].
  - by rewrite Hc, !andb_false_r.
  - rewrite (bool_decide_ext (o1 ∈ l) (o1 ∈ o :: l)); [done|]. rewrite elem_of_cons. split; [by right|by intros [->|]].
Qed.

Lemma remove_loop_shared fuel : forall removed v pre l h used w,
  holds_world v (pre ++ l) w -> world_ok env0 h used w ->
  (length l <= fuel)%nat -> 0 <= removed -> removed + zlen l < 2 ^ 32 ->
  exists v' l' w', SharedSrv.remove_loop fuel (zlen pre) removed v w = Ok ((v', removed + (zlen l - zlen l')), w')
    /\ holds_world v' (pre ++ l') w' /\ world_ok env0 h used w' /\ dropped l w w'.
Proof.
  induction fuel as [|fuel IH]; intros removed v pre l h used w Hv Hw Hfuel Hr0 Hr;
    pose proof Hv as (Hp & _ & _); destruct (points_to_size _ _ Hp) as [Hsz Hle]; rewrite zlen_app in Hsz, Hle;
    pose proof (zlen_nonneg pre); pose proof (zlen_nonneg l).
  all: destruct l as [|o l]; [exists v, (@nil Z), w; cbn [SharedSrv.remove_loop]; rewrite zlen_nil in *;
    replace (zlen pre <? FixedVector.size v) with false by zcase;
    (split; [cbn [negb]; unfold wret; do 3 f_equal; lia|done])|].
  { cbn in Hfuel. lia. }
  cbn [SharedSrv.remove_loop]. rewrite zlen_cons in *. pose proof (zlen_nonneg l).
  destruct (Z.ltb_spec (zlen pre) (FixedVector.size v)) as [_|?]; [|lia]. cbn [negb].
  destruct (deref_at _ _ _ _ _ Hv) as [Hat [c Ec]]. wpure Hat. rewrite wsome. wrun (at_gets o is_closed w c Ec).
  assert (Hc : closed_in w o = is_closed c) by (unfold closed_in; by rewrite Ec).
  destruct (is_closed c) eqn:Ecl.
  - destruct (remove_here v pre o l w Hp) as (v1 & E1 & Hp1). set (l1 := moved l) in *. pose proof (moved_Permutation l) as Hl1. fold l1 in Hl1. rewrite wbind_assoc. wrun E1. rewrite u32_small by lia.
    assert (Hz : zlen l1 = zlen l) by (unfold zlen; by rewrite Hl1).
    destruct (IH (removed + 1) v1 pre l1 h used (drop_world w o)) as (v' & l' & w' & -> & Hv' & Hw' & Hd);
      [by eapply drop_holds|by eapply drop_ok|unfold zlen in Hz; cbn in Hfuel; lia|lia|lia|].
    exists v', l', w'. split; [do 3 f_equal; lia|]. split_and!; [done|done|by eapply dropped_closed].
  - rewrite u32_small by lia. replace (zlen pre + 1) with (zlen (pre ++ [o])) by (by rewrite zlen_app).
    destruct (IH removed v (pre ++ [o]) l h used w) as (v' & l' & w' & -> & Hv' & Hw' & Hd);
      [by rewrite <- app_assoc|done|cbn in Hfuel; lia|done|lia|].
    exists v', (o :: l'), w'. rewrite zlen_cons. split; [do 3 f_equal; lia|]. rewrite <- app_assoc in Hv'.
    split_and!; [done|done|by apply dropped_open].
Qed.

(** What an iteration leaves in the server besides the vector and the
    counters. *)
Lemma remove_closed_shared s w ids h used :
  serves s w ids h used ->
  exists s' w' ids', SharedSrv.remove_closed_connections s w = Ok (s', w')
    /\ serves s' w' ids' h used /\ dropped ids w w' /\ same_settings s s'.
Proof.
  intros [Hv Happ Hf Ha Hw Hfr Hsk]. pose proof Hv as (Hp & _ & _). destruct (points_to_size _ _ Hp) as [Hsz Hle].
  unfold SharedSrv.remove_closed_connections. rewrite Hsz. pose proof (zlen_nonneg ids).
  destruct (remove_loop_shared (Z.to_nat (zlen ids)) 0 (connections_ s) [] ids h used w)
    as (v' & l' & w' & E & Hv' & Hw' & Hd); [done|done|unfold zlen; lia|lia|lia|].
  change (zlen []) with 0 in E. wrun E. cbn [app] in Hv'. pose proof (zlen_nonneg l').
  assert (Hl' : zlen l' <= zlen ids).
  { destruct Hv' as (_ & Hnd' & Hal'), Hv as (_ & Hnd & Hal). unfold zlen. apply inj_le, submseteq_length, NoDup_submseteq; [done|].
    intros o Ho. apply Hal. apply Hal' in Ho as [c Ec]. rewrite (proj2 Hd) in Ec. by destruct (_ && _); [|eexists]. }
  eexists _, w', l'. split; [done|]. split; [|split; [done|by destruct (0 <? _)]].
  destruct (Z.ltb_spec 0 (0 + (zlen ids - zlen l'))); split; cbn; try done; rewrite Ha; [rewrite u64_small by lia|]; lia.
Qed.

(** ** Accepting *)

(** The history speaks of connections that have been accepted. *)
Lemma reach_subjects h used w : reach env0 h used w -> forall st, st ∈ h -> subject st ∈ used.
Proof using Hcb0.
  assert (Hin : forall (h : list Step) st st', st' ∈ h ++ [st] -> st' ∈ h \/ st' = st)
    by (intros h' st st'; rewrite elem_of_app, list_elem_of_singleton; done).
  induction 1 as [|h used m l o c _ IH|h used m l o c c' _ IH|h used m l o _ IH
    |h used w o Hr IH Hal|h used w o msg w' Hr IH Hm|h used w o clean w' Hr IH Hm]; intros st Hst.
  - by apply not_elem_of_nil in Hst.
  - apply elem_of_union. right. auto.
  - auto.
  - auto.
  - apply Hin in Hst as [Hst| ->]; [auto|]. by apply (reg_used _ _ _ (reach_registry env0 Hcb0 _ _ _ Hr)).
  - apply Hin in Hst as [Hst| ->]; [auto|]. apply (reg_used _ _ _ (reach_registry env0 Hcb0 _ _ _ Hr)). cbn.
    unfold on_message in Hm. destruct (alive w !! o); [by eexists|done].
  - apply Hin in Hst as [Hst| ->]; [auto|]. apply (reg_used _ _ _ (reach_registry env0 Hcb0 _ _ _ Hr)). cbn.
    unfold on_close in Hm. destruct (alive w !! o); [by eexists|done].
Qed.

(** Nothing was accepted, or one connection, under the next id. *)
Inductive accepted_shared s w ids used : World Sock -> list Z -> gset Z -> Prop :=
| nothing_accepted : accepted_shared s w ids used w ids used
| one_accepted c : ops_ c = kHandshaking ->
    accepted_shared s w ids used (mk_world (<[next_conn_id s := c]> (alive w)) (app_state w))
      (ids ++ [next_conn_id s]) ({[next_conn_id s]} ∪ used).

Lemma fresh_ok h used w o c :
  world_ok env0 h used w -> o ∉ used -> id_ c = o -> conn_ok c -> unheard c ->
  world_ok env0 h ({[o]} ∪ used) (mk_world (<[o := c]> (alive w)) (app_state w)).
Proof.
  intros [Hr Hok Hlog] Hn Hid Hc Hu. pose proof Hu as (_ & El & _). split.
  - destruct w as [m l]. by apply reach_accept; [..|apply Hc].
  - apply map_Forall_insert_2; [|done]. split; [done|by left].
  - apply map_Forall_insert_2; [|done]. rewrite El. cbn. unfold history_of.
    destruct (filter _ h) as [|st k] eqn:Ef; [done|]. assert (Hst : st ∈ st :: k) by (by left). rewrite <- Ef in Hst.
    apply list_elem_of_filter in Hst as [Hs Hst]. pose proof (reach_subjects _ _ _ Hr st Hst). congruence.
Qed.

Lemma accept_shared s tk w ids h used :
  serves s w ids h used -> next_conn_id s + 1 < 2 ^ 64 -> 0 <= next_conn_id s ->
  exists r s' w' ids' used', SharedSrv.accept_connection s tk w = Ok ((r, s'), w')
    /\ serves s' w' ids' h used' /\ accepted_shared s w ids used w' ids' used'
    /\ max_connections_ s' = max_connections_ s /\ is_running_ s' = is_running_ s
    /\ next_conn_id s <= next_conn_id s' <= next_conn_id s + 1 /\ poll_fds_ s' = poll_fds_ s.
Proof.
  intros Hs Hid H0id. pose proof Hs as [Hv Happ Hf Ha Hw Hfr Hsk]. pose proof Hv as (Hp & Hnd & Hal).
  destruct (points_to_size _ _ Hp) as [Hsz Hle]. unfold SharedSrv.accept_connection, FixedVector.full.
  unfold FixedVector.size in *. rewrite Hsz. destruct ((_ <=? _) || (64 <=? zlen ids)) eqn:Eadm.
  { eexists _, _, w, ids, used. split; [done|]. split_and!; try done; [constructor|cbn; lia]. }
  cbn [accept]. set (fd := fst (tk_accept tk)). destruct (Z.ltb_spec fd 0).
  { destruct (negb (retryable _)); eexists _, _, w, ids, used; (split; [done|]);
      split_and!; try done; try constructor; try done; cbn; lia. }
  apply orb_false_iff in Eadm as [_ H64]. apply Z.leb_gt in H64. cbn zeta.
  cbn [next_conn_id connections_ prepare_accepted calling set_calls]. set (n := next_conn_id s) in *.
  set (c := make_connection _ n fd). rewrite (wbind_ok _ _ w tt _ eq_refl).
  set (w1 := mk_world _ _). unfold FixedVector.push_back.
  destruct (emplace_back_spec (connections_ s) _ (Some n) Hp) as (v' & E & Hv').
  rewrite zlen_fmap in *. destruct (Z.ltb_spec (zlen ids) 64); [|lia]. cbn [connections_ set_next_id prepare_accepted calling set_calls]. wpure E.
  assert (Hn : n ∉ used) by (intros Hin; specialize (Hfr _ Hin); lia).
  assert (Hni : n ∉ ids).
  { intros Hin. apply Hn, (reg_used _ _ _ (reach_registry env0 Hcb0 _ _ _ (wk_reach _ _ _ _ Hw))). by apply Hal. }
  pose proof (zlen_nonneg ids). eexists _, _, w1, (ids ++ [n]), ({[n]} ∪ used). split; [done|]. split_and!; try done.
  - split; cbn; try done.
    + split_and!.
      * unfold points_to. by rewrite fmap_app.
      * apply NoDup_app. split_and!; [done| |apply NoDup_singleton]. by intros o Ho ->%list_elem_of_singleton.
      * intros o. unfold w1. cbn. rewrite lookup_insert_is_Some', elem_of_app, list_elem_of_singleton, Hal. split; [intros [->|?]; [by right|by left]|intros [?| ->]; [by right|by left]].
    + rewrite Ha, zlen_app, u64_small by lia. done.
    + apply fresh_ok; [done|done|done|by apply make_connection_ok|by split_and!].
    + rewrite u64_small by lia. intros o [->%elem_of_singleton|Ho]%elem_of_union; [lia|]. specialize (Hfr _ Ho). lia.
  - by apply one_accepted.
  - cbn. rewrite u64_small by lia. lia.
  - cbn. rewrite u64_small by lia. lia.
Qed.

Lemma listener_shared s tk w ids h used :
  serves s w ids h used -> next_conn_id s + 1 < 2 ^ 64 -> 0 <= next_conn_id s ->
  exists s' w' ids' used', SharedSrv.handle_listener s tk w = Ok (s', w')
    /\ serves s' w' ids' h used' /\ accepted_shared s w ids used w' ids' used'
    /\ max_connections_ s' = max_connections_ s /\ is_running_ s' = is_running_ s
    /\ next_conn_id s <= next_conn_id s' <= next_conn_id s + 1 /\ poll_fds_ s' = poll_fds_ s.
Proof.
  intros Hs Hid H0id. unfold SharedSrv.handle_listener. destruct (Stats.is_overloaded _ _).
  - eexists _, w, ids, used. split; [done|]. split_and!; try done; [by destruct Hs|constructor|cbn; lia].
  - destruct (accept_shared s tk w ids h used Hs Hid H0id) as (r & s' & w' & ids' & used' & E & Hrest).
    wrun E. eexists s', w', ids', used'. split; [done|exact Hrest].
Qed.

(** ** One iteration, and the whole run *)

Lemma serves_loop s w ids h used h' w' : serves s w ids h used -> loop_done h used w h' w' -> serves s w' ids h' used.
Proof.
  intros [(Hp & Hnd & Hal) Happ Hf Ha _ Hfr Hsk] [Hw' Hd _]. split; try done. split_and!; [done|done|].
  intros o. by rewrite Hd.
Qed.

(** The listener's entry of the poll array, whose other side is [s1]. *)
Lemma maybe_listener s tk w ids h used (b : bool) :
  serves s w ids h used -> next_conn_id s + 1 < 2 ^ 64 -> 0 <= next_conn_id s ->
  exists s' w' ids' used', (if b then SharedSrv.handle_listener s tk else wret s) w = Ok (s', w')
    /\ serves s' w' ids' h used' /\ accepted_shared s w ids used w' ids' used'
    /\ max_connections_ s' = max_connections_ s /\ is_running_ s' = is_running_ s
    /\ next_conn_id s <= next_conn_id s' <= next_conn_id s + 1 /\ poll_fds_ s' = poll_fds_ s.
Proof.
  intros Hs Hid H0id. destruct b; [by apply listener_shared|]. exists s, w, ids, used. split; [done|].
  split_and!; try done; [constructor|lia].
Qed.

Lemma accepted_promised s w ids used w1 ids1 used1 tk :
  accepted_shared s w ids used w1 ids1 used1 -> (forall o, o ∈ ids -> o <> next_conn_id s) ->
  reads_promised tk 0 ids w -> reads_promised tk 0 ids w1.
Proof.
  intros Hacc Hne Hrd j o c Hj Ec. destruct Hacc as [|c1 _]; [by eapply Hrd|]. cbn in Ec.
  rewrite lookup_insert_ne in Ec; [by eapply Hrd|]. intros <-. by eapply Hne; [eapply list_elem_of_lookup_2|].
Qed.

(** The reactor and its application after any iteration: some callbacks
    more have run. *)
Record iterated s (h : list Step) s' (h' : list Step) : Prop := {
  it_max : max_connections_ s' = max_connections_ s;
  it_running : is_running_ s' = is_running_ s;
  it_ids : next_conn_id s <= next_conn_id s' <= next_conn_id s + 1;
  it_history : exists t, h' = h ++ t;
}.

Lemma run_iter_shared s tk w ids h used :
  serves s w ids h used -> tick_promised tk ids w -> next_conn_id s + 1 < 2 ^ 64 -> 0 <= next_conn_id s ->
  exists go s' w' ids' h' used', SharedSrv.run_iter s tk w = Ok ((go, s'), w')
    /\ serves s' w' ids' h' used' /\ iterated s h s' h'.
Proof.
  intros Hs [Hrd Hb] Hid H0id. unfold SharedSrv.run_iter.
  destruct (prepare_poll_shared s w ids h used Hs) as (fds & E & Hfds). wrun E. clear E.
  destruct (tk_poll tk _) as [ret rev]. set (s1 := set_stats (set_poll_fds s _) _).
  assert (Hs1 : serves s1 w ids h used) by (destruct Hs; split; try done; cbn; by rewrite set_revents_len).
  destruct (ret <? 0); [|destruct (ret =? 0)].
  1,2: eexists _, s1, w, ids, h, used; (split; [done|]); split; [done|]; split; try done; [cbn; lia|exists []; by rewrite app_nil_r].
  destruct (lookup_lt_is_Some_2 (poll_fds_ s1) 0) as [first Hfirst]; [pose proof (sv_fds _ _ _ _ _ Hs1); len|].
  rewrite Hfirst, wsome.
  destruct (maybe_listener s1 tk w ids h used (has_event (pfd_revents first) POLLIN) Hs1 Hid H0id)
    as (s2 & w2 & ids2 & used2 & E & Hs2 & Hacc & Hmax & Hrun & Hnid & Hpf). wrun E. clear E.
  assert (Hrd2 : reads_promised tk 0 ids w2).
  { eapply accepted_promised; [exact Hacc| |done]. intros o Ho ->. pose proof Hs1 as [(_ & _ & Hal) _ _ _ Hw Hfr _].
    assert (Hu : next_conn_id s1 ∈ used) by (apply (reg_used _ _ _ (reach_registry env0 Hcb0 _ _ _ (wk_reach _ _ _ _ Hw))); by apply Hal).
    specialize (Hfr _ Hu). lia. }
  assert (Hext : exists extra, ids2 = ids ++ extra) by (destruct Hacc; [exists []; by rewrite app_nil_r|by eexists]).
  destruct Hext as [extra ->]. pose proof Hs2 as [Hv2 Happ2 Hf2 _ Hw2 _ _]. pose proof Hv2 as (Hp2 & _ & _).
  destruct (points_to_size _ _ Hp2) as [_ Hle]. rewrite zlen_app in Hle. pose proof (zlen_nonneg extra).
  destruct (io_loop_shared s2 tk ids [] extra w2 h used2) as (w3 & h3 & E & Hd3);
    [done|done|rewrite zlen_nil, Hf2; lia|done|done|done|].
  change (zlen [] + 1) with 1 in E. replace (Z.to_nat (1 + zlen ids - 1)) with (length ids) by (unfold zlen; lia). wrun E. clear E.
  pose proof (serves_loop _ _ _ _ _ _ _ Hs2 Hd3) as Hs3. pose proof Hs3 as [Hv3 _ _ _ Hw3 _ _].
  destruct (timeout_loop_shared s2 tk (ids ++ extra) [] w3 h3 used2) as (w4 & h4 & E & Hd4); [done|done|done|].
  change (zlen []) with 0 in E. destruct (points_to_size _ _ Hp2) as [Hsz _]. rewrite Hsz. unfold zlen at 1. rewrite Nat2Z.id.
  wrun E. clear E. pose proof (serves_loop _ _ _ _ _ _ _ Hs3 Hd4) as Hs4.
  destruct (remove_closed_shared _ _ _ _ _ Hs4) as (s5 & w5 & ids5 & E & Hs5 & _ & (M5 & R5 & N5)). wrun E.
  exists true, s5, w5, ids5, h4, used2. split; [done|]. split; [done|]. split; [by rewrite M5|by rewrite R5|rewrite N5; exact Hnid|].
  destruct (ld_history _ _ _ _ _ Hd3) as [t3 ->], (ld_history _ _ _ _ _ Hd4) as [t4 ->]. exists (t3 ++ t4). by rewrite app_assoc.
Qed.

(** Every round that happens finds what it was promised. *)
Fixpoint rounds_promised (ticks : list (Tick Sock)) s w : Prop :=
  match ticks with
  | [] => True
  | tk :: ticks' =>
      tick_promised tk (clients s) w
      /\ forall s' w', SharedSrv.run_iter s tk w = Ok ((true, s'), w') -> tk_stop tk = false -> rounds_promised ticks' s' w'
  end.

Lemma run_loop_shared ticks : forall s w ids h used,
  serves s w ids h used -> is_running_ s = true -> rounds_promised ticks s w ->
  0 <= next_conn_id s -> next_conn_id s + zlen ticks < 2 ^ 64 ->
  exists s' w' ids' h' used', SharedSrv.run_loop ticks s w = Ok (s', w') /\ serves s' w' ids' h' used'.
Proof.
  induction ticks as [|tk ticks IH]; intros s w ids h used Hs Hrun Hp H0id Hid; cbn [SharedSrv.run_loop].
  { rewrite Hrun. by exists s, w, ids, h, used. }
  rewrite zlen_cons in Hid. pose proof (zlen_nonneg ticks). destruct Hp as [Htk Hp].
  assert (Hcl : clients s = ids) by (apply clients_eq; apply Hs). rewrite Hcl in Htk.
  destruct (run_iter_shared s tk w ids h used Hs Htk) as (go & s1 & w1 & ids1 & h1 & used1 & E & Hs1 & [_ Hr1 Hid1 _]); [lia|done|].
  rewrite Hrun. cbn [negb]. wrun E. cbv beta iota. set (s2 := if tk_stop tk then stop s1 else s1).
  assert (Hs2 : serves s2 w1 ids1 h1 used1) by (unfold s2; destruct (tk_stop tk); [by destruct Hs1|done]).
  destruct go; [|by exists s2, w1, ids1, h1, used1]. destruct (tk_stop tk) eqn:Estop.
  - exists s2, w1, ids1, h1, used1. split; [|done]. by destruct ticks.
  - apply (IH s2 w1 ids1 h1 used1); [done|unfold s2; congruence|by apply Hp|unfold s2; lia|unfold s2; lia].
Qed.

Lemma start_serves max :
  serves (set_stats (set_running (set_max_connections (make_server listener application) max) true) (Stats.reset Stats.zero_stats))
    (mk_world ∅ (mk_state [] already)) [] [] ∅.
Proof.
  split; cbn; try done.
  - split_and!; [apply (make_holds (T := option Z)); lia|apply NoDup_nil_2|]. intros o.
    split; [intros [? Hx]; cbn in Hx; by rewrite lookup_empty in Hx|by intros ?%not_elem_of_nil].
  - split; [apply Broadcast.reach_start|apply map_Forall_empty..].
Qed.

End reactor.

(** ** The server from its start *)

Section server.
Context {Sock : Type} `{TcpSocketLaws Sock} {target : Target} {printed : Already}.
Variable env0 : Env Sock.
Hypothesis Hcb0 : cb env0 = installed.

(** The server with its application, when its loop begins. *)
Definition serving sock max : ServerOf Z (SharedSrv.Application Sock State) :=
  set_stats (set_running (set_max_connections (make_server sock application) max) true) (Stats.reset Stats.zero_stats).
Definition nobody : World Sock := mk_world ∅ (mk_state [] already).

(** What holds of the server and the objects after the callbacks [h]. *)
Record consistent sock (s : ServerOf Z (SharedSrv.Application Sock State)) (w : World Sock) (h : list Step) : Prop := {
  co_vector : points_to (connections_ s) (clients s) /\ NoDup (clients s);
  co_active : Stats.active_connections (stats_ s) = get_connection_count s;
  co_alive : forall o, o ∈ clients s <-> is_Some (alive w !! o);
  co_objects : forall o c, alive w !! o = Some c ->
    id_ c = o /\ conn_ok c /\ orderly hears c /\ history_of o h = steps_of o (log_ c);
  co_list : broadcast_list w = members h;
  co_members : forall o, o ∈ members h -> o ∈ clients s;
  co_console : console (app_state w) = transcript already h;
  co_listener : server_sock_ s = sock;
}.

Lemma server_runs sock max ticks :
  zlen ticks < 2 ^ 63 -> rounds_promised ticks (serving sock max) nobody ->
  exists s' w' h used,
    SharedSrv.run (set_max_connections (make_server sock application) max) ticks nobody = Ok (s', w')
    /\ reach env0 h used w' /\ consistent sock s' w' h.
Proof using Type*.
  intros Hn Hp.
  destruct (run_loop_shared env0 Hcb0 sock ticks _ _ [] [] ∅ (start_serves env0 sock max) eq_refl Hp) as (s' & w' & ids & h & used & E & Hs);
    [cbn; lia..|].
  exists s', w', h, used. split; [exact E|]. pose proof Hs as [(Hv & Hnd & Hal) _ _ Ha [Hr Hok Hlog] _ Hsk].
  split; [exact Hr|]. destruct (points_to_size _ _ Hv) as [Hsz _]. pose proof (clients_eq s' ids Hv) as Hcl.
  pose proof (reach_registry env0 Hcb0 _ _ _ Hr) as []. split; rewrite ?Hcl; try done.
  - unfold get_connection_count. congruence.
  - intros o c Ec. destruct (Hok _ _ Ec). split_and!; [by apply reg_ids|done|done|by apply Hlog].
  - intros o Ho. by apply Hal, reg_present.
Qed.

End server.

(** ** Properties *)

Section properties.
Context {Sock : Type} `{TcpSocketLaws Sock} {target : Target} {printed : Already}.

(** The broadcast server as a whole: its callbacks, which share the list of
    connections and a mutex, run inside the reactor's operations on the
    connections they are called for.  Whatever the peers do, [run] returns:
    no pointer is null or dangling, the mutex is never taken twice, no
    callback destroys a connection in use.  The connections that are alive
    are those the vector points to, each satisfies its invariant and follows
    the callback protocol, and its callbacks are its part of a history of
    the application ([reach], to which the theorems of [Broadcast] apply).
    The list is, in order, the members of that history, all of them alive:
    no connection is destroyed before [on_close] has taken it off.  The
    console has a line for each client that connected or closed, in the
    order of the history, with the number of members. *)
Theorem broadcast_serves (env0 : Env Sock) sock max ticks :
  cb env0 = installed -> zlen ticks < 2 ^ 63 -> rounds_promised ticks (serving sock max) nobody ->
  exists s' w' h used,
    SharedSrv.run (set_max_connections (make_server sock application) max) ticks nobody = Ok (s', w')
    /\ reach env0 h used w'
    /\ points_to (connections_ s') (clients s') /\ NoDup (clients s')
    /\ Stats.active_connections (stats_ s') = get_connection_count s'
    /\ (forall o, o ∈ clients s' <-> is_Some (alive w' !! o))
    /\ (forall o c, alive w' !! o = Some c ->
         id_ c = o /\ conn_ok c /\ orderly hears c /\ history_of o h = steps_of o (log_ c))
    /\ broadcast_list w' = members h /\ (forall o, o ∈ members h -> o ∈ clients s')
    /\ console (app_state w') = transcript already h.
Proof.
  intros Hcb Hn Hp. destruct (server_runs env0 Hcb sock max ticks Hn Hp) as (s' & w' & h & used & E & Hr & []).
  exists s', w', h, used. naive_solver.
Qed.

(** What the messages of [o] do to the other connections. *)
Definition others_receive h o (msgs : list bytes) (w w' : World Sock) : Prop :=
  forall o1 c1, o1 <> o -> alive w !! o1 = Some c1 -> exists c2, alive w' !! o1 = Some c2
    /\ (if bool_decide (o1 ∈ members h) then sents (broadcast_msg o <$> msgs) c1 c2 else c2 = c1)
    /\ (zlen (tx_list c1) + zlen (announced (pair o <$> msgs)) <= kTxHighWatermark ->
        queued (bool_decide (o1 ∈ members h)) (announced (pair o <$> msgs)) c1 c2).

(** C13: one read on an open connection, with the broadcasts made in the
    middle of its frame loop.  The reader behaves as a single connection
    whose application answers each message with the broadcast text
    ([own_env]); the messages its bytes complete go out, in order and
    prefixed with its id, to every other member, whole if they fit below
    the member's watermark; all other connections are untouched; and the
    callbacks are added to the history. *)
Theorem broadcast_read (env0 : Env Sock) (os : Os Sock) h used w o c data :
  cb env0 = installed -> world_ok env0 h used w -> alive w !! o = Some c -> ops_ c = kOpen ->
  read_fine (env_of installed os) c data -> data <> [] ->
  let msgs := data_payloads (frames_of (rx_list c ++ data)) in
  let env := own_env o (bool_decide (o ∈ members h)) (env_of installed os) in
  exists w' c' l, SharedHandlers.handle_read bodies (env_of installed os) o w = Ok (success, w')
    /\ alive w' !! o = Some c' /\ handle_read env (run_callback env) c = Ok (success, c')
    /\ log_ c' = log_ c ++ l /\ messages l = msgs /\ world_ok env0 (h ++ steps_of o l) used w'
    /\ others_receive h o msgs w w'.
Proof.
  intros Hcb Hw Ea Eop Hrf Hd msgs env.
  pose proof (reach_registry env0 Hcb _ _ _ (wk_reach _ _ _ _ Hw)) as Hreg.
  unfold env. rewrite (member_listed_bool _ _ _ o Hreg).
  destruct (read_done env0 Hcb (make_server 0 application) os o h used w c data eq_refl Hw Ea Hrf)
    as (r & w' & c' & l & E & Ea' & Hres & El & Hop & Ho & Hok & Eown).
  assert (Hiov : Ring.fill_iovec_write (rx_buffer_ c) 2 <> []).
  { intros Ei. destruct Hrf as [(_ & Hl & _) _]. rewrite Ei in Hl. destruct data; [done|].
    rewrite zlen_cons in Hl. cbn in Hl. pose proof (zlen_nonneg data). lia. }
  unfold read_result in Hres. rewrite bool_decide_eq_false_2, bool_decide_eq_false_2 in Hres by done.
  destruct Hres as (-> & _ & Hm & _). destruct (Hm Eop) as [Hm' _]. rewrite El, messages_app in Hm'. apply app_inv_head in Hm'.
  change (delivered _ _) with msgs in Hm'.
  exists w', c', l. split_and!; try done; [apply Hop|]. intros o1 c1 Hne E1. rewrite Hm' in Ho.
  specialize (Ho o1 Hne). rewrite E1 in Ho. destruct Ho as [(c2 & E2 & Hs) _]. exists c2. split; [done|].
  rewrite (member_listed_bool _ _ _ o1 Hreg). split; [done|]. intros Hfit.
  destruct (bool_decide (o1 ∈ broadcast_list w)); [|exact Hs]. apply sents_fit; [by apply (wk_conns _ _ _ _ Hw o1)|done|done].
Qed.

End properties.

(** ** Evaluated examples *)
#[local] Existing Instances Demo.socket_tcp Demo.socket_laws.
#[local] Instance demo_target : Target := true.
#[local] Instance demo_already : Already := [].

Lemma demo_member_ok id : conn_ok (demo_conn id).
Proof.
  split; [apply empty_ring_ok; lia|apply empty_ring_ok; lia| |done|done|done|done].
  apply Forall_nil_2.
Qed.

Lemma demo_member_orderly id : orderly hears (demo_conn id).
Proof. right; right; left. split_and!; [by exists [EvOpen]|done|done]. Qed.

Lemma demo_world_ok : world_ok demo_env demo_history ({[3]} ∪ ({[2]} ∪ ({[1]} ∪ ∅))) demo_world.
Proof.
  split; [exact demo_reach| |]; unfold demo_world, demo_objects; cbn [alive];
    intros o c [[<- <-]|[_ [<- <-]%lookup_singleton_Some]]%lookup_insert_Some.
  1,2: by split; [apply demo_member_ok|apply demo_member_orderly].
  all: reflexivity.
Qed.

(** Two messages in one read. *)
Definition demo_input : bytes :=
  wire_frame kText (Some demo_key) (str "hi") ++ wire_frame kText (Some demo_key) (str "all").

Lemma demo_input_frames : data_payloads (frames_of demo_input) = [str "hi"; str "all"].
Proof. vm_compute. reflexivity. Qed.

Lemma demo_rx id : rx_list (demo_conn id) = [].
Proof. reflexivity. Qed.

Lemma broadcast_read_witness :
  exists w' c2, SharedHandlers.handle_read bodies (env_of installed (demo_os 0 demo_input 0)) 1 demo_world = Ok (success, w')
    /\ alive w' !! 2 = Some c2
    /\ tx_list c2 = encode_frame kText (str "Client #1: hi") false ++ encode_frame kText (str "Client #1: all") false.
Proof.
  destruct (broadcast_read demo_env (demo_os 0 demo_input 0) demo_history _ demo_world 1 (demo_conn 1) demo_input eq_refl demo_world_ok)
    as (w' & c' & l & E & _ & _ & _ & _ & _ & Ho).
  - unfold demo_world, demo_objects. cbn [alive]. by rewrite lookup_insert_eq.
  - reflexivity.
  - apply (demo_read_fine _ installed 0 demo_input 0); [reflexivity|by_decide|vm_compute; discriminate|].
    intros _. rewrite demo_rx. cbn [app]. vm_compute. exact I.
  - discriminate.
  - destruct (Ho 2 (demo_conn 2)) as (c2 & E2 & _ & Hq); [done|unfold demo_world, demo_objects; cbn [alive]; by rewrite lookup_insert_ne, lookup_singleton_eq by done|].
    exists w', c2. split; [exact E|]. split; [exact E2|]. rewrite demo_rx in Hq. cbn [app] in Hq. rewrite demo_input_frames in Hq.
    destruct Hq as (tx' & _ & -> & Et); [vm_compute; discriminate|]. exact Et.
Defined.

(** A client connects; it is gone when the server reads from it. *)
Definition b_start : ServerOf Z (SharedSrv.Application Demo.Socket State) := serving 3 50.
Definition tick_gone : Tick Demo.Socket :=
  mk_tick _ (fun _ => (1, [0; 1])) 10 (-1, 11) (fun _ _ => 0) (fun _ => eof_os) (fun _ => eof_os) false.

Lemma first_round s1 w1 :
  SharedSrv.run_iter b_start tick_accept nobody = Ok ((true, s1), w1) ->
  clients s1 = [1] /\ ops_ <$> alive w1 !! 1 = Some kHandshaking.
Proof.
  intros E. assert (Hv : match SharedSrv.run_iter b_start tick_accept nobody with
    Ok ((_, s), w) => (clients s, ops_ <$> alive w !! 1) | _ => ([], None) end = ([1], Some kHandshaking)) by (vm_compute; reflexivity).
  rewrite E in Hv. by injection Hv.
Qed.

Lemma gone_read_fine (c : Connection Demo.Socket) : ops_ c <> kOpen -> read_fine (env_of installed eof_os) c [].
Proof.
  intros Hn. split; [|done]. unfold readv_delivers. rewrite scatter_nil. split; [constructor|]. split; [|by split].
  apply total_len_nonneg. unfold Ring.fill_iovec_write, Ring.available, u64.
  repeat case_match; repeat constructor; cbn; apply Z.mod_pos_bound; lia.
Qed.

Lemma broadcast_serves_witness :
  exists s' w', SharedSrv.run (set_max_connections (make_server 3 application) 50) [tick_accept; tick_gone] nobody = Ok (s', w')
    /\ forall o, o ∈ clients s' <-> is_Some (alive w' !! o).
Proof.
  destruct (broadcast_serves demo_env 3 50 [tick_accept; tick_gone] eq_refl) as (s' & w' & h & used & E & _ & _ & _ & _ & Hal & _).
  - reflexivity.
  - split.
    + split; [|intros i; by apply demo_os_bounded]. intros j o c Hj. vm_compute in Hj. destruct j; discriminate.
    + intros s1 w1 E1 _. destruct (first_round s1 w1 E1) as [Hc Hop].
      split; [|by intros s3 w3 _ _]. split; [|intros i; exact eof_os_bounded]. rewrite Hc. intros [|j] o c Hj Ec; [|done].
      injection Hj as <-. rewrite Ec in Hop. injection Hop as Hop. exists []. apply gone_read_fine. by rewrite Hop.
  - exists s', w'. split; [exact E|exact Hal].
Defined.
