(* ===== verification/PerfRun.v ===== *)
(** * PerfRun: the performance server as it runs

    perf_server.cpp's callbacks on the reactor of [SharedServer]: the global
    [g_stats] is the application's state.  After any whole run the
    statistics are those of the history of callbacks, and the report can be
    printed. *)
From S2P Require Import Prelude Percentiles Vocabulary RingBuffer Frame Numbers Connection Shared SharedOwn Server Pointers SharedServer ServerProofs SharedRefines PerfServer.
From stdpp Require Import gmap sorting.
Open Scope Z_scope.
Open Scope ewss_scope.
Import Conn Handlers Srv Shared Perf.

Module PerfApp.

(** The clock is read when [on_message] begins. *)
Definition stamp {Sock} (env : Env Sock) (ev : Event) : Z * Event := (Z.quot (now env) 1000, ev).

Definition observe {Sock} (env : Env Sock) (_ : Z) (ev : Event) (s : PerfStats) : PerfStats := on_event s (stamp env ev).

Definition application {Sock} `{TcpSocket Sock} {target : Target} : SharedSrv.Application Sock PerfStats :=
  private_application observe callbacks.

End PerfApp.

Section perf.
Context {Sock : Type} `{TcpSocket Sock} {target : Target}.

Lemma perf_discreet (env : Env Sock) o : cb env = callbacks -> discreet PerfApp.observe env o.
Proof. intros E. apply sends_discreet. split; rewrite E; intros; simplify_eq/=; by repeat constructor. Qed.

Definition stamped (tr : list (Entry Sock)) : list (Z * Event) := (fun x : Entry Sock => PerfApp.stamp x.1.1 x.2) <$> tr.

Lemma observed_stats tr (s : PerfStats) : observe_all PerfApp.observe tr s = after s (stamped tr).
Proof. revert s. induction tr as [|x tr IH]; intros s; [done|]. apply IH. Qed.

End perf.

