(* ===== verification/Programs.v ===== *)
(** * Programs: the main functions of the examples

    echo_server.cpp, broadcast_server.cpp, perf_server.cpp and
    benchmark_echo.cpp from their arguments to their exit status: reading
    the port, the banner, the server's construction and destruction, the
    run, the report, and what is printed when something throws.  The servers
    call [stop] nowhere, so a run ends when [poll] fails. *)
From S2P Require Import Prelude Percentiles Vocabulary RingBuffer Frame Numbers Connection ConnectionApi ConnectionInv ConnectionFrames Handshake ConnectionIo ConnectionProtocol Responder Shared SharedOwn Server Pointers SharedServer Listener ServerProofs SharedRefines Broadcast BroadcastRun BroadcastOps BroadcastServes PerfServer PerfRun Benchmark Sockets.
From stdpp Require Import gmap.
Open Scope Z_scope.
Open Scope ewss_scope.
Import Conn Handlers Ws Srv Shared Sockets SocketSetup Numbers.

(** ** The echo server's console *)
Module EchoApp.

Definition client (o : Z) : bytes := str "Client #" ++ to_string o.

(** What the callbacks print; [on_message] prints before it answers. *)
Definition line (o : Z) (ev : Event) : bytes :=
  match ev with
  | EvOpen => client o ++ str " connected" ++ [10]
  | EvMessage msg => client o ++ str " sent: " ++ msg ++ [10]
  | EvClose clean => client o ++ str " closed (" ++ (if clean then str "clean" else str "unclean") ++ str ")" ++ [10]
  | EvBackpressure | EvDrain => []
  end.

(** The application's state is what it has written to [std::cout]. *)
Definition observe {Sock} (_ : Env Sock) (o : Z) (ev : Event) (out : bytes) : bytes := out ++ line o ev.

Definition application {Sock} `{TcpSocket Sock} {target : Target} : SharedSrv.Application Sock bytes :=
  private_application observe EchoServer.callbacks.

End EchoApp.

Module Programs.

(** [std::terminate], after an exception nobody catches, ends a program
    abnormally (what the runtime then prints is left out).  [calls] are the
    system calls by which the server sets up, accepts and closes
    descriptors; when the program ends while it is still serving, those of
    its constructor. *)
Inductive Exit := Exited (status : Z) | Terminated.

Record Ending := mk_ending { exit : Exit; stderr : bytes; calls : Trace }.

(** ** What is printed *)

(** [Server::log_info], and what the constructor logs. *)
Definition log_info (msg : bytes) : bytes := str "[EWSS INFO] " ++ msg ++ [10].
Definition initialized (bind_addr : bytes) (port : Z) : bytes :=
  log_info (str "Server initialized on " ++ bind_addr ++ str ":" ++ to_string port).

(** [std::setw] with a number. *)
Definition setw (width : nat) (n : Z) : bytes :=
  replicate (width - length (to_string n)) 32 ++ to_string n.

Definition rule (left right : bytes) : bytes :=
  left ++ mjoin (replicate 60 (str "═")) ++ right ++ [10].
Definition top : bytes := rule (str "╔") (str "╗").
Definition middle : bytes := rule (str "╠") (str "╣").
Definition bottom : bytes := rule (str "╚") (str "╝") ++ [10].
Definition row (text : bytes) : bytes := str "║" ++ text ++ str "║" ++ [10].

Definition banner (port : Z) : bytes :=
  top ++ row (str "         EWSS Performance Benchmark Server v0.3.0           ") ++ middle ++
  row (str " Listening on port: " ++ setw 44 port ++ str " ") ++
  row (str " Press Ctrl+C to stop and print report                      ") ++ bottom.

Definition latency_text (m : Perf.Latencies) : bytes :=
  row (str " Latency (µs):                                             ") ++
  row (str "   Min:          " ++ setw 43 (Perf.min_lat m) ++ str " ") ++
  row (str "   P50:          " ++ setw 43 (Perf.p50 m) ++ str " ") ++
  row (str "   P95:          " ++ setw 43 (Perf.p95 m) ++ str " ") ++
  row (str "   P99:          " ++ setw 43 (Perf.p99 m) ++ str " ") ++
  row (str "   Max:          " ++ setw 43 (Perf.max_lat m) ++ str " ").

Definition report_text (r : Perf.Report) : bytes :=
  [10] ++ top ++ row (str "               EWSS Performance Report                      ") ++ middle ++
  row (str " Throughput:                                               ") ++
  row (str "   Messages/sec: " ++ setw 43 (Perf.messages_per_sec r) ++ str " ") ++
  row (str "   Bytes/sec:    " ++ setw 43 (Perf.bytes_per_sec r) ++ str " ") ++
  row (str "   Avg msg size: " ++ setw 43 (Perf.avg_msg_size r) ++ str " B ") ++
  row (str " Connections:                                              ") ++
  row (str "   Current:      " ++ setw 43 (Perf.current r) ++ str " ") ++
  row (str " Duration:       " ++ setw 43 (Perf.duration r) ++ str " sec ") ++
  match Perf.latency r with Some m => latency_text m | None => [] end ++
  bottom.

(** ** The arguments ([argv] without the program's name) *)

(** [uint16_t port = 8080; if (argc > 1) port = std::stoi(argv[1]);];
    [None]: [stoi] throws. *)
Definition stoi_port (args : list bytes) : option Z :=
  match args with [] => Some 8080 | a :: _ => u16 <$> stoi a end.
Definition atoi_port (args : list bytes) : Res Z :=
  match args with [] => Ok 8080 | a :: _ => let! v := atoi a in Ok (u16 v) end.
(** [(argc > i) ? atoi(argv[i]) : default] *)
Definition int_arg (args : list bytes) (i : nat) (default : Z) : Res Z :=
  match args !! (i - 1)%nat with Some a => atoi a | None => Ok default end.

Section programs.
Context {Sock : Type} `{TcpSocket Sock} {target : Target}.
Variable kernel : Trace -> Call -> Z.
Variable libc : Libc.

(** The round in which [poll] fails. *)
Definition interrupt (tk : Tick Sock) : Tick Sock :=
  mk_tick _ (fun _ => (-1, [])) (tk_poll_us tk) (tk_accept tk) (tk_sys tk) (tk_os tk) (tk_late tk) false.

(** The round during which [stop] is called. *)
Definition stopping (tk : Tick Sock) : Tick Sock :=
  mk_tick _ (tk_poll tk) (tk_poll_us tk) (tk_accept tk) (tk_sys tk) (tk_os tk) (tk_late tk) true.

(** A new server with its callbacks and its socket options. *)
Definition configured {P C} (server_sock : Z) (cbs : C) (tuning : TcpTuning) : ServerOf P C :=
  set_tcp_tuning (make_server server_sock cbs) tuning.

(** [try { Server server(port); ... server.run(); } catch ...]: the ending,
    and the application's state when the server has run. *)
Definition try_serve {App} (prefix : bytes) (port : Z) (tuning : TcpTuning) (app : SharedSrv.Application Sock App) (st : App)
    (ticks : list (Tick Sock)) (last : Tick Sock) : Res (Ending * option App) :=
  match server_ctor kernel libc port [] [] with
  | (inl what, tr) => Ok (mk_ending (Exited 1) (prefix ++ what ++ [10]) tr, None)
  | (inr server_sock, tr) =>
      let! (s, w) := SharedSrv.run (configured server_sock app tuning) (ticks ++ [interrupt last]) (mk_world ∅ st) in
      Ok (mk_ending (Exited 0) [] (snd (server_dtor kernel (server_sock_ s) (tr ++ calls_ s))), Some (app_state w))
  end.

(** An exception outside the [try] block, before anything is done. *)
Definition uncaught : Ending := mk_ending Terminated [] [].

(** echo_server: the ending and [std::cout]. *)
Definition echo_main (args : list bytes) ticks last : Res (Ending * bytes) :=
  match stoi_port args with
  | None => Ok (uncaught, [])
  | Some port =>
      let! (e, out) := try_serve (str "Error: ") port default_tuning EchoApp.application (initialized [] port) ticks last in
      Ok (e, match out with Some out => out | None => [] end)
  end.

(** broadcast_server: the ending and [std::cout]. *)
Definition broadcast_main (args : list bytes) ticks last : Res (Ending * bytes) :=
  match stoi_port args with
  | None => Ok (uncaught, [])
  | Some port =>
      let! (e, st) := try_serve (str "Error: ") port default_tuning BroadcastApp.application
        (BroadcastServer.mk_state [] (initialized [] port)) ticks last in
      Ok (e, match st with Some st => BroadcastServer.console st | None => [] end)
  end.

(** perf_server, with the clock when the statistics are reset and when the
    report is printed. *)
Definition perf_main (args : list bytes) (start now : Z) ticks last : Res (Ending * bytes) :=
  let! port := atoi_port args in
  let! (e, st) := try_serve (str "Fatal error: ") port perf_tuning PerfApp.application (Perf.reset start Perf.initial) ticks last in
  match st with
  | None => Ok (e, banner port)
  | Some st =>
      let! (r, _) := Perf.print_report now st in
      Ok (e, banner port ++ initialized [] port ++ report_text r)
  end.

(** What benchmark_echo's [main] makes of a new server. *)
Definition bench_server (server_sock : Z) : Server Sock :=
  set_poll_timeout_ms (set_max_connections (configured server_sock BenchServer.callbacks bench_tuning) 64) 1.

(** [std::string payload(payload_size, 'A')] and
    [all_latencies(num_clients)]: a negative [int] becomes a size above
    [max_size()], and they throw [std::length_error]. *)
Definition length_error (payload_size num_clients : Z) : bool := (payload_size <? 0) || (num_clients <? 0).

(** What benchmark_echo prints before and after the benchmark. *)
Definition bench_header (num_clients msgs_per_client payload_size : Z) : bytes :=
  str "EWSS Echo Benchmark" ++ [10] ++
  str "  Clients:          " ++ int_text num_clients ++ [10] ++
  str "  Messages/client:  " ++ int_text msgs_per_client ++ [10] ++
  str "  Payload size:     " ++ int_text payload_size ++ str " bytes" ++ [10].

Definition stats_text (total_connections max_poll_latency_us socket_errors rejected_connections : Z) : bytes :=
  [10] ++ str "=== Server Stats ===" ++ [10] ++
  str "  Total connections:    " ++ to_string total_connections ++ [10] ++
  str "  Max poll latency:     " ++ to_string max_poll_latency_us ++ str " us" ++ [10] ++
  str "  Socket errors:        " ++ to_string socket_errors ++ [10] ++
  str "  Rejected connections: " ++ to_string rejected_connections ++ [10].

(** The server's counters after [k] of its rounds.  The main thread loads
    four of them while the server runs; a round changes each at most once,
    so a load sees what some number of whole rounds have left. *)
Definition counters (server_sock : Z) (ticks : list (Tick Sock)) (k : nat) : Res Stats.ServerStats :=
  let! s := Srv.run (bench_server server_sock) (take k ticks) in Ok (stats_ s).

(** The numbers of rounds that the four loads see. *)
Record Loads := mk_loads { at_total : nat; at_latency : nat; at_errors : nat; at_rejected : nat }.

Definition print_stats (server_sock : Z) (ticks : list (Tick Sock)) (loads : Loads) : Res bytes :=
  let! st_total := counters server_sock ticks (at_total loads) in
  let! st_latency := counters server_sock ticks (at_latency loads) in
  let! st_errors := counters server_sock ticks (at_errors loads) in
  let! st_rejected := counters server_sock ticks (at_rejected loads) in
  Ok (stats_text (Stats.total_connections st_total) (Stats.max_poll_latency_us st_latency)
        (Stats.socket_errors st_errors) (Stats.rejected_connections st_rejected)).

(** benchmark_echo: the ending and what is written to [std::cout], or [None]
    while the main thread waits for others; [ticks] are the rounds of the
    server's thread before the one, [last], in which [stop] is called,
    [schedule] are the steps of the benchmark's threads, which take
    [elapsed] nanoseconds between the signal and the last join. *)
Definition bench_main (args : list bytes) (schedule : list Bench.Label) (elapsed : Z) (loads : Loads)
    (ticks : list (Tick Sock)) (last : Tick Sock) : Res (option (Ending * bytes)) :=
  let! num_clients := int_arg args 1 1 in
  let! msgs_per_client := int_arg args 2 10000 in
  let! payload_size := int_arg args 3 64 in
  let out := bench_header num_clients msgs_per_client payload_size in
  match server_ctor kernel libc 19090 [] [] with
  | (inl _, tr) => Ok (Some (mk_ending Terminated [] tr, out))
  | (inr server_sock, tr) =>
      let out := out ++ initialized [] 19090 in
      if length_error payload_size num_clients then Ok (Some (mk_ending Terminated [] tr, out)) else
      let st := Bench.run num_clients msgs_per_client schedule Bench.init in
      if Bench.has_thrown st then Ok (Some (mk_ending Terminated [] tr, out)) else
      match Bench.main st with
      | Bench.Joined =>
          let! result := Bench.aggregate elapsed st in
          let! report := Bench.print_result (str "Echo Benchmark") result in
          let! stats := print_stats server_sock (ticks ++ [stopping last]) loads in
          let! s := Srv.run (bench_server server_sock) (ticks ++ [stopping last]) in
          Ok (Some (mk_ending (Exited 0) [] (snd (server_dtor kernel (server_sock_ s) (tr ++ calls_ s))), out ++ report ++ stats))
      | _ => Ok None
      end
  end.

End programs.

End Programs.

Import Programs.

(** ** Programs that serve *)
Section serve.
Context {Sock : Type} `{TcpSocketLaws Sock} {target : Target}.
Variable kernel : Trace -> Call -> Z.
Variable libc : Libc.

(** The by-value server when its loop begins. *)
Definition started (server_sock : Z) (cbs : Callbacks Sock) (tuning : TcpTuning) : Server Sock :=
  set_stats (set_running (configured server_sock cbs tuning) true) (Stats.reset Stats.zero_stats).

Lemma new_server_runs server_sock cbs tuning ticks :
  rounds_fine ticks (started server_sock cbs tuning) ->
  exists s', run (configured server_sock cbs tuning) ticks = Ok s' /\ server_sock_ s' = server_sock.
Proof.
  intros Hf. destruct (run_loop_spec ticks _ (start_serving server_sock cbs 50 tuning ltac:(lia)) eq_refl Hf) as (s' & E & _ & Es & _).
  by exists s'.
Qed.

(** Every descriptor opened in [calls] is closed, once, and none is used
    otherwise. *)
Definition balanced (calls : Trace) : Prop := closed calls = opened calls /\ uses_open calls [].

(** The calls of a program whose server is [s] in the end: every descriptor
    is closed once, except those handed to connections, which are as many as
    were counted; and no call works on a descriptor that is not open. *)
Record settled {P C} (s : ServerOf P C) (calls : Trace) : Prop := {
  st_balance : opened calls ≡ₚ closed calls ++ handed (calls_ s);
  st_counted : u64 (Stats.total_connections (stats_ s)) = u64 (zlen (handed (calls_ s)));
  st_open : uses_open calls [];
}.

(** From the constructor to the destructor. *)
Lemma life_settled {P C} (s0 s : ServerOf P C) port server_sock tr :
  server_ctor kernel libc port [] [] = (inr server_sock, tr) -> heard True s0 s ->
  server_sock_ s0 = server_sock -> calls_ s0 = [] -> Stats.total_connections (stats_ s0) = 0 ->
  settled s (snd (server_dtor kernel server_sock (tr ++ calls_ s))).
Proof.
  intros Ec (_ & mid & Em & Hp & Ht & Ho) <- E0 T0. rewrite E0 in Em. cbn [app] in Em. rewrite T0 in Ht.
  destruct (server_life_balanced kernel libc port [] (server_sock_ s0) tr (calls_ s) Ec) as (Hop & Hcl & Hu); [rewrite Em; by apply Ho|].
  split; [|by rewrite Em|done]. rewrite Hop, Hcl, Em, Hp. solve_Permutation.
Qed.

(** An ending after which nothing is left behind. *)
Lemma ctor_throws prefix port what tr {App} tuning (app : SharedSrv.Application Sock App) st ticks last :
  server_ctor kernel libc port [] [] = (inl what, tr) ->
  try_serve kernel libc prefix port tuning app st ticks last = Ok (mk_ending (Exited 1) (prefix ++ what ++ [10]) tr, None)
  /\ balanced tr.
Proof.
  intros E. pose proof (server_balanced kernel libc port []) as Hb. unfold try_serve. rewrite E in *. by split.
Qed.

(** A program whose callbacks keep to their connection ends well, with the
    state its callbacks have made. *)
Lemma private_serves {App} observe (cbs : Callbacks Sock) (st : App) prefix port tuning server_sock tr0 ticks last :
  (forall env o, cb env = cbs -> discreet observe env o) -> zlen ticks < 2 ^ 62 ->
  server_ctor kernel libc port [] [] = (inr server_sock, tr0) ->
  accepts_fresh server_sock (ticks ++ [interrupt last]) ->
  rounds_fine (ticks ++ [interrupt last]) (started server_sock cbs tuning) ->
  exists s ids tr calls,
    try_serve kernel libc prefix port tuning (private_application observe cbs) st ticks last
      = Ok (mk_ending (Exited 0) [] calls, Some (observe_all observe tr st))
    /\ settled s calls /\ run (configured server_sock cbs tuning) (ticks ++ [interrupt last]) = Ok s
    /\ Forall2 (fun o (cl : Client Sock) => id_ (snd cl) = o /\ log_ (snd cl) = events_of o tr) ids (clients s)
    /\ forall o, told cbs (events_of o tr).
Proof.
  intros Hd Hn Ec Ha Hf. destruct (new_server_runs server_sock cbs tuning _ Hf) as (s & E & Es).
  destruct (private_run observe cbs Hd st server_sock 50 tuning (ticks ++ [interrupt last]) s) as (v & w & ids & tr & Er & _ & [Hst _] & Ea & Ht);
    [rewrite zlen_app; change (zlen [interrupt last]) with 1; lia|exact E|].
  exists s, ids, tr, (snd (server_dtor kernel server_sock (tr0 ++ calls_ s))). split_and!; [| |done| |done].
  - unfold try_serve. rewrite Ec.
    assert (Er' : SharedSrv.run (configured server_sock (private_application observe cbs) tuning) (ticks ++ [interrupt last]) (mk_world ∅ st)
      = Ok (with_ptrs observe cbs s v, w)) by exact Er. rewrite Er'. cbn [res_bind with_ptrs server_sock_ calls_]. by rewrite Es, Ea.
  - eapply (life_settled (started server_sock cbs tuning)); [exact Ec| |done..].
    eapply heard_trans; [|by apply (run_loop_heard (ticks ++ [interrupt last]) (started server_sock cbs tuning))|by apply (heard_same True)].
    by intros _.
  - eapply Forall2_impl; [exact Hst|]. by intros o cl (_ & ? & ?).
Qed.

(** The benchmark's server when its loop begins, and what its counters say
    on the way. *)
Definition bench_started (server_sock : Z) : Server Sock :=
  set_stats (set_running (bench_server server_sock) true) (Stats.reset Stats.zero_stats).

Lemma bench_server_runs server_sock ticks :
  rounds_fine ticks (bench_started server_sock) ->
  exists s', Srv.run (bench_server server_sock) ticks = Ok s' /\ server_sock_ s' = server_sock.
Proof.
  intros Hf.
  destruct (run_loop_spec ticks _ (timeout_serving _ 1 (start_serving server_sock BenchServer.callbacks 64 bench_tuning ltac:(lia))) eq_refl Hf) as (s' & E & _ & Es & _).
  by exists s'.
Qed.

Lemma rounds_fine_take k ticks : forall s : Server Sock, rounds_fine ticks s -> rounds_fine (take k ticks) s.
Proof.
  revert ticks. induction k as [|k IH]; intros [|tk ticks] s Hf; cbn [take rounds_fine] in *; try done.
  destruct Hf as [Htk Hf]. split; [done|]. intros s' E Hs. by apply IH, Hf.
Qed.

Lemma length_error_spec size num : length_error size num = true <-> size < 0 \/ num < 0.
Proof. unfold length_error. by rewrite orb_true_iff, !Z.ltb_lt. Qed.
Lemma length_fine size num : 0 <= size -> 0 <= num -> length_error size num = false.
Proof. intros Hs Hn. apply not_true_is_false. rewrite length_error_spec. lia. Qed.

Lemma stats_print server_sock ticks loads :
  rounds_fine ticks (bench_started server_sock) -> exists text, print_stats server_sock ticks loads = Ok text.
Proof.
  intros Hf. assert (Hc : forall k, exists st, counters server_sock ticks k = Ok st).
  { intros k. unfold counters. destruct (bench_server_runs server_sock (take k ticks) (rounds_fine_take _ _ _ Hf)) as (s' & -> & _). by eexists. }
  unfold print_stats. destruct (Hc (at_total loads)) as [? ->], (Hc (at_latency loads)) as [? ->],
    (Hc (at_errors loads)) as [? ->], (Hc (at_rejected loads)) as [? ->]. by eexists.
Qed.

End serve.

(** ** Properties *)
Section properties.
Context {Sock : Type} `{TcpSocketLaws Sock} {target : Target}.
Variable kernel : Trace -> Call -> Z.
Variable libc : Libc.
Implicit Types (args : list bytes) (ticks : list (Tick Sock)) (last : Tick Sock).

Lemma echo_discreet (env : Env Sock) o : cb env = EchoServer.callbacks -> discreet EchoApp.observe env o.
Proof. intros E. apply sends_discreet. split; rewrite E; intros; simplify_eq/=; by repeat constructor. Qed.

Lemma echo_console (tr : list (Entry Sock)) out :
  observe_all EchoApp.observe tr out = out ++ mjoin ((fun x : Entry Sock => EchoApp.line x.1.2 x.2) <$> tr).
Proof.
  revert out. induction tr as [|x tr IH]; intros out; cbn [fmap list_fmap mjoin list_join]; [by rewrite app_nil_r|].
  change (observe_all EchoApp.observe (x :: tr) out) with (observe_all EchoApp.observe tr (out ++ EchoApp.line x.1.2 x.2)).
  by rewrite IH, <- app_assoc.
Qed.

(** C15: echo_server from start to end: with a port it can listen on, the
    program exits with status 0 when [poll] fails, whatever the rounds before
    brought, provided that reads and writes keep the POSIX contracts, that no
    open connection is sent a frame whose announced length overflows
    ([no_wrap], in [rounds_fine]; on such a frame it may never end), and that
    [accept] does not return the listening socket.  It has closed the
    listening socket and every descriptor it accepted and refused, once, and
    handed each other one to a connection, which is counted ([settled]).  It
    has printed the line of the constructor and then one line per callback,
    in the order in which the callbacks were invoked on all its connections;
    the part of that history that carries a client's identifier follows the
    callback protocol (connected first and once, no message after the peer's
    Close), and is the history of the connection if that is still there. *)
Theorem echo_program args port server_sock tr0 ticks last :
  stoi_port args = Some port -> zlen ticks < 2 ^ 62 ->
  server_ctor kernel libc port [] [] = (inr server_sock, tr0) ->
  accepts_fresh server_sock (ticks ++ [interrupt last]) ->
  rounds_fine (ticks ++ [interrupt last]) (started server_sock EchoServer.callbacks default_tuning) ->
  exists s ids tr calls,
    echo_main kernel libc args ticks last
      = Ok (mk_ending (Exited 0) [] calls,
            initialized [] port ++ mjoin ((fun x : Entry Sock => EchoApp.line x.1.2 x.2) <$> tr))
    /\ settled s calls
    /\ run (configured server_sock EchoServer.callbacks default_tuning) (ticks ++ [interrupt last]) = Ok s
    /\ Forall2 (fun o (cl : Client Sock) => id_ (snd cl) = o /\ log_ (snd cl) = events_of o tr) ids (clients s)
    /\ forall o, told (EchoServer.callbacks (Sock := Sock)) (events_of o tr).
Proof.
  intros Ep Hn Ec Ha Hf.
  destruct (private_serves kernel libc EchoApp.observe EchoServer.callbacks (initialized [] port) (str "Error: ") port default_tuning server_sock tr0 ticks last
    echo_discreet Hn Ec Ha Hf) as (s & ids & tr & calls & E & Hrest).
  exists s, ids, tr, calls. split; [|exact Hrest]. unfold echo_main. rewrite Ep. change EchoApp.application with (private_application EchoApp.observe (EchoServer.callbacks (Sock := Sock))).
  rewrite E. cbn [res_bind]. by rewrite echo_console.
Qed.

(** C16: perf_server from start to end, on the same conditions: the program
    exits with status 0 when [poll] fails, has closed the listening socket
    and every descriptor it accepted and refused and handed the others to
    connections ([settled]), and has printed its banner, the line of the
    constructor and a report; the report is always produced, and its figures
    are those of the history of callbacks on all its connections: messages
    and bytes per second, the [on_connect] calls less the [on_close] calls,
    and the rates are over the seconds between the reset and the report (at
    least one).  That history, connection by connection, follows the callback
    protocol. *)
Theorem perf_program args port server_sock tr0 start now ticks last :
  atoi_port args = Ok port -> zlen ticks < 2 ^ 62 ->
  server_ctor kernel libc port [] [] = (inr server_sock, tr0) ->
  accepts_fresh server_sock (ticks ++ [interrupt last]) ->
  rounds_fine (ticks ++ [interrupt last]) (started server_sock Perf.callbacks perf_tuning) ->
  exists s ids (tr : list (Entry Sock)) r calls,
    perf_main kernel libc args start now ticks last
      = Ok (mk_ending (Exited 0) [] calls, banner port ++ initialized [] port ++ report_text r)
    /\ settled s calls
    /\ Perf.duration r = (let e := Z.quot (now - start) 1000000000 in if e =? 0 then 1 else e)
    /\ (let log := stamped tr in
        Perf.messages_per_sec r = u64 (zlen (messages log)) / u64 (Perf.duration r)
        /\ Perf.bytes_per_sec r = u64 (zlen (mjoin (messages log))) / u64 (Perf.duration r)
        /\ Perf.current r = u64 (PerfServer.opened log - PerfServer.closed log))
    /\ run (configured server_sock Perf.callbacks perf_tuning) (ticks ++ [interrupt last]) = Ok s
    /\ Forall2 (fun o (cl : Client Sock) => id_ (snd cl) = o /\ log_ (snd cl) = events_of o tr) ids (clients s)
    /\ forall o, told (Perf.callbacks (Sock := Sock)) (events_of o tr).
Proof.
  intros Ep Hn Ec Ha Hf.
  destruct (private_serves kernel libc PerfApp.observe Perf.callbacks (Perf.reset start Perf.initial) (str "Fatal error: ") port perf_tuning server_sock tr0 ticks last
    perf_discreet Hn Ec Ha Hf) as (s & ids & tr & calls & E & Hb & Hs).
  destruct (perf_statistics start Perf.initial (stamped tr)) as (Em & Eb & Ea & _ & _ & Es).
  rewrite observed_stats in E. set (st := Perf.after _ _) in *.
  destruct (print_report_returns now st) as (r & st' & Er). exists s, ids, tr, r, calls.
  split; [|split; [done|]].
  - unfold perf_main. rewrite Ep. cbn [res_bind]. change PerfApp.application with (private_application PerfApp.observe (Perf.callbacks (Sock := Sock))).
    rewrite E. cbn [res_bind]. by rewrite Er.
  - cbv zeta. rewrite <- Em, <- Eb, <- Ea, <- Es. by destruct (report_rates now st r st' Er) as (? & ? & ? & ?).
Qed.

(** C12: broadcast_server from start to end: with a port it can listen on,
    the program exits with status 0 when [poll] fails, whatever the rounds
    before brought, provided that reads and writes keep the POSIX contracts,
    that no open connection is sent a frame whose announced length overflows
    ([no_wrap], in [rounds_promised]; on such a frame it may never end), and
    that [accept] does not return the listening socket.  It has closed the
    listening socket and every descriptor it accepted and refused, once, and
    handed each other one to a connection ([settled]).  On the way its
    callbacks, which share the list of connections and a mutex, have run
    inside the reactor's operations on the connections they are called for:
    no pointer was null or dangling, the mutex was never taken twice, no
    callback destroyed a connection in use.  In the end ([consistent]) the
    connections that are alive are those the vector points to; each
    satisfies its invariant, follows the callback protocol, and its callbacks
    are its part of one history of the application; the list is, in order,
    the members of that history (connected, not closed since), every one of
    them alive.  After the line of the constructor the console has one for
    each [on_connect] and each [on_close] of the history, in order, with the
    number of members from then on; so a client that sends a Close frame,
    for which [on_close] is invoked twice, has two lines. *)
Theorem broadcast_program (env0 : Env Sock) args port server_sock tr0 ticks last :
  let _ : Already := initialized [] port in
  cb env0 = BroadcastServer.installed -> stoi_port args = Some port -> zlen ticks < 2 ^ 62 ->
  server_ctor kernel libc port [] [] = (inr server_sock, tr0) ->
  accepts_fresh server_sock (ticks ++ [interrupt last]) ->
  rounds_promised (ticks ++ [interrupt last]) (serving server_sock 50) nobody ->
  exists s w h used calls,
    broadcast_main kernel libc args ticks last = Ok (mk_ending (Exited 0) [] calls, transcript (initialized [] port) h)
    /\ settled s calls
    /\ SharedSrv.run (make_server server_sock BroadcastApp.application) (ticks ++ [interrupt last]) nobody = Ok (s, w)
    /\ reach env0 h used w /\ consistent server_sock s w h.
Proof.
  intros printed Hcb Ep Hn Ec Ha Hp.
  destruct (server_runs env0 Hcb server_sock 50 (ticks ++ [interrupt last])) as (s & w & h & used & E & Hr & Hs);
    [rewrite zlen_app; change (zlen [interrupt last]) with 1; lia|exact Hp|].
  exists s, w, h, used, (snd (server_dtor kernel server_sock (tr0 ++ calls_ s))). split_and!; [| |exact E|done|done].
  - unfold broadcast_main, try_serve. rewrite Ep, Ec. change (mk_world ∅ _) with (nobody (Sock := Sock) (printed := printed)).
    assert (E' : SharedSrv.run (configured server_sock BroadcastApp.application default_tuning) (ticks ++ [interrupt last]) nobody = Ok (s, w)) by exact E.
    rewrite E'. cbn [res_bind]. destruct Hs as [_ _ _ _ _ _ Hc ->]. by rewrite Hc.
  - eapply (life_settled kernel libc (serving server_sock 50)); [exact Ec| |done..].
    eapply heard_trans; [|by apply (run_loop_shared_heard (ticks ++ [interrupt last]) (serving server_sock 50) nobody s w)|by apply (heard_same True)].
    by intros _.
Qed.

(** What can go wrong before a server runs, and what the user sees of
    it.  The port of echo_server and broadcast_server is the argument
    modulo 2^16.  An argument that [std::stoi] rejects ends them abnormally
    before any system call, since it is read outside the [try] block.  When
    the constructor throws, they and perf_server print its message and exit
    with status 1, benchmark_echo (which catches nothing) ends abnormally,
    and in each case every descriptor that was opened has been closed. *)
Theorem programs_report_failure a rest args port what tr start now ticks last schedule elapsed loads :
  (forall v, 0 <= v < 2 ^ 31 -> stoi_port (to_string v :: rest) = Some (v mod 2 ^ 16))
  /\ (stoi a = None ->
      echo_main kernel libc (a :: rest) ticks last = Ok (mk_ending Terminated [] [], [])
      /\ broadcast_main kernel libc (a :: rest) ticks last = Ok (mk_ending Terminated [] [], []))
  /\ (server_ctor kernel libc port [] [] = (inl what, tr) ->
      balanced tr
      /\ (stoi_port args = Some port ->
          echo_main kernel libc args ticks last = Ok (mk_ending (Exited 1) (str "Error: " ++ what ++ [10]) tr, [])
          /\ broadcast_main kernel libc args ticks last = Ok (mk_ending (Exited 1) (str "Error: " ++ what ++ [10]) tr, []))
      /\ (atoi_port args = Ok port ->
          perf_main kernel libc args start now ticks last = Ok (mk_ending (Exited 1) (str "Fatal error: " ++ what ++ [10]) tr, banner port))
      /\ (port = 19090 ->
          bench_main kernel libc [] schedule elapsed loads ticks last = Ok (Some (mk_ending Terminated [] tr, bench_header 1 10000 64)))).
Proof.
  split_and!.
  - intros v Hv. unfold stoi_port. pose proof (stoi_to_string v [] Hv eq_refl) as E. rewrite app_nil_r in E. by rewrite E.
  - intros E. unfold echo_main, broadcast_main, stoi_port. by rewrite E.
  - intros Ec. pose proof (server_balanced kernel libc port []) as Hb. rewrite Ec in Hb. split; [done|]. split_and!.
    + intros Ep. unfold echo_main, broadcast_main, try_serve. by rewrite Ep, Ec.
    + intros Ep. unfold perf_main, try_serve. by rewrite Ep; cbn [res_bind]; rewrite Ec.
    + intros ->. unfold bench_main. cbn [int_arg lookup list_lookup res_bind Nat.sub]. by rewrite Ec.
Qed.

(** C17: benchmark_echo from start to end.  Suppose it has a port it can
    listen on, numbers that are not negative, no client refused, and rounds of
    the reactor on the conditions of [echo_program].  Then every fair schedule
    of its threads that takes at least four nanoseconds per message ends the
    program with status 0; it has closed the listening socket and every
    descriptor it accepted and refused, handed each other one to a
    connection ([settled]), and printed its sizes, the line of the
    constructor, the figures of the exchanges that were made, and four
    counters of the server.  With one client refused it never ends.  A
    negative size or number of clients ends it abnormally while it is
    listening; so does a negative number of messages when there is at least
    one client, in every fair schedule in which none is refused (with no
    client no thread asks for them).  When messages were exchanged in no
    time by the clock, printing their rate is undefined. *)
Theorem bench_program args num msgs size server_sock tr0 elapsed loads ticks last :
  int_arg args 1 1 = Ok num -> int_arg args 2 10000 = Ok msgs -> int_arg args 3 64 = Ok size -> num < 2 ^ 31 ->
  server_ctor kernel libc 19090 [] [] = (inr server_sock, tr0) ->
  let out := bench_header num msgs size ++ initialized [] 19090 in
  let main schedule := bench_main kernel libc args schedule elapsed loads ticks last in
  let unrefused segs := Forall (Benchmark.fair num) segs /\ Forall (Forall (fun l => ~ Benchmark.connecting_fails l)) segs in
  (size < 0 \/ num < 0 -> forall schedule, main schedule = Ok (Some (mk_ending Terminated [] tr0, out)))
  /\ (0 <= size -> 0 < num -> msgs < 0 -> forall segs, unrefused segs -> (num + 1) * 6 <= zlen segs ->
       main (mjoin segs) = Ok (Some (mk_ending Terminated [] tr0, out)))
  /\ (0 <= size -> 0 <= num -> 0 <= msgs ->
      (forall segs, unrefused segs -> (num + 1) * (msgs + 6) <= zlen segs ->
        accepts_fresh server_sock (ticks ++ [stopping last]) ->
        rounds_fine (ticks ++ [stopping last]) (bench_started server_sock) ->
        let s := Bench.run num msgs (mjoin segs) Bench.init in
        (4 * (num * msgs) <= elapsed < 2 ^ 63 ->
          exists sv calls r report stats,
            main (mjoin segs) = Ok (Some (mk_ending (Exited 0) [] calls, out ++ report ++ stats))
            /\ Srv.run (bench_server server_sock) (ticks ++ [stopping last]) = Ok sv /\ settled sv calls
            /\ Bench.aggregate elapsed s = Ok r
            /\ Bench.print_result (str "Echo Benchmark") r = Ok report
            /\ print_stats server_sock (ticks ++ [stopping last]) loads = Ok stats)
        /\ (elapsed = 0 -> mjoin (Bench.latencies <$> Bench.clients s) <> [] -> num * msgs < 2 ^ 64 ->
             main (mjoin segs) = Undefined))
      /\ (forall ls ks, refused (Bench.run num msgs ls Bench.init) -> main (ls ++ ks) = Ok None)).
Proof.
  intros E1 E2 E3 Hnum Ec out main unrefused. pose proof (server_balanced kernel libc 19090 []) as Hb. rewrite Ec in Hb. cbv zeta in Hb. destruct Hb as (Hb1 & Hb2 & _).
  assert (Em : forall schedule, main schedule = bench_main kernel libc args schedule elapsed loads ticks last) by done. clearbody main.
  unfold bench_main in Em. rewrite E1, E2, E3 in Em. cbn [res_bind] in Em. rewrite Ec in Em. split; [|split].
  - intros Hneg schedule. rewrite Em. by rewrite (proj2 (length_error_spec size num) Hneg).
  - intros Hsize H0n Hm segs [Hfair Hok] Hlen. rewrite Em, length_fine by lia.
    by rewrite (proj2 (has_thrown_spec _) (negative_throws num msgs segs (conj H0n Hnum) Hm Hfair Hok Hlen)).
  - intros Hsize H0n Hm. split.
    + intros segs [Hfair Hok] Hlen Ha Hf s. rewrite Em, length_fine by done.
      destruct (fair_schedules_end num msgs segs (conj H0n Hnum) Hm Hfair Hok Hlen) as (Ej & Hth & _). fold s in Ej, Hth |- *.
      rewrite (has_thrown_false _ Hth), Ej. pose proof (recorded_total num msgs (mjoin segs) (conj H0n Hnum)) as Htot. fold s in Htot. split.
      * intros Hel. destruct (result_prints elapsed s (str "Echo Benchmark")) as (r & report & Er & Ep); [lia|].
        destruct (stats_print server_sock (ticks ++ [stopping last]) loads Hf) as [stats Est].
        destruct (bench_server_runs server_sock _ Hf) as (s' & Es' & Esock).
        exists s', (snd (server_dtor kernel server_sock (tr0 ++ calls_ s'))), r, report, stats.
        rewrite Er. cbn [res_bind]. rewrite Ep. cbn [res_bind]. rewrite Est. cbn [res_bind]. rewrite Es'. cbn [res_bind]. rewrite Esock.
        split_and!; try done. eapply (life_settled kernel libc (bench_started server_sock)); [exact Ec| |done..].
        eapply heard_trans; [|by apply (run_loop_heard (ticks ++ [stopping last]) (bench_started server_sock))|by apply (heard_same True)].
        by intros _.
      * intros -> Hne Hmax. destruct (result_undefined s (str "Echo Benchmark") Hne) as (r & Er & Ep); [lia|].
        rewrite Er. cbn [res_bind]. by rewrite Ep.
    + intros ls ks Href. rewrite Em, length_fine by done. rewrite (has_thrown_false _ (unthrown_run num msgs (ls ++ ks) Hm)).
      by destruct (refusal_waits num msgs ls ks (conj H0n Hnum) Href) as [-> | ->].
Qed.

End properties.

(** ** Evaluated examples *)
#[local] Existing Instances Demo.socket_tcp Demo.socket_laws.
#[local] Instance demo_target : Target := true.

(** A kernel in which everything succeeds. *)
Definition kind_kernel (_ : Trace) (c : Call) : Z := match c with CSocket _ _ _ => 3 | _ => 0 end.
Definition demo_libc : Libc := mk_libc (fun x => x) (fun x => x) (fun _ => 0) (fun _ => str "Address already in use").

(** [input] fits the client's buffer; an open one holds no part of a frame. *)
Definition fits (input : bytes) (cl : Client Demo.Socket) : bool :=
  (zlen input <=? Ring.total_len (Ring.fill_iovec_write (rx_buffer_ (snd cl)) 2))
  && (negb (bool_decide (ops_ (snd cl) = kOpen)) || bool_decide (rx_list (snd cl) = [])).

Lemma clients_fine tk t input l :
  (forall i, tk_os tk i = demo_os t input 100) -> bytes_ok input -> no_wrap (rest_of input) ->
  forallb (fits input) l = true -> tick_fine tk l.
Proof.
  intros Htk Hb Hw Hl. split; [|intros i; rewrite Htk; by apply demo_os_bounded]. intros j cl Hj. exists input. rewrite Htk.
  rewrite forallb_forall in Hl. specialize (Hl cl (proj1 (list_elem_of_In _ _) (list_elem_of_lookup_2 _ _ _ Hj))).
  apply andb_true_iff in Hl as [Hz Ho]. apply (demo_read_fine _ (fst cl) t input 100); [done|done|by apply Z.leb_le|].
  intros Eo. rewrite bool_decide_eq_true_2 in Ho by done. apply bool_decide_eq_true in Ho. by rewrite Ho.
Qed.

(** A round whose input fits every client. *)
Lemma rounds_then tk ticks (s : Server Demo.Socket) t input :
  (forall i, tk_os tk i = demo_os t input 100) -> bytes_ok input -> no_wrap (rest_of input) -> forallb (fits input) (clients s) = true ->
  (forall s', run_iter s tk = Ok (true, s') -> rounds_fine ticks s') -> rounds_fine (tk :: ticks) s.
Proof. intros Htk Hb Hw Hl Hr. split; [by eapply clients_fine|]. intros s' E _. by apply Hr. Qed.

Definition echo_start : Server Demo.Socket := started 3 EchoServer.callbacks default_tuning.
Definition hi : bytes := wire_frame kText (Some demo_key) (str "hi").
Definition tick_hi : Tick Demo.Socket := demo_tick 1 [0; 1] 3000000 hi.
Definition echo_ticks : list (Tick Demo.Socket) := [tick_accept; tick_request; tick_hi].

(** A test of the server after some rounds. *)
Fixpoint after_rounds (p : Server Demo.Socket -> bool) (ticks : list (Tick Demo.Socket)) (s : Server Demo.Socket) : bool :=
  match ticks with
  | [] => p s
  | tk :: ticks' => match run_iter s tk with Ok (_, s') => after_rounds p ticks' s' | _ => false end
  end.

Lemma after_rounds_step p tk ticks (s : Server Demo.Socket) go s' :
  run_iter s tk = Ok (go, s') -> after_rounds p (tk :: ticks) s = after_rounds p ticks s'.
Proof. intros E. cbn [after_rounds]. by rewrite E. Qed.

Lemma echo_accepted : after_rounds (fun s => forallb (fits demo_request) (clients s)) [tick_accept] echo_start = true.
Proof. vm_compute. reflexivity. Qed.
Lemma echo_opened : after_rounds (fun s => forallb (fits hi) (clients s)) [tick_accept; tick_request] echo_start = true.
Proof. vm_compute. reflexivity. Qed.
Lemma echo_answered : after_rounds (fun s => forallb (fits []) (clients s)) echo_ticks echo_start = true.
Proof. vm_compute. reflexivity. Qed.

Lemma echo_rounds : rounds_fine (echo_ticks ++ [interrupt tick_idle]) echo_start.
Proof.
  pose proof echo_accepted as H1. pose proof echo_opened as H2. pose proof echo_answered as H3. unfold echo_ticks in *.
  apply (rounds_then _ _ _ 1000000 []); [reflexivity|constructor|vm_compute; exact I|vm_compute; reflexivity|]. intros s1 E1.
  rewrite (after_rounds_step _ _ _ _ _ _ E1) in H1. rewrite (after_rounds_step _ _ _ _ _ _ E1) in H2.
  rewrite (after_rounds_step _ _ _ _ _ _ E1) in H3.
  apply (rounds_then _ _ _ 2000000 demo_request); [reflexivity|by_decide|vm_compute; done|exact H1|]. intros s2 E2.
  rewrite (after_rounds_step _ _ _ _ _ _ E2) in H2. rewrite (after_rounds_step _ _ _ _ _ _ E2) in H3.
  apply (rounds_then _ _ _ 3000000 hi); [reflexivity|by_decide|vm_compute; exact I|exact H2|]. intros s3 E3.
  rewrite (after_rounds_step _ _ _ _ _ _ E3) in H3.
  apply (rounds_then _ _ _ 99000000000 []); [reflexivity|constructor|vm_compute; exact I|exact H3|]. done.
Qed.

Lemma echo_printed :
  match echo_main kind_kernel demo_libc [str "9000"] echo_ticks tick_idle with Ok (_, out) => out | _ => [] end
  = str "[EWSS INFO] Server initialized on :9000" ++ [10] ++ str "Client #1 connected" ++ [10]
    ++ str "Client #1 sent: hi" ++ [10].
Proof. vm_compute. reflexivity. Qed.

(** The listening socket is 3; the client's is 7. *)
Lemma echo_calls :
  match echo_main kind_kernel demo_libc [str "9000"] echo_ticks tick_idle with
  | Ok (e, _) => opened (calls e) = [3; 7] /\ closed (calls e) = [3]
  | _ => False
  end.
Proof. vm_compute. by split. Qed.

Lemma echo_program_witness :
  exists tr calls,
    echo_main kind_kernel demo_libc [str "9000"] echo_ticks tick_idle
      = Ok (mk_ending (Exited 0) [] calls,
            initialized [] 9000 ++ mjoin ((fun x : Entry Demo.Socket => EchoApp.line x.1.2 x.2) <$> tr))
    /\ opened calls = [3; 7] /\ closed calls = [3] /\ uses_open calls []
    /\ initialized [] 9000 ++ mjoin ((fun x : Entry Demo.Socket => EchoApp.line x.1.2 x.2) <$> tr)
       = str "[EWSS INFO] Server initialized on :9000" ++ [10] ++ str "Client #1 connected" ++ [10]
    ++ str "Client #1 sent: hi" ++ [10].
Proof.
  destruct (echo_program kind_kernel demo_libc [str "9000"] 9000 3 (snd (server_ctor kind_kernel demo_libc 9000 [] [])) echo_ticks tick_idle)
    as (s & ids & tr & calls & E & [Hp _ Hu] & _).
  - vm_compute. reflexivity.
  - vm_compute. reflexivity.
  - reflexivity.
  - repeat constructor; discriminate.
  - exact echo_rounds.
  - exists tr, calls. split; [exact E|]. pose proof echo_printed as Hout. pose proof echo_calls as Hc. rewrite E in Hout, Hc.
    change (opened calls = [3; 7] /\ closed calls = [3]) in Hc. destruct Hc as [Ho Hc]. split; [exact Ho|]. split; [exact Hc|]. split; [exact Hu|exact Hout].
Defined.

(** One client connects; the report says that it is still there. *)
Lemma perf_rounds : rounds_fine ([tick_accept] ++ [interrupt tick_idle]) (started 3 (Perf.callbacks (Sock := Demo.Socket)) perf_tuning).
Proof.
  assert (H1 : after_rounds (fun s => forallb (fits []) (clients s)) [tick_accept] (started 3 Perf.callbacks perf_tuning) = true) by (vm_compute; reflexivity).
  apply (rounds_then _ _ _ 1000000 []); [reflexivity|constructor|vm_compute; exact I|vm_compute; reflexivity|]. intros s1 E1.
  rewrite (after_rounds_step _ _ _ _ _ _ E1) in H1.
  apply (rounds_then _ _ _ 99000000000 []); [reflexivity|constructor|vm_compute; exact I|exact H1|]. done.
Qed.

Lemma perf_program_witness :
  exists r calls,
    perf_main kind_kernel demo_libc [] 0 3500000000 [tick_accept] tick_idle
      = Ok (mk_ending (Exited 0) [] calls, banner 8080 ++ initialized [] 8080 ++ report_text r)
    /\ uses_open calls [] /\ Perf.duration r = 3.
Proof.
  destruct (perf_program kind_kernel demo_libc [] 8080 3 (snd (server_ctor kind_kernel demo_libc 8080 [] [])) 0 3500000000 [tick_accept] tick_idle)
    as (s & ids & tr & r & calls & E & [_ _ Hb] & Hd & _).
  - vm_compute. reflexivity.
  - vm_compute. reflexivity.
  - reflexivity.
  - repeat constructor; discriminate.
  - exact perf_rounds.
  - exists r, calls. split; [exact E|]. split; [exact Hb|exact Hd].
Defined.

(** The broadcast server, whose client completes its handshake and goes. *)
#[local] Instance demo_already : Already := initialized [] 8080.
Abbreviation hub_server := (ServerOf Z (SharedSrv.Application Demo.Socket BroadcastServer.State)).
Definition hub_start : hub_server := serving 3 50.
Definition hub_fits (input : bytes) (s : hub_server) (w : World Demo.Socket BroadcastServer.State) : bool :=
  forallb (fun o => from_option (fun c => fits input (BroadcastServer.installed, c)) true (alive w !! o)) (clients s).

Fixpoint hub_after (p : hub_server -> World Demo.Socket BroadcastServer.State -> bool) (ticks : list (Tick Demo.Socket)) (s : hub_server) w : bool :=
  match ticks with
  | [] => p s w
  | tk :: ticks' => match SharedSrv.run_iter s tk w with Ok ((_, s'), w') => hub_after p ticks' s' w' | _ => false end
  end.

Lemma hub_after_step p tk ticks s w go s' w' :
  SharedSrv.run_iter s tk w = Ok ((go, s'), w') -> hub_after p (tk :: ticks) s w = hub_after p ticks s' w'.
Proof. intros E. cbn [hub_after]. by rewrite E. Qed.

(** A round whose input fits every client. *)
Lemma promised_then tk ticks s w t input :
  (forall i, tk_os tk i = demo_os t input 100) -> bytes_ok input -> no_wrap (rest_of input) -> hub_fits input s w = true ->
  (forall s' w', SharedSrv.run_iter s tk w = Ok ((true, s'), w') -> rounds_promised ticks s' w') -> rounds_promised (tk :: ticks) s w.
Proof.
  intros Htk Hb Hw Hl Hr. split; [|by intros s' w' E _; apply Hr]. split; [|intros i; rewrite Htk; by apply demo_os_bounded].
  intros j o c Hj Ec. exists input. rewrite Htk. unfold hub_fits in Hl. rewrite forallb_forall in Hl.
  specialize (Hl o (proj1 (list_elem_of_In _ _) (list_elem_of_lookup_2 _ _ _ Hj))). rewrite Ec in Hl. cbn [from_option] in Hl.
  apply andb_true_iff in Hl as [Hz Ho]. apply (demo_read_fine _ BroadcastServer.installed t input 100); [done|done|by apply Z.leb_le|].
  intros Eo. cbn [snd] in Ho. rewrite bool_decide_eq_true_2 in Ho by done. apply bool_decide_eq_true in Ho. by rewrite Ho.
Qed.

Lemma hub_rounds : rounds_promised ([tick_accept; tick_request] ++ [interrupt tick_idle]) hub_start nobody.
Proof.
  assert (H1 : hub_after (hub_fits demo_request) [tick_accept] hub_start nobody = true) by (vm_compute; reflexivity).
  assert (H2 : hub_after (hub_fits []) [tick_accept; tick_request] hub_start nobody = true) by (vm_compute; reflexivity).
  apply (promised_then _ _ _ _ 1000000 []); [reflexivity|constructor|vm_compute; exact I|vm_compute; reflexivity|]. intros s1 w1 E1.
  rewrite (hub_after_step _ _ _ _ _ _ _ _ E1) in H1. rewrite (hub_after_step _ _ _ _ _ _ _ _ E1) in H2.
  apply (promised_then _ _ _ _ 2000000 demo_request); [reflexivity|by_decide|vm_compute; done|exact H1|]. intros s2 w2 E2.
  rewrite (hub_after_step _ _ _ _ _ _ _ _ E2) in H2.
  apply (promised_then _ _ _ _ 99000000000 []); [reflexivity|constructor|vm_compute; exact I|exact H2|]. done.
Qed.

Lemma hub_printed :
  match broadcast_main kind_kernel demo_libc [] [tick_accept; tick_request] tick_idle with Ok (_, out) => out | _ => [] end
  = str "[EWSS INFO] Server initialized on :8080" ++ [10] ++ str "Client #1 connected. (1 total)" ++ [10].
Proof. vm_compute. reflexivity. Qed.

Lemma broadcast_program_witness :
  exists h out calls,
    broadcast_main kind_kernel demo_libc [] [tick_accept; tick_request] tick_idle = Ok (mk_ending (Exited 0) [] calls, out)
    /\ uses_open calls [] /\ out = transcript (initialized [] 8080) h
    /\ out = str "[EWSS INFO] Server initialized on :8080" ++ [10] ++ str "Client #1 connected. (1 total)" ++ [10].
Proof.
  destruct (broadcast_program kind_kernel demo_libc demo_env [] 8080 3 (snd (server_ctor kind_kernel demo_libc 8080 [] []))
    [tick_accept; tick_request] tick_idle) as (s & w & h & used & calls & E & [_ _ Hb] & _).
  - reflexivity.
  - reflexivity.
  - vm_compute. reflexivity.
  - reflexivity.
  - repeat constructor; discriminate.
  - exact hub_rounds.
  - pose proof hub_printed as Hout. rewrite E in Hout. exists h, (transcript (initialized [] 8080) h), calls.
    split; [exact E|]. split; [exact Hb|]. split; [reflexivity|exact Hout].
Defined.

(** Port 65616 is port 80, and busy. *)
Lemma programs_report_failure_witness :
  let message := str "Error: Failed to bind port 80: Address already in use" ++ [10] in
  stoi_port [str "65616"] = Some 80 /\ stoi (str "http") = None
  /\ exists tr, balanced tr
    /\ echo_main (Sock := Demo.Socket) busy_port demo_libc [str "65616"] [] tick_idle = Ok (mk_ending (Exited 1) message tr, []).
Proof.
  destruct (programs_report_failure busy_port demo_libc (str "http") [] [str "65616"] 80
    (str "Failed to bind port 80: Address already in use") (snd (server_ctor busy_port demo_libc 80 [] [])) 0 0 [] tick_idle [] 0 (mk_loads 0 0 0 0))
    as (_ & _ & H). split; [vm_compute; reflexivity|]. split; [vm_compute; reflexivity|].
  destruct H as (Hb & He & _); [vm_compute; reflexivity|]. destruct He as [He _]; [vm_compute; reflexivity|].
  exists (snd (server_ctor busy_port demo_libc 80 [] [])). split; [exact Hb|exact He].
Defined.

(** Two clients that exchange one message each; then with a negative size,
    and with a negative number of messages. *)
Definition bench_out (msgs size : Z) : bytes := bench_header 2 msgs size ++ initialized [] 19090.
Definition bench_loads : Loads := mk_loads 0 1 0 1.

Lemma bench_rounds : rounds_fine ([] ++ [stopping (interrupt tick_idle)]) (bench_started (Sock := Demo.Socket) 3).
Proof.
  apply (rounds_then _ _ _ 99000000000 []); [reflexivity|constructor|vm_compute; exact I|vm_compute; reflexivity|]. done.
Qed.

Lemma turns_fair k : Forall (Benchmark.fair 2) (replicate k turn).
Proof. apply Forall_replicate. split; [left|]. intros [|[|c]] Hc; [exists (Some 1500)|exists (Some 2500)|lia]; unfold turn; repeat constructor. Qed.
Lemma turns_connect k : Forall (Forall (fun l => ~ Benchmark.connecting_fails l)) (replicate k turn).
Proof. apply Forall_replicate. repeat constructor; intros []. Qed.

Lemma bench_program_witness :
  let main msgs size schedule elapsed :=
    bench_main (Sock := Demo.Socket) kind_kernel demo_libc [str "2"; msgs; size] schedule elapsed bench_loads [] (interrupt tick_idle) in
  let tr0 := snd (server_ctor kind_kernel demo_libc 19090 [] []) in
  (exists calls stats, main (str "1") (str "64") (mjoin (replicate 21 turn)) 100000
      = Ok (Some (mk_ending (Exited 0) [] calls, bench_out 1 64 ++ demo_report ++ stats)) /\ uses_open calls [])
  /\ main (str "1") (str "-1") [] 0 = Ok (Some (mk_ending Terminated [] tr0, bench_out 1 (-1)))
  /\ main (str "-1") (str "64") (mjoin (replicate 18 turn)) 0 = Ok (Some (mk_ending Terminated [] tr0, bench_out (-1) 64)).
Proof.
  cbv zeta. split_and!.
  - destruct (bench_program (Sock := Demo.Socket) kind_kernel demo_libc [str "2"; str "1"; str "64"] 2 1 64 3
      (snd (server_ctor kind_kernel demo_libc 19090 [] [])) 100000 bench_loads [] (interrupt tick_idle)) as (_ & _ & H);
      [vm_compute; reflexivity|vm_compute; reflexivity|vm_compute; reflexivity|lia|reflexivity|].
    destruct H as [H _]; [lia|lia|lia|]. destruct (H (replicate 21 turn) (conj (turns_fair 21) (turns_connect 21))) as [H1 _]; [vm_compute; discriminate|repeat constructor; discriminate|exact bench_rounds|].
    destruct H1 as (sv & calls & r & report & stats & E & _ & [_ _ Hb] & Er & Ep & _); [vm_compute; split; [discriminate|reflexivity]|].
    exists calls, stats. split; [|exact Hb]. vm_compute in Er. injection Er as <-.
    assert (Hrep : report = demo_report) by (vm_compute in Ep; injection Ep as <-; vm_compute; reflexivity).
    rewrite <- Hrep. exact E.
  - apply (bench_program (Sock := Demo.Socket) kind_kernel demo_libc [str "2"; str "1"; str "-1"] 2 1 (-1) 3);
      [vm_compute; reflexivity|vm_compute; reflexivity|vm_compute; reflexivity|lia|reflexivity|lia].
  - apply (bench_program (Sock := Demo.Socket) kind_kernel demo_libc [str "2"; str "-1"; str "64"] 2 (-1) 64 3);
      [vm_compute; reflexivity|vm_compute; reflexivity|vm_compute; reflexivity|lia|reflexivity|lia|lia|lia| |vm_compute; discriminate].
    exact (conj (turns_fair 18) (turns_connect 18)).
Defined.
